(* ===== verification/_CoqProject ===== *)
-Q . S2P
Prelude.v
GoText.v
Flags.v
GoTime.v
GoRuntime.v
Trace.v
Ports.v
Circuit.v
Keyset.v
Ledger.v
Outbox.v
Stream.v
Pool.v
Fanout.v
Pipeline.v
Consumer.v
Progress.v
ConsumerLoop.v
Verdict.v
PresenceAudit.v
Inventory.v
StallReader.v
Files.v
Workers.v
Restore.v
Sweep.v
Reconcile.v
Manifest.v
Layout.v
RestoreDrill.v
Target.v
FsSink.v
FsTarget.v
S3Sink.v
Bucket.v
EndToEnd.v
System.v
Recovery.v
FileService.v
Metrics.v
Config.v
Repos.v
Grants.v
Env.v
Dsn.v
Harness.v
Corpus.v
Service.v
Surface.v
AuditRun.v
RestoreStore.v
Snapshot.v
Commands.v
CommandLine.v
Lease.v
Wiring.v
Assembly.v
