(* ===== verification/Prelude.v ===== *)
(** * file-backup-service: a verification development

    The service copies every object of a content-addressed file store to several
    targets and proves that they can be restored. An object's name is the hash of
    its bytes ([externalID]). The parts, and how they work together:

    - an outbox in the server's database announces new objects; the consumer claims
      rows, runs the backup pipeline on each and settles the row
      ([src/internal/adapter/inbound/consumer], [src/internal/adapter/outbound/db/outbox.go]);
    - the pipeline ([src/internal/domain/backup.go]) asks the ledger which targets
      already hold the object, skips the ones whose circuit is open, streams the
      source once through a verifying reader to every remaining target, records each
      target's outcome in the ledger and reports done, deferred or failed;
    - the ledger ([src/internal/adapter/outbound/db/ledger.go]) is the record every
      other part trusts: dedup, reconcile, the audits, manifests and drills read it;
    - audits compare the ledger with what the targets hold, in both directions;
      backfill, reconcile, restore and drill sweep the corpus or the ledger
      ([src/internal/domain]);
    - a command line ([src/cmd/file-backup-service/main.go]) maps each outcome to an
      exit code.

    ** The files

    - Prelude.v: this text; Go's machine integers, ordered keys and strictly
      ascending lists, and the tactics shared by all files.
    - GoText.v: what the code uses of Go's [strings], [strconv], [path] and [net/url].
    - Flags.v, GoTime.v: Go's [flag] with [ParseInt] in base 0, and [time.Parse] of an
      RFC 3339 time, as the command line uses them.
    - GoRuntime.v: errors with [errors.Is]/[errors.Join], contexts, panics as values
      ([attempt]), and the scaffolds every concurrent part is built from
      ([RunParallel], [RunAbandonable], [cancelledInFlight]).
    - Trace.v: a monad of programs that perform actions and may fail, with [defer].
    - Ports.v: the values the ports exchange ([ports.go]).
    - Circuit.v: [circuit.go], the per-target breaker, and an abstract window-of-
      outcomes specification it refines.
    - Keyset.v: [keyset.go] and the sampled sweep of [audit.go].
    - Ledger.v: the two ledger tables and the queries of [ledger.go]; the class
      [LedgerIface] is what the pipeline needs of a ledger, and the database is an
      instance.
    - Outbox.v: the outbox table and its transitions ([outbox.go]) as a state machine.
    - Stream.v: readers as scripts of chunks, errors and panics; [VerifyReader]
      ([hash.go]) and the content-hash gate.
    - Pool.v: the pools of zstd coders ([transform.go]), as a heap of objects lent to
      interleaved goroutines.
    - Fanout.v: [fanoutWriter], its pumps and stall timer, and [fanOut]
      ([backup.go]); [obeys] is the contract of a sink.
    - Pipeline.v: [BackupOne]/[backupFrom] ([backup.go]), against the two interfaces.
    - Consumer.v: [process], [settle], [claimStep] and [reap] ([consumer.go]).
    - Progress.v: what a backup achieves when the parts it needs are in order.
    - ConsumerLoop.v: [Run]: workers, listener, poller and reaper around the wake
      channel, as a step relation ([consumer.go]).
    - Verdict.v: the verdict model and the probe engine ([verdict.go]) and the
      immutability check with its gauges ([immutability.go]).
    - PresenceAudit.v: ledger against target ([audit.go]).
    - Inventory.v: target against ledger ([inventory.go]).
    - StallReader.v: the manifest's reader with its abandoned calls, as a machine of
      interleaved goroutines over one heap ([inventory.go]).
    - Files.v: the durable-write spine of [fsutil.go] over a file system with a
      volatile and a durable view and a crash relation.
    - Workers.v: any number of goroutines inside that spine, call by call.
    - Restore.v: the hash-arbitrated decode and the restore of one object
      ([restore.go]).
    - Sweep.v: the bounded, paced sweep and the counting of backfill, restore-all and
      drill ([backfill.go], [restore.go], [drill.go]).
    - Reconcile.v: the repair of under-replicated objects from their holders, with the
      staged source and its scratch file ([reconcile.go]).
    - RestoreDrill.v: the drill with its sampled sweep of the ledger, each object's
      restore and the scratch directory ([drill.go], [audit.go]).
    - Manifest.v: manifest names, the choice of the newest manifest and the snapshot
      ([fsutil.go], [manifest.go]).
    - Layout.v: the keys of a target and the pointer to its newest manifest
      ([fsutil.go]).
    - Target.v: the abstract target, a map from hashes to blobs with a list of
      manifests, that both sinks implement.
    - FsSink.v, FsTarget.v: the filesystem sink ([filesystem.go]); it discharges
      [obeys] and refines the abstract target.
    - S3Sink.v, Bucket.v: the s3 sink ([s3.go]) over an object-store client, and the
      same refinement over a bucket.
    - EndToEnd.v: an object recorded by a backup restores.
    - System.v: the whole service, any number of processes over one outbox, one ledger
      and the targets, as a machine whose steps are the phases of Pipeline.v and the
      statements of Outbox.v and Ledger.v, with crashes and late commits between them.
    - Recovery.v: from every state of that machine an open row can still be done.
    - FileService.v: the source client ([fileservice/client.go]).
    - Metrics.v: the registry, the counters and the drill textfile ([metrics.go]).
    - Config.v: defaults, limits, the target set ([config.go]).
    - Repos.v: the generated ledger queries and the repository around them
      ([ledger.sql.go], [ledger.go], [db.go]): bounds, errors, conversions.
    - Grants.v: the startup probes against the role's grants ([outbox.go],
      [files.go]).
    - Env.v: the environment overlay, [Load] and [BuildSink] ([config.go]).
    - Dsn.v: the connection string and a reader of it ([config.go]).
    - Harness.v: the throwaway database of the integration tests ([testsupport/pg]).
    - Corpus.v: the server's file table ([files.go]) and the guard of
      [restore current].
    - Service.v: ticks, samplers, readiness, startup and exit codes ([tick.go],
      [sampler.go], [health.go], [main.go]).
    - Surface.v: the HTTP routes ([router.go], [health.go]) and the migration step
      ([migrate.go]).
    - AuditRun.v: both directions of an audit over all targets, to the exit code
      ([audit.go], [inventory.go], [main.go]).
    - RestoreStore.v: the restore of the whole store, from the ledger's pages to the
      files on disk and the exit code ([restore.go], [main.go]).
    - Snapshot.v: writing the manifests ([manifest.go], [transform.go], [main.go]).
    - Commands.v: every command from its parsed flags to its sweep, as a trace of
      actions: what it opens, prints, bounds and releases ([main.go]).
    - CommandLine.v: from [os.Args] to the exit code: the flag sets, the dispatch and
      the commands they start ([main.go]).
    - Lease.v: the consumer's settings, deadlines and contexts ([consumer.go],
      [backup.go]).
    - Wiring.v: the pipeline built from a configuration, and the records it can make
      ([main.go], [backup.go]).
    - Assembly.v: the parts [serve] and [backfill] are made of, the connection pool and
      the metrics handler ([main.go], [db.go], [metrics.go]).

    ** How the code is read

    An [int] is a [Z], with [wrap64] written out where arithmetic could leave 64
    bits; a byte string is a list of bytes and a name a [string]; a Go map is a
    [gmap], a slice a list. A nil error is [None]. A call that can panic returns an
    [attempt]. State is passed explicitly. What the environment decides (a clock
    reading, an operating-system error, the arm a select takes, the order in which
    goroutines finish, what a context's [Err] reads at a given point) is an argument,
    and the theorems quantify over it; a mutex makes a call one step.

    Code outside the repository is a parameter: the digest is a function on bytes,
    and no theorem assumes it free of collisions (the round trips say which collision
    would have to occur); the zstd codec is a pair of classes, [Fanout.Zstd] and
    [Restore.Decoder], whose laws [Restore.ZstdLaws] say that a frame begins with the
    magic and decodes to its plaintext in any chunking, with a concrete instance in
    Restore.v, and a pooled coder is an object that after [Reset] behaves like a new
    one (Pool.v); chi is the class [Surface.Chi] with the laws of [Get], [Use] and the
    Recoverer, and golang-migrate its [Up]; a sink is a program that reads its stream, with the contract [obeys],
    which both sinks are proved to keep; the object-store client is [S3Sink.api] and
    two uploads with the laws [S3Sink.PutLaws], and Bucket.v is an instance; HTTP is
    a function from a URL to a status and a body; the Prometheus text format is the
    class [Metrics.Expfmt] with its laws and an instance; YAML decoding and file
    reading are arguments of [Env.Load]; PostgreSQL is the table models, with
    every statement atomic, and its driver a server whose answers may fail at any
    point ([Repos.server], with the law [Repos.speaks_for]). The calls of pgxpool,
    zap, uuid, promhttp and testcontainers are arguments, given by their answers. Go's
    own [flag], [strconv] and [time] are not: they are written out.

    Loops are structural, or take fuel. Fuel is never part of a conclusion: the
    parse of a command line takes as many steps as there are arguments, which is
    enough ([parse_total]); the
    termination theorems ([fanOut_returns], [KeysetLoop_enumerates],
    [full_audit_exact], [decode_roundtrip], [backfill_covers_corpus]) give an
    explicit bound, or one that exists, above which the result is the stated one; the
    drill and the restore of the store bound their sweep of the ledger likewise, and
    assume of each object's restore that it ends, as the code's deadline sees to. The
    goroutines of the consumer have no fuel: their theorems are about every
    execution, and [shutdown_terminates] bounds the drain by a measure.

    ** What the theorems show

    - The whole service keeps its promise: in every interleaving of workers, backfills,
      repairs, reaps and crashes, what the ledger records is held, what is held
      restores, and a done row is held by every target
      ([done_rows_restore_everywhere]); and no execution strands an object, since an
      open row can always still be brought to done ([no_object_is_stuck]).
    - What can be done is done: a target that works is served whatever the others do, an
      object none of whose targets is in trouble is done, one good holder suffices for
      a repair ([healthy_target_is_stored], [healthy_object_is_done],
      [one_good_holder_suffices]).
    - Nothing unverified is stored: the fan-out commits on a target only if the whole
      source hashed to its name, so a corrupt source stores nothing
      ([verify_then_commit], [corrupt_source_stores_nothing]).
    - Nothing is claimed that was not done: done means stored on every target,
      recorded means committed, a done outbox row is backed up, deferred means a
      target is down ([done_means_stored], [recorded_means_committed],
      [done_row_is_backed_up], [deferred_means_down]).
    - What is recorded restores ([recorded_object_restores], [decode_roundtrip],
      [restored_file_is_verified]), through a write path no crash can tear
      ([commit_atomic_durable]), also with any number of writers interleaved call by call
      ([workers_commit_atomically]); and a restore of the whole store that exits 0 without
      having been interrupted has every recorded object back on disk
      ([restore_all_recovers_the_store]).
    - A target keeps what it was given: both sinks implement the abstract target
      operation by operation, their contract is the one the pipeline relies on, the
      keys of a target stay inside it and never collide, an absent object is reported
      only of a bucket that is there, and a manifest is whole or absent
      ([bucket_refines_target], [filesystem_refines_target], [s3_store_obeys],
      [target_layout_is_contained], [s3_absent_needs_a_present_bucket],
      [manifest_is_whole_or_absent]).
    - The consumer's concurrency is sound: no wake-up is lost, a drained consumer holds
      no row, the drain ends ([no_lost_wakeup], [drained_consumer_holds_nothing],
      [shutdown_terminates]), and a row is skipped only when the source said its object
      is gone ([skipped_row_was_gone]). A claim answered promptly whose worker keeps its deadlines is never
      reaped under it ([live_claim_is_not_reaped]).
    - The tables keep their invariants: terminal rows stay, records are not
      downgraded, a claim is exclusive, a stuck claim is recovered, the gap queries
      are exact ([terminal_absorbing], [RecordBackup_spec], [TargetGaps_exact], ...).
    - The checks are honest: verdicts are exact over a stable ledger, no target
      passes silently, an exit code of 0 of an audit or a drill means what it says,
      a green drill has restored its sample and left no file behind, and a shutdown
      hides no failure ([full_audit_exact], [inventory_exact], [no_silent_pass],
      [clean_audit_means_agreement], [green_drill_restored_its_sample],
      [drill_exit_zero_means_restored], [shutdown_hides_no_failure]). A wedged target
      cannot hang or corrupt the inventory audit: its reader is freed exactly once and
      a late read writes nothing it was not lent ([manifest_reader_freed_once],
      [late_read_stays_private]).
    - The database adapters are honest: a read of the ledger is exact or fails, within
      its bound, and the startup probes cover every statement on the server's tables
      ([ledger_reads_exact_or_fail], [startup_checks_cover_statements]).
    - Sweeps cover what they should: keyset enumeration, the backfill's corpus, a
      reconcile repair ([KeysetLoop_enumerates], [backfill_covers_corpus],
      [repaired_means_replicated]).
    - Sharing is invisible: a goroutine that borrows a pooled coder computes what it
      would with a new one ([pooled_encoders_are_private],
      [pooled_decoders_are_private]).
    - A validated configuration has none of the overflows and orderings the code
      warns of, and the pipeline built from it only makes records the schema accepts
      ([validated_limits_are_safe], [validated_targets_are_distinct],
      [records_fit_the_schema]); the environment wins over the file, is refused when
      malformed, and cannot leak between targets; the connection string says what the
      configuration says ([load_exact], [one_variable_one_target], [DSN_roundtrip]).
    - A command line means what it says: every request is read back from its rendering,
      a line that is refused does nothing, and [restore current] takes the version in
      effect at the given time ([command_line_roundtrip], [only_accepted_lines_act],
      [restore_current_is_in_effect]).
    - The process releases what it acquires, bounds what it runs, and the worker
      claims rows exactly when it is ready ([process_releases_everything],
      [process_is_bounded], [serve_works_exactly_when_ready]). Its parts agree on the
      targets and the limits, its pool has the configured sizes, and a scrape shows the
      current counters ([parts_agree], [pool_settings_exact], [scrape_is_current]). The
      test harness has the columns the statements need ([provisioned_tables_fit]).
      Liveness and
      readiness answer what they should and the migration step can be repeated
      ([surface_is_exact], [migrate_is_idempotent]).

    Five theorems state behaviour the code does not intend:
    [temp_write_error_reads_as_corruption] in Restore.v,
    [duplicate_manifest_id_reads_as_drift] in Inventory.v, [late_claim_is_reaped] in
    Lease.v, [flags_after_a_word] in CommandLine.v and [Start_leaves_behind] in
    Harness.v.

    ** Not modelled

    JSON and YAML encoding, the exposition format of metrics over HTTP, the text of the
    log, the usage text of [flag], the SQL of the migrations beyond the constraints it
    puts on the tables, and the accessors of the generated query package. Real time is
    not modelled beyond the values that are read: a deadline bounds a call because the
    call obeys its context, which is a hypothesis where it is used. *)

From Stdlib Require Import ZArith Lia Sorting.Sorted.
From stdpp Require Import base gmap strings list sorting numbers.

#[global] Set Default Goal Selector "!".

(** ** Scope, hints and tactics *)

Declare Scope fbs_scope.
Delimit Scope fbs_scope with fbs.
Open Scope fbs_scope.

Create HintDb fbs.

(** Case analysis on every [if]/[match] of the goal, closing the easy cases. *)
Ltac crush_match :=
  repeat (case_match; simplify_eq/=); try done; eauto with fbs.

(** Turn boolean comparisons into propositions. *)
Ltac to_prop :=
  repeat match goal with
  | H : _ && _ = true |- _ => apply andb_true_iff in H as [? ?]
  | H : _ || _ = false |- _ => apply orb_false_iff in H as [? ?]
  | H : negb _ = true |- _ => apply negb_true_iff in H
  | H : negb _ = false |- _ => apply negb_false_iff in H
  | H : (_ <? _)%Z = true |- _ => apply Z.ltb_lt in H
  | H : (_ <? _)%Z = false |- _ => apply Z.ltb_ge in H
  | H : (_ <=? _)%Z = true |- _ => apply Z.leb_le in H
  | H : (_ <=? _)%Z = false |- _ => apply Z.leb_gt in H
  | H : (_ >? _)%Z = true |- _ => apply Z.gtb_lt in H
  | H : (_ >? _)%Z = false |- _ => rewrite Z.gtb_ltb in H; apply Z.ltb_ge in H
  | H : (_ >=? _)%Z = true |- _ => apply Z.geb_le in H
  | H : (_ >=? _)%Z = false |- _ => rewrite Z.geb_leb in H; apply Z.leb_gt in H
  | H : (_ =? _)%Z = true |- _ => apply Z.eqb_eq in H
  | H : (_ =? _)%Z = false |- _ => apply Z.eqb_neq in H
  | H : (_ <? _)%nat = true |- _ => apply Nat.ltb_lt in H
  | H : (_ <? _)%nat = false |- _ => apply Nat.ltb_ge in H
  | H : (_ <=? _)%nat = true |- _ => apply Nat.leb_le in H
  | H : (_ <=? _)%nat = false |- _ => apply Nat.leb_gt in H
  | H : (_ =? _)%nat = true |- _ => apply Nat.eqb_eq in H
  | H : (_ =? _)%nat = false |- _ => apply Nat.eqb_neq in H
  | H : bool_decide _ = true |- _ => apply bool_decide_eq_true_1 in H
  | H : bool_decide _ = false |- _ => apply bool_decide_eq_false_1 in H
  end.

(** ** Go machine integers

    Go's [int] and [int64] are 64-bit two's complement here; arithmetic that
    can overflow is written with [wrap64]. *)

Definition max_int64 : Z := 2 ^ 63 - 1.
Definition min_int64 : Z := - 2 ^ 63.
Definition wrap64 (z : Z) : Z := ((z + 2 ^ 63) mod 2 ^ 64 - 2 ^ 63)%Z.

Lemma wrap64_small z : (min_int64 ≤ z ≤ max_int64)%Z → wrap64 z = z.
Proof.
  unfold min_int64, max_int64, wrap64. intros ?.
  rewrite Z.mod_small; lia.
Qed.

Lemma wrap64_range z : (min_int64 ≤ wrap64 z ≤ max_int64)%Z.
Proof.
  unfold min_int64, max_int64, wrap64.
  pose proof (Z.mod_pos_bound (z + 2 ^ 63) (2 ^ 64)). lia.
Qed.

(** ** Ordered keys

    The keyset sweeps are generic over the key: a content hash compared by
    Go's byte order, or a uuid. What they need of it is a decidable strict
    total order. *)

Class KeyOrd (K : Type) := {
  klt : K → K → bool;
  klt_irrefl : ∀ a, klt a a = false;
  klt_trans : ∀ a b c, klt a b = true → klt b c = true → klt a c = true;
  klt_total : ∀ a b, klt a b = true ∨ a = b ∨ klt b a = true;
}.

Infix "<ₖ" := klt (at level 60, no associativity) : fbs_scope.

Definition str_ltb (a b : string) : bool := String.ltb a b.

Lemma str_ltb_leb a b : str_ltb a b = negb (String.leb b a).
Proof.
  unfold str_ltb, String.ltb, String.leb.
  rewrite (String.compare_antisym b a). by destruct (String.compare a b).
Qed.

Lemma str_ltb_le a b : str_ltb a b = true ↔ String.le a b ∧ a ≠ b.
Proof.
  rewrite str_ltb_leb. unfold String.le. split.
  - intros H. apply negb_true_iff in H. split.
    + destruct (String.leb_total a b) as [->|]; [done|congruence].
    + intros ->. assert (String.le b b) by reflexivity.
      unfold String.le in *. by rewrite H in *.
  - intros [Hle Hne]. apply negb_true_iff.
    destruct (String.leb b a) eqn:E; [|done]. exfalso. apply Hne.
    apply (anti_symm String.le); unfold String.le; [done|by rewrite E].
Qed.

#[global, program] Instance string_KeyOrd : KeyOrd string := {| klt := str_ltb |}.
Next Obligation.
  intros a. destruct (str_ltb a a) eqn:E; [|done].
  by apply str_ltb_le in E as [_ ?].
Qed.
Next Obligation.
  intros a b c [??]%str_ltb_le [??]%str_ltb_le. apply str_ltb_le. split.
  - by trans b.
  - intros ->. assert (b = c); [|done]. by apply (anti_symm String.le).
Qed.
Next Obligation.
  intros a b. destruct (decide (a = b)) as [|Hne]; [by right; left|].
  destruct (total String.le a b); [left|right; right]; apply str_ltb_le; done.
Qed.

#[global, program] Instance N_KeyOrd : KeyOrd N := {| klt := N.ltb |}.
Next Obligation. intros a. apply N.ltb_irrefl. Qed.
Next Obligation. intros a b c ?%N.ltb_lt ?%N.ltb_lt. apply N.ltb_lt. lia. Qed.
Next Obligation.
  intros a b. destruct (N.lt_trichotomy a b) as [H|[H|H]].
  - left. by apply N.ltb_lt.
  - by right; left.
  - right; right. by apply N.ltb_lt.
Qed.

(** ** Strictly ascending lists *)

Section ascending.
Context {K : Type} `{KeyOrd K}.
Implicit Types (l : list K) (a b c k : K).

Definition ascending l : Prop := StronglySorted (λ a b, a <ₖ b = true) l.

Lemma klt_asym a b : a <ₖ b = true → b <ₖ a = false.
Proof.
  intros Hab. destruct (b <ₖ a) eqn:E; [|done].
  pose proof (klt_trans _ _ _ Hab E) as Haa. by rewrite klt_irrefl in Haa.
Qed.

Lemma klt_not_eq a b : a <ₖ b = true → a ≠ b.
Proof. intros Hab ->. by rewrite klt_irrefl in Hab. Qed.

Lemma klt_ge_trans a b c : b <ₖ a = false → b <ₖ c = true → a <ₖ c = true ∨ a = b ∧ a <ₖ c = true.
Proof.
  intros Hba Hbc. destruct (klt_total a b) as [Hab|[->|Hab]].
  - left. by eapply klt_trans.
  - by right.
  - congruence.
Qed.

Lemma ascending_cons a l : ascending (a :: l) ↔ ascending l ∧ Forall (λ b, a <ₖ b = true) l.
Proof.
  unfold ascending. split.
  - intros Hs. by inversion Hs.
  - intros [??]. by constructor.
Qed.

Lemma ascending_nil : ascending [].
Proof. constructor. Qed.

Lemma ascending_app l1 l2 :
  ascending (l1 ++ l2) ↔
  ascending l1 ∧ ascending l2 ∧ (∀ a b, a ∈ l1 → b ∈ l2 → a <ₖ b = true).
Proof.
  induction l1 as [|x l1 IH]; simpl.
  - split; [|by intros (_&?&_)].
    intros ?. split_and!; [apply ascending_nil|done|].
    intros a b Ha. by apply not_elem_of_nil in Ha.
  - rewrite !ascending_cons, IH, Forall_app, !list.Forall_forall. split.
    + intros ((?&?&Hx)&Hx1&Hx2). split_and!; [done..|].
      intros a b [->|Ha]%elem_of_cons Hb; [by apply Hx2|by apply Hx].
    + intros ((?&Hx1)&?&Hx). split_and!; [done|done| |done|].
      * intros a b ? ?; apply Hx; [by right|done].
      * intros b ?; apply Hx; [by left|done].
Qed.

Lemma ascending_NoDup l : ascending l → NoDup l.
Proof.
  induction l as [|a l IH]; [constructor|].
  rewrite ascending_cons. intros [? Hall]. constructor; [|by apply IH].
  intros Hin. rewrite list.Forall_forall in Hall. specialize (Hall _ Hin).
  by rewrite klt_irrefl in Hall.
Qed.

Lemma ascending_last_max l a b :
  ascending l → list.last l = Some a → b ∈ l → a = b ∨ b <ₖ a = true.
Proof.
  intros Hasc Hlast Hin. apply last_Some in Hlast as [l' ->].
  apply ascending_app in Hasc as (_&_&Hlt).
  apply elem_of_app in Hin as [?|?%list_elem_of_singleton]; [right|by left].
  apply Hlt; [done|by left].
Qed.

(** Two strictly ascending lists with the same members are equal. *)
Lemma ascending_ext l1 l2 :
  ascending l1 → ascending l2 → (∀ k, k ∈ l1 ↔ k ∈ l2) → l1 = l2.
Proof.
  revert l2. induction l1 as [|a l1 IH]; intros [|b l2] H1 H2 Hext.
  - done.
  - exfalso. by eapply not_elem_of_nil, Hext; left.
  - exfalso. by eapply not_elem_of_nil, Hext; left.
  - apply ascending_cons in H1 as [H1 Ha], H2 as [H2 Hb].
    rewrite list.Forall_forall in Ha, Hb.
    assert (a = b) as ->.
    { pose proof (proj1 (Hext a) ltac:(by left)) as Hin.
      pose proof (proj2 (Hext b) ltac:(by left)) as Hin'.
      apply elem_of_cons in Hin as [|Hin], Hin' as [|Hin']; [done..|].
      pose proof (klt_asym _ _ (Ha _ Hin')) as Hba. by rewrite (Hb _ Hin) in Hba. }
    f_equal. apply IH; [done..|]. intros k. specialize (Hext k).
    rewrite !elem_of_cons in Hext. split; intros Hk.
    + destruct (proj1 Hext (or_intror Hk)) as [->|]; [|done].
      specialize (Ha _ Hk). by rewrite klt_irrefl in Ha.
    + destruct (proj2 Hext (or_intror Hk)) as [->|]; [|done].
      specialize (Hb _ Hk). by rewrite klt_irrefl in Hb.
Qed.
End ascending.

(** ** Lists *)

Lemma sublist_Forall {A} (P : A → Prop) l k : l `sublist_of` k → Forall P k → Forall P l.
Proof.
  intros Hs. rewrite !list.Forall_forall. intros Hk x Hx. apply Hk.
  eapply elem_of_submseteq; [exact Hx|by apply sublist_submseteq].
Qed.

(** What an update adds to a sum, by which the measures of concurrent goroutines fall. *)
Lemma sum_insert {A} (f : A → nat) (l : list A) k x y : l !! k = Some x →
  sum_list (f <$> <[k := y]> l) + f x = sum_list (f <$> l) + f y.
Proof.
  revert k. induction l as [|z l IH]; intros [|k] Hk; simplify_eq/=; [lia|].
  specialize (IH _ Hk). lia.
Qed.
