(* ===== verification/GoText.v ===== *)
(** * Go's string, path and URL functions

    What the service uses of the standard library's [strings], [strconv],
    [path] and [net/url] packages, as functions on byte strings: [Split],
    [TrimSpace], [TrimRight], [EqualFold]; [Atoi], [ParseBool], [Itoa];
    [path.Clean], [Join] and [Base]; percent-encoding in the modes of
    [url.URL.String] and its inverse.

    A Go string is a sequence of bytes and so is a [string]. A path is analysed
    by its components: [Clean] is the rendering of the components that remain
    after the empty ones, the dots and the dot-dots are resolved. *)

From S2P Require Import Prelude.
From Stdlib Require Import ZArith Lia.
From Stdlib Require Import Strings.Ascii Strings.String.
From Stdlib Require Import Numbers.DecimalString Numbers.DecimalZ.
From stdpp Require Import base strings list numbers.

Module GoText.

(** ** Strings *)

Lemma length_append a b : String.length (a +:+ b) = String.length a + String.length b.
Proof. induction a as [|c a IH]; [done|]. exact (f_equal S IH). Qed.

Lemma append_assoc a b c : (a +:+ b) +:+ c = a +:+ (b +:+ c).
Proof. induction a as [|x a IH]; [done|]. exact (f_equal (String x) IH). Qed.

Lemma append_nil_r a : a +:+ "" = a.
Proof. induction a as [|x a IH]; [done|]. exact (f_equal (String x) IH). Qed.

Lemma append_cons c a b : String c a +:+ b = String c (a +:+ b).
Proof. done. Qed.

Lemma append_inj_r a b c : a +:+ b = a +:+ c → b = c.
Proof. induction a as [|x a IH]; [done|]. rewrite !append_cons. intros [= H]. by apply IH. Qed.

Fixpoint all_chars (f : ascii → bool) (s : string) : bool :=
  match s with EmptyString => true | String c s => f c && all_chars f s end.

Lemma all_chars_app f a b : all_chars f (a +:+ b) = all_chars f a && all_chars f b.
Proof. induction a as [|c a IH]; [done|]. rewrite append_cons. cbn [all_chars]. by rewrite IH, andb_assoc. Qed.

Lemma all_chars_impl (f g : ascii → bool) s : (∀ c, f c = true → g c = true) → all_chars f s = true → all_chars g s = true.
Proof. intros Hfg. induction s as [|c s IH]; [done|]. cbn. rewrite !andb_true_iff. intros [? ?]. auto. Qed.

Definition isnt (c : ascii) : ascii → bool := λ c', negb (bool_decide (c' = c)).

Lemma isnt_true c c' : isnt c c' = true ↔ c' ≠ c.
Proof. unfold isnt. by rewrite negb_true_iff, bool_decide_eq_false. Qed.

(** [strings.Split(s, sep)] for a one-byte separator. *)
Fixpoint Split (sep : ascii) (s : string) : list string :=
  match s with
  | EmptyString => [""]
  | String c s =>
      if bool_decide (c = sep) then "" :: Split sep s
      else match Split sep s with
           | [] => [String c ""]
           | w :: ws => String c w :: ws
           end
  end.

(** [strings.Join(l, sep)]. *)
Fixpoint join (sep : string) (l : list string) : string :=
  match l with
  | [] => ""
  | [w] => w
  | w :: l => w +:+ sep +:+ join sep l
  end.

Lemma join_cons sep w l : l ≠ [] → join sep (w :: l) = w +:+ sep +:+ join sep l.
Proof. by destruct l. Qed.

Lemma join_app sep a b : a ≠ [] → b ≠ [] → join sep (a ++ b) = join sep a +:+ sep +:+ join sep b.
Proof.
  intros Ha Hb. induction a as [|w a IH]; [done|]. destruct a as [|w' a].
  - simpl app. by rewrite join_cons.
  - change ((w :: w' :: a) ++ b) with (w :: (w' :: a) ++ b).
    rewrite join_cons by done. rewrite IH by done. rewrite (join_cons sep w) by done. by rewrite !append_assoc.
Qed.

Lemma Split_none sep s : all_chars (isnt sep) s = true → Split sep s = [s].
Proof.
  induction s as [|c s IH]; [done|]. cbn [all_chars Split]. rewrite andb_true_iff, isnt_true. intros [Hc Hs].
  rewrite bool_decide_eq_false_2 by done. by rewrite IH.
Qed.

Lemma Split_app sep w s : all_chars (isnt sep) w = true → Split sep (w +:+ String sep s) = w :: Split sep s.
Proof.
  induction w as [|c w IH]; intros Hw; rewrite ?append_cons; cbn [Split all_chars] in *.
  { change ("" +:+ String sep s) with (String sep s). cbn [Split]. by rewrite bool_decide_eq_true_2. }
  apply andb_true_iff in Hw as [Hc Hw]. apply isnt_true in Hc. rewrite bool_decide_eq_false_2 by done. by rewrite IH.
Qed.

Lemma Split_join sep l : l ≠ [] → Forall (λ w, all_chars (isnt sep) w = true) l → Split sep (join (String sep "") l) = l.
Proof.
  intros Hne Hl. induction Hl as [|w l Hw Hl IH]; [done|]. destruct l as [|w' l]; [by apply Split_none|].
  rewrite join_cons by done. change (String sep "" +:+ join (String sep "") (w' :: l)) with (String sep (join (String sep "") (w' :: l))).
  rewrite Split_app by done. by rewrite IH.
Qed.

Lemma Split_append sep a b : Split sep (a +:+ String sep b) = Split sep a ++ Split sep b.
Proof.
  induction a as [|c a IH]; rewrite ?append_cons; cbn [Split].
  { change ("" +:+ String sep b) with (String sep b). cbn [Split]. by rewrite bool_decide_eq_true_2. }
  case_bool_decide; rewrite IH; [done|]. destruct (Split sep a) as [|w ws] eqn:Ea; [|done].
  exfalso. destruct a as [|c' a]; [done|]. cbn in Ea. case_bool_decide; [done|]. by destruct (Split sep a).
Qed.

Lemma Split_ne sep s : Split sep s ≠ [].
Proof. destruct s as [|c s]; cbn; [done|]. case_bool_decide; [done|]. by destruct (Split sep s). Qed.

Lemma join_Split sep s : join (String sep "") (Split sep s) = s.
Proof.
  induction s as [|c s IH]; [done|]. cbn [Split]. case_bool_decide as Hc.
  - subst. rewrite join_cons by apply Split_ne. by rewrite IH.
  - destruct (Split sep s) as [|w ws] eqn:E; [by apply Split_ne in E|]. rewrite <- IH. by destruct ws.
Qed.

(** The text after the last separator determines the text before it. *)
Lemma last_sep_inj sep a b f g : all_chars (isnt sep) f = true → all_chars (isnt sep) g = true →
  a +:+ String sep f = b +:+ String sep g → a = b.
Proof.
  intros Hf Hg H. apply (f_equal (Split sep)) in H. rewrite !Split_append, (Split_none sep f), (Split_none sep g) in H by done.
  apply app_inj_tail in H as [H _]. by rewrite <- (join_Split sep a), <- (join_Split sep b), H.
Qed.

(** The text before the first occurrence of [sep] and the text after it
    ([strings.Cut]). *)
Fixpoint Cut (sep : ascii) (s : string) : option (string * string) :=
  match s with
  | EmptyString => None
  | String c s =>
      if bool_decide (c = sep) then Some ("", s)
      else match Cut sep s with Some (a, b) => Some (String c a, b) | None => None end
  end.

Lemma Cut_app sep a b : all_chars (isnt sep) a = true → Cut sep (a +:+ String sep b) = Some (a, b).
Proof.
  induction a as [|c a IH]; intros Ha; rewrite ?append_cons; cbn [Cut all_chars] in *.
  { change ("" +:+ String sep b) with (String sep b). cbn [Cut]. by rewrite bool_decide_eq_true_2. }
  apply andb_true_iff in Ha as [Hc Ha]. apply isnt_true in Hc. by rewrite bool_decide_eq_false_2, IH.
Qed.

Lemma Cut_none sep s : all_chars (isnt sep) s = true → Cut sep s = None.
Proof.
  induction s as [|c s IH]; [done|]. cbn. rewrite andb_true_iff, isnt_true. intros [Hc Hs].
  by rewrite bool_decide_eq_false_2, IH.
Qed.

(** [strings.TrimRight(s, string(c))]. *)
Fixpoint TrimRight (c : ascii) (s : string) : string :=
  match s with
  | EmptyString => ""
  | String x s =>
      match TrimRight c s with
      | EmptyString => if bool_decide (x = c) then "" else String x ""
      | t => String x t
      end
  end.

(** [strings.TrimLeft] of every byte a predicate holds of. *)
Fixpoint trim_left (p : ascii → bool) (s : string) : string :=
  match s with EmptyString => "" | String c s' => if p c then trim_left p s' else s end.

(** The Unicode white space ([unicode.IsSpace]) in UTF-8. *)
Definition bytes_of (l : list N) : string := string_of_list_ascii (ascii_of_N <$> l).

Definition spaces : list string :=
  bytes_of <$> ([[9]; [10]; [11]; [12]; [13]; [32]; [194; 133]; [194; 160]; [225; 154; 128];
   [226; 128; 128]; [226; 128; 129]; [226; 128; 130]; [226; 128; 131]; [226; 128; 132]; [226; 128; 133];
   [226; 128; 134]; [226; 128; 135]; [226; 128; 136]; [226; 128; 137]; [226; 128; 138];
   [226; 128; 168]; [226; 128; 169]; [226; 128; 175]; [226; 129; 159]; [227; 128; 128]])%N.

Fixpoint strip (p s : string) : option string :=
  match p, s with
  | EmptyString, _ => Some s
  | String a p, String b s => if bool_decide (a = b) then strip p s else None
  | String _ _, EmptyString => None
  end.

Lemma strip_app p s : strip p (p +:+ s) = Some s.
Proof. induction p as [|c p IH]; [done|]. rewrite append_cons. cbn. by rewrite bool_decide_eq_true_2. Qed.

Definition first_strip (ps : list string) (s : string) : option string := head (omap (λ p, strip p s) ps).

(** Strip prefixes while there is one; each is a byte at least. *)
Fixpoint strip_all (fuel : nat) (ps : list string) (s : string) : string :=
  match fuel with
  | O => s
  | S fuel => match first_strip ps s with Some s' => strip_all fuel ps s' | None => s end
  end.

Definition reverse (s : string) : string := string_of_list_ascii (rev (list_ascii_of_string s)).

(** [strings.TrimSpace]. *)
Definition TrimSpace (s : string) : string :=
  let l := strip_all (String.length s) spaces s in
  reverse (strip_all (String.length l) (reverse <$> spaces) (reverse l)).

(** A byte that neither begins nor ends a white-space character. *)
Definition solid (c : ascii) : bool := (33 <=? N_of_ascii c)%N && (N_of_ascii c <=? 126)%N.

Lemma strip_solid p c s : p ∈ spaces ∨ p ∈ reverse <$> spaces → solid c = true → strip p (String c s) = None.
Proof.
  intros Hp Hc. assert (∃ a q, p = String a q ∧ solid a = false) as (a & q & -> & Ha).
  { destruct Hp as [Hp|Hp]; repeat (apply elem_of_cons in Hp as [->|Hp]; [by eexists _, _|]); by apply not_elem_of_nil in Hp. }
  cbn. rewrite bool_decide_eq_false_2; [done|]. intros ->. congruence.
Qed.

Lemma first_strip_solid ps c s : (∀ p, p ∈ ps → strip p (String c s) = None) → first_strip ps (String c s) = None.
Proof.
  unfold first_strip. intros Hps. assert (omap (λ p, strip p (String c s)) ps = []) as ->; [|done].
  induction ps as [|p ps IH]; [done|]. cbn. rewrite (Hps p) by left. apply IH. intros q Hq. apply Hps. by right.
Qed.

Lemma strip_all_solid fuel ps c s : (∀ p, p ∈ ps → p ∈ spaces ∨ p ∈ reverse <$> spaces) → solid c = true →
  strip_all fuel ps (String c s) = String c s.
Proof.
  intros Hps Hc. destruct fuel as [|fuel]; [done|]. cbn [strip_all]. rewrite first_strip_solid; [done|].
  intros p Hp. by apply strip_solid; [apply Hps|].
Qed.

Lemma reverse_involutive s : reverse (reverse s) = s.
Proof. unfold reverse. by rewrite list_ascii_of_string_of_list_ascii, rev_involutive, string_of_list_ascii_of_string. Qed.

Lemma reverse_snoc s c : reverse (s +:+ String c "") = String c (reverse s).
Proof.
  unfold reverse. assert (list_ascii_of_string (s +:+ String c "") = list_ascii_of_string s ++ [c]) as ->.
  { induction s as [|x s IH]; [done|]. rewrite append_cons. cbn. by rewrite IH. }
  by rewrite rev_app_distr.
Qed.

(** Text that starts and ends with printing ASCII is left as it is. *)
Lemma TrimSpace_solid c s d : solid c = true → solid d = true → TrimSpace (String c (s +:+ String d "")) = String c (s +:+ String d "").
Proof.
  intros Hc Hd. unfold TrimSpace. rewrite strip_all_solid by (first [done|by left]).
  change (String c (s +:+ String d "")) with (String c s +:+ String d "").
  rewrite reverse_snoc, strip_all_solid, <- (reverse_snoc (String c s)) by (first [done|by right]). apply reverse_involutive.
Qed.

Definition lower (c : ascii) : ascii :=
  let n := N_of_ascii c in if (65 <=? n)%N && (n <=? 90)%N then ascii_of_N (n + 32) else c.

Fixpoint ToLower (s : string) : string :=
  match s with EmptyString => "" | String c s => String (lower c) (ToLower s) end.

(** [strings.EqualFold] against a text of ASCII letters other than k and s,
    which no other rune folds to. *)
Definition EqualFold (s t : string) : bool := bool_decide (ToLower s = ToLower t).

(** ** Numbers *)

Definition int64_of (z : Z) : option Z := if (min_int64 <=? z)%Z && (z <=? max_int64)%Z then Some z else None.

(** [strconv.Atoi]: an optional sign and decimal digits within int64. *)
Definition Atoi (s : string) : option Z :=
  match s with
  | String "-" s => d ← NilZero.uint_of_string s; int64_of (- Z.of_uint d)
  | String "+" s => d ← NilZero.uint_of_string s; int64_of (Z.of_uint d)
  | s => d ← NilZero.uint_of_string s; int64_of (Z.of_uint d)
  end.

(** [strconv.Itoa]. *)
Definition Itoa (z : Z) : string := NilZero.string_of_int (Z.to_int z).

(** [strconv.ParseBool]. *)
Definition ParseBool (s : string) : option bool :=
  if bool_decide (s ∈ ["1"; "t"; "T"; "TRUE"; "true"; "True"]) then Some true
  else if bool_decide (s ∈ ["0"; "f"; "F"; "FALSE"; "false"; "False"]) then Some false
  else None.

Lemma string_of_uint_head u : u ≠ Decimal.Nil → ∃ c s, NilZero.string_of_uint u = String c s ∧ c ≠ "-"%char ∧ c ≠ "+"%char.
Proof. destruct u; try done; intros _; eexists _, _; (split; [reflexivity|]); done. Qed.

Lemma Pos_to_uint_ne p : Pos.to_uint p ≠ Decimal.Nil.
Proof. apply DecimalPos.Unsigned.to_uint_nonnil. Qed.

Lemma Atoi_unsigned u z : u ≠ Decimal.Nil → Z.of_uint u = z → (min_int64 ≤ z ≤ max_int64)%Z →
  Atoi (NilZero.string_of_uint u) = Some z.
Proof.
  intros Hu <- Hz. destruct (string_of_uint_head u Hu) as (c & s & Hs & Hm & Hp).
  assert (Atoi (String c s) = d ← NilZero.uint_of_string (String c s); int64_of (Z.of_uint d)) as Ha.
  { unfold Atoi. by destruct c as [[] [] [] [] [] [] [] []]. }
  rewrite Hs, Ha, <- Hs, NilZero.usu by done. cbn [mbind option_bind]. unfold int64_of.
  by rewrite (proj2 (Z.leb_le _ _)), (proj2 (Z.leb_le _ _)) by lia.
Qed.

(** Printing a number and reading it back. *)
Lemma Atoi_Itoa z : (min_int64 ≤ z ≤ max_int64)%Z → Atoi (Itoa z) = Some z.
Proof.
  intros Hz. pose proof (DecimalZ.of_to z) as Hof. unfold Itoa, Z.to_int in *. destruct z as [|p|p].
  - done.
  - cbn [NilZero.string_of_int]. apply Atoi_unsigned; [apply Pos_to_uint_ne|exact Hof|done].
  - cbn [NilZero.string_of_int Atoi]. rewrite NilZero.usu by apply Pos_to_uint_ne. cbn [mbind option_bind].
    change (- Z.of_uint (Pos.to_uint p))%Z with (Z.of_int (Decimal.Neg (Pos.to_uint p))). rewrite Hof. unfold int64_of.
    by rewrite (proj2 (Z.leb_le _ _)), (proj2 (Z.leb_le _ _)) by lia.
Qed.

Definition is_digit (c : ascii) : bool := (48 <=? N_of_ascii c)%N && (N_of_ascii c <=? 57)%N.

Lemma string_of_uint_digits u : all_chars is_digit (NilEmpty.string_of_uint u) = true.
Proof. induction u; cbn [NilEmpty.string_of_uint all_chars]; rewrite ?IHu; done. Qed.

Lemma Itoa_digits z : (0 ≤ z)%Z → all_chars is_digit (Itoa z) = true.
Proof.
  intros Hz. unfold Itoa, Z.to_int. destruct z as [|p|p]; [done| |lia]. cbn [NilZero.string_of_int].
  pose proof (Pos_to_uint_ne p) as Hp. pose proof (string_of_uint_digits (Pos.to_uint p)) as Hd.
  by destruct (Pos.to_uint p).
Qed.

(** ** Paths *)

(** One component of a path, after the (reversed) ones already kept. *)
Definition clean_step (rooted : bool) (acc : list string) (c : string) : list string :=
  if bool_decide (c = "") || bool_decide (c = ".") then acc
  else if bool_decide (c = "..") then
    match acc with
    | [] => if rooted then [] else [".."]
    | x :: acc' => if bool_decide (x = "..") then ".." :: acc else acc'
    end
  else c :: acc.

Definition is_rooted (s : string) : bool := match s with String c _ => bool_decide (c = "/"%char) | EmptyString => false end.

(** The components [Clean] keeps, reversed. *)
Definition kept (s : string) : list string := foldl (clean_step (is_rooted s)) [] (Split "/" s).

Definition render (rooted : bool) (parts : list string) : string :=
  if rooted then String "/" (join "/" parts)
  else match parts with [] => "." | _ => join "/" parts end.

(** [path.Clean]. *)
Definition Clean (s : string) : string :=
  match s with EmptyString => "." | _ => render (is_rooted s) (rev (kept s)) end.

(** [path.Join] (and [filepath.Join] on a slash system): leading empty elements
    are skipped. *)
Fixpoint Join (elems : list string) : string :=
  match elems with
  | [] => ""
  | e :: rest => if bool_decide (e = "") then Join rest else Clean (join "/" (e :: rest))
  end.

(** [path.Base]. *)
Definition Base (s : string) : string :=
  match s with
  | EmptyString => "."
  | _ => match List.last (Split "/" (TrimRight "/" s)) "" with
         | EmptyString => "/"
         | b => b
         end
  end.

(** A component that [Clean] keeps as it is. *)
Definition plain (c : string) : bool :=
  negb (bool_decide (c = "")) && negb (bool_decide (c = ".")) && negb (bool_decide (c = "..")) && all_chars (isnt "/") c.

Lemma plain_spec c : plain c = true ↔ c ≠ "" ∧ c ≠ "." ∧ c ≠ ".." ∧ all_chars (isnt "/") c = true.
Proof. unfold plain. rewrite !andb_true_iff, !negb_true_iff, !bool_decide_eq_false. tauto. Qed.

Lemma clean_plain rooted acc cs : Forall (λ c, plain c = true) cs → foldl (clean_step rooted) acc cs = rev cs ++ acc.
Proof.
  revert acc. induction cs as [|c cs IH]; intros acc Hcs; [done|]. apply list.Forall_cons in Hcs as [Hc Hcs].
  apply plain_spec in Hc as (H1 & H2 & H3 & _). cbn [foldl rev]. rewrite IH by done.
  unfold clean_step. rewrite !bool_decide_eq_false_2 by done. cbn [orb]. by rewrite <- app_assoc.
Qed.

Lemma plain_slashfree cs : Forall (λ c, plain c = true) cs → Forall (λ w, all_chars (isnt "/") w = true) cs.
Proof. intros Hcs. eapply list.Forall_impl; [exact Hcs|]. intros c Hc. by apply plain_spec in Hc as (_ & _ & _ & ?). Qed.

Lemma join_plain_nonempty cs : cs ≠ [] → Forall (λ c, plain c = true) cs → ∃ c s, join "/" cs = String c s ∧ c ≠ "/"%char.
Proof.
  intros Hne Hcs. destruct cs as [|w cs]; [done|]. apply list.Forall_cons in Hcs as [Hw _].
  apply plain_spec in Hw as (Hw & _ & _ & Hs). destruct w as [|c w]; [done|]. cbn in Hs. apply andb_true_iff in Hs as [Hc _].
  apply isnt_true in Hc. destruct cs; eexists _, _; split; [reflexivity|done|reflexivity|done].
Qed.

Lemma is_rooted_app a b : a ≠ "" → is_rooted (a +:+ b) = is_rooted a.
Proof. by destruct a. Qed.

Lemma is_rooted_plain cs : cs ≠ [] → Forall (λ c, plain c = true) cs → is_rooted (join "/" cs) = false.
Proof.
  intros Hne Hcs. destruct (join_plain_nonempty cs Hne Hcs) as (c & s & -> & Hc). cbn. by rewrite bool_decide_eq_false_2.
Qed.

(** A clean relative path is its own [Clean]. *)
Lemma Clean_plain cs : cs ≠ [] → Forall (λ c, plain c = true) cs → Clean (join "/" cs) = join "/" cs.
Proof.
  intros Hne Hcs. pose proof (is_rooted_plain cs Hne Hcs) as Hr. unfold Clean, kept. rewrite Hr, Split_join by (first [done|by apply plain_slashfree]).
  rewrite clean_plain, app_nil_r, rev_involutive by done.
  destruct (join_plain_nonempty cs Hne Hcs) as (c & s & Hj & _). rewrite Hj. unfold render.
  destruct cs as [|w cs']; [done|]. by rewrite Hj.
Qed.

(** Joining plain components under a directory appends them to what is left of
    the directory's own path: nothing below can climb out of it. *)
Lemma Clean_under p cs : p ≠ "" → cs ≠ [] → Forall (λ c, plain c = true) cs →
  Clean (p +:+ "/" +:+ join "/" cs) = render (is_rooted p) (rev (kept p) ++ cs).
Proof.
  intros Hp Hne Hcs. unfold Clean, kept. rewrite is_rooted_app by done.
  change ("/" +:+ join "/" cs) with (String "/" (join "/" cs)). rewrite Split_append, foldl_app.
  rewrite Split_join by (first [done|by apply plain_slashfree]). rewrite clean_plain by done.
  rewrite rev_app_distr, rev_involutive. by destruct p.
Qed.

Lemma Join_under p cs : cs ≠ [] → Forall (λ c, plain c = true) cs →
  Join [p; join "/" cs] = render (is_rooted p) (rev (kept p) ++ cs).
Proof.
  intros Hne Hcs. cbn [Join]. case_bool_decide as Hp.
  - subst p. destruct (join_plain_nonempty cs Hne Hcs) as (c & s & Hj & Hc).
    rewrite bool_decide_eq_false_2 by (by rewrite Hj). change (join "/" [join "/" cs]) with (join "/" cs).
    rewrite Clean_plain by done. cbn. by destruct cs.
  - rewrite <- Clean_under by done. done.
Qed.

Lemma Join_plain cs : cs ≠ [] → Forall (λ c, plain c = true) cs → Join cs = join "/" cs.
Proof.
  intros Hne Hcs. destruct cs as [|c cs]; [done|]. cbn [Join].
  rewrite bool_decide_eq_false_2; [by apply Clean_plain|]. apply list.Forall_cons in Hcs as [Hc _]. by apply plain_spec in Hc as [? _].
Qed.

Definition segment (c : string) : Prop := c ≠ "" ∧ all_chars (isnt "/") c = true.

Lemma plain_segment c : plain c = true → segment c.
Proof. intros (? & _ & _ & ?)%plain_spec. done. Qed.

Lemma Split_slashfree s : Forall (λ w, all_chars (isnt "/") w = true) (Split "/" s).
Proof.
  induction s as [|c s IH]; cbn; [by repeat constructor|]. case_bool_decide as Hc; [by constructor|].
  destruct (Split "/" s) as [|w ws]; [constructor; [|done]|].
  - cbn. by rewrite (proj2 (isnt_true _ _) Hc).
  - apply list.Forall_cons in IH as [Hw Hws]. constructor; [|done]. cbn. by rewrite (proj2 (isnt_true _ _) Hc).
Qed.

Lemma kept_segments s : Forall segment (kept s).
Proof.
  unfold kept. generalize (is_rooted s) as r. intros r. pose proof (Split_slashfree s) as Hs.
  assert (Forall segment []) as Hacc by constructor. revert Hacc. generalize (@nil string) as acc.
  induction Hs as [|c cs Hc Hcs IH]; intros acc Hacc; [done|]. cbn [foldl]. apply IH. unfold clean_step.
  destruct (bool_decide (c = "") || bool_decide (c = ".")) eqn:E1; [done|].
  apply orb_false_iff in E1 as [E1 _]. apply bool_decide_eq_false in E1. assert (segment "..") by done.
  case_bool_decide as E2; [|by constructor]. destruct acc as [|x acc]; [destruct r; by repeat constructor|].
  case_bool_decide; [by constructor|]. by apply list.Forall_cons in Hacc as [_ ?].
Qed.

Lemma join_segments_inj a b : Forall segment a → Forall segment b → join "/" a = join "/" b → a = b.
Proof.
  assert (∀ l, Forall segment l → Forall (λ w, all_chars (isnt "/") w = true) l) as Hsf.
  { intros l Hl. eapply list.Forall_impl; [exact Hl|]. by intros c [_ ?]. }
  assert (∀ c l, Forall segment (c :: l) → join "/" (c :: l) ≠ "") as Hn.
  { intros c l [[Hc _] _]%list.Forall_cons. destruct c; [done|]. by destruct l. }
  intros Ha Hb Hj. destruct a as [|x a], b as [|y b]; [done| | |].
  - by destruct (Hn y b Hb).
  - by destruct (Hn x a Ha).
  - rewrite <- (Split_join "/" (x :: a)), <- (Split_join "/" (y :: b)) by (first [done|by apply Hsf]). by rewrite Hj.
Qed.

(** Rendered paths are equal only when their components are, for paths below a
    common directory. *)
Lemma render_inj r a b : Forall segment a → Forall segment b → a ≠ [] → b ≠ [] → render r a = render r b → a = b.
Proof.
  intros Ha Hb Hna Hnb. unfold render. destruct r.
  - intros [= Hj]. by apply join_segments_inj.
  - destruct a as [|x a]; [done|]. destruct b as [|y b]; [done|]. by apply join_segments_inj.
Qed.

Lemma Join_under_inj p a b : a ≠ [] → b ≠ [] → Forall (λ c, plain c = true) a → Forall (λ c, plain c = true) b →
  Join [p; join "/" a] = Join [p; join "/" b] → a = b.
Proof.
  intros Hna Hnb Ha Hb. rewrite !Join_under by done. intros Hr. apply (app_inv_head (rev (kept p))).
  assert (∀ l, Forall (λ c, plain c = true) l → Forall segment (rev (kept p) ++ l)) as Hseg.
  { intros l Hl. apply Forall_app. split; [apply Forall_rev, kept_segments|].
    eapply list.Forall_impl; [exact Hl|]. intros; by apply plain_segment. }
  eapply render_inj; [by apply Hseg|by apply Hseg| | |exact Hr]; intros [_ ?]%app_nil; done.
Qed.

(** ** Percent-encoding *)

Inductive mode := encodePathSegment | encodePath | encodeHost | encodeUserPassword | encodeQueryComponent.

Definition is_alnum (c : ascii) : bool :=
  let n := N_of_ascii c in
  (97 <=? n)%N && (n <=? 122)%N || (65 <=? n)%N && (n <=? 90)%N || (48 <=? n)%N && (n <=? 57)%N.

Definition one_of (cs : string) (c : ascii) : bool := bool_decide (c ∈ list_ascii_of_string cs).

(** Go's [shouldEscape]. *)
Definition host_chars : string := "!$&'()*+,;=:[]<>" +:+ bytes_of [34%N].

Definition shouldEscape (c : ascii) (m : mode) : bool :=
  if is_alnum c then false
  else if match m with encodeHost => one_of host_chars c | _ => false end then false
  else if one_of "-_.~" c then false
  else if one_of "$&+,/:;=?@" c then
    match m with
    | encodePath => one_of "?" c
    | encodePathSegment => one_of "/;,?" c
    | encodeUserPassword => one_of "@/?:" c
    | encodeQueryComponent => true
    | encodeHost => true
    end
  else true.

Definition hex_digit (n : N) : ascii := ascii_of_N (if (n <? 10)%N then 48 + n else 55 + n).

Definition escape_char (m : mode) (c : ascii) : string :=
  if shouldEscape c m then
    match m with
    | encodeQueryComponent => if bool_decide (c = " "%char) then "+" else String "%" (String (hex_digit (N_of_ascii c / 16)) (String (hex_digit (N_of_ascii c mod 16)) ""))
    | _ => String "%" (String (hex_digit (N_of_ascii c / 16)) (String (hex_digit (N_of_ascii c mod 16)) ""))
    end
  else String c "".

Fixpoint escape (m : mode) (s : string) : string :=
  match s with EmptyString => "" | String c s => escape_char m c +:+ escape m s end.

Definition PathEscape : string → string := escape encodePathSegment.

Definition unhex (c : ascii) : option N :=
  let n := N_of_ascii c in
  if (48 <=? n)%N && (n <=? 57)%N then Some (n - 48)%N
  else if (97 <=? n)%N && (n <=? 102)%N then Some (n - 87)%N
  else if (65 <=? n)%N && (n <=? 70)%N then Some (n - 55)%N
  else None.

(** Go's [unescape] outside the host. *)
Fixpoint unescape (m : mode) (s : string) : option string :=
  match s with
  | EmptyString => Some ""
  | String c s =>
      if bool_decide (c = "%"%char) then
        match s with
        | String a (String b s) => x ← unhex a; y ← unhex b; String (ascii_of_N (16 * x + y)) <$> unescape m s
        | _ => None
        end
      else String (match m with encodeQueryComponent => if bool_decide (c = "+"%char) then " "%char else c | _ => c end)
             <$> unescape m s
  end.

Lemma unescape_char m c t : m ≠ encodeHost → unescape m (escape_char m c +:+ t) = String c <$> unescape m t.
Proof. intros Hm. destruct m; try done; destruct c as [[] [] [] [] [] [] [] []]; reflexivity. Qed.

(** Decoding what was encoded gives it back, whatever the bytes. *)
Lemma unescape_escape m s : m ≠ encodeHost → unescape m (escape m s) = Some s.
Proof.
  intros Hm. induction s as [|c s IH]; [done|]. cbn [escape]. by rewrite unescape_char, IH by done.
Qed.

Lemma escape_all_chars m (f : ascii → bool) s : (∀ c, all_chars f (escape_char m c) = true) → all_chars f (escape m s) = true.
Proof. intros Hf. induction s as [|c s IH]; [done|]. cbn [escape]. by rewrite all_chars_app, Hf, IH. Qed.

(** Text of unreserved characters is its own encoding. *)
Lemma escape_plain m s : all_chars is_alnum s = true → escape m s = s.
Proof.
  induction s as [|c s IH]; [done|]. cbn [escape all_chars]. intros [Hc Hs]%andb_true_iff. rewrite IH by done.
  unfold escape_char, shouldEscape. by rewrite Hc.
Qed.

End GoText.
