(* ===== verification/Flags.v ===== *)
(** * Command-line flags

    What the commands of [src/cmd/file-backup-service/main.go] use of Go's [flag]
    and [strconv]: a flag set with string, int and bool flags, [FlagSet.Parse] with
    [flag.ExitOnError], and [ParseInt] in base 0, which reads an int flag.

    [flags] is the grammar of a command line, a relation; [Parse] is shown to decide
    it ([Parse_exact]), to need no more steps than there are arguments and to read
    back every rendering of an assignment ([Parse_rendered]). *)

From S2P Require Import Prelude GoText.
From Stdlib Require Import ZArith Lia.
From Stdlib Require Import Strings.Ascii Strings.String DecimalString DecimalPos DecimalFacts.
From stdpp Require Import base gmap strings list numbers.

Module Flags.
Import GoText.

(** ** [strconv.ParseInt(s, 0, 64)] *)

Definition lower_byte (c : ascii) : N := N.lor (N_of_ascii c) 32.

(** The digit a character stands for, below the base. *)
Definition digit_of (base : N) (c : ascii) : option N :=
  let n := N_of_ascii c in
  let l := lower_byte c in
  let d := if (48 <=? n)%N && (n <=? 57)%N then Some (n - 48)%N
           else if (97 <=? l)%N && (l <=? 122)%N then Some (l - 97 + 10)%N else None in
  d ≫= λ d, if (d <? base)%N then Some d else None.

(** The digits of a number; an underscore is passed over. *)
Fixpoint digits (base acc : N) (s : string) : option N :=
  match s with
  | EmptyString => Some acc
  | String c s =>
      if bool_decide (c = "_"%char) then digits base acc s
      else d ← digit_of base c; digits base (acc * base + d)%N s
  end.

(** The base a prefix announces, with what follows it. *)
Definition base_of (s : string) : N * string :=
  match s with
  | String z rest =>
      if bool_decide (z = "0"%char) then
        match rest with
        | String p (String _ _ as rest') =>
            if (lower_byte p =? 98)%N then (2%N, rest')
            else if (lower_byte p =? 111)%N then (8%N, rest')
            else if (lower_byte p =? 120)%N then (16%N, rest')
            else (8%N, rest)
        | _ => (8%N, rest)
        end
      else (10%N, s)
  | EmptyString => (10%N, s)
  end.

(** [underscoreOK]: an underscore stands between digits, or after the prefix. *)
Inductive saw := SawStart | SawDigit | SawUnderscore | SawOther.

Fixpoint underscores (hex : bool) (prev : saw) (s : string) : bool :=
  match s with
  | EmptyString => match prev with SawUnderscore => false | _ => true end
  | String c s =>
      if is_digit c || (hex && (97 <=? lower_byte c)%N && (lower_byte c <=? 102)%N) then underscores hex SawDigit s
      else if bool_decide (c = "_"%char) then match prev with SawDigit => underscores hex SawUnderscore s | _ => false end
      else match prev with SawUnderscore => false | _ => underscores hex SawOther s end
  end.

Definition underscoreOK (s : string) : bool :=
  match s with
  | String z (String p rest) =>
      if bool_decide (z = "0"%char) && ((lower_byte p =? 98)%N || (lower_byte p =? 111)%N || (lower_byte p =? 120)%N)
      then underscores (lower_byte p =? 120)%N SawDigit rest else underscores false SawStart s
  | _ => underscores false SawStart s
  end.

Definition ParseUint0 (s : string) : option N :=
  match s with
  | EmptyString => None
  | _ =>
      let '(base, body) := base_of s in
      n ← digits base 0 body;
      if negb (all_chars (isnt "_") body) && negb (underscoreOK s) then None else Some n
  end.

Definition ParseInt0 (s : string) : option Z :=
  match s with
  | EmptyString => None
  | String c rest =>
      if bool_decide (c = "-"%char) then n ← ParseUint0 rest; int64_of (- Z.of_N n)
      else n ← ParseUint0 (if bool_decide (c = "+"%char) then rest else s); int64_of (Z.of_N n)
  end.

(** ** Flag sets *)

Inductive value := VString (s : string) | VInt (z : Z) | VBool (b : bool).

#[global] Instance value_eq_dec : EqDecision value.
Proof. solve_decision. Defined.

(** The flags by name, each with its value so far, at first its default. *)
Abbreviation FlagSet := (gmap string value).

(** [Value.Set] on the text of an argument. *)
Definition Set_ (old : value) (text : string) : option value :=
  match old with
  | VString _ => Some (VString text)
  | VInt _ => VInt <$> ParseInt0 text
  | VBool _ => VBool <$> ParseBool text
  end.

Definition IsBoolFlag (v : value) : bool := match v with VBool _ => true | _ => false end.

Inductive flag_error := ErrHelp | Failf (m : string).

Inductive one :=
  | Seen (fs : FlagSet) (args : list string)    (* one flag read *)
  | Stop (args : list string)                   (* the flags end here *)
  | Bad (e : flag_error).

(** The dashes of an argument: [None], not a flag. *)
Definition dashes (s : string) : option string :=
  match s with
  | String d (String e rest as name) =>
      if bool_decide (d = "-"%char) then Some (if bool_decide (e = "-"%char) then rest else name) else None
  | _ => None
  end.

Definition terminator (s : string) : bool := bool_decide (s = "--").

(** A name that [parseOne] refuses before it looks it up. *)
Definition bad_name (name : string) : bool :=
  match name with
  | EmptyString => true
  | String c _ => bool_decide (c = "-"%char) || bool_decide (c = "="%char)
  end.

(** The name and the value after the first equals sign; the sign cannot be first. *)
Definition split_value (arg : string) : string * option string :=
  match arg with
  | EmptyString => (arg, None)
  | String c rest => match Cut "=" rest with Some (n, v) => (String c n, Some v) | None => (arg, None) end
  end.

Definition set_flag (fs : FlagSet) (name : string) (old : value) (text : string) (args : list string) : one :=
  match Set_ old text with
  | Some v => Seen (<[name := v]> fs) args
  | None => Bad (Failf ("invalid value for flag -" +:+ name))
  end.

(** [parseOne] after the dashes. *)
Definition parse_name (fs : FlagSet) (arg : string) (args : list string) : one :=
  if bad_name arg then Bad (Failf ("bad flag syntax: " +:+ arg))
  else
    let '(name, hasValue) := split_value arg in
    match fs !! name with
    | None => if bool_decide (name = "help") || bool_decide (name = "h") then Bad ErrHelp
              else Bad (Failf ("flag provided but not defined: -" +:+ name))
    | Some old =>
        match hasValue with
        | Some text => set_flag fs name old text args
        | None =>
            if IsBoolFlag old then set_flag fs name old "true" args
            else match args with
                 | text :: args => set_flag fs name old text args
                 | [] => Bad (Failf ("flag needs an argument: -" +:+ name))
                 end
        end
    end.

Definition parseOne (fs : FlagSet) (args : list string) : one :=
  match args with
  | [] => Stop []
  | s :: rest =>
      if terminator s then Stop rest
      else match dashes s with
           | None => Stop args
           | Some arg => parse_name fs arg rest
           end
  end.

(** [FlagSet.Parse] with [ExitOnError]: the values and the arguments left over, or
    the code the process exits with. *)
Inductive parsed := Parsed (fs : FlagSet) (rest : list string) | Exits (code : Z).

Definition exit_code (e : flag_error) : Z := match e with ErrHelp => 0 | Failf _ => 2 end.

Fixpoint parse (fuel : nat) (fs : FlagSet) (args : list string) : option parsed :=
  match fuel with
  | O => None
  | S fuel =>
      match parseOne fs args with
      | Seen fs args => parse fuel fs args
      | Stop rest => Some (Parsed fs rest)
      | Bad e => Some (Exits (exit_code e))
      end
  end.

(** One step for each argument and one to stop. *)
Definition Parse (fs : FlagSet) (args : list string) : parsed :=
  default (Exits 2) (parse (S (length args)) fs args).

Definition GetString (fs : FlagSet) (name : string) : string :=
  match fs !! name with Some (VString s) => s | _ => "" end.
Definition GetInt (fs : FlagSet) (name : string) : Z := match fs !! name with Some (VInt z) => z | _ => 0%Z end.
Definition GetBool (fs : FlagSet) (name : string) : bool := match fs !! name with Some (VBool b) => b | _ => false end.

(** ** Numbers *)

Lemma digits_decimal u acc :
  digits 10 (Npos acc) (NilEmpty.string_of_uint u) = Some (Npos (Pos.of_uint_acc u acc)).
Proof.
  revert acc. induction u; intros acc; [done|..]; 
    cbn [NilEmpty.string_of_uint digits Pos.of_uint_acc]; rewrite <- IHu; unfold digit_of, lower_byte; simpl; f_equal; lia.
Qed.

Lemma digits_of_uint u : digits 10 0 (NilEmpty.string_of_uint u) = Some (Pos.of_uint u).
Proof. induction u; cbn [Pos.of_uint]; rewrite <- ?digits_decimal, <- ?IHu; done. Qed.

(** A positive number is printed without a leading zero. *)
Lemma Pos_to_uint_head p u : Pos.to_uint p ≠ Decimal.D0 u.
Proof.
  intros He. pose proof (Unsigned.to_of (Pos.to_uint p)) as Ht. rewrite Unsigned.of_to in Ht. cbn [N.to_uint] in Ht.
  pose proof (Pos_to_uint_ne p) as Hn. rewrite He, unorm_D0 in Ht. assert (u = Decimal.Nil ∨ u ≠ Decimal.Nil) as [->|Hu] by (destruct u; auto).
  - apply (Unsigned.to_uint_nonzero p). by rewrite He.
  - pose proof (nb_digits_unorm u Hu) as Hl. rewrite <- Ht in Hl. cbn in Hl. lia.
Qed.

Lemma ParseUint0_pos p : ParseUint0 (NilZero.string_of_uint (Pos.to_uint p)) = Some (Npos p).
Proof.
  pose proof (digits_of_uint (Pos.to_uint p)) as Hd. rewrite Unsigned.of_to in Hd.
  pose proof (string_of_uint_digits (Pos.to_uint p)) as Hs. pose proof (Pos_to_uint_head p) as H0.
  assert (all_chars (isnt "_") (NilEmpty.string_of_uint (Pos.to_uint p)) = true) as Hu.
  { eapply all_chars_impl; [|exact Hs]. intros c Hc. apply isnt_true. intros ->. done. }
  pose proof (Pos_to_uint_ne p) as Hne. destruct (Pos.to_uint p) as [|u|u|u|u|u|u|u|u|u|u]; try done; [by destruct (H0 u)|..];
    cbn [NilZero.string_of_uint]; cbn [NilEmpty.string_of_uint] in *; unfold ParseUint0, base_of;
    rewrite bool_decide_eq_false_2 by done; rewrite Hd; cbn [mbind option_bind]; by rewrite Hu.
Qed.

(** Printing a number and reading it back as a flag. *)
Lemma ParseInt0_Itoa z : (min_int64 ≤ z ≤ max_int64)%Z → ParseInt0 (Itoa z) = Some z.
Proof.
  intros Hz. assert (int64_of z = Some z) as Hi.
  { unfold int64_of. by rewrite (proj2 (Z.leb_le _ _)), (proj2 (Z.leb_le _ _)) by lia. }
  unfold Itoa, Z.to_int. destruct z as [|p|p]; [done|..]; cbn [NilZero.string_of_int].
  - destruct (string_of_uint_head (Pos.to_uint p) (Pos_to_uint_ne p)) as (c & s & Hs & Hm & Hp).
    pose proof (ParseUint0_pos p) as Hu. rewrite Hs in Hu |- *. unfold ParseInt0.
    rewrite !bool_decide_eq_false_2 by done. rewrite Hu. done.
  - cbn [ParseInt0]. rewrite bool_decide_eq_true_2 by done. rewrite ParseUint0_pos. done.
Qed.

(** ** The grammar of a command line *)

(** A name [parseOne] can read: not empty, without a leading dash, without an equals
    sign. *)
Definition flag_name (name : string) : Prop := bad_name name = false ∧ all_chars (isnt "=") name = true.

(** An argument that ends the flags and is itself left over. *)
Definition word (s : string) : Prop := dashes s = None.

Inductive flags : FlagSet → list string → FlagSet → list string → Prop :=
  | flags_end fs : flags fs [] fs []
  | flags_terminator fs rest : flags fs ("--" :: rest) fs rest
  | flags_word fs w rest : word w → flags fs (w :: rest) fs (w :: rest)
  | flags_joined fs d name text old v args fs' rest :
      d ∈ ["-"; "--"] → flag_name name → fs !! name = Some old → Set_ old text = Some v →
      flags (<[name := v]> fs) args fs' rest → flags fs ((d +:+ name +:+ "=" +:+ text) :: args) fs' rest
  | flags_separate fs d name text old v args fs' rest :
      d ∈ ["-"; "--"] → flag_name name → fs !! name = Some old → IsBoolFlag old = false → Set_ old text = Some v →
      flags (<[name := v]> fs) args fs' rest → flags fs ((d +:+ name) :: text :: args) fs' rest
  | flags_switch fs d name old args fs' rest :
      d ∈ ["-"; "--"] → flag_name name → fs !! name = Some old → IsBoolFlag old = true →
      flags (<[name := VBool true]> fs) args fs' rest → flags fs ((d +:+ name) :: args) fs' rest.

(** ** The parser decides the grammar *)

Lemma Cut_inv sep s :
  match Cut sep s with
  | Some (a, b) => s = a +:+ String sep b ∧ all_chars (isnt sep) a = true
  | None => all_chars (isnt sep) s = true
  end.
Proof.
  induction s as [|c s IH]; [done|]. cbn [Cut]. case_bool_decide as Hc; [by subst|].
  assert (isnt sep c = true) as Hi by by apply isnt_true.
  destruct (Cut sep s) as [[a b]|]; cbn [all_chars]; rewrite Hi; [|done]. destruct IH as [-> Ha]. by rewrite append_cons, Ha.
Qed.

Lemma isnt_head c s : bad_name (String c s) = false → isnt "=" c = true.
Proof. intros Hb%orb_false_iff. apply isnt_true. intros ->. by destruct Hb as [_ ?]. Qed.

Lemma split_value_inv arg n o : bad_name arg = false → split_value arg = (n, o) →
  flag_name n ∧ arg = n +:+ match o with Some t => "=" +:+ t | None => "" end.
Proof.
  intros Hb. destruct arg as [|c rest]; [done|]. pose proof (isnt_head _ _ Hb) as Hc. pose proof (Cut_inv "=" rest) as Hi.
  unfold split_value, flag_name. destruct (Cut "=" rest) as [[a t]|]; intros [= <- <-]; cbn [all_chars].
  - destruct Hi as [-> Ha]. rewrite Hc, Ha. done.
  - rewrite append_nil_r, Hc, Hi. done.
Qed.

Lemma split_value_name name : flag_name name → split_value name = (name, None).
Proof.
  intros [Hb Ha]. destruct name as [|c rest]; [done|]. cbn [all_chars] in Ha. apply andb_true_iff in Ha as [_ Ha].
  unfold split_value. by rewrite Cut_none.
Qed.

Lemma split_value_joined name text : flag_name name → split_value (name +:+ "=" +:+ text) = (name, Some text).
Proof.
  intros [Hb Ha]. destruct name as [|c rest]; [done|]. cbn [all_chars] in Ha. apply andb_true_iff in Ha as [_ Ha].
  rewrite append_cons. unfold split_value. change ("=" +:+ text) with (String "=" text). by rewrite Cut_app.
Qed.

Lemma bad_name_app name s : bad_name name = false → bad_name (name +:+ s) = false.
Proof. by destruct name. Qed.

Lemma dashes_inv s arg : dashes s = Some arg → ∃ d, d ∈ ["-"; "--"] ∧ s = d +:+ arg.
Proof.
  destruct s as [|d [|e rest]]; cbn [dashes]; try done. case_bool_decide as Hd; [|done]. subst.
  case_bool_decide as He; intros [= <-]; subst; [exists "--"|exists "-"]; (split; [set_solver|done]).
Qed.

Lemma dashes_app d arg : d ∈ ["-"; "--"] → bad_name arg = false → terminator (d +:+ arg) = false ∧ dashes (d +:+ arg) = Some arg.
Proof.
  intros Hd Hb. destruct arg as [|c rest]; [done|]. assert (c ≠ "-"%char) as Hc.
  { intros ->. apply orb_false_iff in Hb as [? _]. done. }
  assert (d = "-" ∨ d = "--") as [-> | ->] by set_solver.
  - split; [apply bool_decide_eq_false_2; intros Ht; injection Ht as -> ->; done|]. change ("-" +:+ String c rest) with (String "-" (String c rest)).
    unfold dashes. by rewrite (bool_decide_eq_false_2 (c = _)).
  - done.
Qed.

(** One flag on the command line. *)
Lemma parseOne_flag fs d arg args : d ∈ ["-"; "--"] → bad_name arg = false →
  parseOne fs ((d +:+ arg) :: args) = parse_name fs arg args.
Proof. intros Hd Hb. cbn [parseOne]. by destruct (dashes_app d arg Hd Hb) as [-> ->]. Qed.

Lemma set_flag_Seen fs name old text args fs' args' : set_flag fs name old text args = Seen fs' args' →
  ∃ v, Set_ old text = Some v ∧ fs' = <[name := v]> fs ∧ args' = args.
Proof. unfold set_flag. destruct (Set_ old text) as [v|]; [|done]. intros [= <- <-]. eauto. Qed.

Lemma Set_true old v : IsBoolFlag old = true → Set_ old "true" = Some v → v = VBool true.
Proof. destruct old; try done. intros _ [= <-]. done. Qed.

Lemma parseOne_shorter fs args fs' args' : parseOne fs args = Seen fs' args' → length args' < length args.
Proof.
  destruct args as [|s args]; [done|]. cbn [parseOne]. destruct (terminator s); [done|]. destruct (dashes s) as [arg|]; [|done].
  unfold parse_name. destruct (bad_name arg); [done|]. destruct (split_value arg) as [name o]. destruct (fs !! name); [|by case_match].
  destruct o; [intros (? & _ & _ & ->)%set_flag_Seen; cbn; lia|].
  case_match; [intros (? & _ & _ & ->)%set_flag_Seen; cbn; lia|].
  destruct args; [done|]. intros (? & _ & _ & ->)%set_flag_Seen. cbn. lia.
Qed.

(** Enough fuel: a step for each argument. *)
Lemma parse_total fuel fs args : length args < fuel → ∃ r, parse fuel fs args = Some r ∧ ∀ fuel', length args < fuel' → parse fuel' fs args = Some r.
Proof.
  revert fs args. induction fuel as [|fuel IH]; intros fs args Hl; [lia|]. cbn [parse].
  destruct (parseOne fs args) as [fs' args'|rest|e] eqn:E.
  - pose proof (parseOne_shorter _ _ _ _ E) as Hs. destruct (IH fs' args') as (r & Hr & Hf); [lia|]. exists r. split; [done|].
    intros [|fuel'] Hl'; [lia|]. cbn [parse]. rewrite E. apply Hf. lia.
  - eexists. split; [done|]. intros [|fuel'] Hl'; [lia|]. cbn [parse]. by rewrite E.
  - eexists. split; [done|]. intros [|fuel'] Hl'; [lia|]. cbn [parse]. by rewrite E.
Qed.

(** [Parse]'s own equation. *)
Lemma Parse_step fs args :
  Parse fs args = match parseOne fs args with
                  | Seen fs args => Parse fs args
                  | Stop rest => Parsed fs rest
                  | Bad e => Exits (exit_code e)
                  end.
Proof.
  unfold Parse at 1. cbn [parse]. destruct (parseOne fs args) as [fs' args'|rest|e] eqn:E; [|done..].
  pose proof (parseOne_shorter _ _ _ _ E) as Hs. unfold Parse.
  destruct (parse_total (S (length args')) fs' args') as (r & -> & Hf); [lia|]. by rewrite Hf by lia.
Qed.

Lemma Seen_flags fs args fs1 args1 fs' rest : parseOne fs args = Seen fs1 args1 → flags fs1 args1 fs' rest → flags fs args fs' rest.
Proof.
  destruct args as [|s args]; [done|]. cbn [parseOne]. destruct (terminator s); [done|].
  destruct (dashes s) as [arg|] eqn:Hd; [|done]. destruct (dashes_inv _ _ Hd) as (d & Hdd & ->).
  unfold parse_name. destruct (bad_name arg) eqn:Hb; [done|]. destruct (split_value arg) as [name o] eqn:Hs.
  destruct (split_value_inv _ _ _ Hb Hs) as [Hn ->]. destruct (fs !! name) as [old|] eqn:Hl; [|by destruct (_ || _)].
  destruct o as [text|]; [intros (v & Hv & -> & ->)%set_flag_Seen Hf; exact (flags_joined fs d name text old v args fs' rest Hdd Hn Hl Hv Hf)|]. rewrite append_nil_r.
  destruct (IsBoolFlag old) eqn:Ho.
  - intros (v & Hv & -> & ->)%set_flag_Seen Hf. rewrite (Set_true old v) in Hf by done. by eapply flags_switch.
  - destruct args as [|text args]; [done|]. intros (v & Hv & -> & ->)%set_flag_Seen Hf. by eapply flags_separate.
Qed.

Lemma parse_name_joined fs name text old v args : flag_name name → fs !! name = Some old → Set_ old text = Some v →
  parse_name fs (name +:+ "=" +:+ text) args = Seen (<[name := v]> fs) args.
Proof.
  intros Hn Hl Hv. pose proof Hn as [Hb _]. unfold parse_name, set_flag.
  by rewrite bad_name_app, split_value_joined, Hl, Hv.
Qed.

Lemma parse_name_separate fs name text old v args : flag_name name → fs !! name = Some old → IsBoolFlag old = false →
  Set_ old text = Some v → parse_name fs name (text :: args) = Seen (<[name := v]> fs) args.
Proof.
  intros Hn Hl Ho Hv. pose proof Hn as [Hb _]. unfold parse_name, set_flag. by rewrite Hb, split_value_name, Hl, Ho, Hv.
Qed.

Lemma parse_name_switch fs name old args : flag_name name → fs !! name = Some old → IsBoolFlag old = true →
  parse_name fs name args = Seen (<[name := VBool true]> fs) args.
Proof.
  intros Hn Hl Ho. pose proof Hn as [Hb _]. unfold parse_name, set_flag. rewrite Hb, split_value_name, Hl, Ho by done.
  by destruct old.
Qed.

(** A command line is accepted exactly when the grammar derives it, with the values
    and the remainder the grammar gives. *)
Theorem Parse_exact fs args fs' rest : Parse fs args = Parsed fs' rest ↔ flags fs args fs' rest.
Proof.
  split.
  - remember (length args) as n eqn:Hn. revert fs args Hn. induction n as [n IH] using lt_wf_ind. intros fs args ->.
    rewrite Parse_step. destruct (parseOne fs args) as [fs1 args1|r|e] eqn:E; [| |done].
    + intros Hp. eapply Seen_flags; [exact E|]. eapply IH; [|done|exact Hp]. by eapply parseOne_shorter.
    + intros [= <- <-]. destruct args as [|s args]; cbn [parseOne] in E; [injection E as <-; constructor|].
      unfold terminator in E. case_bool_decide as Ht; [injection E as <-; subst; constructor|].
      destruct (dashes s) as [arg|] eqn:Hd; [|injection E as <-; by constructor].
      unfold parse_name, set_flag in E. by repeat case_match.
  - induction 1 as [fs|fs rest|fs w rest Hw|fs d name text old v args fs' rest Hd Hn Hl Hv _ IH
                   |fs d name text old v args fs' rest Hd Hn Hl Ho Hv _ IH|fs d name old args fs' rest Hd Hn Hl Ho _ IH];
      rewrite Parse_step; try done.
    + cbn [parseOne]. rewrite Hw. unfold terminator. by rewrite bool_decide_eq_false_2 by (intros ->; done).
    + rewrite parseOne_flag; [|done|apply bad_name_app, Hn]. by erewrite parse_name_joined.
    + rewrite parseOne_flag; [|done|apply Hn]. by erewrite parse_name_separate.
    + rewrite parseOne_flag; [|done|apply Hn]. by erewrite parse_name_switch.
Qed.

(** ** Rendering an assignment *)

(** How an option is written: one dash or two, its value joined or separate. *)
Record style := MkStyle { st_double : bool; st_joined : bool }.

Definition text_of (v : value) : string :=
  match v with VString s => s | VInt z => Itoa z | VBool b => if b then "true" else "false" end.

(** A switch takes its value only after an equals sign. *)
Definition render_option (st : style) (name : string) (v : value) : list string :=
  let d := if st_double st then "--" else "-" in
  if st_joined st || IsBoolFlag v then [d +:+ name +:+ "=" +:+ text_of v] else [d +:+ name; text_of v].

Definition kind_eq (v w : value) : bool :=
  match v, w with VString _, VString _ | VInt _, VInt _ | VBool _, VBool _ => true | _, _ => false end.

Definition fits (v : value) : Prop := match v with VInt z => (min_int64 ≤ z ≤ max_int64)%Z | _ => True end.

Lemma Set_text old v : kind_eq old v = true → fits v → Set_ old (text_of v) = Some v.
Proof. destruct old, v; try done; intros _ Hf; cbn [Set_ text_of]; [by rewrite ParseInt0_Itoa|by destruct b0]. Qed.

Lemma Parse_option st fs name old v args : flag_name name → fs !! name = Some old → kind_eq old v = true → fits v →
  Parse fs (render_option st name v ++ args) = Parse (<[name := v]> fs) args.
Proof.
  intros Hn Hl Hk Hf. pose proof (Set_text _ _ Hk Hf) as Hs. rewrite Parse_step. unfold render_option.
  assert ((if st_double st then "--" else "-") ∈ ["-"; "--"]) as Hd by (destruct (st_double st); set_solver).
  revert Hd. generalize (if st_double st then "--" else "-"). intros d Hd.
  destruct (st_joined st || IsBoolFlag v) eqn:E; cbn [app].
  - rewrite parseOne_flag by (try done; by apply bad_name_app, Hn). by erewrite parse_name_joined.
  - apply orb_false_iff in E as [_ Hb]. rewrite parseOne_flag by (try done; apply Hn).
    erewrite parse_name_separate; [done|done|exact Hl| |exact Hs]. by destruct old, v.
Qed.

Definition render (opts : list (style * string * value)) : list string := '(st, name, v) ← opts; render_option st name v.

Definition assign (opts : list (style * string * value)) (fs : FlagSet) : FlagSet :=
  foldl (λ fs '(_, name, v), <[name := v]> fs) fs opts.

(** An option a flag set has, with a value of its kind. *)
Definition option_of (fs : FlagSet) (o : style * string * value) : Prop :=
  let '(_, name, v) := o in flag_name name ∧ (∃ old, fs !! name = Some old ∧ kind_eq old v = true) ∧ fits v.

Lemma option_of_insert fs name v o : (∃ old, fs !! name = Some old ∧ kind_eq old v = true) →
  option_of fs o → option_of (<[name := v]> fs) o.
Proof.
  intros (old & Hl & Hk). destruct o as [[st n] w]. intros (Hn & (old' & Hl' & Hk') & Hf). split_and!; [done| |done].
  destruct (decide (n = name)) as [->|Hne]; [|rewrite lookup_insert_ne by done; eauto].
  rewrite lookup_insert_eq. simplify_eq. exists v. split; [done|]. by destruct old, v, w.
Qed.

(** However each option is written, the parser reads the assignment back; when an
    option is given twice, the last one counts. *)
Theorem Parse_rendered fs opts args : Forall (option_of fs) opts →
  Parse fs (render opts ++ args) = Parse (assign opts fs) args.
Proof.
  revert fs. induction opts as [|[[st name] v] opts IH]; intros fs Hok; [done|]. apply list.Forall_cons in Hok as [Ho Hok].
  pose proof Ho as (Hn & (old & Hl & Hk) & Hf). unfold render. cbn [mbind list_bind]. rewrite <- (assoc_L (++)).
  erewrite Parse_option by done. apply IH. eapply list.Forall_impl; [exact Hok|]. intros o. apply option_of_insert. eauto.
Qed.

(** Nothing after the first word is looked at. *)
Lemma Parse_word fs w rest : word w → Parse fs (w :: rest) = Parsed fs (w :: rest).
Proof. intros Hw. apply Parse_exact. by constructor. Qed.

(** ** Examples *)

Definition ex_fs : FlagSet := {["to" := VString "/storage"; "rate" := VInt 0; "inventory" := VBool false]}.

Example parse_mixed :
  Parse ex_fs ["-rate"; "0x1_0"; "--inventory"; "--to=a=b"; "--"; "-x"] =
  Parsed {["to" := VString "a=b"; "rate" := VInt 16; "inventory" := VBool true]} ["-x"].
Proof. vm_compute. reflexivity. Qed.

Example parse_bad :
  Parse ex_fs ["--rate"] = Exits 2 ∧ Parse ex_fs ["--rate=1__0"] = Exits 2 ∧ Parse ex_fs ["--inventory=maybe"] = Exits 2 ∧
  Parse ex_fs ["---to"; "x"] = Exits 2 ∧ Parse ex_fs ["--sample"; "3"] = Exits 2 ∧ Parse ex_fs ["-h"] = Exits 0 ∧
  Parse ex_fs ["--rate"; "9223372036854775808"] = Exits 2 ∧ Parse ex_fs ["--rate"; "-0b11"] = Parsed (<["rate" := VInt (-3)]> ex_fs) [].
Proof. vm_compute. auto 10. Qed.

(** A switch does not take the next argument, which then ends the flags. *)
Example parse_switch_word :
  Parse ex_fs ["--inventory"; "true"; "--rate"; "5"] = Parsed (<["inventory" := VBool true]> ex_fs) ["true"; "--rate"; "5"].
Proof. vm_compute. reflexivity. Qed.
End Flags.
