(* ===== verification/GoTime.v ===== *)
(** * Times on the command line

    What [runRestoreCurrent] ([src/cmd/file-backup-service/main.go]) uses of Go's
    [time]: [time.Parse] with the layout [time.RFC3339], which reads the [--at] flag.
    An instant is the number of nanoseconds since Go's zero time, January 1 of year 1,
    the unit of the version times of Corpus.v.

    The parser is the general one of the layout, of which Go's fast path accepts a
    part: an hour may have one digit, a fraction of a second may follow a dot or a
    comma, an offset may be as large as [24:60]. *)

From S2P Require Import Prelude GoText.
From Stdlib Require Import ZArith Lia.
From Stdlib Require Import Strings.Ascii Strings.String.
From stdpp Require Import base strings list numbers.

Module GoTime.
Import GoText.
#[local] Open Scope Z_scope.

(** ** The calendar *)

Definition isLeap (year : Z) : bool := (year mod 4 =? 0) && (negb (year mod 100 =? 0) || (year mod 400 =? 0)).

Definition daysIn (month year : Z) : Z :=
  if month =? 2 then (if isLeap year then 29 else 28)
  else if (month =? 4) || (month =? 6) || (month =? 9) || (month =? 11) then 30 else 31.

(** The days from January 1 of year 1 to January 1 of [year]. *)
Definition daysBeforeYear (year : Z) : Z := let y := year - 1 in 365 * y + y / 4 - y / 100 + y / 400.

(** The days of the months before [month]. *)
Definition daysBefore (month year : Z) : Z :=
  foldl (λ n m, if m <? month then n + daysIn m year else n) 0 [1; 2; 3; 4; 5; 6; 7; 8; 9; 10; 11].

Definition dayNumber (year month day : Z) : Z := daysBeforeYear year + daysBefore month year + (day - 1).

(** [time.Date] in UTC. *)
Definition Date (year month day hour min sec nsec : Z) : Z :=
  (((dayNumber year month day * 24 + hour) * 60 + min) * 60 + sec) * 1000000000 + nsec.

(** ** The parser *)

Definition digit (c : ascii) : option Z := if is_digit c then Some (Z.of_N (N_of_ascii c) - 48) else None.

Definition getnum (s : string) (fixed : bool) : option (Z * string) :=
  match s with
  | String a rest =>
      x ← digit a;
      match rest with
      | String b rest' =>
          match digit b with
          | Some y => Some (x * 10 + y, rest')
          | None => if fixed then None else Some (x, rest)
          end
      | EmptyString => if fixed then None else Some (x, rest)
      end
  | EmptyString => None
  end.

Definition skip (c : ascii) (s : string) : option string :=
  match s with String d rest => if bool_decide (d = c) then Some rest else None | EmptyString => None end.

Definition within (lo hi x : Z) : option unit := if (lo <=? x) && (x <=? hi) then Some tt else None.

Definition getyear (s : string) : option (Z * string) :=
  '(a, s) ← getnum s true; '(b, s) ← getnum s true; Some (a * 100 + b, s).

Fixpoint span_digits (s : string) : list Z * string :=
  match s with
  | String c rest =>
      match digit c with
      | Some d => let '(ds, rest) := span_digits rest in (d :: ds, rest)
      | None => ([], s)
      end
  | EmptyString => ([], s)
  end.

(** The digits after the ninth are dropped. *)
Definition parseNanoseconds (ds : list Z) : Z :=
  let ds := take 9 ds in foldl (λ n d, n * 10 + d) 0 ds * 10 ^ (9 - Z.of_nat (length ds)).

Definition commaOrPeriod (c : ascii) : bool := bool_decide (c = "."%char) || bool_decide (c = ","%char).

(** A fraction needs a digit after its mark; otherwise the mark is left. *)
Definition getfraction (s : string) : Z * string :=
  match s with
  | String c rest =>
      if commaOrPeriod c then
        match span_digits rest with
        | ([], _) => (0, s)
        | (ds, rest) => (parseNanoseconds ds, rest)
        end
      else (0, s)
  | EmptyString => (0, s)
  end.

(** The offset in seconds: [Z], or a sign, two digits, a colon and two digits. *)
Definition getzone (s : string) : option (Z * string) :=
  match s with
  | String c rest =>
      if bool_decide (c = "Z"%char) then Some (0, rest)
      else
        '(hr, s) ← getnum rest true;
        s ← skip ":" s;
        '(mm, s) ← getnum s true;
        _ ← within 0 24 hr;
        _ ← within 0 60 mm;
        let offset := (hr * 60 + mm) * 60 in
        if bool_decide (c = "+"%char) then Some (offset, s)
        else if bool_decide (c = "-"%char) then Some (- offset, s) else None
  | EmptyString => None
  end.

(** [time.Parse(time.RFC3339, s)]. *)
Definition Parse (s : string) : option Z :=
  '(year, s) ← getyear s; s ← skip "-" s;
  '(month, s) ← getnum s true; _ ← within 1 12 month; s ← skip "-" s;
  '(day, s) ← getnum s true; s ← skip "T" s;
  '(hour, s) ← getnum s false; _ ← within 0 23 hour; s ← skip ":" s;
  '(min, s) ← getnum s true; _ ← within 0 59 min; s ← skip ":" s;
  '(sec, s) ← getnum s true; _ ← within 0 59 sec;
  let '(nsec, s) := getfraction s in
  '(offset, s) ← getzone s;
  match s with
  | EmptyString => _ ← within 1 (daysIn month year) day; Some (Date year month day hour min sec nsec - offset * 1000000000)
  | _ => None
  end.

(** ** The calendar counts days *)

(** The date after a date. *)
Definition tomorrow (year month day : Z) : Z * Z * Z :=
  if day <? daysIn month year then (year, month, day + 1)
  else if month <? 12 then (year, month + 1, 1) else (year + 1, 1, 1).

Definition valid (year month day : Z) : Prop := 1 ≤ month ≤ 12 ∧ 1 ≤ day ≤ daysIn month year.

Lemma divides_step a y : 0 < a → y / a - (y - 1) / a = if y mod a =? 0 then 1 else 0.
Proof.
  intros Ha. pose proof (Z.div_mod y a) as H1. pose proof (Z.mod_pos_bound y a Ha) as H2.
  destruct (Z.eqb_spec (y mod a) 0) as [E|E].
  - rewrite <- (Z.div_unique (y - 1) a (y / a - 1) (a - 1)); lia.
  - rewrite <- (Z.div_unique (y - 1) a (y / a) (y mod a - 1)); lia.
Qed.

Lemma mod_mod_divides y a b : 0 < a → 0 < b → y mod (a * b) = 0 → y mod a = 0.
Proof. intros Ha Hb Hm. apply Z.mod_divide; [lia|]. apply Z.mod_divide in Hm; [|lia]. destruct Hm as [k ->]. exists (k * b). lia. Qed.

Lemma year_length y : daysBeforeYear (y + 1) - daysBeforeYear y = if isLeap y then 366 else 365.
Proof.
  unfold daysBeforeYear, isLeap. replace (y + 1 - 1) with y by lia.
  pose proof (divides_step 4 y ltac:(lia)) as H4. pose proof (divides_step 100 y ltac:(lia)) as H100.
  pose proof (divides_step 400 y ltac:(lia)) as H400.
  pose proof (mod_mod_divides y 4 25 ltac:(lia) ltac:(lia)) as D4. pose proof (mod_mod_divides y 100 4 ltac:(lia) ltac:(lia)) as D100.
  change (4 * 25) with 100 in D4. change (100 * 4) with 400 in D100.
  destruct (Z.eqb_spec (y mod 4) 0), (Z.eqb_spec (y mod 100) 0), (Z.eqb_spec (y mod 400) 0); cbn; lia.
Qed.

Ltac by_month Hm := repeat (apply elem_of_cons in Hm as [->|Hm]; [|]); [..|by apply elem_of_nil in Hm].

Lemma daysBefore_next month year : 1 ≤ month < 12 → daysBefore (month + 1) year = daysBefore month year + daysIn month year.
Proof.
  intros Hm. assert (month ∈ [1; 2; 3; 4; 5; 6; 7; 8; 9; 10; 11]) as Hin by (rewrite !elem_of_cons; lia). clear Hm.
  unfold daysBefore, daysIn. destruct (isLeap year); by_month Hin; reflexivity.
Qed.

Lemma daysBefore_year year : daysBefore 1 year = 0 ∧ daysBefore 12 year + 31 = if isLeap year then 366 else 365.
Proof. unfold daysBefore, daysIn. by destruct (isLeap year). Qed.

Lemma daysIn_pos month year : 1 ≤ daysIn month year.
Proof. unfold daysIn. repeat case_match; lia. Qed.

(** Each date is one day after the one before it, through every month and leap year. *)
Theorem dayNumber_counts year month day : valid year month day →
  dayNumber 1 1 1 = 0 ∧
  let '(year', month', day') := tomorrow year month day in
  valid year' month' day' ∧ dayNumber year' month' day' = dayNumber year month day + 1.
Proof.
  intros [Hm Hd]. split; [done|]. unfold tomorrow. destruct (Z.ltb_spec day (daysIn month year)).
  { unfold valid, dayNumber. lia. }
  assert (day = daysIn month year) as -> by lia. destruct (Z.ltb_spec month 12).
  - unfold valid, dayNumber. rewrite daysBefore_next by lia. pose proof (daysIn_pos (month + 1) year). lia.
  - assert (month = 12) as -> by lia. destruct (daysBefore_year year) as [_ H12]. destruct (daysBefore_year (year + 1)) as [H1 _].
    unfold valid, dayNumber. rewrite H1. pose proof (daysIn_pos 1 (year + 1)). pose proof (year_length year).
    change (daysIn 12 year) with 31. lia.
Qed.

(** ** Written times are read back *)

Definition chr (d : Z) : ascii := ascii_of_N (Z.to_N (48 + d)).
Definition pad2 (z : Z) (s : string) : string := String (chr (z / 10)) (String (chr (z mod 10)) s).

Fixpoint put_digits (ds : list Z) (s : string) : string :=
  match ds with [] => s | d :: ds => String (chr d) (put_digits ds s) end.

Inductive zone := UTC | Offset (east : bool) (hr mm : Z).

Definition put_zone (z : zone) : string :=
  match z with
  | UTC => "Z"
  | Offset east hr mm => String (if east then "+" else "-")%char (pad2 hr (String ":" (pad2 mm "")))
  end.

Definition zone_seconds (z : zone) : Z :=
  match z with UTC => 0 | Offset east hr mm => let s := (hr * 60 + mm) * 60 in if east then s else - s end.

Definition zone_ok (z : zone) : Prop := match z with UTC => True | Offset _ hr mm => 0 ≤ hr ≤ 24 ∧ 0 ≤ mm ≤ 60 end.

Definition put_fraction (mark : ascii) (ds : list Z) (s : string) : string :=
  match ds with [] => s | _ => String mark (put_digits ds s) end.

Definition Format (year month day hour min sec : Z) (mark : ascii) (frac : list Z) (z : zone) : string :=
  pad2 (year / 100) (pad2 (year mod 100) (String "-" (pad2 month (String "-" (pad2 day (String "T"
    (pad2 hour (String ":" (pad2 min (String ":" (pad2 sec (put_fraction mark frac (put_zone z))))))))))))).

Lemma digit_chr d : 0 ≤ d ≤ 9 → digit (chr d) = Some d.
Proof.
  intros Hd. assert (d ∈ [0; 1; 2; 3; 4; 5; 6; 7; 8; 9]) as Hin by (rewrite !elem_of_cons; lia). clear Hd.
  repeat (apply elem_of_cons in Hin as [->|Hin]; [reflexivity|]). by apply elem_of_nil in Hin.
Qed.

Lemma getnum_pad2 z fixed s : 0 ≤ z ≤ 99 → getnum (pad2 z s) fixed = Some (z, s).
Proof.
  intros Hz. pose proof (Z.div_mod z 10 ltac:(lia)). pose proof (Z.mod_pos_bound z 10 ltac:(lia)). unfold pad2, getnum.
  assert (z / 10 < 10) by (apply Z.div_lt_upper_bound; lia). assert (0 ≤ z / 10) by (apply Z.div_pos; lia).
  rewrite !digit_chr by lia. cbn [mbind option_bind]. do 2 f_equal. lia.
Qed.

Lemma span_put ds s : Forall (λ d, 0 ≤ d ≤ 9) ds → span_digits (put_digits ds s) = let '(ds', rest) := span_digits s in (ds ++ ds', rest).
Proof.
  induction ds as [|d ds IH]; intros Hd; [cbn; by destruct (span_digits s)|]. apply list.Forall_cons in Hd as [Hd Hds].
  cbn [put_digits span_digits]. rewrite digit_chr, IH by done. by destruct (span_digits s).
Qed.

Lemma span_zone z : span_digits (put_zone z) = ([], put_zone z).
Proof. by destruct z as [|[] ? ?]. Qed.

Lemma getfraction_put mark ds z : commaOrPeriod mark = true → Forall (λ d, 0 ≤ d ≤ 9) ds →
  getfraction (put_fraction mark ds (put_zone z)) = (parseNanoseconds ds, put_zone z).
Proof.
  intros Hm Hd. destruct ds as [|d ds]; [by destruct z as [|[] ? ?]|]. unfold put_fraction, getfraction. rewrite Hm.
  rewrite span_put, span_zone by done. cbn [app]. by rewrite app_nil_r.
Qed.

Lemma within_ok lo hi x : lo ≤ x ≤ hi → within lo hi x = Some tt.
Proof. intros Hx. unfold within. by rewrite (proj2 (Z.leb_le _ _)), (proj2 (Z.leb_le _ _)) by lia. Qed.

Lemma getzone_put z : zone_ok z → getzone (put_zone z) = Some (zone_seconds z, "").
Proof.
  destruct z as [|east hr mm]; [done|]. intros [Hh Hm]. cbn [put_zone getzone].
  rewrite bool_decide_eq_false_2 by by destruct east. rewrite getnum_pad2 by lia. cbn [mbind option_bind skip].
  rewrite (bool_decide_eq_true_2 (_ = ":"%char)) by done. cbn [mbind option_bind]. rewrite getnum_pad2 by lia. cbn [mbind option_bind].
  rewrite !within_ok by lia. cbn [mbind option_bind]. by destruct east.
Qed.

(** Every written form of a date, with or without a fraction of a second and in any
    zone, is read back as its instant. *)
Theorem Parse_Format year month day hour min sec mark frac z :
  0 ≤ year ≤ 9999 → valid year month day → 0 ≤ hour ≤ 23 → 0 ≤ min ≤ 59 → 0 ≤ sec ≤ 59 →
  commaOrPeriod mark = true → Forall (λ d, 0 ≤ d ≤ 9) frac → zone_ok z →
  Parse (Format year month day hour min sec mark frac z) =
  Some (Date year month day hour min sec (parseNanoseconds frac) - zone_seconds z * 1000000000).
Proof.
  intros Hy [Hm Hd] Hh Hmi Hs Hma Hf Hz. pose proof (Z.div_mod year 100 ltac:(lia)) as Hq. pose proof (Z.mod_pos_bound year 100 ltac:(lia)) as Hb.
  assert (0 ≤ year / 100 < 100) as Hr by (split; [apply Z.div_pos|apply Z.div_lt_upper_bound]; lia).
  assert (daysIn month year ≤ 31) as H31 by (unfold daysIn; repeat case_match; lia).
  unfold Parse, getyear, Format. rewrite getnum_pad2 by lia.
  repeat (cbn [mbind option_bind skip]; rewrite ?bool_decide_eq_true_2 by done; cbn [mbind option_bind];
          first [rewrite getnum_pad2 by lia | rewrite within_ok by lia]).
  cbn [mbind option_bind]. rewrite getfraction_put by done. rewrite getzone_put by done. cbn [mbind option_bind].
  replace (year / 100 * 100 + year mod 100) with year by lia. rewrite !within_ok by lia. reflexivity.
Qed.

Example Parse_documented :
  Parse "2026-07-01T00:00:00Z" = Some 63918460800000000000 ∧ Parse "2026-07-01T02:00:00+02:00" = Parse "2026-07-01T00:00:00Z" ∧
  Parse "yesterday" = None ∧ Parse "2026-02-29T00:00:00Z" = None ∧ Parse "2024-02-29T5:00:00,5Z" = Some 63844779600500000000.
Proof. vm_compute. auto 10. Qed.
End GoTime.
