(* ===== verification/GoRuntime.v ===== *)
(** * The Go runtime facts the service relies on

    Errors with [errors.Is] and [errors.Join], the two context errors, panics
    as values, and the three concurrency scaffolds of
    [src/internal/domain/backup.go] and [backfill.go] that every other
    component is built from: [RunParallel], [RunAbandonableClose] and the
    [cancelledInFlight] classifier. *)

From S2P Require Import Prelude.
From Stdlib Require Import ZArith Lia.
From stdpp Require Import base strings list numbers.

(** ** Errors

    A Go error is a sentinel, a plain message, or a message wrapping causes
    ([fmt.Errorf] with one or two [%w] verbs, or [errors.Join]). A nil error
    is [None]. *)

Inductive sentinel :=
  | Canceled | DeadlineExceeded            (* context *)
  | EOF | ErrUnexpectedEOF | ErrClosedPipe  (* io *)
  | ErrNotExist                             (* os *)
  | ErrTooLong                              (* bufio *)
  | ErrSourceGone                           (* domain.go *)
  | errAbortedBeforeEOF | ErrProbePanic | ErrReadDenied | errStalled (* backup.go *)
  | errTryRaw | errHashMismatch             (* restore.go *)
  | errAuditReadDenied                      (* audit.go *)
  | errCorruptManifest | errLedgerRead | errNonAscendingManifest (* inventory.go *)
  | errRemoteStatus                         (* fileservice/client.go *)
  | ErrNoRows                               (* pgx *)
  | ErrNoChange.                            (* golang-migrate *)

#[global] Instance sentinel_eq_dec : EqDecision sentinel.
Proof. solve_decision. Defined.

Inductive err :=
  | Sent (s : sentinel)
  | Msg (m : string)
  | Wrap (m : string) (causes : list err).

Abbreviation goerr := (option err).

(** [errors.Is] on a non-nil error: the sentinel is the error itself or one of
    the wrapped causes, transitively. *)
Fixpoint Is (e : err) (s : sentinel) : bool :=
  match e with
  | Sent s' => bool_decide (s' = s)
  | Msg _ => false
  | Wrap _ causes => existsb (λ c, Is c s) causes
  end.

(** [err.Error()], up to the wording: the message chain joined by ": ". *)
Definition sentinel_text (s : sentinel) : string :=
  match s with
  | Canceled => "context canceled"
  | DeadlineExceeded => "context deadline exceeded"
  | EOF => "EOF"
  | ErrUnexpectedEOF => "unexpected EOF"
  | ErrClosedPipe => "io: read/write on closed pipe"
  | ErrSourceGone => "source object no longer exists"
  | errAbortedBeforeEOF => "sink closed before consuming the full stream"
  | ErrProbePanic => "probe panicked"
  | ErrReadDenied => "read denied"
  | errStalled => "sink stalled: did not drain a chunk within the stall timeout"
  | ErrNotExist => "file does not exist"
  | ErrTooLong => "bufio.Scanner: token too long"
  | errTryRaw => "not zstd after all"
  | errHashMismatch => "hash mismatch"
  | errAuditReadDenied => "audit: target uniformly read-denied (write-only WORM early-stop)"
  | errCorruptManifest => "corrupt manifest"
  | errLedgerRead => "ledger read"
  | errNonAscendingManifest => "manifest not byte-ascending (old-format / locale)"
  | errRemoteStatus => "file-service returned a non-success status"
  | ErrNoRows => "no rows in result set"
  | ErrNoChange => "no change"
  end.

Fixpoint Error (e : err) : string :=
  match e with
  | Sent s => sentinel_text s
  | Msg m => m
  | Wrap m causes => foldl (λ acc c, acc +:+ ": " +:+ Error c) m causes
  end.

Definition errors_Is (e : goerr) (s : sentinel) : bool :=
  match e with None => false | Some e => Is e s end.

(** [errors.Join]: nil members are dropped; nil when nothing is left. *)
Definition errors_Join (es : list goerr) : goerr :=
  match omap id es with
  | [] => None
  | es' => Some (Wrap "join" es')
  end.

Lemma Is_Wrap1 m c s : Is (Wrap m [c]) s = Is c s.
Proof. simpl. by rewrite orb_false_r. Qed.

Lemma Is_Wrap2 m c d s : Is (Wrap m [c; d]) s = Is c s || Is d s.
Proof. simpl. by rewrite orb_false_r. Qed.

Lemma errors_Join_None es : errors_Join es = None ↔ Forall (λ e, e = None) es.
Proof.
  unfold errors_Join. split.
  - induction es as [|[e|] es IH]; simpl; [constructor|done|].
    intros H. constructor; [done|]. by apply IH.
  - induction es as [|[e|] es IH]; intros Hall; inversion Hall; simpl; [done|done|auto].
Qed.

Lemma errors_Join_Is es s :
  errors_Is (errors_Join es) s = existsb (λ e, errors_Is e s) es.
Proof.
  unfold errors_Join.
  trans (existsb (λ c, Is c s) (omap id es)).
  { by destruct (omap id es). }
  induction es as [|[e|] es IH]; [done|by simpl; f_equal; apply IH|apply IH].
Qed.

(** ** Contexts

    [ctx.Err()] at one observation point; [None] while the context is live. *)

Inductive ctx_err := CtxCanceled | CtxDeadline.
#[global] Instance ctx_err_eq_dec : EqDecision ctx_err.
Proof. solve_decision. Defined.

Abbreviation ctxState := (option ctx_err).

Definition ctx_error (c : ctx_err) : err :=
  match c with CtxCanceled => Sent Canceled | CtxDeadline => Sent DeadlineExceeded end.

Definition ctxErr (c : ctxState) : goerr := ctx_error <$> c.

(** [cancelledInFlight] (backfill.go): the object's error is itself a
    cancellation and the parent context is cancelled. *)
Definition cancelledInFlight (parent : ctxState) (objErr : goerr) : bool :=
  errors_Is objErr Canceled && bool_decide (parent ≠ None).

Lemma cancelledInFlight_live objErr : cancelledInFlight None objErr = false.
Proof. unfold cancelledInFlight. by rewrite andb_false_r. Qed.

Lemma cancelledInFlight_nil parent : cancelledInFlight parent None = false.
Proof. done. Qed.

(** ** Panics

    What one call of a Go closure does: it returns a value or it panics. *)

Inductive attempt (T : Type) := Returns (t : T) | Panics (r : string).
Arguments Returns {T} t.
Arguments Panics {T} r.

Definition PanicErr (what r : string) : err :=
  Wrap (what +:+ " panicked: " +:+ r) [Sent ErrProbePanic].

Lemma PanicErr_Is what r s : Is (PanicErr what r) s = bool_decide (ErrProbePanic = s).
Proof. unfold PanicErr. by rewrite Is_Wrap1. Qed.

(** ** RunAbandonableClose

    [fn] runs on its own goroutine and sends its result (or [onPanic] of the
    recovered panic) on a buffered channel; the caller selects between that
    channel and [ctx.Done()]. [arm] is the arm the select takes: the channel
    arm is only possible with a result, the cancel arm abandons the goroutine,
    and then the late result (once it exists) goes to [onLateResult]. *)

Inductive select_arm := ArmResult | ArmDone.

Definition sent {T} (fn : attempt T) (onPanic : string → T) : T :=
  match fn with Returns t => t | Panics r => onPanic r end.

(** The value returned to the caller, and the late value handed to
    [onLateResult] (if that hook is set). *)
Definition RunAbandonableClose {T} (arm : select_arm) (fn : attempt T)
    (onCancel : T) (onPanic : string → T) (hasLateHook : bool) : T * option T :=
  match arm with
  | ArmResult => (sent fn onPanic, None)
  | ArmDone => (onCancel, if hasLateHook then Some (sent fn onPanic) else None)
  end.

Definition RunAbandonable {T} (arm : select_arm) (fn : attempt T)
    (onCancel : T) (onPanic : string → T) : T :=
  fst (RunAbandonableClose arm fn onCancel onPanic false).

(** [callWithCtx]: the abandonable call of a sink operation. *)
Definition callWithCtx (arm : select_arm) (ctx : ctxState) (fn : attempt goerr) : goerr :=
  RunAbandonable arm fn (ctxErr ctx) (λ r, Some (PanicErr "sink op" r)).

(** ** RunParallel

    One goroutine per item, each writing its own slot of [errs]; [order] is
    the order in which the goroutines finish. *)

Definition guarded {T} (label : T → string) (run : T → attempt goerr) (x : T) : goerr :=
  match run x with Returns e => e | Panics r => Some (PanicErr (label x) r) end.

Definition finish {T} (label : T → string) (run : T → attempt goerr)
    (items : list T) (errs : list goerr) (i : nat) : list goerr :=
  match items !! i with
  | Some x => <[i := guarded label run x]> errs
  | None => errs
  end.

Definition RunParallel {T} (order : list nat) (items : list T)
    (label : T → string) (run : T → attempt goerr) : list goerr :=
  foldl (finish label run items) (replicate (length items) None) order.

Definition RunParallelIdx (order : list nat) (n : nat)
    (label : nat → string) (run : nat → attempt goerr) : list goerr :=
  RunParallel order (seq 0 n) label run.

(** A schedule of [n] goroutines: each finishes exactly once. *)
Definition schedule (n : nat) (order : list nat) : Prop := order ≡ₚ seq 0 n.

Section parallel.
Context {T : Type} (label : T → string) (run : T → attempt goerr) (items : list T).

Lemma finish_length errs i : length (finish label run items errs i) = length errs.
Proof. unfold finish. destruct (items !! i); [apply length_insert|done]. Qed.

Lemma foldl_finish_length order errs :
  length (foldl (finish label run items) errs order) = length errs.
Proof.
  revert errs. induction order as [|i order IH]; intros errs; simpl; [done|].
  by rewrite IH, finish_length.
Qed.

Lemma foldl_finish_lookup order errs j :
  length errs = length items →
  foldl (finish label run items) errs order !! j =
    (if decide (j ∈ order) then guarded label run <$> items !! j else errs !! j).
Proof.
  revert errs. induction order as [|i order IH]; intros errs Hlen; cbn [foldl].
  { rewrite decide_False; [done|]. apply not_elem_of_nil. }
  rewrite IH by (by rewrite finish_length).
  destruct (decide (j ∈ order)) as [Hin|Hin].
  { rewrite decide_True; [done|by right]. }
  destruct (decide (j = i)) as [->|Hne].
  - rewrite decide_True by by left. unfold finish.
    destruct (items !! i) as [x|] eqn:Ex; simpl.
    + apply list_lookup_insert_eq. rewrite Hlen. by apply lookup_lt_is_Some; eexists.
    + apply lookup_ge_None. rewrite Hlen. by apply lookup_ge_None.
  - rewrite decide_False by (by rewrite elem_of_cons; intros [?|?]).
    unfold finish. destruct (items !! i); [|done]. by apply list_lookup_insert_ne.
Qed.

(** The errors a parallel run returns do not depend on how its goroutines
    interleave: they are the guarded results, in item order. *)
Lemma RunParallel_map order :
  schedule (length items) order → RunParallel order items label run = guarded label run <$> items.
Proof.
  intros Hs. apply list_eq. intros j. unfold RunParallel.
  rewrite foldl_finish_lookup by apply length_replicate.
  rewrite list_lookup_fmap. case_decide as Hin; [done|].
  rewrite Hs, elem_of_seq in Hin.
  assert (length items ≤ j) by lia.
  rewrite (proj2 (lookup_ge_None items j)) by done. simpl.
  apply lookup_ge_None. by rewrite length_replicate.
Qed.
End parallel.

Lemma schedule_seq n : schedule n (seq 0 n).
Proof. unfold schedule. reflexivity. Qed.
