(* ===== verification/Trace.v ===== *)
(** * Programs with a trace

    A small monad for code that acquires and releases things around calls that may
    fail: a program is the actions it performed and its value or its error. [defer_]
    is Go's [defer] of an action that cannot change the result; [holding] replays the
    acquisitions and releases of a trace as a stack, so that a program which leaves
    the stack as it found it ([keeps]) released everything, in the reverse order.

    Commands.v and Harness.v are written in it. *)

From S2P Require Import Prelude GoRuntime.
From stdpp Require Import base strings list.

Module Trace.

Definition M (act A : Type) : Type := list act * (A + err).

Section programs.
Context {act : Type}.

#[global] Instance M_ret : MRet (M act) := λ A a, ([], inl a).
#[global] Instance M_bind : MBind (M act) := λ A B f m,
  match m.2 with
  | inl a => (m.1 ++ (f a).1, (f a).2)
  | inr e => (m.1, inr e)
  end.

Definition throw {A} (e : err) : M act A := ([], inr e).
Definition tell (a : act) : M act unit := ([a], inl ()).
Definition lift {A} (r : A + err) : M act A := ([], r).
Definition check (e : goerr) : M act unit := match e with None => mret () | Some x => throw x end.

(** [for range] of actions. *)
Definition tells (l : list act) : M act unit := (l, inl ()).

(** [defer]: [a] runs after the body, and does not change what it returns. *)
Definition defer_ {A} (a : act) (m : M act A) : M act A := (m.1 ++ [a], m.2).
End programs.

Definition wrap (m : string) (e : goerr) : goerr := match e with None => None | Some x => Some (Wrap m [x]) end.
Definition wrapS {A} (m : string) (r : A + err) : A + err := match r with inl a => inl a | inr x => inr (Wrap m [x]) end.

Lemma check_inl {act} e u : (check (act := act) e).2 = inl u → e = None.
Proof. by destruct e. Qed.

Lemma wrap_None m e : wrap m e = None → e = None.
Proof. by destruct e. Qed.

Lemma wrapS_inl {A} m (r : A + err) a : wrapS m r = inl a → r = inl a.
Proof. destruct r; [by intros [= ->]|done]. Qed.

(** ** Resources *)

Inductive ownership (R : Type) := Gains (r : R) | Loses (r : R) | Neutral.
Arguments Gains {R} r.
Arguments Loses {R} r.
Arguments Neutral {R}.

Section resources.
Context {act R : Type} `{EqDecision R} (owns : act → ownership R).

(** The stack of held resources after a trace; [None], a release out of order. *)
Fixpoint holding (acts : list act) (st : list R) : option (list R) :=
  match acts with
  | [] => Some st
  | a :: acts =>
      match owns a with
      | Gains r => holding acts (r :: st)
      | Loses r =>
          match st with
          | r' :: st => if bool_decide (r = r') then holding acts st else None
          | [] => None
          end
      | Neutral => holding acts st
      end
  end.

Lemma holding_app a b st : holding (a ++ b) st = holding a st ≫= holding b.
Proof.
  revert st. induction a as [|x a IH]; intros st; [done|]. cbn.
  destruct (owns x); try apply IH. destruct st as [|r' st]; [done|]. by case_bool_decide.
Qed.

(** A program that leaves what it found, and one that on success adds [r]. *)
Definition keeps {A} (m : M act A) : Prop := ∀ st, holding m.1 st = Some st.
Definition adds {A} (r : R) (m : M act A) : Prop :=
  ∀ st, holding m.1 st = Some (match m.2 with inl _ => r :: st | inr _ => st end).

Lemma bind_trace {A B} (m : M act A) (k : A → M act B) st :
  holding (m ≫= k).1 st = holding m.1 st ≫= λ st, match m.2 with inl a => holding (k a).1 st | inr _ => Some st end.
Proof.
  unfold mbind, M_bind. destruct (m.2); cbn [fst]; [apply holding_app|]. by destruct (holding m.1 st).
Qed.

Lemma keeps_bind {A B} (m : M act A) (k : A → M act B) : keeps m → (∀ a, keeps (k a)) → keeps (m ≫= k).
Proof. intros Hm Hk st. rewrite bind_trace, Hm. cbn. destruct m.2; [apply Hk|done]. Qed.

Lemma adds_bind {A B} r (m : M act A) (k : A → M act B) : keeps m → (∀ a, adds r (k a)) → adds r (m ≫= k).
Proof.
  intros Hm Hk st. rewrite bind_trace, Hm. unfold mbind, M_bind. cbn. destruct m.2; cbn; [apply Hk|done].
Qed.

(** An acquisition with its deferred release. *)
Lemma bracket {A B} r rel (m : M act A) (k : A → M act B) : owns rel = Loses r →
  adds r m → (∀ a, keeps (k a)) → keeps (a ← m; defer_ rel (k a)).
Proof.
  intros Hrel Hm Hk st. rewrite bind_trace, Hm. cbn. destruct m.2 as [a|]; [|done].
  unfold defer_. cbn [fst]. rewrite holding_app, Hk. cbn. rewrite Hrel. by rewrite bool_decide_eq_true_2.
Qed.

Lemma keeps_lift {A} (r : A + err) : keeps (lift r).
Proof. done. Qed.
Lemma keeps_ret {A} (a : A) : keeps (mret a).
Proof. done. Qed.
Lemma keeps_throw {A} e : keeps (throw (A := A) e).
Proof. done. Qed.
Lemma keeps_check e : keeps (check e).
Proof. by destruct e. Qed.
Lemma keeps_note a : owns a = Neutral → keeps (tell a).
Proof. intros Ha st. cbn. by rewrite Ha. Qed.

Lemma keeps_notes l : Forall (λ a, owns a = Neutral) l → keeps (tells l).
Proof. intros Hl st. cbn [tells fst]. induction Hl as [|a l Ha Hl IH]; [done|]. cbn. by rewrite Ha. Qed.

Lemma keeps_fmap {B} (f : B → act) l : (∀ b, owns (f b) = Neutral) → keeps (tells (f <$> l)).
Proof. intros Hf. apply keeps_notes, Forall_fmap, Forall_true. exact Hf. Qed.

Lemma adds_acquire a r : owns a = Gains r → adds r (tell a).
Proof. intros Ha st. cbn. by rewrite Ha. Qed.
End resources.

#[export] Hint Resolve keeps_bind keeps_lift keeps_ret keeps_throw keeps_check : fbs.
#[export] Hint Extern 1 (keeps _ (tell _)) => apply keeps_note; reflexivity : fbs.
#[export] Hint Extern 1 (keeps _ (tells (_ <$> _))) => apply keeps_fmap; intros ?; reflexivity : fbs.

(** ** The actions of a program *)

(** Every action of a program satisfies [P]. *)
Definition acts_ok {act A} (P : act → Prop) (m : M act A) : Prop := Forall P m.1.

Section acts.
Context {act : Type} (P : act → Prop).

Lemma acts_bind {A B} (m : M act A) (k : A → M act B) :
  acts_ok P m → (∀ a, m.2 = inl a → acts_ok P (k a)) → acts_ok P (m ≫= k).
Proof.
  intros Hm Hk. unfold acts_ok, mbind, M_bind. destruct m.2 as [a|] eqn:E; [|done].
  cbn. apply Forall_app. split; [done|by apply Hk].
Qed.

Lemma acts_defer {A} a (m : M act A) : P a → acts_ok P m → acts_ok P (defer_ a m).
Proof. intros Ha Hm. apply Forall_app. split; [done|by constructor]. Qed.

Lemma acts_tell a : P a → acts_ok P (tell a).
Proof. by constructor. Qed.

Lemma acts_check e : acts_ok P (check e).
Proof. destruct e; constructor. Qed.

Lemma acts_none {A} (r : A + err) : acts_ok P (lift r).
Proof. constructor. Qed.

Lemma acts_throw {A} e : acts_ok P (throw (A := A) e).
Proof. constructor. Qed.

Lemma acts_ret {A} (a : A) : acts_ok P (mret a).
Proof. constructor. Qed.

Lemma acts_tells {B} (f : B → act) l : (∀ b, P (f b)) → acts_ok P (tells (f <$> l)).
Proof. intros Hf. apply Forall_fmap, Forall_true. exact Hf. Qed.
End acts.

(** Where an action of a program comes from. *)
Section origins.
Context {act : Type}.
Implicit Types a b : act.

Lemma in_bind {A B} a (m : M act A) (k : A → M act B) : a ∈ (m ≫= k).1 → a ∈ m.1 ∨ ∃ x, m.2 = inl x ∧ a ∈ (k x).1.
Proof.
  unfold mbind, M_bind. destruct m.2 as [x|]; cbn [fst]; [|by left]. rewrite elem_of_app. intros [?|?]; [by left|right; eauto].
Qed.

Lemma in_defer {A} a b (m : M act A) : a ∈ (defer_ b m).1 → a ∈ m.1 ∨ a = b.
Proof. unfold defer_. cbn [fst]. rewrite elem_of_app, list_elem_of_singleton. done. Qed.

Lemma in_tell a b : a ∈ (tell b).1 → a = b.
Proof. cbn. by rewrite list_elem_of_singleton. Qed.

Lemma in_lift {A} a (r : A + err) : a ∉ (lift r).1.
Proof. apply not_elem_of_nil. Qed.

Lemma in_check a x : a ∉ (check x).1.
Proof. destruct x; apply not_elem_of_nil. Qed.
End origins.
End Trace.
