(* ===== verification/Ports.v ===== *)
(** * The data that crosses the domain's ports

    [src/internal/domain/ports.go] (and the ledger states of [backup.go]):
    what the outbox, the pipeline and the ledger exchange. A [time.Time] is a
    count of microseconds with [None] for the zero time, a nullable uuid an
    [option N]. *)

From S2P Require Import Prelude.
From Stdlib Require Import ZArith Lia.
From stdpp Require Import base strings list numbers.

Module Ports.

(** The two per-target ledger states. *)
Definition StateStored : string := "stored".
Definition StateFailed : string := "failed".

(** The content identity of one object to back up. *)
Record BackupItem := MkItem {
  FileID : N;
  ExternalID : string;
  Size : Z;
  CreatedBy : option N;
  CreatedDate : option Z;
}.

(** A claimed outbox row: the embedded item and the row id. *)
Record OutboxEntry := MkEntry { entryItem : BackupItem; entryID : Z }.

(** The ledger breadcrumbs of one backed-up object. *)
Record ObjectMeta := MkMeta {
  m_ExternalID : string;
  m_Size : Z;
  m_SizeVerified : bool;
  m_CreatedBy : option N;
  m_SourceCreatedDate : option Z;
}.

(** One (object, target) completion record. *)
Record TargetStatus := MkStatus {
  Target : string;
  State : string;
  StoredBytes : Z;
}.

#[global] Instance BackupItem_eq_dec : EqDecision BackupItem.
Proof. solve_decision. Defined.
#[global] Instance OutboxEntry_eq_dec : EqDecision OutboxEntry.
Proof. solve_decision. Defined.
#[global] Instance TargetStatus_eq_dec : EqDecision TargetStatus.
Proof. solve_decision. Defined.

(** The names a status list records as stored. *)
Definition stored_names (sts : list TargetStatus) : list string :=
  omap (λ s, if bool_decide (State s = StateStored) then Some (Target s) else None) sts.

Lemma elem_of_stored_names t sts :
  t ∈ stored_names sts ↔ ∃ s, s ∈ sts ∧ State s = StateStored ∧ Target s = t.
Proof.
  unfold stored_names. rewrite list_elem_of_omap. split.
  - intros (s & Hs & Hif). case_bool_decide; simplify_eq. eauto.
  - intros (s & Hs & Hst & <-). exists s. by rewrite bool_decide_eq_true_2.
Qed.

End Ports.
