(* ===== verification/Circuit.v ===== *)
(** * The per-target circuit breaker

    [src/internal/domain/circuit.go]. The breaker is mutex-guarded, so every
    method is one atomic step on its state; the clock readings a method makes
    are arguments. *)

From S2P Require Import Prelude GoRuntime.
From Stdlib Require Import ZArith Lia.
From stdpp Require Import base gmap strings list numbers.

Module Circuit.
Open Scope Z_scope.

Record CircuitBreaker := MkCB {
  threshold : Z;                   (* int *)
  window : Z;                      (* int: rolling outcomes kept per target *)
  cooldown : Z;                    (* time.Duration, ns *)
  recent : gmap string (list bool); (* target -> last outcomes (true = ok), oldest first *)
  openUntil : gmap string Z;       (* target -> when its open circuit half-opens *)
}.

Definition NewCircuitBreaker (thr cool : Z) : CircuitBreaker :=
  let thr := Z.max thr 1 in
  MkCB thr (wrap64 (2 * thr)) cool ∅ ∅.

(** [Open]: [now1] is read by the [Before] test, [now2] when the probe slot is
    re-reserved. Returns whether the caller must skip the target. *)
Definition Open (cb : CircuitBreaker) (target : string) (now1 now2 : Z) : bool * CircuitBreaker :=
  match openUntil cb !! target with
  | None => (false, cb)
  | Some til =>
      if now1 <? til then (true, cb)
      else (false, MkCB (threshold cb) (window cb) (cooldown cb) (recent cb)
              (<[target := now2 + cooldown cb]> (openUntil cb)))
  end.

Definition fails (r : list bool) : Z := Z.of_nat (length (List.filter negb r)).

(** The Go slice expression [r[i:]]: out of range panics ([None]). *)
Definition slice_from {A} (r : list A) (i : Z) : option (list A) :=
  if (0 <=? i) && (i <=? Z.of_nat (length r)) then Some (drop (Z.to_nat i) r) else None.

Definition trim (w : Z) (r : list bool) : option (list bool) :=
  if w <? Z.of_nat (length r) then slice_from r (Z.of_nat (length r) - w) else Some r.

(** [Record]; [None] is the runtime panic of an out-of-range reslice. *)
Definition Record_ (cb : CircuitBreaker) (target : string) (ok : bool) (now : Z)
    : option CircuitBreaker :=
  if ok && bool_decide (is_Some (openUntil cb !! target)) then
    Some (MkCB (threshold cb) (window cb) (cooldown cb)
      (delete target (recent cb)) (delete target (openUntil cb)))
  else
    let r := default [] (recent cb !! target) ++ [ok] in
    match trim (window cb) r with
    | None => None
    | Some r =>
        let cb := MkCB (threshold cb) (window cb) (cooldown cb)
                    (<[target := r]> (recent cb)) (openUntil cb) in
        Some (if threshold cb <=? fails r
              then MkCB (threshold cb) (window cb) (cooldown cb) (recent cb)
                     (<[target := now + cooldown cb]> (openUntil cb))
              else cb)
    end.

Definition Down (cb : CircuitBreaker) (target : string) : bool :=
  bool_decide (is_Some (openUntil cb !! target)).

Definition OpenCount (cb : CircuitBreaker) : nat := size (openUntil cb).

(** ** Runs of the breaker

    The worker pool interleaves calls arbitrarily; a run is a sequence of
    them, each with its clock readings. *)

Inductive call :=
  | COpen (target : string) (now1 now2 : Z)
  | CRecord (target : string) (ok : bool) (now : Z).

Definition call_target (c : call) : string :=
  match c with COpen t _ _ => t | CRecord t _ _ => t end.

Definition step (cb : CircuitBreaker) (c : call) : option CircuitBreaker :=
  match c with
  | COpen t n1 n2 => Some (snd (Open cb t n1 n2))
  | CRecord t ok n => Record_ cb t ok n
  end.

Fixpoint run (cb : CircuitBreaker) (cs : list call) : option CircuitBreaker :=
  match cs with
  | [] => Some cb
  | c :: cs => match step cb c with Some cb' => run cb' cs | None => None end
  end.

(** ** Well-formedness

    The window is [2*threshold], no rolling window exceeds it, and a target's
    circuit is open exactly when its window holds [threshold] failures. *)

Definition recent_of (cb : CircuitBreaker) (t : string) : list bool :=
  default [] (recent cb !! t).

Definition wf (cb : CircuitBreaker) : Prop :=
  1 ≤ threshold cb ∧ window cb = 2 * threshold cb ∧
  ∀ t, Z.of_nat (length (recent_of cb t)) ≤ window cb ∧
       (is_Some (openUntil cb !! t) ↔ threshold cb ≤ fails (recent_of cb t)).

(** *** Lemmas on windows *)

Lemma fails_app r s : fails (r ++ s) = fails r + fails s.
Proof. unfold fails. rewrite List.filter_app, length_app. lia. Qed.

Lemma fails_nil : fails [] = 0.
Proof. done. Qed.

Lemma fails_nonneg r : 0 ≤ fails r.
Proof. unfold fails. lia. Qed.

Lemma fails_le_length r : fails r ≤ Z.of_nat (length r).
Proof. unfold fails. pose proof (List.filter_length_le negb r). lia. Qed.

Lemma trim_in_range w r : 0 ≤ w → trim w r =
  Some (drop (length r - Z.to_nat w) r).
Proof.
  intros Hw. unfold trim, slice_from. destruct (w <? _) eqn:E; to_prop.
  - rewrite (proj2 (Z.leb_le _ _)), (proj2 (Z.leb_le _ _)) by lia. simpl.
    do 2 f_equal. lia.
  - by replace (length r - Z.to_nat w)%nat with 0%nat by lia.
Qed.

(** Appending to a window of at most [w] outcomes drops at most the oldest. *)
Lemma trim_snoc w r ok :
  1 ≤ w → Z.of_nat (length r) ≤ w →
  ∃ r', trim w (r ++ [ok]) = Some r' ∧ Z.of_nat (length r') ≤ w ∧
    fails r + fails [ok] - 1 ≤ fails r' ≤ fails r + fails [ok].
Proof.
  intros Hw Hr. rewrite trim_in_range by lia. eexists; split; [done|].
  assert (length (r ++ [ok]) - Z.to_nat w ≤ 1)%nat as Hk by (rewrite length_app; simpl; lia).
  split; [rewrite length_drop, length_app; simpl; lia|].
  revert Hk. generalize (length (r ++ [ok]) - Z.to_nat w)%nat as k. intros k Hk.
  pose proof (fails_app (take k (r ++ [ok])) (drop k (r ++ [ok]))) as Hf.
  rewrite take_drop, fails_app in Hf.
  pose proof (fails_le_length (take k (r ++ [ok]))) as Hl. rewrite length_take in Hl.
  pose proof (fails_nonneg (take k (r ++ [ok]))). lia.
Qed.

(** *** Preservation *)

Lemma wf_new thr cool : thr ≤ 10000 → wf (NewCircuitBreaker thr cool).
Proof.
  intros Hthr. unfold NewCircuitBreaker, wf, recent_of; simpl.
  rewrite wrap64_small by (unfold min_int64, max_int64; lia).
  split_and!; [lia|done|]. intros t. rewrite !lookup_empty. simpl. split; [lia|].
  split; [by intros [? ?]|]. rewrite fails_nil. lia.
Qed.

Lemma wf_Open cb t n1 n2 : wf cb → wf (snd (Open cb t n1 n2)).
Proof.
  intros (H1 & H2 & Hall). unfold Open. destruct (openUntil cb !! t) as [til|] eqn:Et; [|done].
  case_match; [done|]. split_and!; [done..|]. intros t'. unfold recent_of in *; simpl.
  destruct (Hall t') as [Hlen Hop]. split; [done|]. rewrite <- Hop.
  destruct (decide (t = t')) as [<-|Hne].
  - rewrite lookup_insert_eq, Et. by split; eauto.
  - by rewrite lookup_insert_ne.
Qed.

Lemma Record_spec cb t ok now :
  wf cb → ∃ cb', Record_ cb t ok now = Some cb' ∧ wf cb'.
Proof.
  intros (H1 & H2 & Hall). unfold Record_.
  destruct (ok && bool_decide _) eqn:Eok.
  { to_prop; subst. eexists; split; [done|]. split_and!; [done..|]. intros t'.
    unfold recent_of in *; simpl. destruct (decide (t = t')) as [<-|Hne].
    - rewrite !lookup_delete_eq. simpl. split; [lia|]. split; [by intros [??]|].
      rewrite fails_nil; lia.
    - rewrite !lookup_delete_ne by done. apply Hall. }
  destruct (Hall t) as [Hlen Hop]. fold (recent_of cb t).
  destruct (trim_snoc (window cb) (recent_of cb t) ok) as (r' & -> & Hlen' & Hf); [lia|done|].
  eexists; split; [done|].
  assert (is_Some (openUntil cb !! t) → threshold cb ≤ fails r') as Hkeep.
  { intros Hso. assert (ok = false) as ->.
    { destruct ok; [|done]. simpl in Eok. rewrite bool_decide_eq_true_2 in Eok by done. done. }
    apply Hop in Hso. change (fails [false]) with 1 in Hf. lia. }
  destruct (_ <=? fails r') eqn:Eth; to_prop; (split_and!; [done..|]); intros t';
    unfold recent_of in *; simpl in *; (destruct (decide (t = t')) as [<-|Hne];
      [|rewrite ?lookup_insert_ne by done; apply Hall]).
  - rewrite !lookup_insert_eq. simpl. split; [done|]. by split; eauto.
  - rewrite !lookup_insert_eq. simpl. split; [done|]. split; [auto|]. lia.
Qed.

Lemma wf_step cb c : wf cb → ∃ cb', step cb c = Some cb' ∧ wf cb'.
Proof.
  destruct c; simpl; intros Hwf.
  - eexists; split; [done|]. by apply wf_Open.
  - by apply Record_spec.
Qed.

Lemma wf_run cb cs : wf cb → ∃ cb', run cb cs = Some cb' ∧ wf cb'.
Proof.
  revert cb. induction cs as [|c cs IH]; intros cb Hwf; simpl; [eauto|].
  destruct (wf_step cb c Hwf) as (cb' & -> & Hwf'). by apply IH.
Qed.

(** *** Frame: a call concerns one target only *)

Lemma step_other cb c cb' t :
  step cb c = Some cb' → call_target c ≠ t →
  recent_of cb' t = recent_of cb t ∧ openUntil cb' !! t = openUntil cb !! t ∧
  threshold cb' = threshold cb ∧ window cb' = window cb ∧ cooldown cb' = cooldown cb.
Proof.
  intros Hs Hne. destruct c as [u n1 n2|u ok n]; simpl in *; unfold recent_of.
  - injection Hs as <-. unfold Open. repeat case_match; simpl; rewrite ?lookup_insert_ne; done.
  - unfold Record_ in Hs. repeat case_match; simplify_eq/=;
      rewrite ?lookup_insert_ne, ?lookup_delete_ne; done.
Qed.

Lemma step_params cb c cb' : step cb c = Some cb' →
  threshold cb' = threshold cb ∧ window cb' = window cb ∧ cooldown cb' = cooldown cb.
Proof.
  intros Hs. destruct c as [u n1 n2|u ok n]; simpl in *.
  - injection Hs as <-. unfold Open. by repeat case_match.
  - unfold Record_ in Hs. by repeat case_match; simplify_eq/=.
Qed.

(** ** Abstract specification

    A target's circuit as its documentation describes it: the outcomes
    observed since the last confirmed recovery, tripped iff [thr] of the last
    [2*thr] are failures. No clock and no window bookkeeping. *)

Module Spec.
Definition state := string → list bool.

Definition init : state := λ _, [].

Definition lastn {A} (n : nat) (l : list A) : list A := drop (length l - n) l.

Definition down (thr : Z) (h : list bool) : bool :=
  thr <=? fails (lastn (Z.to_nat (2 * thr)) h).

Definition observe (thr : Z) (h : list bool) (ok : bool) : list bool :=
  if ok && down thr h then [] else h ++ [ok].

Definition step (thr : Z) (s : state) (c : call) : state :=
  match c with
  | COpen _ _ _ => s
  | CRecord t ok _ => λ u, if decide (u = t) then observe thr (s t) ok else s u
  end.

Definition run (thr : Z) (s : state) (cs : list call) : state := foldl (step thr) s cs.

Lemma run_app thr s cs1 cs2 : run thr s (cs1 ++ cs2) = run thr (run thr s cs1) cs2.
Proof. apply foldl_app. Qed.

Lemma lastn_snoc {A} n (h : list A) x : (1 ≤ n)%nat →
  lastn n (lastn n h ++ [x]) = lastn n (h ++ [x]).
Proof.
  intros Hn. unfold lastn. rewrite !length_app, length_drop. cbn [length].
  destruct (decide (length h < n)%nat) as [Hlt|Hge].
  - replace (length h - n)%nat with 0%nat by lia. rewrite drop_0.
    f_equal. lia.
  - rewrite (drop_app_le h) by lia. rewrite drop_app_le by (rewrite length_drop; lia).
    rewrite drop_drop. do 2 f_equal. lia.
Qed.

Lemma lastn_suffix {A} n (h s : list A) : length s = n → lastn n (h ++ s) = s.
Proof.
  intros <-. unfold lastn. rewrite length_app.
  replace (length h + length s - length s)%nat with (length h) by lia.
  apply drop_app_length.
Qed.

Lemma fails_lastn_replicate (h : list bool) (thr : Z) : (1 ≤ thr)%Z →
  thr ≤ fails (lastn (Z.to_nat (2 * thr)) (h ++ replicate (Z.to_nat thr) false)).
Proof.
  intros Hthr. unfold lastn. rewrite length_app, length_replicate.
  rewrite drop_app_le by lia. rewrite fails_app.
  pose proof (fails_nonneg (drop (length h + Z.to_nat thr - Z.to_nat (2 * thr)) h)).
  assert (fails (replicate (Z.to_nat thr) false) = thr); [|lia].
  unfold fails. transitivity (Z.of_nat (Z.to_nat thr)); [clear|lia].
  induction (Z.to_nat thr); simpl; lia.
Qed.
End Spec.

(** The simulation relation. *)
Definition refines (cb : CircuitBreaker) (s : Spec.state) : Prop :=
  wf cb ∧ ∀ t, recent_of cb t = Spec.lastn (Z.to_nat (2 * threshold cb)) (s t) ∧
               Down cb t = Spec.down (threshold cb) (s t).

Lemma wf_Down cb t : wf cb → Down cb t = (threshold cb <=? fails (recent_of cb t)).
Proof.
  intros (_ & _ & Hall). unfold Down. destruct (Hall t) as [_ Hop].
  destruct (_ <=? _) eqn:E; to_prop.
  - apply bool_decide_eq_true_2. by apply Hop.
  - apply bool_decide_eq_false_2. rewrite Hop. lia.
Qed.

Lemma refines_intro cb s :
  wf cb → (∀ t, recent_of cb t = Spec.lastn (Z.to_nat (2 * threshold cb)) (s t)) → refines cb s.
Proof.
  intros Hwf Hr. split; [done|]. intros t. split; [done|].
  unfold Spec.down. rewrite <- Hr. by apply wf_Down.
Qed.

Lemma Record_recent cb t ok now cb' :
  wf cb → Record_ cb t ok now = Some cb' →
  recent_of cb' t = if ok && Down cb t then []
    else Spec.lastn (Z.to_nat (window cb)) (recent_of cb t ++ [ok]).
Proof.
  intros (H1 & H2 & _) Hrec. unfold Record_, Down in *.
  destruct (ok && bool_decide _) eqn:Eok; simplify_eq.
  - unfold recent_of. simpl. by rewrite lookup_delete_eq.
  - fold (recent_of cb t) in Hrec. rewrite trim_in_range in Hrec by lia.
    unfold recent_of at 1. repeat case_match; simplify_eq/=; by rewrite lookup_insert_eq.
Qed.

Lemma refines_step cb s c : refines cb s →
  ∃ cb', step cb c = Some cb' ∧ refines cb' (Spec.step (threshold cb) s c).
Proof.
  intros [Hwf Hr]. destruct (wf_step cb c Hwf) as (cb' & Hs & Hwf').
  destruct (step_params _ _ _ Hs) as (Hthr & Hwin & _).
  exists cb'. split; [done|]. apply refines_intro; [done|]. intros t. rewrite Hthr.
  destruct c as [u n1 n2|u ok n]; simpl in *.
  - rewrite <- (proj1 (Hr t)). injection Hs as <-. unfold Open.
    by repeat case_match.
  - destruct (decide (t = u)) as [->|Hne].
    + rewrite (Record_recent _ _ _ _ _ Hwf Hs). unfold Spec.observe.
      destruct (Hr u) as [Hru Hdu]. rewrite Hdu. case_match; [done|].
      destruct Hwf as (H1 & -> & _). rewrite Hru. apply Spec.lastn_snoc. lia.
    + destruct (step_other cb (CRecord u ok n) cb' t) as [-> _]; [done..|]. apply Hr.
Qed.

Lemma refines_run cb s cs : refines cb s →
  ∃ cb', run cb cs = Some cb' ∧ refines cb' (Spec.run (threshold cb) s cs) ∧
    threshold cb' = threshold cb.
Proof.
  revert cb s. induction cs as [|c cs IH]; intros cb s Hr; simpl; [by eauto|].
  destruct (refines_step cb s c Hr) as (cb1 & Hs & Hr1).
  destruct (step_params _ _ _ Hs) as (Hthr & _ & _). rewrite Hs.
  destruct (IH _ _ Hr1) as (cb' & Hrun & Hr' & Ht'). rewrite Hthr in Hr', Ht'. by eauto.
Qed.

Lemma refines_new thr cool : thr ≤ 10000 → refines (NewCircuitBreaker thr cool) Spec.init.
Proof.
  intros Hthr. apply refines_intro; [by apply wf_new|]. intros t.
  unfold recent_of, NewCircuitBreaker, Spec.init, Spec.lastn. simpl.
  by rewrite lookup_empty.
Qed.

(** *** Half-open probing *)

Lemma Open_reserved cb t n1 n2 til :
  openUntil cb !! t = Some til → n1 < til → Open cb t n1 n2 = (true, cb).
Proof. intros Ht Hlt. unfold Open. by rewrite Ht, (proj2 (Z.ltb_lt _ _)). Qed.

(** A call that neither records an outcome of [t] nor reads the clock past
    [til] while opening [t]. *)
Definition quiet (t : string) (til : Z) (c : call) : Prop :=
  match c with
  | COpen u n1 _ => u = t → n1 < til
  | CRecord u _ _ => u ≠ t
  end.

Lemma quiet_run cb cs cb' t til :
  openUntil cb !! t = Some til → Forall (quiet t til) cs → run cb cs = Some cb' →
  openUntil cb' !! t = Some til.
Proof.
  revert cb. induction cs as [|c cs IH]; intros cb Ht Hq Hrun; simpl in *; [congruence|].
  inversion_clear Hq as [|? ? Hc Hcs]. destruct (step cb c) as [cb1|] eqn:Hs; [|done].
  apply (IH cb1); [|done..].
  destruct (decide (call_target c = t)) as [Heq|Hne].
  - destruct c as [u n1 n2|u ok n]; simpl in *; subst; [|done].
    rewrite (Open_reserved cb t n1 n2 til) in Hs by auto. simpl in Hs. congruence.
  - destruct (step_other cb c cb1 t Hs Hne) as (_ & -> & _). done.
Qed.

(** Outcomes of the target [t] recorded by a run, in order. *)
Definition outcomes (t : string) (cs : list call) : list bool :=
  omap (λ c, match c with CRecord u ok _ => if decide (u = t) then Some ok else None
                        | COpen _ _ _ => None end) cs.

Lemma spec_run_failures thr t cs s :
  Forall (λ ok, ok = false) (outcomes t cs) →
  Spec.run thr s cs t = s t ++ outcomes t cs.
Proof.
  revert s. induction cs as [|c cs IH]; intros s Hf; simpl; [by rewrite app_nil_r|].
  destruct c as [u n1 n2|u ok n]; simpl in *; [by apply IH|].
  destruct (decide (u = t)) as [->|Hne]; simpl in *.
  - inversion_clear Hf as [|? ? -> Hf']. unfold Spec.run in IH |- *. simpl.
    rewrite IH by done. simpl. rewrite decide_True by done.
    unfold Spec.observe. simpl. by rewrite <- app_assoc.
  - rewrite IH by done. simpl. by rewrite decide_False by done.
Qed.

(** ** Properties *)

(** C31: for every configuration the service accepts (threshold at most 10000)
    and every interleaving of the worker pool's calls, the breaker never
    panics and refines its documented behaviour: each target's rolling window
    is exactly the last [2*threshold] outcomes since its last confirmed
    recovery, and it reads as down iff at least [threshold] of them failed. *)
Theorem breaker_refines_spec (thr cool : Z) (cs : list call) :
  thr ≤ 10000 →
  ∃ cb, run (NewCircuitBreaker thr cool) cs = Some cb ∧
    ∀ t, let h := Spec.run (Z.max thr 1) Spec.init cs t in
      recent_of cb t = Spec.lastn (Z.to_nat (2 * Z.max thr 1)) h ∧
      Down cb t = Spec.down (Z.max thr 1) h.
Proof.
  intros Hthr. destruct (refines_run _ _ cs (refines_new thr cool Hthr)) as (cb & Hrun & [_ Hr] & Ht).
  exists cb. split; [done|]. intros t. destruct (Hr t) as [Hrec Hdown].
  rewrite Ht in Hrec, Hdown. done.
Qed.

(** A target trips: [threshold] failures in a row, whatever other calls the
    pool interleaves, leave its circuit open, however healthy it was before. *)
Theorem consecutive_failures_trip (thr cool : Z) (before cs : list call) (t : string) :
  thr ≤ 10000 →
  outcomes t cs = replicate (Z.to_nat (Z.max thr 1)) false →
  ∃ cb, run (NewCircuitBreaker thr cool) (before ++ cs) = Some cb ∧ Down cb t = true.
Proof.
  intros Hthr Hout.
  destruct (refines_run _ _ (before ++ cs) (refines_new thr cool Hthr)) as (cb & Hrun & [_ Hr] & Ht).
  exists cb. split; [done|]. destruct (Hr t) as [_ ->]. rewrite Ht. clear Hr Hrun.
  change (threshold (NewCircuitBreaker thr cool)) with (Z.max thr 1).
  rewrite Spec.run_app.
  rewrite spec_run_failures by (rewrite Hout; by apply Forall_replicate).
  rewrite Hout. unfold Spec.down. apply Z.leb_le.
  apply Spec.fails_lastn_replicate. lia.
Qed.

(** Half-open recovery admits one probe: once a caller has been let through
    to probe a tripped target, every other [Open] of it before the cooldown
    elapses is told to skip, whatever the pool does to other targets. *)
Theorem half_open_single_probe (cb cb1 cb2 : CircuitBreaker) (t : string)
    (n1 n2 m1 m2 : Z) (cs : list call) :
  Down cb t = true →
  Open cb t n1 n2 = (false, cb1) →
  Forall (quiet t (n2 + cooldown cb)) cs →
  run cb1 cs = Some cb2 →
  m1 < n2 + cooldown cb →
  Open cb2 t m1 m2 = (true, cb2).
Proof.
  intros Hd Hop Hq Hrun Hm. apply bool_decide_eq_true_1 in Hd as [til Ht].
  unfold Open in Hop. rewrite Ht in Hop. case_match; simplify_eq.
  eapply Open_reserved; [|done].
  eapply quiet_run; [|done..]. apply lookup_insert_eq.
Qed.

(** Targets are isolated: a run that makes no call about [t] leaves [t]'s
    window and circuit as they were. *)
Theorem breaker_isolation (cb cb' : CircuitBreaker) (cs : list call) (t : string) :
  run cb cs = Some cb' → Forall (λ c, call_target c ≠ t) cs →
  recent_of cb' t = recent_of cb t ∧ openUntil cb' !! t = openUntil cb !! t.
Proof.
  revert cb. induction cs as [|c cs IH]; intros cb Hrun Hall; simpl in *; [by simplify_eq|].
  inversion_clear Hall as [|? ? Hc Hcs]. destruct (step cb c) as [cb1|] eqn:Hs; [|done].
  destruct (step_other cb c cb1 t Hs Hc) as (<- & <- & _). by apply IH.
Qed.

(** The reason for the configuration's cap: a threshold past half the int
    range overflows the window to a negative number, and the first outcome
    recorded then panics. *)
Theorem window_overflow_panics (thr cool : Z) (t : string) (ok : bool) (now : Z) :
  2 ^ 62 ≤ thr ≤ max_int64 → Record_ (NewCircuitBreaker thr cool) t ok now = None.
Proof.
  unfold max_int64. intros Hthr. unfold Record_, NewCircuitBreaker; simpl.
  rewrite !lookup_empty, bool_decide_eq_false_2, andb_false_r by (by intros [??]); simpl.
  assert (wrap64 (2 * Z.max thr 1) < 0) as Hneg.
  { unfold wrap64. rewrite (Zmod_eq_full _ (2 ^ 64)) by lia.
    assert ((2 * Z.max thr 1 + 2 ^ 63) / 2 ^ 64 = 1) as ->
      by (symmetry; apply Z.div_unique with (2 * Z.max thr 1 + 2 ^ 63 - 2 ^ 64); lia).
    lia. }
  unfold trim, slice_from; simpl.
  rewrite (proj2 (Z.ltb_lt _ _)) by lia.
  rewrite (proj2 (Z.leb_gt (_ - _) _)) by lia. by rewrite andb_false_r.
Qed.

(** *** Witnesses *)

Definition flaky : list call :=
  [CRecord "s3" false 1; CRecord "s3" true 2; COpen "fs" 3 3; CRecord "s3" false 4].

Lemma breaker_refines_spec_witness :
  ∃ cb, run (NewCircuitBreaker 2 60) flaky = Some cb ∧
    ∀ t, let h := Spec.run 2 Spec.init flaky t in
      recent_of cb t = Spec.lastn 4 h ∧ Down cb t = Spec.down 2 h.
Proof. apply (breaker_refines_spec 2 60 flaky). lia. Defined.

Lemma consecutive_failures_trip_witness :
  ∃ cb, run (NewCircuitBreaker 2 60)
    ([CRecord "s3" true 1; CRecord "s3" true 2] ++
     [CRecord "s3" false 3; CRecord "fs" true 4; CRecord "s3" false 5]) = Some cb ∧
    Down cb "s3" = true.
Proof. apply (consecutive_failures_trip 2 60 _ _ "s3"); [lia|reflexivity]. Defined.

Lemma half_open_single_probe_witness :
  let cb := MkCB 1 2 60 {["s3" := [false]]} {["s3" := 70]} in
  let cb1 := MkCB 1 2 60 {["s3" := [false]]} {["s3" := 131]} in
  Open cb1 "s3" 130 130 = (true, cb1).
Proof.
  apply (half_open_single_probe
    (MkCB 1 2 60 {["s3" := [false]]} {["s3" := 70]})
    (MkCB 1 2 60 {["s3" := [false]]} {["s3" := 131]})
    (MkCB 1 2 60 {["s3" := [false]]} {["s3" := 131]}) "s3" 70 71 130 130 [COpen "s3" 100 100]).
  - reflexivity.
  - reflexivity.
  - repeat constructor.
  - reflexivity.
  - simpl. lia.
Defined.

Lemma breaker_isolation_witness :
  let cb := MkCB 1 2 60 {["s3" := [false]]} {["s3" := 70]} in
  ∃ cb', run cb [CRecord "fs" false 5; COpen "fs" 6 6] = Some cb' ∧
    recent_of cb' "s3" = recent_of cb "s3" ∧ openUntil cb' !! "s3" = openUntil cb !! "s3".
Proof.
  eexists. split; [reflexivity|].
  apply (breaker_isolation _ _ [CRecord "fs" false 5; COpen "fs" 6 6]); [reflexivity|].
  repeat constructor; discriminate.
Defined.

Lemma window_overflow_panics_witness :
  Record_ (NewCircuitBreaker (2 ^ 62) 60) "s3" true 1 = None.
Proof. apply (window_overflow_panics (2 ^ 62) 60 "s3" true 1). unfold max_int64. lia. Defined.

End Circuit.
