(* ===== verification/Keyset.v ===== *)
(** * Keyset-paginated sweeps

    [src/internal/domain/keyset.go] ([keysetPull], [KeysetLoop]) and the
    sampled sweep of [src/internal/domain/audit.go] ([keysetSample],
    [trimAtBoundary], [wrapEnd], [sampledStart]).

    A page function answers [pageFn k after limit]: the answer to the [k]-th
    query of the sweep, so a table that changes between two pages is covered.
    Consumers are state transformers [fn : S -> T -> S * goerr]. *)

From S2P Require Import Prelude GoRuntime.
From Stdlib Require Import ZArith Lia.
From stdpp Require Import base strings list numbers.

Module Keyset.

Inductive res (A : Type) := Ok (a : A) | Er (e : err).
Arguments Ok {A} a.
Arguments Er {A} e.

Definition KeysetPageSize : nat := 1000.
#[global] Arguments KeysetPageSize : simpl never.

Lemma KeysetPageSize_pos : 1 ≤ KeysetPageSize.
Proof. unfold KeysetPageSize. lia. Qed.

(** Run a consumer over a list, stopping at its first error. *)
Fixpoint for_each {S T} (fn : S → T → S * goerr) (s : S) (l : list T) : S * goerr :=
  match l with
  | [] => (s, None)
  | x :: l =>
      match fn s x with
      | (s', Some e) => (s', Some e)
      | (s', None) => for_each fn s' l
      end
  end.

Lemma for_each_app {S T} (fn : S → T → S * goerr) s l1 l2 :
  for_each fn s (l1 ++ l2) =
    match for_each fn s l1 with
    | (s', Some e) => (s', Some e)
    | (s', None) => for_each fn s' l2
    end.
Proof.
  revert s. induction l1 as [|x l1 IH]; intros s; simpl; [done|].
  destruct (fn s x) as [s' [e|]]; [done|apply IH].
Qed.

Lemma for_each_concat {S T} (fn : S → T → S * goerr) s pages :
  for_each (for_each fn) s pages = for_each fn s (concat pages).
Proof.
  revert s. induction pages as [|p pages IH]; intros s; simpl; [done|].
  rewrite for_each_app. destruct (for_each fn s p) as [s' [e|]]; [done|apply IH].
Qed.

Lemma for_each_map {A B} (f : A → B) (l : list A) acc :
  for_each (λ acc x, (acc ++ [f x], None)) acc l = (acc ++ (f <$> l), None).
Proof.
  revert acc. induction l as [|x l IH]; intros acc; simpl; [by rewrite app_nil_r|].
  by rewrite IH, <- app_assoc.
Qed.

Section pull.
Context {C T : Type} `{KeyOrd C} (cursorOf : T → C).

(** The variables [keysetPull]'s closure captures, and the number of queries
    made so far. *)
Record pull := MkPull {
  p_after : C; p_page : list T; p_i : nat; p_done : bool; p_calls : nat;
}.

Context (pageFn : nat → C → nat → res (list T)) (pageSize : nat).

Definition keysetPull (start : C) : pull := MkPull start [] 0 false 0.

(** One call of the closure [next]. The Go loop [for i >= len(page)] runs its
    body at most once: a non-empty fetched page resets [i] to 0. *)
Definition next (p : pull) : pull * res (option T) :=
  let yield p :=
    match p_page p !! p_i p with
    | Some x => (MkPull (p_after p) (p_page p) (S (p_i p)) (p_done p) (p_calls p), Ok (Some x))
    | None => (p, Ok None)
    end in
  if decide (p_i p < length (p_page p)) then yield p
  else if p_done p then (p, Ok None)
  else
    match pageFn (p_calls p) (p_after p) pageSize with
    | Er e => (MkPull (p_after p) (p_page p) (p_i p) (p_done p) (S (p_calls p)), Er e)
    | Ok pg =>
        let done := p_done p || bool_decide (length pg < pageSize) in
        match list.last pg with
        | None => (MkPull (p_after p) (p_page p) (p_i p) done (S (p_calls p)), Ok None)
        | Some z => yield (MkPull (cursorOf z) pg 0 done (S (p_calls p)))
        end
    end.

(** [KeysetLoop]: [None] when the fuel runs out. *)
Fixpoint loop {S} (fuel : nat) (fn : S → T → S * goerr) (s : S) (p : pull) : option (S * goerr) :=
  match fuel with
  | O => None
  | Datatypes.S fuel =>
      match next p with
      | (_, Er e) => Some (s, Some e)
      | (_, Ok None) => Some (s, None)
      | (p', Ok (Some x)) =>
          match fn s x with
          | (s', Some e) => Some (s', Some e)
          | (s', None) => loop fuel fn s' p'
          end
      end
  end.

Definition KeysetLoop {S} (fuel : nat) (start : C) (fn : S → T → S * goerr) (s : S)
    : option (S * goerr) :=
  loop fuel fn s (keysetPull start).

(** ** A stable table

    The rows a keyset query of a table with ascending keys returns. *)

Definition above (rows : list T) (a : C) : list T := List.filter (λ x, a <ₖ cursorOf x) rows.

Definition table_page (rows : list T) (a : C) (limit : nat) : list T := take limit (above rows a).

Definition keyed_ascending (rows : list T) : Prop := ascending (cursorOf <$> rows).

Lemma above_all rows a : Forall (λ x, a <ₖ cursorOf x = true) rows → above rows a = rows.
Proof.
  unfold above. induction 1 as [|x l Hx _ IH]; simpl; [done|]. by rewrite Hx, IH.
Qed.

Lemma above_none rows a : Forall (λ x, a <ₖ cursorOf x = false) rows → above rows a = [].
Proof. unfold above. induction 1 as [|x l Hx _ IH]; simpl; [done|]. by rewrite Hx. Qed.

Lemma keyed_ascending_cons x rows :
  keyed_ascending (x :: rows) ↔
  keyed_ascending rows ∧ Forall (λ y, cursorOf x <ₖ cursorOf y = true) rows.
Proof.
  unfold keyed_ascending. rewrite fmap_cons, ascending_cons. by rewrite Forall_fmap.
Qed.

Lemma keyed_ascending_above rows a : keyed_ascending rows → keyed_ascending (above rows a).
Proof.
  induction rows as [|x rows IH]; [done|]. rewrite keyed_ascending_cons. intros [Hasc Hx].
  unfold above; simpl. destruct (a <ₖ cursorOf x); [|by apply IH].
  apply keyed_ascending_cons. split; [by apply IH|].
  rewrite list.Forall_forall in Hx |- *. intros y Hy. apply Hx.
  apply list_elem_of_In in Hy. apply List.filter_In in Hy as [Hy _]. by apply list_elem_of_In.
Qed.

(** An ascending table above the cursor of its [n]-th remaining row is what
    is left after [n] rows. *)
Lemma above_split rows l1 z l2 :
  keyed_ascending rows → rows = l1 ++ z :: l2 → above rows (cursorOf z) = l2.
Proof.
  intros Hasc ->. unfold keyed_ascending in Hasc. rewrite fmap_app in Hasc.
  apply ascending_app in Hasc as (_ & Hz & H1).
  rewrite fmap_cons, ascending_cons in Hz. destruct Hz as [_ Hz].
  unfold above. rewrite List.filter_app. simpl. rewrite klt_irrefl.
  fold (above l1 (cursorOf z)) (above l2 (cursorOf z)).
  rewrite above_none, above_all; [done| |].
  - by rewrite Forall_fmap in Hz.
  - apply list.Forall_forall. intros x Hx. apply klt_asym, H1; [|by left].
    by apply list_elem_of_fmap_2.
Qed.

Lemma above_above rows a b : b <ₖ a = true → above (above rows b) a = above rows a.
Proof.
  intros Hba. unfold above. induction rows as [|x rows IH]; simpl; [done|].
  destruct (b <ₖ cursorOf x) eqn:Eb; simpl; [by rewrite IH|].
  destruct (a <ₖ cursorOf x) eqn:Ea; [|done].
  pose proof (klt_trans _ _ _ Hba Ea). congruence.
Qed.

Lemma above_next rows b l1 z l2 :
  keyed_ascending rows → above rows b = l1 ++ z :: l2 → above rows (cursorOf z) = l2.
Proof.
  intros Hasc Heq.
  assert (b <ₖ cursorOf z = true) as Hbz.
  { assert (List.In z (above rows b)) as Hin.
    { rewrite Heq. apply List.in_or_app. right. by left. }
    by apply List.filter_In in Hin as [_ ?]. }
  rewrite <- (above_above rows (cursorOf z) b) by done.
  eapply above_split; [by apply keyed_ascending_above|done].
Qed.

(** ** The sweep enumerates the table

    What the pull iterator still has to yield, at a state it can reach over a
    stable table. *)

Definition remaining (rows : list T) (p : pull) : list T :=
  drop (p_i p) (p_page p) ++ (if p_done p then [] else above rows (p_after p)).

Definition sweeping (rows : list T) (p : pull) : Prop :=
  p_i p ≤ length (p_page p).

Context (rows : list T) (Hpage : ∀ k a, pageFn k a pageSize = Ok (table_page rows a pageSize)).
Context (Hasc : keyed_ascending rows) (Hsize : 1 ≤ pageSize).

Lemma yield_at p :
  p_i p < length (p_page p) →
  ∃ x p', next p = (p', Ok (Some x)) ∧ remaining rows p = x :: remaining rows p' ∧ sweeping rows p'.
Proof.
  intros Hlt. unfold next. rewrite decide_True by done.
  destruct (p_page p !! p_i p) as [x|] eqn:Ex.
  2:{ apply lookup_ge_None in Ex. lia. }
  exists x. eexists; split_and!; [done| |unfold sweeping; simpl; lia].
  unfold remaining; simpl. by rewrite (drop_S _ _ _ Ex).
Qed.

(** One pull over a stable table: it yields the first of the remaining rows,
    or reports the end when none is left. *)
Lemma next_spec p : sweeping rows p →
  match remaining rows p with
  | [] => ∃ p', next p = (p', Ok None)
  | x :: l => ∃ p', next p = (p', Ok (Some x)) ∧ remaining rows p' = l ∧ sweeping rows p'
  end.
Proof.
  intros Hsw. destruct (decide (p_i p < length (p_page p))) as [Hlt|Hge].
  { destruct (yield_at p Hlt) as (x & p' & Hn & -> & Hs). by eauto. }
  unfold remaining. rewrite (drop_ge (p_page p)) by lia. simpl.
  unfold next. rewrite decide_False by done.
  destruct (p_done p) eqn:Edone; [by eauto|].
  rewrite Hpage. unfold table_page.
  destruct (list.last (take pageSize (above rows (p_after p)))) as [z|] eqn:Elast.
  2:{ apply last_None in Elast. destruct (above rows (p_after p)) as [|y l]; simpl; [by eauto|].
      destruct pageSize; [lia|done]. }
  apply last_Some in Elast as [l' Hl'].
  set (pg := take pageSize (above rows (p_after p))) in *.
  set (st := MkPull (cursorOf z) pg 0 (false || bool_decide (length pg < pageSize)) (S (p_calls p))).
  assert (remaining rows st = above rows (p_after p)) as Hrem.
  { unfold remaining, st; simpl. rewrite drop_0.
    pose proof (take_drop pageSize (above rows (p_after p))) as Htd. fold pg in Htd.
    etrans; [|exact Htd]. f_equal. case_bool_decide as Hshort.
    - symmetry. apply drop_ge. unfold pg in Hshort. rewrite length_take in Hshort. lia.
    - apply (above_next rows (p_after p) l' z); [done|].
      etrans; [symmetry; exact Htd|]. by rewrite Hl', <- app_assoc. }
  assert (p_i st < length (p_page st)) as Hlt'.
  { unfold st; simpl. rewrite Hl', length_app. simpl. lia. }
  destruct (yield_at st Hlt') as (x & p' & Hn & Hr & Hs).
  rewrite <- Hrem, Hr. exists p'. split; [|done].
  unfold next in Hn. rewrite decide_True in Hn by done. by rewrite <- Hn.
Qed.

Lemma loop_spec {S} (fn : S → T → S * goerr) s p fuel :
  sweeping rows p → length (remaining rows p) < fuel →
  loop fuel fn s p = Some (for_each fn s (remaining rows p)).
Proof.
  revert s p. induction fuel as [|fuel IH]; intros s p Hsw Hlen; [lia|]. simpl.
  pose proof (next_spec p Hsw) as Hn.
  destruct (remaining rows p) as [|x l].
  - destruct Hn as (p' & ->). done.
  - destruct Hn as (p' & -> & <- & Hsw'). simpl.
    destruct (fn s x) as [s' [e|]]; [done|]. apply IH; [done|]. simpl in Hlen. lia.
Qed.
End pull.

Arguments pull C T : clear implicits.

(** ** The sampled sweep *)

Fixpoint IndexFunc {A} (f : A → bool) (l : list A) : option nat :=
  match l with
  | [] => None
  | x :: l => if f x then Some 0 else S <$> IndexFunc f l
  end.

Definition trimAtBoundary (page : list string) (boundary : string) : list string * bool :=
  match IndexFunc (λ id, negb (str_ltb id boundary)) page with
  | Some i => (take i page, true)
  | None => (page, false)
  end.

(** Whether to wrap, and the updated [*wrapped] flag. *)
Definition wrapEnd (samplePerTarget : Z) (startAfter : string) (wrapped : bool) : bool * bool :=
  if (0 <? samplePerTarget)%Z && negb wrapped && bool_decide (startAfter ≠ "")
  then (true, true) else (false, wrapped).

Definition sampledStart (sample : Z) (randKeysetStart : string) : string :=
  if (0 <? sample)%Z then randKeysetStart else "".

Section sample.
Context {S : Type} (sample : Z) (startAfter : string).
Context (pageFn : nat → string → nat → res (list string)).
Context (emit : S → list string → S * goerr) (ctxs : nat → ctxState).

Definition page_limit (consumed : Z) : nat :=
  if (0 <? sample)%Z then Nat.min KeysetPageSize (Z.to_nat (sample - consumed)) else KeysetPageSize.

(** [keysetSample]'s loop. [k] counts its iterations (each makes at most one
    page query); [ctxs k] is [ctx.Err()] at the top of iteration [k]. *)
Fixpoint sample_loop (fuel : nat) (s : S) (after : string) (wrapped : bool) (consumed : Z) (k : nat)
    : option (S * goerr) :=
  match fuel with
  | O => None
  | Datatypes.S fuel =>
      match ctxs k with
      | Some c => Some (s, Some (ctx_error c))
      | None =>
          if (0 <? sample)%Z && (sample - consumed <=? 0)%Z then Some (s, None)
          else
            let limit := page_limit consumed in
            match pageFn k after limit with
            | Er e => Some (s, Some e)
            | Ok page0 =>
                let trimmed := if wrapped then trimAtBoundary page0 startAfter else (page0, false) in
                let segmentEnd := bool_decide (length page0 < limit) || trimmed.2 in
                let continue s after consumed :=
                  if segmentEnd then
                    if (wrapEnd sample startAfter wrapped).1
                    then sample_loop fuel s "" (wrapEnd sample startAfter wrapped).2 consumed (Datatypes.S k)
                    else Some (s, None)
                  else sample_loop fuel s after wrapped consumed (Datatypes.S k) in
                match list.last trimmed.1 with
                | None => continue s after consumed
                | Some z =>
                    match emit s trimmed.1 with
                    | (s', Some e) => Some (s', Some e)
                    | (s', None) => continue s' z (consumed + Z.of_nat (length trimmed.1))%Z
                    end
                end
            end
      end
  end.

Definition keysetSample (fuel : nat) (s : S) : option (S * goerr) :=
  sample_loop fuel s startAfter false 0 0.
End sample.

(** ** What a sampled sweep of a stable ledger emits *)

Definition below (rows : list string) (b : string) : list string :=
  List.filter (λ x, str_ltb x b) rows.

Abbreviation above_s := (above (λ x : string, x)).

Definition budget_take (sample : Z) (l : list string) : list string :=
  if (0 <? sample)%Z then take (Z.to_nat sample) l else l.

(** The band above the start, then (sampled sweeps that started mid-keyspace)
    the band strictly below it, cut to the sample. *)
Definition sample_spec (sample : Z) (startAfter : string) (rows : list string) : list string :=
  budget_take sample
    (above_s rows startAfter ++
     if (0 <? sample)%Z && bool_decide (startAfter ≠ "")
     then below (above_s rows "") startAfter else []).

Lemma IndexFunc_app_found {A} (f : A → bool) l1 x l2 :
  Forall (λ y, f y = false) l1 → f x = true → IndexFunc f (l1 ++ x :: l2) = Some (length l1).
Proof. intros Hl Hx. induction Hl as [|y l Hy _ IH]; simpl; [by rewrite Hx|]. by rewrite Hy, IH. Qed.

Lemma IndexFunc_none {A} (f : A → bool) l : Forall (λ y, f y = false) l → IndexFunc f l = None.
Proof. induction 1 as [|y l Hy _ IH]; simpl; [done|]. by rewrite Hy, IH. Qed.

Lemma below_nil l b : Forall (λ x, str_ltb x b = false) l → below l b = [].
Proof. unfold below. induction 1 as [|x l Hx _ IH]; simpl; [done|]. by rewrite Hx. Qed.

Lemma below_prefix (l : list string) b : ascending l →
  ∃ hi, l = below l b ++ hi ∧ Forall (λ x, str_ltb x b = false) hi.
Proof.
  induction l as [|x l IH]; intros Hasc; [by exists []|].
  apply ascending_cons in Hasc as [Hasc Hx].
  unfold below; simpl. destruct (str_ltb x b) eqn:E.
  - destruct (IH Hasc) as (hi & Heq & Hhi). exists hi. split; [|done].
    simpl. f_equal. exact Heq.
  - exists (x :: l). assert (Forall (λ y, str_ltb y b = false) l) as Hl.
    { eapply list.Forall_impl; [exact Hx|]. intros y Hy. simpl in Hy.
      destruct (str_ltb y b) eqn:Ey; [|done].
      pose proof (klt_trans x y b Hy Ey) as Hxb. simpl in Hxb. congruence. }
    split; [|by constructor]. change (x :: l = below l b ++ x :: l).
    by rewrite below_nil.
Qed.

Lemma below_all (l : list string) b : Forall (λ x, str_ltb x b = true) (below l b).
Proof.
  apply list.Forall_forall. intros x Hx%list_elem_of_In.
  by apply List.filter_In in Hx as [_ ?].
Qed.

Lemma below_app l1 l2 b : below (l1 ++ l2) b = below l1 b ++ below l2 b.
Proof. apply List.filter_app. Qed.

Lemma below_id l b : Forall (λ x, str_ltb x b = true) l → below l b = l.
Proof. unfold below. induction 1 as [|x l Hx _ IH]; simpl; [done|]. by rewrite Hx, IH. Qed.

(** Trimming a page of the wrapped pass yields a page of the band below the
    boundary, and tells whether that band is exhausted. *)
Lemma trim_page (l : list string) b n : ascending l →
  let t := trimAtBoundary (take n l) b in
  t.1 = take n (below l b) ∧
  bool_decide (length (take n l) < n) || t.2 = bool_decide (length (below l b) < n).
Proof.
  intros Hasc. destruct (below_prefix l b Hasc) as (hi & Hl & Hhi).
  set (lo := below l b) in *. assert (Forall (λ x, negb (str_ltb x b) = false) lo) as Hlo.
  { eapply list.Forall_impl; [apply below_all|]. simpl. intros x ->. done. }
  rewrite Hl. clear Hl. unfold trimAtBoundary. simpl.
  destruct (decide (n ≤ length lo)) as [Hn|Hn].
  - rewrite take_app_le by done.
    rewrite IndexFunc_none by (by apply Forall_take). simpl. split; [done|].
    rewrite orb_false_r. apply bool_decide_ext. rewrite length_take. lia.
  - rewrite take_app_ge by lia. destruct (n - length lo) as [|m] eqn:Em; [lia|].
    destruct hi as [|x hi]; simpl.
    + rewrite app_nil_r, IndexFunc_none by done. simpl. rewrite take_ge by lia.
      rewrite orb_false_r. done.
    + inversion_clear Hhi as [|? ? Hx _]. rewrite IndexFunc_app_found; [|done|by rewrite Hx].
      simpl. rewrite take_app_length, take_ge by lia. split; [done|].
      rewrite orb_true_r. symmetry. apply bool_decide_eq_true_2. lia.
Qed.

Section stable_sample.
Context {S : Type} (sample : Z) (startAfter : string) (rows : list string).
Context (pageFn : nat → string → nat → res (list string)).
Context (emit : S → list string → S * goerr) (ctxs : nat → ctxState).
Context (Hpage : ∀ k a n, pageFn k a n = Ok (table_page (λ x, x) rows a n)).
Context (Hasc : ascending rows) (Hlive : ∀ k, ctxs k = None).

Abbreviation sloop := (sample_loop sample startAfter pageFn emit ctxs).

(** The rest of the current segment, and the segment after it. *)
Definition seg (wrapped : bool) (after : string) : list string :=
  if wrapped then below (above_s rows after) startAfter else above_s rows after.

Definition wraps (wrapped : bool) : bool :=
  (0 <? sample)%Z && negb wrapped && bool_decide (startAfter ≠ "").

Lemma wraps_true : wraps true = false.
Proof. unfold wraps. by rewrite andb_false_r. Qed.

Definition next_seg (wrapped : bool) : list string :=
  if wraps wrapped then seg true "" else [].

Lemma asc_above after : ascending (above_s rows after).
Proof.
  pose proof (keyed_ascending_above (λ x : string, x) rows after) as Ha.
  unfold keyed_ascending in Ha. rewrite !list_fmap_id in Ha. auto.
Qed.

Lemma keyed_rows : keyed_ascending (λ x : string, x) rows.
Proof. unfold keyed_ascending. by rewrite list_fmap_id. Qed.

(** A page of the current segment, after the wrapped pass's trim. *)
Lemma seg_page (wrapped : bool) after n :
  let page0 := take n (above_s rows after) in
  let t := if wrapped then trimAtBoundary page0 startAfter else (page0, false) in
  t.1 = take n (seg wrapped after) ∧
  bool_decide (length page0 < n) || t.2 = bool_decide (length (seg wrapped after) < n).
Proof.
  simpl. destruct wrapped; simpl.
  - apply trim_page, asc_above.
  - split; [done|]. rewrite orb_false_r. apply bool_decide_ext.
    rewrite length_take. lia.
Qed.

Lemma seg_advance wrapped after n z :
  list.last (take n (seg wrapped after)) = Some z → n ≤ length (seg wrapped after) →
  seg wrapped z = drop n (seg wrapped after).
Proof.
  intros [l' Hl']%last_Some Hn.
  pose proof (take_drop n (seg wrapped after)) as Htd. rewrite Hl', <- app_assoc in Htd.
  destruct wrapped; simpl in *.
  - destruct (below_prefix (above_s rows after) startAfter) as (hi & Hab & Hhi); [apply asc_above|].
    rewrite <- Htd, <- app_assoc in Hab. simpl in Hab.
    rewrite (above_next (λ x, x) rows after l' z _ keyed_rows Hab).
    rewrite below_app, (below_nil hi), app_nil_r by done. apply below_id.
    apply Forall_drop, below_all.
  - symmetry in Htd. by apply (above_next (λ x, x) rows after l' z _ keyed_rows).
Qed.

Definition rest_spec (wrapped : bool) (after : string) (consumed : Z) : list string :=
  let l := seg wrapped after ++ next_seg wrapped in
  if (0 <? sample)%Z then take (Z.to_nat (sample - consumed)) l else l.

Definition fuel_for (wrapped : bool) (after : string) : nat :=
  length (seg wrapped after) + (if wraps wrapped then 2 + length (seg true "") else 0) + 1.

Lemma rest_spec_full wrapped after consumed n :
  n = page_limit sample consumed → n ≤ length (seg wrapped after) →
  rest_spec wrapped after consumed =
    take n (seg wrapped after) ++
    (let l := drop n (seg wrapped after) ++ next_seg wrapped in
     if (0 <? sample)%Z then take (Z.to_nat (sample - consumed) - n) l else l).
Proof.
  unfold page_limit, rest_spec. intros -> Hn. destruct (0 <? sample)%Z eqn:Es; cbv zeta.
  - set (m := Nat.min _ _) in *. assert (m ≤ Z.to_nat (sample - consumed)) by (subst m; lia).
    rewrite <- (take_drop m (seg wrapped after)) at 1. rewrite <- app_assoc.
    rewrite take_app_ge by (rewrite length_take; lia).
    f_equal. f_equal. rewrite length_take. lia.
  - by rewrite app_assoc, take_drop.
Qed.

Lemma rest_spec_short wrapped after consumed consumed' :
  ¬ page_limit sample consumed ≤ length (seg wrapped after) →
  consumed' = (consumed + Z.of_nat (length (seg wrapped after)))%Z →
  rest_spec wrapped after consumed =
    seg wrapped after ++ (if wraps wrapped then rest_spec true "" consumed' else []).
Proof.
  intros Hshort ->. unfold page_limit in Hshort. unfold rest_spec, next_seg; cbv zeta.
  destruct (0 <? sample)%Z eqn:Es.
  - rewrite take_app_ge by lia. f_equal. destruct (wraps wrapped) eqn:Ew.
    + rewrite wraps_true, app_nil_r. f_equal. lia.
    + by rewrite take_nil.
  - unfold wraps. by rewrite Es.
Qed.

Lemma rest_spec_next wrapped after consumed z :
  let n := page_limit sample consumed in
  n ≤ length (seg wrapped after) → list.last (take n (seg wrapped after)) = Some z →
  rest_spec wrapped after consumed = take n (seg wrapped after) ++ rest_spec wrapped z (consumed + Z.of_nat n).
Proof.
  intros n Hfull Hz. rewrite (rest_spec_full wrapped after consumed n eq_refl Hfull). f_equal.
  unfold rest_spec. rewrite (seg_advance wrapped after n z Hz Hfull).
  destruct (0 <? sample)%Z; [|done]. cbv zeta. f_equal. lia.
Qed.

Lemma rest_spec_spent wrapped after consumed :
  (0 <? sample)%Z && (sample - consumed <=? 0)%Z = true → rest_spec wrapped after consumed = [].
Proof.
  intros H. to_prop. unfold rest_spec. rewrite (proj2 (Z.ltb_lt 0 sample)) by lia.
  by replace (Z.to_nat (sample - consumed)) with 0 by lia.
Qed.

Lemma page_limit_pos consumed :
  (0 <? sample)%Z && (sample - consumed <=? 0)%Z = false → 1 ≤ page_limit sample consumed.
Proof.
  intros H. pose proof KeysetPageSize_pos. unfold page_limit. destruct (0 <? sample)%Z; [|lia].
  simpl in H. to_prop. lia.
Qed.

(** Emitting one more page and going on is emitting the longer list of pages. *)
Lemma emit_page s page rest (k : S → option (S * goerr)) :
  (∀ s', ∃ pages, concat pages = rest ∧ k s' = Some (for_each emit s' pages)) →
  ∃ pages, concat pages = page ++ rest ∧
    (let '(s', e) := emit s page in match e with Some e => Some (s', Some e) | None => k s' end)
    = Some (for_each emit s pages).
Proof.
  intros Hk. destruct (emit s page) as [s' e] eqn:Ee. destruct (Hk s') as (pages & Hc & Hr).
  exists (page :: pages). cbn [concat for_each]. rewrite Hc, Ee. split; [done|]. by destruct e.
Qed.

Lemma sample_loop_spec fuel s wrapped after consumed k :
  fuel_for wrapped after < fuel →
  ∃ pages, concat pages = rest_spec wrapped after consumed ∧
    sloop fuel s after wrapped consumed k = Some (for_each emit s pages).
Proof.
  revert s wrapped after consumed k. induction fuel as [|fuel IH];
    intros s wrapped after consumed k Hfuel; [lia|].
  cbn [sample_loop]. rewrite Hlive, Hpage.
  destruct ((0 <? sample)%Z && (sample - consumed <=? 0)%Z) eqn:Ebudget.
  { exists []. by rewrite rest_spec_spent. }
  pose proof (page_limit_pos consumed Ebudget) as Hn1.
  set (n := page_limit sample consumed) in *.
  unfold table_page. destruct (seg_page wrapped after n) as [Hpg Hend].
  cbv zeta. rewrite Hpg, Hend.
  destruct (decide (n ≤ length (seg wrapped after))) as [Hfull|Hshort].
  - (* a full page: the segment goes on *)
    rewrite (bool_decide_eq_false_2 (length (seg wrapped after) < n)) by lia.
    destruct (list.last (take n (seg wrapped after))) as [z|] eqn:Ez.
    2:{ apply last_None in Ez. apply (f_equal length) in Ez. rewrite length_take in Ez. simpl in Ez. lia. }
    rewrite (rest_spec_next wrapped after consumed z Hfull Ez). fold n.
    rewrite length_take, Nat.min_l by done. apply emit_page. intros s'. apply IH.
    unfold fuel_for in *. rewrite (seg_advance wrapped after n z Ez Hfull), length_drop. lia.
  - (* a short page: the segment ends, wrap at most once *)
    rewrite (bool_decide_eq_true_2 (length (seg wrapped after) < n)) by lia.
    rewrite (take_ge (seg wrapped after)) by lia.
    assert (∀ s' c',
      ∃ pages, concat pages = (if wraps wrapped then rest_spec true "" c' else []) ∧
        (if (wrapEnd sample startAfter wrapped).1
         then sloop fuel s' "" (wrapEnd sample startAfter wrapped).2 c' (Datatypes.S k)
         else Some (s', None)) = Some (for_each emit s' pages)) as Hcont.
    { intros s' c'. unfold wrapEnd. fold (wraps wrapped).
      destruct (wraps wrapped) eqn:Ew; simpl; [|by exists []].
      apply IH. unfold fuel_for in *. rewrite Ew in Hfuel. rewrite wraps_true. lia. }
    destruct (list.last (seg wrapped after)) as [z|] eqn:Ez.
    + rewrite (rest_spec_short wrapped after consumed _ Hshort eq_refl). apply emit_page. intros s'. apply Hcont.
    + apply last_None in Ez. rewrite (rest_spec_short wrapped after consumed consumed Hshort), Ez by (rewrite Ez; simpl; lia).
      apply Hcont.
Qed.
End stable_sample.

(** ** A table that changes between pages

    Every answered page is ascending and lies above the cursor it was asked
    for, and nothing else is assumed of it: rows may appear and disappear
    between two queries. *)

Section changing.
Context {C T : Type} `{KeyOrd C} (cursorOf : T → C).
Context (pageFn : nat → C → nat → res (list T)) (pageSize : nat).

Definition sorted_pages : Prop := ∀ k a pg, pageFn k a pageSize = Ok pg →
  ascending (cursorOf <$> pg) ∧ Forall (λ x, a <ₖ cursorOf x = true) pg.

Context (Hsorted : sorted_pages).

(** Everything yielded or buffered ascends and is at most the cursor. *)
Definition in_order (acc : list T) (p : pull C T) : Prop :=
  ascending (cursorOf <$> (acc ++ drop (p_i p) (p_page p))) ∧
  Forall (λ x, p_after p <ₖ cursorOf x = false) (acc ++ drop (p_i p) (p_page p)).

Lemma in_order_yield acc p x : p_page p !! p_i p = Some x → in_order acc p →
  in_order (acc ++ [x]) (MkPull (p_after p) (p_page p) (S (p_i p)) (p_done p) (p_calls p)).
Proof.
  unfold in_order; simpl. intros Hx. rewrite (drop_S _ _ _ Hx), <- app_assoc. done.
Qed.

Lemma in_order_fetch acc p pg z k : ¬ p_i p < length (p_page p) → in_order acc p →
  pageFn k (p_after p) pageSize = Ok pg → list.last pg = Some z →
  in_order acc (MkPull (cursorOf z) pg 0 (p_done p || bool_decide (length pg < pageSize)) (S k)).
Proof.
  unfold in_order; simpl. intros Hge [Hasc Hle] Hpg Hz. rewrite drop_ge, app_nil_r in Hasc, Hle by lia.
  rewrite drop_0. destruct (Hsorted _ _ _ Hpg) as [Hpgasc Hpgab].
  rewrite list.Forall_forall in Hle, Hpgab.
  assert (∀ a b, a ∈ acc → b ∈ pg → cursorOf a <ₖ cursorOf b = true) as Hcross.
  { intros a b Ha Hb. destruct (klt_ge_trans (cursorOf a) (p_after p) (cursorOf b)) as [?|[_ ?]];
      [by apply Hle|by apply Hpgab|done|done]. }
  split.
  - rewrite fmap_app. apply ascending_app. split_and!; [done..|].
    intros ? ? (a&->&?)%list_elem_of_fmap (b&->&?)%list_elem_of_fmap. by apply Hcross.
  - apply Forall_app. split; apply list.Forall_forall; intros a Ha.
    + apply klt_asym, Hcross; [done|]. by apply last_Some_elem_of.
    + destruct (ascending_last_max (cursorOf <$> pg) (cursorOf z) (cursorOf a)) as [->|?]; [done| | | |].
      * by rewrite fmap_last, Hz.
      * by apply list_elem_of_fmap_2.
      * apply klt_irrefl.
      * by apply klt_asym.
Qed.

Lemma loop_in_order fuel acc p r : in_order acc p →
  loop cursorOf pageFn pageSize fuel (λ acc x, (acc ++ [x], None)) acc p = Some r →
  ascending (cursorOf <$> r.1).
Proof.
  revert acc p. induction fuel as [|fuel IH]; intros acc p Hord Hloop; [done|].
  assert (ascending (cursorOf <$> acc)) as Hacc.
  { destruct Hord as [Hasc _]. rewrite fmap_app in Hasc. by apply ascending_app in Hasc as [? _]. }
  simpl in Hloop. unfold next in Hloop.
  destruct (decide (p_i p < length (p_page p))) as [Hlt|Hge].
  { destruct (p_page p !! p_i p) as [x|] eqn:Ex; simplify_eq/=; [|done].
    eapply IH; [by eapply in_order_yield|done]. }
  destruct (p_done p) eqn:Edone; simplify_eq/=; [done|].
  destruct (pageFn _ _ _) as [pg|e] eqn:Epg; simplify_eq/=; [|done].
  destruct (list.last pg) as [z|] eqn:Ez; simplify_eq/=; [|done].
  pose proof (in_order_fetch acc p pg z _ Hge Hord Epg Ez) as Hord'.
  rewrite Edone in Hord'. simpl in Hord'. destruct (pg !! 0) as [x|] eqn:Ex; simplify_eq/=; [|done].
  eapply IH; [|done]. by apply (in_order_yield _ _ x) in Hord'.
Qed.
End changing.

Lemma fuel_for_le sample startAfter rows :
  fuel_for sample startAfter rows false startAfter ≤ 2 * length rows + 3.
Proof.
  unfold fuel_for, seg, above, below.
  pose proof (List.filter_length_le (λ x, startAfter <ₖ x) rows).
  pose proof (List.filter_length_le (λ x, "" <ₖ x) rows).
  pose proof (List.filter_length_le (λ x, str_ltb x startAfter) (List.filter (λ x, "" <ₖ x) rows)).
  case_match; lia.
Qed.

(** ** How many ids a sample covers *)

Lemma str_trichotomy (a b : string) :
  (str_ltb a b = true ∧ str_ltb b a = false ∧ a ≠ b) ∨
  (str_ltb a b = false ∧ str_ltb b a = true ∧ a ≠ b) ∨
  (str_ltb a b = false ∧ str_ltb b a = false ∧ a = b).
Proof.
  destruct (klt_total a b) as [Hab|[->|Hba]]; simpl in *.
  - left. split_and!; [done|exact (klt_asym a b Hab)|exact (klt_not_eq a b Hab)].
  - right; right. pose proof (klt_irrefl b) as Hb. simpl in Hb. by rewrite Hb.
  - right; left. split_and!; [exact (klt_asym b a Hba)|done|].
    intros Heq. subst. pose proof (klt_irrefl b) as Hb. simpl in Hb. congruence.
Qed.

Lemma str_ltb_empty x : x ≠ "" → str_ltb "" x = true.
Proof. by destruct x. Qed.

Lemma above_empty rows : "" ∉ rows → above_s rows "" = rows.
Proof.
  intros Hne. apply above_all, list.Forall_forall. intros x Hx. apply str_ltb_empty. by intros ->.
Qed.

(** The bands above and below a boundary are disjoint and together hold every
    id but the boundary itself. *)
Lemma bands_mem rows b x : x ∈ above_s rows b ++ below rows b ↔ x ∈ rows ∧ x ≠ b.
Proof.
  unfold above, below. rewrite elem_of_app, !list_elem_of_In, !List.filter_In. simpl.
  destruct (str_trichotomy x b) as [(H1&H2&?)|[(H1&H2&?)|(H1&H2&?)]]; rewrite H1, H2; naive_solver.
Qed.

Lemma bands_NoDup rows b : NoDup rows → NoDup (above_s rows b ++ below rows b).
Proof.
  intros Hnd. apply list.NoDup_app. split_and!.
  - apply NoDup_ListNoDup, List.NoDup_filter, NoDup_ListNoDup, Hnd.
  - intros x. unfold above, below. rewrite !list_elem_of_In, !List.filter_In. intros [_ Hb] [_ Hb']. simpl in Hb.
    pose proof (klt_asym b x Hb) as Hc. simpl in Hc. congruence.
  - apply NoDup_ListNoDup, List.NoDup_filter, NoDup_ListNoDup, Hnd.
Qed.

Lemma bands_length rows b : NoDup rows →
  length (above_s rows b ++ below rows b) = length rows - (if decide (b ∈ rows) then 1 else 0).
Proof.
  intros Hnd. pose proof (bands_NoDup rows b Hnd) as Hb. case_decide as Hin.
  - assert (b :: (above_s rows b ++ below rows b) ≡ₚ rows) as Hp.
    2:{ apply Permutation_length in Hp. rewrite <- Hp. simpl. lia. }
    apply list.NoDup_Permutation; [|done|].
    + constructor; [|done]. rewrite bands_mem. naive_solver.
    + intros x. rewrite elem_of_cons, bands_mem. destruct (decide (x = b)); naive_solver.
  - rewrite Nat.sub_0_r. apply Permutation_length, list.NoDup_Permutation; [done..|].
    intros x. rewrite bands_mem. naive_solver.
Qed.

Lemma for_each_collect {A} (pages : list (list A)) acc :
  for_each (λ acc p, (acc ++ p, None)) acc pages = (acc ++ concat pages, None).
Proof.
  revert acc. induction pages as [|p pages IH]; intros acc; simpl; [by rewrite app_nil_r|].
  by rewrite IH, app_assoc.
Qed.

(** ** Properties *)

(** A linear keyset sweep ([KeysetLoop]) of a table with ascending keys
    terminates and hands its consumer exactly the rows above the start key,
    each once and in order, whatever the page size, stopping at the
    consumer's first error: no short-page or cursor mistake skips a row. *)
Theorem KeysetLoop_enumerates {C T S} `{KeyOrd C} (cursorOf : T → C) (rows : list T) (pageSize : nat)
    (start : C) (fn : S → T → S * goerr) (s : S) (fuel : nat) :
  keyed_ascending cursorOf rows → 1 ≤ pageSize → length (above cursorOf rows start) < fuel →
  KeysetLoop cursorOf (λ _ a n, Ok (table_page cursorOf rows a n)) pageSize fuel start fn s =
    Some (for_each fn s (above cursorOf rows start)).
Proof.
  intros Hasc Hsize Hfuel. unfold KeysetLoop.
  rewrite (loop_spec cursorOf _ pageSize rows); [done|done|done|done|unfold sweeping; simpl; lia|done].
Qed.

Lemma KeysetLoop_enumerates_witness :
  KeysetLoop (λ x : N, x) (λ _ a n, Ok (table_page (λ x, x) [1; 3; 5; 8]%N a n)) 2 9 1%N
    (λ acc x, (acc ++ [x], None)) [] = Some ([3; 5; 8]%N, None).
Proof.
  rewrite (KeysetLoop_enumerates (λ x : N, x) [1; 3; 5; 8]%N 2 1%N).
  - reflexivity.
  - repeat constructor.
  - lia.
  - vm_compute. lia.
Defined.

(** A sweep never visits a key twice and never goes back, even when rows
    are inserted or deleted between its page queries (backfill, reconcile
    and the manifest snapshot run against a live database). *)
Theorem KeysetLoop_ascending_under_change {C T} `{KeyOrd C} (cursorOf : T → C)
    (pageFn : nat → C → nat → res (list T)) (pageSize fuel : nat) (start : C) (seen : list T) (e : goerr) :
  sorted_pages cursorOf pageFn pageSize →
  KeysetLoop cursorOf pageFn pageSize fuel start (λ acc x, (acc ++ [x], None)) [] = Some (seen, e) →
  ascending (cursorOf <$> seen).
Proof.
  intros Hs Hloop. apply (loop_in_order cursorOf pageFn pageSize Hs fuel [] _ (seen, e)) in Hloop; [done|].
  split; simpl; [apply ascending_nil|constructor].
Qed.

(** The table the witness sweeps gains row 2 and loses row 9 after the first page. *)
Lemma KeysetLoop_ascending_under_change_witness :
  ascending [3; 5; 8]%N.
Proof.
  refine (KeysetLoop_ascending_under_change (λ x : N, x)
    (λ k a n, Ok (table_page (λ x, x) (if (k =? 0)%nat then [3; 5; 9]%N else [2; 3; 5; 8]%N) a n)) 2 9 1%N
    [3; 5; 8]%N None _ eq_refl).
  intros k a pg [= <-]. unfold table_page. destruct (k =? 0); simpl;
    repeat (case_match; simpl); split; repeat (constructor; try done).
Defined.

(** A sampled sweep over a stable ledger terminates and emits exactly the
    band above its start followed, when it started mid-keyspace, by the band
    below it, cut to the sample; a full sweep ([sample <= 0]) emits everything
    above the start. *)
Theorem keysetSample_emits {S} (sample : Z) (startAfter : string) (rows : list string)
    (emit : S → list string → S * goerr) (s : S) (fuel : nat) :
  ascending rows → 2 * length rows + 4 < fuel →
  ∃ pages, concat pages = sample_spec sample startAfter rows ∧
    keysetSample sample startAfter (λ _ a n, Ok (table_page (λ x, x) rows a n)) emit (λ _, None) fuel s
      = Some (for_each emit s pages).
Proof.
  intros Hasc Hfuel. unfold keysetSample.
  destruct (sample_loop_spec sample startAfter rows _ emit (λ _, None) (λ _ _ _, eq_refl) Hasc
    (λ _, eq_refl) fuel s false startAfter 0 0) as (pages & Hc & Hr).
  - pose proof (fuel_for_le sample startAfter rows). lia.
  - exists pages. split; [|done]. rewrite Hc.
    unfold rest_spec, sample_spec, budget_take, next_seg, wraps. simpl.
    rewrite andb_true_r, Z.sub_0_r. done.
Qed.

Lemma keysetSample_emits_witness :
  ∃ pages, concat pages = ["c"; "d"; "a"] ∧
    keysetSample 3 "b" (λ _ a n, Ok (table_page (λ x, x) ["a"; "b"; "c"; "d"] a n))
      (λ s p, (s ++ p, None)) (λ _, None) 20 [] = Some (for_each (λ s p, (s ++ p, None)) [] pages).
Proof.
  apply (keysetSample_emits 3 "b" ["a"; "b"; "c"; "d"] (λ s p, (s ++ p, None)) [] 20).
  - repeat constructor.
  - vm_compute. lia.
Defined.

(** A sampled sweep from a mid-keyspace start checks distinct recorded ids,
    and exactly min(sample, total) of them, except that an id EQUAL to the
    start is in neither band (the first pass is strictly above it and the
    wrapped pass trims at it), so then one id fewer is available. *)
Theorem keysetSample_count (sample : Z) (startAfter : string) (rows : list string) (fuel : nat) :
  (0 < sample)%Z → startAfter ≠ "" → ascending rows → "" ∉ rows → 2 * length rows + 4 < fuel →
  ∃ ids,
    keysetSample sample startAfter (λ _ a n, Ok (table_page (λ x, x) rows a n))
      (λ acc p, (acc ++ p, None)) (λ _, None) fuel [] = Some (ids, None) ∧
    NoDup ids ∧ ids ⊆ rows ∧ startAfter ∉ ids ∧
    length ids = Nat.min (Z.to_nat sample) (length rows - if decide (startAfter ∈ rows) then 1 else 0).
Proof.
  intros Hs Hst Hasc Hne Hfuel.
  destruct (sample_loop_spec sample startAfter rows (λ _ a n, Ok (table_page (λ x, x) rows a n))
    (λ acc p, (acc ++ p, None)) (λ _, None) (λ _ _ _, eq_refl) Hasc
    (λ _, eq_refl) fuel [] false startAfter 0 0) as (pages & Hc & Hr).
  { pose proof (fuel_for_le sample startAfter rows). lia. }
  exists (concat pages). unfold keysetSample. rewrite Hr, for_each_collect, Hc. clear Hr Hc pages.
  unfold rest_spec, next_seg, wraps, seg. cbv zeta.
  rewrite (proj2 (Z.ltb_lt 0 sample)), bool_decide_eq_true_2, above_empty by done. simpl.
  rewrite Z.sub_0_r. set (bands := above_s rows startAfter ++ below rows startAfter).
  assert (∀ x, x ∈ take (Z.to_nat sample) bands → x ∈ rows ∧ x ≠ startAfter) as Hin.
  { intros x Hx. apply bands_mem. eapply elem_of_submseteq; [exact Hx|].
    apply sublist_submseteq, sublist_take. }
  pose proof (ascending_NoDup rows Hasc) as Hnd. split_and!; [done| | | |].
  - eapply sublist_NoDup; [apply bands_NoDup, Hnd|apply sublist_take].
  - intros x Hx. by apply Hin.
  - intros Hx. by apply Hin in Hx as [_ ?].
  - rewrite length_take. unfold bands. by rewrite bands_length.
Qed.

Lemma keysetSample_count_witness :
  ∃ ids,
    keysetSample 9 "b" (λ _ a n, Ok (table_page (λ x, x) ["a"; "b"; "c"] a n))
      (λ acc p, (acc ++ p, None)) (λ _, None) 11 [] = Some (ids, None) ∧
    NoDup ids ∧ ids ⊆ ["a"; "b"; "c"] ∧ "b" ∉ ids ∧ length ids = 2.
Proof.
  apply (keysetSample_count 9 "b" ["a"; "b"; "c"] 11).
  - lia.
  - done.
  - repeat constructor.
  - rewrite !elem_of_cons, elem_of_nil. naive_solver.
  - vm_compute. lia.
Defined.

End Keyset.
