(* ===== verification/Ledger.v ===== *)
(** * The ledger

    The two tables of [src/db/migrations] as finite maps keyed by their
    primary keys, the queries of [src/internal/adapter/outbound/db/queries/
    ledger.sql.go] as functions on them, and [LedgerRepo] of
    [src/internal/adapter/outbound/db/ledger.go] on top. A statement that
    fails (a VARCHAR limit, the CHECK on [state], two status rows for one
    target) leaves the tables unchanged and returns an error: it is [Er].

    Timestamps are microseconds; [now] is the statement's [now()]. *)

From S2P Require Import Prelude GoRuntime Ports Keyset.
From Stdlib Require Import ZArith Lia.
From stdpp Require Import base gmap strings list sorting numbers.

Import Ports.

Module Ledger.

Export Keyset (res, Ok, Er).

(** ** The tables *)

Record object_row := MkObj {
  o_size : Z; o_firstSeenAt : Z; o_createdBy : option N; o_sourceCreatedDate : option Z;
}.

Record status_row := MkSt {
  s_state : string; s_storedBytes : Z; s_verifiedAt : option Z;
}.

Record db := MkDB {
  objects : gmap string object_row;
  statuses : gmap (string * string) status_row;
}.

Definition empty_db : db := MkDB ∅ ∅.

Definition is_stored (d : db) (id target : string) : bool :=
  match statuses d !! (id, target) with
  | Some r => bool_decide (s_state r = StateStored)
  | None => false
  end.

(** ** RecordBackup *)

(** The [ON CONFLICT] arm of the status upsert. *)
Definition merge_status (now : Z) (old : status_row) (new : TargetStatus) : status_row :=
  let stored := bool_decide (State new = StateStored) in
  MkSt (if bool_decide (s_state old = StateStored) && negb stored then s_state old else State new)
       (if stored then StoredBytes new else s_storedBytes old)
       (if stored then Some now else s_verifiedAt old).

Definition fresh_status (now : Z) (new : TargetStatus) : status_row :=
  MkSt (State new) (StoredBytes new)
       (if bool_decide (State new = StateStored) then Some now else None).

Definition upsert_status (now : Z) (id : string)
    (m : gmap (string * string) status_row) (new : TargetStatus) : gmap (string * string) status_row :=
  <[(id, Target new) :=
      match m !! (id, Target new) with
      | Some old => merge_status now old new
      | None => fresh_status now new
      end]> m.

Definition upsert_object (now : Z) (obj : ObjectMeta) (m : gmap string object_row)
    : gmap string object_row :=
  <[m_ExternalID obj :=
      match m !! m_ExternalID obj with
      | Some old =>
          MkObj (if m_SizeVerified obj then m_Size obj else o_size old)
                (o_firstSeenAt old) (o_createdBy old) (o_sourceCreatedDate old)
      | None => MkObj (m_Size obj) now (m_CreatedBy obj) (m_SourceCreatedDate obj)
      end]> m.

(** The constraints the statement is checked against: the VARCHAR widths, the
    CHECK on [state], and one status row per target. *)
Definition well_typed (obj : ObjectMeta) (sts : list TargetStatus) : bool :=
  (String.length (m_ExternalID obj) <=? 128)%nat &&
  forallb (λ s, (String.length (Target s) <=? 64)%nat &&
                (bool_decide (State s = StateStored) || bool_decide (State s = StateFailed))) sts &&
  bool_decide (NoDup (Target <$> sts)).

Definition RecordBackup (now : Z) (obj : ObjectMeta) (sts : list TargetStatus) (d : db) : res db :=
  if well_typed obj sts
  then Ok (MkDB (upsert_object now obj (objects d))
                (foldl (upsert_status now (m_ExternalID obj)) (statuses d) sts))
  else Er (Msg "record backup: constraint violation").

(** What the constraints ask for. *)
Lemma well_typed_intro obj sts :
  String.length (m_ExternalID obj) ≤ 128 → NoDup (Target <$> sts) →
  Forall (λ n, String.length n ≤ 64) (Target <$> sts) →
  Forall (λ s, State s = StateStored ∨ State s = StateFailed) sts → well_typed obj sts = true.
Proof.
  intros Hid Hnd Hlen Hst. unfold well_typed. rewrite !andb_true_iff, bool_decide_eq_true.
  split_and!; [by apply Nat.leb_le| |done]. apply List.forallb_forall. intros s Hs%list_elem_of_In.
  rewrite Forall_fmap in Hlen. rewrite list.Forall_forall in Hlen, Hst. apply andb_true_iff.
  split; [apply Nat.leb_le; by apply (Hlen s)|]. rewrite orb_true_iff, !bool_decide_eq_true. auto.
Qed.

(** ** Queries *)

Definition sort_ids (l : list string) : list string := merge_sort String.le l.

Definition status_rows (d : db) : list (string * string * status_row) := map_to_list (statuses d).

(** [ListStoredTargets] / [StoredTargets]. *)
Definition StoredTargets (d : db) (id : string) : gset string :=
  list_to_set (omap (λ '(i, t, r),
    if bool_decide (i = id) && bool_decide (s_state r = StateStored) then Some t else None)
    (status_rows d)).

(** The ids stored on one target, in byte order. *)
Definition stored_ids (d : db) (target : string) : list string :=
  sort_ids (omap (λ '(i, t, r),
    if bool_decide (t = target) && bool_decide (s_state r = StateStored) then Some i else None)
    (status_rows d)).

Definition StoredExternalIDsPage (d : db) (target after : string) (limit : nat) : list string :=
  take limit (List.filter (λ id, str_ltb after id) (stored_ids d target)).

(** [StoredObjectsPage]: the inner join drops an id with no object row. *)
Definition StoredObjectsPage (d : db) (target after : string) (limit : nat) : list ObjectMeta :=
  take limit (omap (λ id,
    match objects d !! id with
    | Some o => Some (MkMeta id (o_size o) false (o_createdBy o) (o_sourceCreatedDate o))
    | None => None
    end) (List.filter (λ id, str_ltb after id) (stored_ids d target))).

(** The current targets an object is stored on: the rows the FILTER clauses of
    [TargetGapsPage] and the WHERE of [CoverageGaps] keep for one object. *)
Definition held (d : db) (targets : list string) (id : string) : list string :=
  omap (λ '(i, t, r),
    if bool_decide (i = id) && bool_decide (s_state r = StateStored) && bool_decide (t ∈ targets)
    then Some t else None) (status_rows d).

Record targetGap := MkGap { externalID : string; stored : gset string }.

(** Every under-replicated object, in id order. *)
Definition gap_rows (d : db) (targets : list string) : list targetGap :=
  omap (λ id,
    if bool_decide (length (held d targets id) < length targets)
    then Some (MkGap id (list_to_set (held d targets id))) else None)
    (sort_ids (map_to_list (objects d)).*1).

Definition targetGapsPage (d : db) (targets : list string) (after : string) (limit : nat) : list targetGap :=
  take limit (List.filter (λ g, str_ltb after (externalID g)) (gap_rows d targets)).

Definition TargetGaps {S} (d : db) (targets : list string) (fuel : nat)
    (fn : S → string → gset string → S * goerr) (s : S) : option (S * goerr) :=
  Keyset.KeysetLoop externalID (λ _ after limit, Ok (targetGapsPage d targets after limit))
    Keyset.KeysetPageSize fuel "" (λ s g, fn s (externalID g) (stored g)) s.

(** The [fully] subquery: the ids grouped from the status rows on a current
    target, with enough of them. *)
Definition fully (d : db) (targets : list string) : list string :=
  List.filter (λ id, bool_decide (length targets ≤ length (held d targets id)))
    (remove_dups (omap (λ '(i, t, r),
       if bool_decide (s_state r = StateStored) && bool_decide (t ∈ targets) then Some i else None)
       (status_rows d))).

Definition CoverageGaps (d : db) (targets : list string) : Z :=
  match targets with
  | [] => 0
  | _ => Z.of_nat (size (objects d)) - Z.of_nat (length (fully d targets))
  end.

(** [max("verifiedAt")] of one target's stored rows. *)
Definition last_verified (d : db) (target : string) : option Z :=
  foldr (λ r acc, match acc with Some a => Some (Z.max r a) | None => Some r end) None
    (omap (λ '(_, t, r),
       if bool_decide (t = target) && bool_decide (s_state r = StateStored) then s_verifiedAt r else None)
       (status_rows d)).

(** (stalest age, never verified, ok); ages in microseconds. *)
Definition LastVerifiedAge (now : Z) (d : db) (targets : list string) : Z * Z * bool :=
  match targets with
  | [] => (0, 0, false)%Z
  | _ =>
      let mvs := last_verified d <$> targets in
      let never := Z.of_nat (length (List.filter (λ mv, bool_decide (mv = None)) mvs)) in
      let ages := omap (λ mv, v ← mv; Some (now - v)%Z) mvs in
      let stalest := match ages with [] => 0%Z | a :: l => foldr Z.max a l end in
      (stalest, never, (never <? Z.of_nat (length targets))%Z)
  end.

Definition StoredCountByTarget (d : db) (targets : list string) : gmap string Z :=
  list_to_map ((λ t, (t, Z.of_nat (length (stored_ids d t)))) <$> targets).

(** ** Facts about the queries *)

Lemma sort_ids_Permutation l : sort_ids l ≡ₚ l.
Proof. apply merge_sort_Permutation. Qed.

Lemma sort_ids_ascending l : NoDup l → ascending (sort_ids l).
Proof.
  intros Hnd. rewrite <- sort_ids_Permutation in Hnd.
  assert (StronglySorted String.le (sort_ids l)) as Hs by apply (StronglySorted_merge_sort String.le).
  induction Hs as [|a l' Hs IH Hall]; [constructor|].
  inversion_clear Hnd as [|? ? Hni Hnd']. constructor; [by apply IH|].
  rewrite list.Forall_forall in Hall |- *. intros b Hb. simpl. apply str_ltb_le.
  split; [by apply Hall|]. by intros ->.
Qed.

Lemma is_stored_true d id t :
  is_stored d id t = true ↔ ∃ r, statuses d !! (id, t) = Some r ∧ s_state r = StateStored.
Proof.
  unfold is_stored. destruct (statuses d !! (id, t)) as [r|]; [|naive_solver].
  rewrite bool_decide_eq_true. naive_solver.
Qed.

Lemma elem_of_status_rows d i t r : (i, t, r) ∈ status_rows d ↔ statuses d !! (i, t) = Some r.
Proof. apply elem_of_map_to_list. Qed.

Lemma elem_of_StoredTargets d id t : t ∈ StoredTargets d id ↔ is_stored d id t = true.
Proof.
  unfold StoredTargets. rewrite elem_of_list_to_set, list_elem_of_omap, is_stored_true. split.
  - intros ([[i t'] r] & Hin & Hif). apply elem_of_status_rows in Hin.
    destruct (bool_decide (i = id)) eqn:E; simplify_eq/=. to_prop. case_bool_decide; simplify_eq. eauto.
  - intros (r & Hr & Hst). exists (id, t, r). rewrite elem_of_status_rows. split; [done|].
    by rewrite !bool_decide_eq_true_2.
Qed.

(** Selecting one component of the rows with the other fixed keeps the rows
    distinct: (externalID, target) is the primary key. *)
Lemma omap_key_NoDup {A B K V} (l : list (K * V)) (f : K * V → option A) (key : B) :
  NoDup l.*1 → (∀ x y a, f x = Some a → f y = Some a → x.1 = y.1) → NoDup (omap f l).
Proof.
  intros Hnd Hinj. induction l as [|x l IH]; simpl in *; [constructor|].
  inversion_clear Hnd as [|? ? Hni Hnd']. specialize (IH Hnd').
  destruct (f x) as [a|] eqn:Ef; simpl; [|done]. constructor; [|done].
  rewrite list_elem_of_omap. intros (y & Hy & Ey). apply Hni.
  rewrite (Hinj x y a Ef Ey). by apply list_elem_of_fmap_2.
Qed.

Lemma status_keys_NoDup d : NoDup (status_rows d).*1.
Proof. apply NoDup_fst_map_to_list. Qed.

Lemma stored_ids_ascending d target : ascending (stored_ids d target).
Proof.
  apply sort_ids_ascending, (omap_key_NoDup _ _ tt); [apply status_keys_NoDup|].
  intros [[i t] r] [[i' t'] r'] a. simpl. intros H1 H2.
  repeat case_bool_decide; by simplify_eq/=.
Qed.

Lemma elem_of_stored_ids d target id : id ∈ stored_ids d target ↔ is_stored d id target = true.
Proof.
  unfold stored_ids. rewrite sort_ids_Permutation, list_elem_of_omap, is_stored_true. split.
  - intros ([[i t'] r] & Hin & Hif). apply elem_of_status_rows in Hin.
    repeat case_bool_decide; simplify_eq/=. eauto.
  - intros (r & Hr & Hst). exists (id, target, r). rewrite elem_of_status_rows. split; [done|].
    by rewrite !bool_decide_eq_true_2.
Qed.

Lemma held_NoDup d targets id : NoDup (held d targets id).
Proof.
  apply (omap_key_NoDup _ _ tt); [apply status_keys_NoDup|].
  intros [[i t] r] [[i' t'] r'] a. simpl. intros H1 H2.
  repeat case_bool_decide; by simplify_eq/=.
Qed.

Lemma elem_of_held d targets id t : t ∈ held d targets id ↔ is_stored d id t = true ∧ t ∈ targets.
Proof.
  unfold held. rewrite list_elem_of_omap, is_stored_true. split.
  - intros ([[i t'] r] & Hin & Hif). apply elem_of_status_rows in Hin.
    repeat case_bool_decide; simplify_eq/=. eauto.
  - intros [(r & Hr & Hst) Ht]. exists (id, t, r). rewrite elem_of_status_rows. split; [done|].
    by rewrite !bool_decide_eq_true_2.
Qed.

(** With distinct configured names an object is short of targets exactly when
    some configured target does not hold it. *)
Lemma held_short d targets id : NoDup targets →
  length (held d targets id) < length targets ↔ ∃ t, t ∈ targets ∧ is_stored d id t = false.
Proof.
  intros Hnd. pose proof (held_NoDup d targets id) as Hh. split.
  - intros Hlt. destruct (decide (Exists (λ t, is_stored d id t = false) targets)) as [He|He].
    { by apply list.Exists_exists in He. }
    exfalso. assert (targets ⊆+ held d targets id) as Hsub.
    { apply NoDup_submseteq; [done|]. intros t Ht. apply elem_of_held. split; [|done].
      destruct (is_stored d id t) eqn:E; [done|]. exfalso. apply He, list.Exists_exists. eauto. }
    apply submseteq_length in Hsub. lia.
  - intros (t & Ht & Hns).
    assert (t :: held d targets id ⊆+ targets) as Hsub.
    { apply NoDup_submseteq.
      - constructor; [|done]. rewrite elem_of_held. intros [? _]. congruence.
      - intros x [->|[_ ?]%elem_of_held]%elem_of_cons; done. }
    apply submseteq_length in Hsub. simpl in Hsub. lia.
Qed.

(** ** Invariant: keys, states and stamps *)

Record wf (d : db) : Prop := MkWf {
  wf_fk : ∀ id t r, statuses d !! (id, t) = Some r → is_Some (objects d !! id);
  wf_state : ∀ k r, statuses d !! k = Some r → s_state r = StateStored ∨ s_state r = StateFailed;
  wf_stamp : ∀ k r, statuses d !! k = Some r → s_state r = StateStored → is_Some (s_verifiedAt r);
}.

Lemma upsert_status_lookup now id m s k :
  upsert_status now id m s !! k =
    (if decide (k = (id, Target s)) then
       Some (match m !! k with Some old => merge_status now old s | None => fresh_status now s end)
     else m !! k).
Proof.
  unfold upsert_status. case_decide as Hk.
  - subst k. by rewrite lookup_insert_eq.
  - by rewrite lookup_insert_ne.
Qed.

(** The row at a key after all the upserts of one statement. *)
Lemma upserts_lookup now id sts m k : NoDup (Target <$> sts) →
  foldl (upsert_status now id) m sts !! k =
    match list_find (λ s, k = (id, Target s)) sts with
    | Some (_, s) =>
        Some (match m !! k with Some old => merge_status now old s | None => fresh_status now s end)
    | None => m !! k
    end.
Proof.
  revert m. induction sts as [|s sts IH]; intros m Hnd; [done|].
  rewrite fmap_cons in Hnd. inversion_clear Hnd as [|? ? Hni Hnd']. cbn [foldl list_find].
  rewrite IH by done. rewrite upsert_status_lookup. destruct (decide (k = (id, Target s))) as [->|Hne].
  - destruct (list_find _ sts) as [[i s']|] eqn:Ef; [|done].
    apply list_find_Some in Ef as (Hi & Heq & _). simplify_eq.
    exfalso. apply Hni. rewrite Heq. by eapply list_elem_of_fmap_2, list_elem_of_lookup_2.
  - destruct (list_find _ sts) as [[i s']|]; done.
Qed.

Lemma find_status_stored (id t : string) sts : NoDup (Target <$> sts) →
  (∃ i s, list_find (λ s, (id, t) = (id, Target s)) sts = Some (i, s) ∧ Target s = t ∧
     (State s = StateStored ↔ t ∈ stored_names sts)) ∨
  (list_find (λ s, (id, t) = (id, Target s)) sts = None ∧ t ∉ stored_names sts).
Proof.
  intros Hnd. destruct (list_find _ sts) as [[i s]|] eqn:Ef.
  - left. exists i, s. split; [done|]. apply list_find_Some in Ef as (Hi & [= ->] & _).
    split; [done|]. rewrite elem_of_stored_names. split.
    + intros Hst. exists s. split_and!; [by eapply list_elem_of_lookup_2|done|done].
    + intros (s' & [j Hj]%list_elem_of_lookup & Hst & Ht).
      assert (i = j) as ->; [|congruence].
      eapply (NoDup_lookup (Target <$> sts)); [done| |]; rewrite list_lookup_fmap.
      * by rewrite Hi.
      * rewrite Hj. simpl. by rewrite Ht.
  - right. split; [done|]. apply list_find_None in Ef. rewrite list.Forall_forall in Ef.
    rewrite elem_of_stored_names. intros (s & Hs & _ & <-). by apply (Ef s Hs).
Qed.

Lemma find_status_other (id id' t : string) sts : id ≠ id' →
  list_find (λ s, (id, t) = (id', Target s)) sts = None.
Proof. intros Hne. apply list_find_None, list.Forall_forall. intros s _ [= ? _]. done. Qed.

Lemma RecordBackup_Ok now obj sts d d' : RecordBackup now obj sts d = Ok d' →
  well_typed obj sts = true ∧ NoDup (Target <$> sts) ∧
  objects d' = upsert_object now obj (objects d) ∧
  statuses d' = foldl (upsert_status now (m_ExternalID obj)) (statuses d) sts.
Proof.
  unfold RecordBackup. destruct (well_typed obj sts) eqn:E; [|done]. intros [= <-].
  split; [done|]. unfold well_typed in E. to_prop. done.
Qed.

(** The effect of one [RecordBackup] on what is stored where. *)
Lemma RecordBackup_is_stored now obj sts d d' id t : RecordBackup now obj sts d = Ok d' →
  is_stored d' id t =
    is_stored d id t || bool_decide (id = m_ExternalID obj ∧ t ∈ stored_names sts).
Proof.
  intros (_ & Hnd & _ & Hst)%RecordBackup_Ok. unfold is_stored. rewrite Hst, upserts_lookup by done.
  destruct (decide (id = m_ExternalID obj)) as [->|Hne].
  2:{ rewrite find_status_other, (bool_decide_eq_false_2 (id = _ ∧ _)) by naive_solver.
      by rewrite orb_false_r. }
  destruct (find_status_stored (m_ExternalID obj) t sts Hnd) as [(i & s & -> & Ht & Hiff)|(-> & Hni)].
  - rewrite (bool_decide_ext (m_ExternalID obj = m_ExternalID obj ∧ _) (State s = StateStored))
      by naive_solver.
    destruct (statuses d !! _) as [old|]; simpl; unfold merge_status; simpl.
    + destruct (bool_decide (s_state old = StateStored)) eqn:Eo; simpl;
        destruct (bool_decide (State s = StateStored)) eqn:En; simpl; to_prop;
        by rewrite ?Eo, ?En, ?bool_decide_eq_true_2, ?bool_decide_eq_false_2 by done.
    + done.
  - rewrite (bool_decide_eq_false_2 (_ ∧ _)) by naive_solver. by rewrite orb_false_r.
Qed.

Lemma RecordBackup_StoredTargets now obj sts d d' id : RecordBackup now obj sts d = Ok d' →
  StoredTargets d' id =
    StoredTargets d id ∪ (if bool_decide (id = m_ExternalID obj) then list_to_set (stored_names sts) else ∅).
Proof.
  intros Hr. apply set_eq. intros t. rewrite elem_of_union, !elem_of_StoredTargets.
  rewrite (RecordBackup_is_stored _ _ _ _ _ _ _ Hr), orb_true_iff, bool_decide_eq_true.
  case_bool_decide; [rewrite elem_of_list_to_set|rewrite elem_of_empty]; naive_solver.
Qed.

Lemma well_typed_state obj sts s : well_typed obj sts = true → s ∈ sts →
  State s = StateStored ∨ State s = StateFailed.
Proof.
  unfold well_typed. intros Hw Hs. to_prop.
  match goal with H : forallb _ _ = true |- _ => rewrite List.forallb_forall in H;
    specialize (H s (proj1 (list_elem_of_In _ _) Hs)) end.
  to_prop. match goal with H : _ || _ = true |- _ => apply orb_true_iff in H as [?|?] end; to_prop; auto.
Qed.

(** Every row after a statement is an old row, or a status of the statement
    merged into what was there. *)
Lemma RecordBackup_row now obj sts d d' k r : RecordBackup now obj sts d = Ok d' →
  statuses d' !! k = Some r →
  statuses d !! k = Some r ∨
  ∃ s, s ∈ sts ∧ k = (m_ExternalID obj, Target s) ∧
    ((∃ old, statuses d !! k = Some old ∧ r = merge_status now old s) ∨ r = fresh_status now s).
Proof.
  intros (_ & Hnd & _ & Hst)%RecordBackup_Ok. rewrite Hst, upserts_lookup by done.
  destruct (list_find _ sts) as [[i s]|] eqn:Ef; [|by left]. intros [= <-]. right.
  apply list_find_Some in Ef as (Hi & Hk & _). exists s.
  split_and!; [by eapply list_elem_of_lookup_2|done|].
  destruct (statuses d !! k) as [old|]; [left; eauto|by right].
Qed.

Lemma RecordBackup_wf now obj sts d d' : wf d → RecordBackup now obj sts d = Ok d' → wf d'.
Proof.
  intros Hwf Hr. destruct (RecordBackup_Ok _ _ _ _ _ Hr) as (Hty & _ & Hobj & _).
  constructor.
  - intros id t r Hl. rewrite Hobj. unfold upsert_object.
    destruct (decide (m_ExternalID obj = id)) as [->|Hne]; [by rewrite lookup_insert_eq|].
    rewrite lookup_insert_ne by done.
    destruct (RecordBackup_row _ _ _ _ _ _ _ Hr Hl) as [Hold|(s & _ & [= ? _] & _)]; [|done].
    by eapply wf_fk.
  - intros k r Hl. destruct (RecordBackup_row _ _ _ _ _ _ _ Hr Hl) as [Hold|(s & Hs & _ & Hrow)].
    { by eapply wf_state. }
    pose proof (well_typed_state _ _ _ Hty Hs) as Hss.
    destruct Hrow as [(old & Hold & ->)| ->]; [|done]. simpl.
    pose proof (wf_state _ Hwf _ _ Hold). by case_match.
  - intros k r Hl Hst. destruct (RecordBackup_row _ _ _ _ _ _ _ Hr Hl) as [Hold|(s & Hs & _ & Hrow)].
    { by eapply wf_stamp. }
    destruct Hrow as [(old & Hold & ->)| ->]; simpl in *.
    + destruct (bool_decide (State s = StateStored)) eqn:E; [by eexists|].
      destruct (bool_decide (s_state old = StateStored)) eqn:Eo; simpl in Hst; to_prop; [|done].
      by eapply wf_stamp.
    + by rewrite bool_decide_eq_true_2.
Qed.

(** The verified-size gate of the object upsert. *)
Lemma RecordBackup_object now obj sts d d' : RecordBackup now obj sts d = Ok d' →
  ∃ o, objects d' !! m_ExternalID obj = Some o ∧
    (o_size o = m_Size obj ∨
     m_SizeVerified obj = false ∧ ∃ o', objects d !! m_ExternalID obj = Some o' ∧ o_size o = o_size o') .
Proof.
  intros (_ & _ & -> & _)%RecordBackup_Ok. unfold upsert_object. rewrite lookup_insert_eq.
  eexists; split; [done|]. destruct (objects d !! _) as [o'|]; simpl; [|by left].
  destruct (m_SizeVerified obj); [by left|right; eauto].
Qed.

(** ** The reconcile work-list *)

Definition object_ids (d : db) : list string := sort_ids (map_to_list (objects d)).*1.

Lemma object_ids_ascending d : ascending (object_ids d).
Proof. apply sort_ids_ascending, NoDup_fst_map_to_list. Qed.

Lemma elem_of_object_ids d id : id ∈ object_ids d ↔ is_Some (objects d !! id).
Proof.
  unfold object_ids. rewrite sort_ids_Permutation, list_elem_of_fmap. split.
  - intros ([i o] & -> & Hin%elem_of_map_to_list). by eexists.
  - intros [o Ho]. exists (id, o). by rewrite elem_of_map_to_list.
Qed.

Definition short_ids (d : db) (targets : list string) : list string :=
  List.filter (λ id, bool_decide (length (held d targets id) < length targets)) (object_ids d).

Lemma gap_rows_ids d targets :
  gap_rows d targets = (λ id, MkGap id (list_to_set (held d targets id))) <$> short_ids d targets.
Proof.
  unfold gap_rows, short_ids. fold (object_ids d). generalize (object_ids d) as l.
  induction l as [|id l IH]; [done|]. simpl. case_bool_decide; simpl; [f_equal|]; exact IH.
Qed.

Lemma elem_of_short_ids d targets id :
  id ∈ short_ids d targets ↔
  is_Some (objects d !! id) ∧ length (held d targets id) < length targets.
Proof.
  unfold short_ids. rewrite list_elem_of_In, List.filter_In, <- list_elem_of_In, elem_of_object_ids.
  by rewrite bool_decide_eq_true.
Qed.

Lemma ascending_filter {K} `{KeyOrd K} (f : K → bool) l : ascending l → ascending (List.filter f l).
Proof.
  induction l as [|x l IH]; [done|]. rewrite ascending_cons. intros [Hasc Hx]. simpl.
  destruct (f x); [|by apply IH]. apply ascending_cons. split; [by apply IH|].
  rewrite list.Forall_forall in Hx |- *. intros y Hy. apply Hx.
  apply list_elem_of_In, List.filter_In in Hy as [Hy _]. by apply list_elem_of_In.
Qed.

Lemma gap_rows_keyed d targets : Keyset.keyed_ascending externalID (gap_rows d targets).
Proof.
  unfold Keyset.keyed_ascending. rewrite gap_rows_ids, <- list_fmap_compose.
  assert (∀ l : list string,
    (externalID ∘ λ id, MkGap id (list_to_set (held d targets id))) <$> l = l) as ->.
  { intros l. by induction l; f_equal/=. }
  apply ascending_filter, object_ids_ascending.
Qed.

Lemma gap_page_table d targets after limit :
  targetGapsPage d targets after limit =
    Keyset.table_page externalID (gap_rows d targets) after limit.
Proof. done. Qed.

(** The [fully] rows are the object rows that are not short. *)
Lemma fully_spec d targets : wf d → targets ≠ [] →
  fully d targets ≡ₚ
    List.filter (λ id, negb (bool_decide (length (held d targets id) < length targets))) (object_ids d).
Proof.
  intros Hwf Hne. apply list.NoDup_Permutation.
  - apply NoDup_ListNoDup, List.NoDup_filter, NoDup_ListNoDup, NoDup_remove_dups.
  - apply ascending_NoDup, ascending_filter, object_ids_ascending.
  - intros id. unfold fully. rewrite !list_elem_of_In, !List.filter_In, <- !list_elem_of_In.
    rewrite elem_of_remove_dups, elem_of_object_ids, negb_true_iff, bool_decide_eq_true, bool_decide_eq_false.
    rewrite Nat.nlt_ge. split; intros [Hin Hle]; (split; [|done]).
    + apply list_elem_of_omap in Hin as ([[i t] r] & Hin%elem_of_status_rows & Hif).
      repeat case_bool_decide; simplify_eq/=. by eapply wf_fk.
    + destruct (held d targets id) as [|t h] eqn:Eh.
      { destruct targets; simpl in Hle; [done|lia]. }
      assert (t ∈ held d targets id) as Ht by (rewrite Eh; by left).
      apply elem_of_held in Ht as [(r & Hr & Hst)%is_stored_true Ht].
      apply list_elem_of_omap. exists (id, t, r). rewrite elem_of_status_rows.
      by rewrite !bool_decide_eq_true_2.
Qed.

Lemma filter_partition_length {A} (f : A → bool) l :
  length (List.filter f l) + length (List.filter (λ x, negb (f x)) l) = length l.
Proof. induction l as [|x l IH]; simpl; [done|]. destruct (f x); simpl; lia. Qed.

Lemma object_ids_length d : length (object_ids d) = size (objects d).
Proof.
  unfold object_ids. rewrite sort_ids_Permutation, length_fmap. apply length_map_to_list.
Qed.

(** ** The interface the pipeline is proved against *)

(** What the backup pipeline relies on of a ledger: a successful record adds
    exactly the names it reports stored to the object's set, touches no other
    object, and a rejected record changes nothing. *)
Class LedgerIface (L : Type) := {
  lg_StoredTargets : L → string → gset string;
  lg_RecordBackup : Z → ObjectMeta → list TargetStatus → L → res L;
  lg_record_stored : ∀ now obj sts l l' id,
    lg_RecordBackup now obj sts l = Ok l' →
    lg_StoredTargets l' id =
      lg_StoredTargets l id ∪
      (if bool_decide (id = m_ExternalID obj) then list_to_set (stored_names sts) else ∅);
}.

#[global] Instance db_LedgerIface : LedgerIface db := {|
  lg_StoredTargets := StoredTargets;
  lg_RecordBackup := RecordBackup;
  lg_record_stored := RecordBackup_StoredTargets;
|}.

(** ** A history of records *)

(** One recorded backup; a statement that fails changes nothing. *)
Definition apply_record (d : db) (r : Z * ObjectMeta * list TargetStatus) : db :=
  match RecordBackup r.1.1 r.1.2 r.2 d with Ok d' => d' | Er _ => d end.

Definition apply_records (rs : list (Z * ObjectMeta * list TargetStatus)) (d : db) : db :=
  foldl apply_record d rs.

Lemma apply_record_wf d r : wf d → wf (apply_record d r).
Proof.
  intros Hwf. unfold apply_record. destruct (RecordBackup _ _ _ _) eqn:E; [|done].
  by eapply RecordBackup_wf.
Qed.

Lemma apply_record_stored d r id t : is_stored d id t = true → is_stored (apply_record d r) id t = true.
Proof.
  intros Hs. unfold apply_record. destruct (RecordBackup _ _ _ _) eqn:E; [|done].
  rewrite (RecordBackup_is_stored _ _ _ _ _ _ _ E), Hs. done.
Qed.

Lemma apply_record_size d r id o : objects d !! id = Some o → m_SizeVerified r.1.2 = false →
  ∃ o', objects (apply_record d r) !! id = Some o' ∧ o_size o' = o_size o.
Proof.
  intros Ho Hv. unfold apply_record. destruct (RecordBackup _ _ _ _) eqn:E; [|eauto].
  apply RecordBackup_Ok in E as (_ & _ & -> & _). unfold upsert_object. rewrite Hv.
  destruct (decide (m_ExternalID r.1.2 = id)) as [->|Hne].
  - rewrite lookup_insert_eq, Ho. eauto.
  - rewrite lookup_insert_ne by done. eauto.
Qed.

Lemma last_verified_None d t : wf d → last_verified d t = None ↔ stored_ids d t = [].
Proof.
  intros Hwf. unfold last_verified. set (l := omap _ _). trans (l = []).
  { destruct l as [|x l]; simpl; [done|]. by destruct (foldr _ _ _). }
  split; intros Hnil.
  - destruct (stored_ids d t) as [|id ids] eqn:Eids; [done|]. exfalso.
    assert (id ∈ stored_ids d t) as Hin by (rewrite Eids; by left).
    apply elem_of_stored_ids, is_stored_true in Hin as (r & Hr & Hst).
    destruct (wf_stamp d Hwf _ _ Hr Hst) as [v Hv].
    apply (not_elem_of_nil v). rewrite <- Hnil. apply list_elem_of_omap. exists (id, t, r).
    rewrite elem_of_status_rows. by rewrite !bool_decide_eq_true_2.
  - destruct l as [|v l'] eqn:El; [done|]. exfalso.
    assert (v ∈ l) as Hin by (rewrite El; by left).
    unfold l in Hin. apply list_elem_of_omap in Hin as ([[i t'] r] & Hr%elem_of_status_rows & Hif).
    repeat case_bool_decide; simplify_eq/=.
    apply (not_elem_of_nil i). rewrite <- Hnil. apply elem_of_stored_ids, is_stored_true. eauto.
Qed.

(** ** Properties *)

(** C17: recording a backup adds exactly the targets reported stored to the
    object's stored set, leaves every other object's set alone, and keeps the
    ledger well formed (foreign key, states, a verification stamp on every
    stored row). *)
Theorem RecordBackup_spec now obj sts d d' : wf d → RecordBackup now obj sts d = Ok d' →
  wf d' ∧
  ∀ id, StoredTargets d' id =
    StoredTargets d id ∪
    (if bool_decide (id = m_ExternalID obj) then list_to_set (stored_names sts) else ∅).
Proof.
  intros Hwf Hr. split; [by eapply RecordBackup_wf|]. intros id. by eapply RecordBackup_StoredTargets.
Qed.

Definition ex_meta (verified : bool) (size : Z) : ObjectMeta := MkMeta "ab" size verified None None.
Definition ex_db : db :=
  apply_records [(1%Z, ex_meta true 7, [MkStatus "t1" StateStored 5; MkStatus "t2" StateFailed 0])] empty_db.

Lemma empty_db_wf : wf empty_db.
Proof. constructor; intros *; unfold empty_db; simpl; by rewrite lookup_empty. Qed.

Lemma RecordBackup_spec_witness :
  ∃ d', RecordBackup 9 (ex_meta false 0) [MkStatus "t1" StateFailed 0; MkStatus "t2" StateStored 6] ex_db = Ok d' ∧
    wf d' ∧ StoredTargets d' "ab" = StoredTargets ex_db "ab" ∪ {["t2"]}.
Proof.
  eexists. split; [vm_compute; reflexivity|].
  split.
  - refine (proj1 (RecordBackup_spec 9 (ex_meta false 0)
      [MkStatus "t1" StateFailed 0; MkStatus "t2" StateStored 6] ex_db _ _ _)).
    + apply apply_record_wf, empty_db_wf.
    + vm_compute. reflexivity.
  - vm_compute. reflexivity.
Defined.

(** Over any history of recorded backups, a target once recorded stored
    stays recorded stored, and a recorded size is never replaced by the
    unverified size of a later all-targets-failed attempt. *)
Theorem records_never_downgrade rs d id t o :
  is_stored d id t = true → objects d !! id = Some o →
  Forall (λ r : Z * ObjectMeta * list TargetStatus, m_SizeVerified r.1.2 = false) rs →
  is_stored (apply_records rs d) id t = true ∧
  ∃ o', objects (apply_records rs d) !! id = Some o' ∧ o_size o' = o_size o.
Proof.
  unfold apply_records. revert d o. induction rs as [|r rs IH]; intros d o Hs Ho Hall; [eauto|].
  inversion_clear Hall as [|? ? Hv Hrest]. cbn [foldl].
  destruct (apply_record_size d r id o Ho Hv) as (o' & Ho' & <-).
  apply IH; [by apply apply_record_stored|done|done].
Qed.

Lemma records_never_downgrade_witness :
  is_stored (apply_records [(5%Z, ex_meta false 0, [MkStatus "t1" StateFailed 0])] ex_db) "ab" "t1" = true.
Proof.
  refine (proj1 (records_never_downgrade
    [(5%Z, ex_meta false 0, [MkStatus "t1" StateFailed 0])] ex_db "ab" "t1" (MkObj 7 1 None None) _ _ _)).
  - reflexivity.
  - reflexivity.
  - repeat constructor.
Defined.

(** The coverage gauge counts exactly the objects reconcile's work-list
    holds: total minus fully replicated equals the number of [TargetGaps]
    rows, on every well-formed ledger. *)
Theorem CoverageGaps_counts_gaps d targets : wf d → targets ≠ [] →
  CoverageGaps d targets = Z.of_nat (length (gap_rows d targets)).
Proof.
  intros Hwf Hne. unfold CoverageGaps. destruct targets as [|t ts] eqn:E; [done|]. rewrite <- E in *.
  rewrite (fully_spec d targets Hwf Hne), gap_rows_ids, length_fmap, <- object_ids_length.
  unfold short_ids.
  pose proof (filter_partition_length
    (λ id, bool_decide (length (held d targets id) < length targets)) (object_ids d)). lia.
Qed.

Lemma CoverageGaps_counts_gaps_witness :
  CoverageGaps ex_db ["t1"; "t2"] = 1%Z ∧ length (gap_rows ex_db ["t1"; "t2"]) = 1.
Proof.
  split; [|reflexivity]. rewrite (CoverageGaps_counts_gaps ex_db ["t1"; "t2"]).
  - reflexivity.
  - apply apply_record_wf, empty_db_wf.
  - done.
Defined.

(** The reconcile sweep visits each recorded object that some configured
    target lacks, once, in id order, with exactly the configured targets that
    do hold it; objects on every target are not visited. *)
Theorem TargetGaps_exact d targets fuel : NoDup targets → length (gap_rows d targets) < fuel →
  ∃ seen, TargetGaps d targets fuel (λ acc id st, (acc ++ [(id, st)], None)) [] = Some (seen, None) ∧
    ascending seen.*1 ∧
    ∀ id st, (id, st) ∈ seen ↔
      id ≠ "" ∧ is_Some (objects d !! id) ∧ (∃ t, t ∈ targets ∧ is_stored d id t = false) ∧
      st = list_to_set (held d targets id).
Proof.
  intros Hnd Hfuel. unfold TargetGaps, Keyset.KeysetLoop.
  set (rows := Keyset.above externalID (gap_rows d targets) "").
  rewrite (Keyset.loop_spec externalID _ _ (gap_rows d targets));
    [|intros; by rewrite gap_page_table|apply gap_rows_keyed|apply Keyset.KeysetPageSize_pos
     |unfold Keyset.sweeping; simpl; lia|].
  2:{ change (length rows < fuel). pose proof (List.filter_length_le (λ g, "" <ₖ externalID g) (gap_rows d targets)) as Hle.
      unfold rows, Keyset.above. lia. }
  change (Keyset.remaining _ _ _) with rows.
  exists ((λ g, (externalID g, stored g)) <$> rows).
  split; [|split].
  - f_equal. apply (Keyset.for_each_map (λ g, (externalID g, stored g)) rows []).
  - rewrite <- list_fmap_compose. apply (Keyset.keyed_ascending_above externalID), gap_rows_keyed.
  - intros id st. rewrite list_elem_of_fmap. setoid_rewrite list_elem_of_In. unfold rows, Keyset.above.
    setoid_rewrite List.filter_In. setoid_rewrite <- list_elem_of_In. rewrite gap_rows_ids.
    setoid_rewrite list_elem_of_fmap. rewrite <- (held_short d targets id Hnd). split.
    + intros (g & [= -> ->] & (i & -> & Hin) & Hlt). simpl in *. apply elem_of_short_ids in Hin.
      split; [by intros ->|naive_solver].
    + intros (Hne & Hobj & Hs & ->). exists (MkGap id (list_to_set (held d targets id))).
      split; [done|]. split; [|by apply Keyset.str_ltb_empty].
      exists id. rewrite elem_of_short_ids. done.
Qed.

Lemma TargetGaps_exact_witness :
  ∃ seen, TargetGaps ex_db ["t1"; "t2"] 3 (λ acc id st, (acc ++ [(id, st)], None)) [] = Some (seen, None) ∧
    ascending seen.*1 ∧
    ∀ id st, (id, st) ∈ seen ↔
      id ≠ "" ∧ is_Some (objects ex_db !! id) ∧ (∃ t, t ∈ ["t1"; "t2"] ∧ is_stored ex_db id t = false) ∧
      st = list_to_set (held ex_db ["t1"; "t2"] id).
Proof.
  apply TargetGaps_exact.
  - vm_compute. repeat constructor; rewrite ?elem_of_cons, ?elem_of_nil; naive_solver.
  - vm_compute. lia.
Defined.

(** The RPO signal's never-verified count is the number of configured
    targets holding nothing, and [ok] is false exactly when no configured
    target holds anything (or none is configured). *)
Theorem LastVerifiedAge_never now d targets : wf d →
  let '(_, never, ok) := LastVerifiedAge now d targets in
  never = Z.of_nat (length (List.filter (λ t, bool_decide (stored_ids d t = [])) targets)) ∧
  (ok = true ↔ ∃ t, t ∈ targets ∧ stored_ids d t ≠ []).
Proof.
  intros Hwf. unfold LastVerifiedAge. destruct targets as [|t0 ts] eqn:E.
  { simpl. split; [done|]. split; [done|]. intros (t & Ht & _). by apply not_elem_of_nil in Ht. }
  rewrite <- E. clear E t0 ts.
  assert (length (List.filter (λ mv, bool_decide (mv = None)) (last_verified d <$> targets)) =
    length (List.filter (λ t, bool_decide (stored_ids d t = [])) targets)) as ->.
  { induction targets as [|t l IH]; [done|]. simpl.
    rewrite (bool_decide_ext _ _ (last_verified_None d t Hwf)). case_bool_decide; simpl; auto. }
  split; [done|]. rewrite Z.ltb_lt.
  pose proof (filter_partition_length (λ t, bool_decide (stored_ids d t = [])) targets) as Hp.
  cbv beta in Hp.
  set (l := List.filter (λ t, negb (bool_decide (stored_ids d t = []))) targets) in *.
  trans (0 < length l).
  { split; intros Hx; lia. }
  split.
  - destruct l as [|t l'] eqn:El; simpl; [lia|]. intros _. exists t.
    assert (List.In t l) as Hin by (rewrite El; by left). apply List.filter_In in Hin as [Hin Hb].
    to_prop. split; [by apply list_elem_of_In|done].
  - intros (t & Ht & Hne). assert (List.In t l) as Hin.
    { apply List.filter_In. split; [by apply list_elem_of_In|]. by rewrite bool_decide_eq_false_2. }
    destruct l; [done|simpl; lia].
Qed.

Lemma LastVerifiedAge_never_witness :
  LastVerifiedAge 10 ex_db ["t1"; "t2"] = (9, 1, true)%Z ∧
  let '(_, never, ok) := LastVerifiedAge 10 ex_db ["t1"; "t2"] in
  never = Z.of_nat (length (List.filter (λ t, bool_decide (stored_ids ex_db t = [])) ["t1"; "t2"])) ∧
  (ok = true ↔ ∃ t, t ∈ ["t1"; "t2"] ∧ stored_ids ex_db t ≠ []).
Proof.
  split; [reflexivity|]. apply LastVerifiedAge_never. apply apply_record_wf, empty_db_wf.
Defined.

End Ledger.
