(* ===== verification/Outbox.v ===== *)
(** * The backup outbox

    [src/internal/adapter/outbound/db/outbox.go]: the server-owned table
    [file_backup_outbox] as a finite map from row ids, and each SQL statement
    of [OutboxRepo] as a function on it. Nullable columns are options,
    timestamps are microseconds and [now] is the statement's [now()].

    A claim skips the rows another transaction holds locked
    (FOR UPDATE SKIP LOCKED): [locked] is that set. *)

From S2P Require Import Prelude GoRuntime Ports.
From Stdlib Require Import ZArith Lia.
From stdpp Require Import base gmap strings list sorting numbers.

Import Ports.

Module Outbox.

Inductive status := pending | in_progress | done_ | skipped | dead_letter.
#[global] Instance status_eq_dec : EqDecision status.
Proof. solve_decision. Defined.

Record row := MkRow {
  r_fileId : N; r_externalID : string; r_priority : Z; r_status : status;
  r_attempts : option Z; r_deliveries : option Z; r_lastError : option string;
  r_createdBy : option N; r_createdDate : option Z; r_size : option Z;
  r_claimedAt : option Z; r_visibleAt : option Z;
}.

Abbreviation table := (gmap Z row).

Definition COALESCE {A} (o : option A) (d : A) : A := default d o.

Definition seconds (s : Z) : Z := (s * 1000000)%Z.
Definition minutes (m : Z) : Z := seconds (60 * m)%Z.

(** A row with a new status, claim and visibility (the common SET shape). *)
Definition set_row (r : row) (st : status) (attempts deliveries : option Z) (lastError : option string)
    (claimedAt visibleAt : option Z) : row :=
  MkRow (r_fileId r) (r_externalID r) (r_priority r) st attempts deliveries lastError
        (r_createdBy r) (r_createdDate r) (r_size r) claimedAt visibleAt.

(** ** Claim *)

Definition visible (now : Z) (r : row) : bool :=
  match r_visibleAt r with None => true | Some v => (v <=? now)%Z end.

Definition claimable (now : Z) (r : row) : bool :=
  bool_decide (r_status r = pending) && visible now r.

(** ORDER BY priority DESC, "createdDate" (NULLS LAST). *)
Definition claim_le (x y : Z * row) : Prop :=
  (r_priority x.2 > r_priority y.2)%Z ∨
  (r_priority x.2 = r_priority y.2 ∧
   match r_createdDate x.2, r_createdDate y.2 with
   | Some a, Some b => (a ≤ b)%Z
   | None, Some _ => False
   | _, None => True
   end).

#[global] Instance claim_le_dec : RelDecision claim_le.
Proof.
  intros x y. unfold claim_le. apply or_dec; [apply _|]. apply and_dec; [apply _|].
  destruct (r_createdDate x.2), (r_createdDate y.2); apply _.
Defined.

#[global] Instance claim_le_total : Total claim_le.
Proof.
  intros x y. unfold claim_le.
  destruct (r_createdDate x.2), (r_createdDate y.2); lia.
Qed.

#[global] Instance claim_le_trans : Transitive claim_le.
Proof.
  intros x y z. unfold claim_le.
  destruct (r_createdDate x.2), (r_createdDate y.2), (r_createdDate z.2); lia.
Qed.

Definition candidates (now : Z) (locked : gset Z) (t : table) : list (Z * row) :=
  merge_sort claim_le
    (List.filter (λ ir, claimable now ir.2 && bool_decide (ir.1 ∉ locked)) (map_to_list t)).

Definition claimed_row (now : Z) (r : row) : row :=
  set_row r in_progress (r_attempts r) (r_deliveries r) (r_lastError r) (Some now) (r_visibleAt r).

Definition entry_of (now : Z) (ir : Z * row) : OutboxEntry :=
  MkEntry (MkItem (r_fileId ir.2) (r_externalID ir.2) (COALESCE (r_size ir.2) 0%Z)
             (r_createdBy ir.2) (Some (COALESCE (r_createdDate ir.2) now))) ir.1.

Definition Claim (now : Z) (locked : gset Z) (n : nat) (t : table) : table * list OutboxEntry :=
  let sel := take n (candidates now locked t) in
  (foldl (λ t ir, <[ir.1 := claimed_row now ir.2]> t) t sel, entry_of now <$> sel).

(** ** Transitions of a claimed row *)

(** [transition]: the SET clause applied under [status='in_progress']. *)
Definition transition (id : Z) (setClause : row → row) (t : table) : table :=
  match t !! id with
  | Some r => if bool_decide (r_status r = in_progress) then <[id := setClause r]> t else t
  | None => t
  end.

Definition MarkDone (id : Z) : table → table :=
  transition id (λ r, set_row r done_ (r_attempts r) (r_deliveries r) (r_lastError r)
                              (r_claimedAt r) (r_visibleAt r)).

(** [jitter] is [random() * interval '2 minutes']. *)
Definition Defer (now jitter : Z) (id : Z) : table → table :=
  transition id (λ r, set_row r pending (Some 0%Z) (r_deliveries r) (r_lastError r)
                              None (Some (now + minutes 2 + jitter)%Z)).

Definition Release (id : Z) : table → table :=
  transition id (λ r, set_row r pending (r_attempts r) (r_deliveries r) (r_lastError r) None None).

Definition Skip (id : Z) : table → table :=
  transition id (λ r, set_row r skipped (r_attempts r) (r_deliveries r) (r_lastError r)
                              None (r_visibleAt r)).

(** ** Fail *)

Definition backoff (attempts : Z) : Z :=
  Z.min (seconds (5 * 2 ^ Z.min attempts 20)%Z) (minutes 10).

Definition failed_row (maxAttempts : Z) (now : Z) (reason : string) (r : row) : row :=
  let attempts := COALESCE (r_attempts r) 0%Z in
  set_row r (if (attempts + 1 >=? maxAttempts)%Z then dead_letter else pending)
          (Some (attempts + 1)%Z) (r_deliveries r) (Some reason) None
          (Some (now + backoff attempts)%Z).

(** The new table and whether the row was dead-lettered; no row updated
    (pgx.ErrNoRows) is the lost claim. *)
Definition Fail (maxAttempts : Z) (now : Z) (id : Z) (reason : string) (t : table) : table * bool :=
  match t !! id with
  | Some r =>
      if bool_decide (r_status r = in_progress) then
        let r' := failed_row maxAttempts now reason r in
        (<[id := r']> t, bool_decide (r_status r' = dead_letter))
      else (t, false)
  | None => (t, false)
  end.

(** ** ReapStale *)

Definition stale (now ttl : Z) (r : row) : bool :=
  bool_decide (r_status r = in_progress) &&
  match r_claimedAt r with None => true | Some c => (c <? now - ttl)%Z end.

Definition reaped_row (maxDeliveries : Z) (r : row) : row :=
  let deliveries := (COALESCE (r_deliveries r) 0 + 1)%Z in
  let dead := (deliveries >=? maxDeliveries)%Z in
  set_row r (if dead then dead_letter else pending) (r_attempts r) (Some deliveries)
          (if dead then Some "crash-loop: exceeded max deliveries" else r_lastError r)
          None (r_visibleAt r).

Definition reap_row (maxDeliveries now ttl : Z) (r : row) : row :=
  if stale now ttl r then reaped_row maxDeliveries r else r.

Definition ReapStale (maxDeliveries : Z) (now ttl : Z) (t : table) : table * Z :=
  (reap_row maxDeliveries now ttl <$> t,
   Z.of_nat (size (filter (λ ir, stale now ttl ir.2 = true ∧
                               r_status (reaped_row maxDeliveries ir.2) = dead_letter) t))).

(** ** BacklogStats *)

Definition counted (now : Z) (r : row) : bool :=
  bool_decide (r_status r = pending) &&
  match r_visibleAt r with
  | None => true
  | Some v => (v <=? now)%Z && (0 <? COALESCE (r_attempts r) 0)%Z
  end.

Definition min_date (rs : list row) : option Z :=
  foldr (λ d acc, match acc with Some a => Some (Z.min d a) | None => Some d end) None
    (omap r_createdDate rs).

(** (pending, oldest age in microseconds). *)
Definition BacklogStats (now : Z) (t : table) : Z * Z :=
  let rs := List.filter (counted now) (map_to_list t).*2 in
  (Z.of_nat (length rs), match min_date rs with Some d => now - d | None => 0 end)%Z.

(** ** The outbox as a state machine *)

Inductive op :=
  | OClaim (locked : gset Z) (n : nat)
  | OMarkDone (id : Z)
  | ODefer (jitter : Z) (id : Z)
  | ORelease (id : Z)
  | OSkip (id : Z)
  | OFail (id : Z) (reason : string)
  | OReap (ttl : Z).

Section machine.
Context (maxAttempts maxDeliveries : Z).

(** One statement at time [now]. *)
Definition step (t : table) (o : Z * op) : table :=
  let now := o.1 in
  match o.2 with
  | OClaim locked n => (Claim now locked n t).1
  | OMarkDone id => MarkDone id t
  | ODefer jitter id => Defer now jitter id t
  | ORelease id => Release id t
  | OSkip id => Skip id t
  | OFail id reason => (Fail maxAttempts now id reason t).1
  | OReap ttl => (ReapStale maxDeliveries now ttl t).1
  end.

Definition run (t : table) (ops : list (Z * op)) : table := foldl step t ops.

(** ** What one statement does to one row *)

Lemma foldl_insert_lookup (l : list (Z * row)) (f : row → row) (t : table) id :
  NoDup l.*1 →
  foldl (λ t ir, <[ir.1 := f ir.2]> t) t l !! id =
    match list_find (λ ir, ir.1 = id) l with Some (_, ir) => Some (f ir.2) | None => t !! id end.
Proof.
  revert t. induction l as [|[i r] l IH]; intros t Hnd; [done|].
  rewrite fmap_cons in Hnd. inversion_clear Hnd as [|? ? Hni Hnd']. cbn [foldl list_find].
  rewrite IH by done. simpl. destruct (decide (i = id)) as [->|Hne].
  - destruct (list_find _ l) as [[j [i' r']]|] eqn:Ef; [|by rewrite lookup_insert_eq].
    apply list_find_Some in Ef as (Hj & Heq & _). simpl in Heq. subst i'.
    exfalso. apply Hni. simpl. apply (list_elem_of_fmap_2 fst _ (id, r')).
    by eapply list_elem_of_lookup_2.
  - destruct (list_find _ l) as [[j ir]|]; simpl; [done|]. by rewrite lookup_insert_ne.
Qed.

Lemma candidates_elem now locked t ir :
  ir ∈ candidates now locked t ↔
  t !! ir.1 = Some ir.2 ∧ claimable now ir.2 = true ∧ ir.1 ∉ locked.
Proof.
  unfold candidates. rewrite merge_sort_Permutation, list_elem_of_In, List.filter_In, <- list_elem_of_In.
  destruct ir as [i r]. rewrite elem_of_map_to_list, andb_true_iff, bool_decide_eq_true. done.
Qed.

Lemma candidates_NoDup now locked t : NoDup (candidates now locked t).*1.
Proof.
  unfold candidates. rewrite merge_sort_Permutation.
  eapply sublist_NoDup; [apply (NoDup_fst_map_to_list t)|]. apply fmap_sublist.
  induction (map_to_list t) as [|x l IH]; simpl; [done|].
  destruct (_ && _); by constructor.
Qed.

Lemma Claim_lookup now locked n t id :
  (Claim now locked n t).1 !! id =
    (if decide (id ∈ entryID <$> (Claim now locked n t).2) then claimed_row now <$> t !! id else t !! id).
Proof.
  unfold Claim; cbn [fst snd]. set (sel := take n _).
  assert (NoDup sel.*1) as Hnd.
  { eapply sublist_NoDup; [apply (candidates_NoDup now locked t)|]. apply fmap_sublist, sublist_take. }
  rewrite foldl_insert_lookup by done.
  rewrite <- list_fmap_compose.
  destruct (list_find (λ ir, ir.1 = id) sel) as [[j [i r]]|] eqn:Ef.
  - apply list_find_Some in Ef as (Hj & Heq & _). simpl in Heq. subst i.
    rewrite decide_True.
    + assert ((id, r) ∈ candidates now locked t) as Hin.
      { eapply elem_of_submseteq; [by eapply list_elem_of_lookup_2|]. apply sublist_submseteq, sublist_take. }
      apply candidates_elem in Hin as (Hr & _ & _). simpl in Hr. by rewrite Hr.
    + apply list_elem_of_fmap. exists (id, r). split; [done|]. by eapply list_elem_of_lookup_2.
  - rewrite decide_False; [done|]. intros (ir & -> & Hin)%list_elem_of_fmap.
    apply list_find_None in Ef. rewrite list.Forall_forall in Ef. by apply (Ef ir Hin).
Qed.

Lemma transition_lookup id f t id' :
  transition id f t !! id' =
    (if decide (id = id') then (λ r, if bool_decide (r_status r = in_progress) then f r else r) <$> t !! id'
     else t !! id').
Proof.
  unfold transition. case_decide as Hid.
  - subst id'. destruct (t !! id) as [r|] eqn:E; simpl; [|by rewrite E].
    case_bool_decide; [by rewrite lookup_insert_eq|done].
  - destruct (t !! id); [|done]. case_bool_decide; [by rewrite lookup_insert_ne|done].
Qed.

Lemma Fail_transition now id reason t :
  (Fail maxAttempts now id reason t).1 = transition id (failed_row maxAttempts now reason) t.
Proof. unfold Fail, transition. destruct (t !! id); [|done]. by case_bool_decide. Qed.

(** A statement leaves a row alone, claims it when it is pending, or moves a
    row that is in progress; it never adds or removes a row. *)
Inductive moves (o : Z * op) (id : Z) (r : row) : row → Prop :=
  | m_same : moves o id r r
  | m_claim locked n : o.2 = OClaim locked n → claimable o.1 r = true → moves o id r (claimed_row o.1 r)
  | m_done : o.2 = OMarkDone id → r_status r = in_progress →
      moves o id r (set_row r done_ (r_attempts r) (r_deliveries r) (r_lastError r) (r_claimedAt r) (r_visibleAt r))
  | m_defer jitter : o.2 = ODefer jitter id → r_status r = in_progress →
      moves o id r (set_row r pending (Some 0%Z) (r_deliveries r) (r_lastError r) None
                      (Some (o.1 + minutes 2 + jitter)%Z))
  | m_release : o.2 = ORelease id → r_status r = in_progress →
      moves o id r (set_row r pending (r_attempts r) (r_deliveries r) (r_lastError r) None None)
  | m_skip : o.2 = OSkip id → r_status r = in_progress →
      moves o id r (set_row r skipped (r_attempts r) (r_deliveries r) (r_lastError r) None (r_visibleAt r))
  | m_fail reason : o.2 = OFail id reason → r_status r = in_progress →
      moves o id r (failed_row maxAttempts o.1 reason r)
  | m_reap ttl : o.2 = OReap ttl → stale o.1 ttl r = true → moves o id r (reaped_row maxDeliveries r).

Lemma Claim_elem_claimable now locked n t e : e ∈ (Claim now locked n t).2 →
  ∃ r, t !! entryID e = Some r ∧ claimable now r = true ∧ entryID e ∉ locked ∧ e = entry_of now (entryID e, r).
Proof.
  unfold Claim; simpl. intros (ir & -> & Hin)%list_elem_of_fmap.
  assert (ir ∈ candidates now locked t) as (Hl & Hc & Hk)%candidates_elem.
  { eapply elem_of_submseteq; [exact Hin|]. apply sublist_submseteq, sublist_take. }
  exists ir.2. simpl. by destruct ir.
Qed.

Lemma transition_moves t o id i f :
  (∀ r, i = id → r_status r = in_progress → moves o id r (f r)) →
  match t !! id with
  | None => transition i f t !! id = None
  | Some r => ∃ r', transition i f t !! id = Some r' ∧ moves o id r r'
  end.
Proof.
  intros Hf. rewrite transition_lookup. destruct (t !! id) as [r|] eqn:Er; [|by case_decide].
  case_decide as Hid; simpl; [|by eauto using moves].
  eexists; split; [done|]. case_bool_decide; [by apply Hf|constructor].
Qed.

Lemma step_moves t o id :
  match t !! id with
  | None => step t o !! id = None
  | Some r => ∃ r', step t o !! id = Some r' ∧ moves o id r r'
  end.
Proof.
  destruct o as [now o]. unfold step; cbn [fst snd].
  destruct o as [locked n|i|j i|i|i|i reason|ttl].
  - rewrite Claim_lookup. destruct (t !! id) as [r|] eqn:Er; [|by case_decide].
    case_decide as Hin; simpl; [|by eauto using moves].
    eexists; split; [done|]. apply list_elem_of_fmap in Hin as (e & -> & He).
    apply Claim_elem_claimable in He as (r' & Hr' & Hc & _ & _). simplify_eq. by eapply m_claim.
  - apply transition_moves; intros r -> ?; by econstructor.
  - apply transition_moves; intros r -> ?; by econstructor.
  - apply transition_moves; intros r -> ?; by econstructor.
  - apply transition_moves; intros r -> ?; by econstructor.
  - rewrite Fail_transition. apply transition_moves; intros r -> ?; by econstructor.
  - unfold ReapStale; cbn [fst]. rewrite lookup_fmap. destruct (t !! id) as [r|]; simpl; [|done].
    eexists; split; [done|]. unfold reap_row. destruct (stale now ttl r) eqn:Es; [by eapply m_reap|constructor].
Qed.
End machine.

(** ** Invariants of the state machine *)

Definition terminal (r : row) : bool :=
  match r_status r with done_ | skipped | dead_letter => true | _ => false end.

Lemma stale_in_progress now ttl r : stale now ttl r = true → r_status r = in_progress.
Proof. unfold stale. intros [? _]%andb_true_iff. by to_prop. Qed.

Lemma claimable_pending now r : claimable now r = true → r_status r = pending.
Proof. unfold claimable. intros [? _]%andb_true_iff. by to_prop. Qed.

Lemma moves_terminal ma md o id r r' : terminal r = true → moves ma md o id r r' → r' = r.
Proof.
  unfold terminal. intros Ht Hm. inversion Hm; subst; try done;
    repeat match goal with
    | H : claimable _ _ = true |- _ => apply claimable_pending in H
    | H : stale _ _ _ = true |- _ => apply stale_in_progress in H
    | H : r_status r = _ |- _ => rewrite H in Ht
    end; done.
Qed.

(** How often the history fails this row, and how often it reaps. *)
Definition fails_of (id : Z) (ops : list (Z * op)) : nat :=
  length (List.filter (λ o, match o.2 with OFail i _ => bool_decide (i = id) | _ => false end) ops).
Definition reaps_of (ops : list (Z * op)) : nat :=
  length (List.filter (λ o, match o.2 with OReap _ => true | _ => false end) ops).

Definition spent (r : row) : Z * Z := (COALESCE (r_attempts r) 0%Z, COALESCE (r_deliveries r) 0%Z).

(** One statement raises the counters by at most what the history counts, and
    dead-letters only at a limit. *)
Lemma moves_spent ma md o id r r' : moves ma md o id r r' → r_status r ≠ dead_letter →
  (0 ≤ (spent r).1)%Z →
  (0 ≤ (spent r').1)%Z ∧
  ((spent r').1 ≤ (spent r).1 + Z.of_nat (fails_of id [o]))%Z ∧
  ((spent r').2 ≤ (spent r).2 + Z.of_nat (reaps_of [o]))%Z ∧
  (r_status r' = dead_letter → ma ≤ (spent r').1 ∨ md ≤ (spent r').2)%Z.
Proof.
  intros Hm Hnd H0. unfold fails_of, reaps_of, spent in *.
  inversion Hm as [|? ? Ho|Ho|? Ho|Ho|Ho|? Ho|? Ho]; subst; simpl in *;
    rewrite ?Ho; simpl; rewrite ?bool_decide_eq_true_2 by done; simpl;
    repeat (split; [lia|]); try (by split; [lia|]); try done.
  - case_match; to_prop; [|done]. intros _. left. lia.
  - case_match; to_prop; [|done]. intros _. right. lia.
Qed.

Lemma run_cons ma md t o ops : run ma md t (o :: ops) = run ma md (step ma md t o) ops.
Proof. done. Qed.

Lemma run_lookup_Some ma md t ops id : is_Some (t !! id) → is_Some (run ma md t ops !! id).
Proof.
  revert t. induction ops as [|o ops IH]; intros t [r Hr]; [by eexists|]. rewrite run_cons. apply IH.
  pose proof (step_moves ma md t o id) as Hm. rewrite Hr in Hm. destruct Hm as (r' & -> & _). by eexists.
Qed.

Lemma run_spent ma md ops : ∀ t id r r',
  t !! id = Some r → r_status r ≠ dead_letter → (0 ≤ (spent r).1)%Z →
  run ma md t ops !! id = Some r' → r_status r' = dead_letter →
  (ma ≤ (spent r).1 + Z.of_nat (fails_of id ops) ∨ md ≤ (spent r).2 + Z.of_nat (reaps_of ops))%Z.
Proof.
  induction ops as [|o ops IH]; intros t id r r' Hr Hnd H0 Hrun Hdead.
  { simpl in Hrun. simplify_eq. }
  rewrite run_cons in Hrun. pose proof (step_moves ma md t o id) as Hm. rewrite Hr in Hm.
  destruct Hm as (r1 & Hr1 & Hm). destruct (moves_spent _ _ _ _ _ _ Hm Hnd H0) as (H0' & Ha & Hd & Hdl).
  assert (fails_of id (o :: ops) = fails_of id [o] + fails_of id ops) as ->.
  { unfold fails_of. by rewrite <- length_app, <- List.filter_app. }
  assert (reaps_of (o :: ops) = reaps_of [o] + reaps_of ops) as ->.
  { unfold reaps_of. by rewrite <- length_app, <- List.filter_app. }
  destruct (decide (r_status r1 = dead_letter)) as [Hd1|Hd1]; [specialize (Hdl Hd1); lia|].
  specialize (IH _ _ _ _ Hr1 Hd1 H0' Hrun Hdead). lia.
Qed.

(** ** Properties *)

Definition ex_row (st : status) (att : option Z) (vis : option Z) : row :=
  MkRow 7 "ab" 0 st att None None None (Some 5%Z) None None vis.

(** C15: a row that reached a terminal state (done, skipped, dead-letter) is
    never changed again, by any later sequence of claims, settlements and
    reaps of any worker: a late or duplicate settlement cannot clobber it. *)
Theorem terminal_absorbing ma md t ops id r :
  t !! id = Some r → terminal r = true → run ma md t ops !! id = Some r.
Proof.
  revert t. induction ops as [|o ops IH]; intros t Hr Ht; [done|]. rewrite run_cons. apply IH; [|done].
  pose proof (step_moves ma md t o id) as Hm. rewrite Hr in Hm. destruct Hm as (r' & -> & Hm).
  by rewrite (moves_terminal _ _ _ _ _ _ Ht Hm).
Qed.

Lemma terminal_absorbing_witness :
  run 5 3 {[1%Z := ex_row done_ None None]} [(9%Z, OFail 1 "x"); (10%Z, OReap 0); (11%Z, OClaim ∅ 4)] !! 1%Z
    = Some (ex_row done_ None None).
Proof. apply terminal_absorbing; reflexivity. Defined.

(** Dead-lettering is earned: from a fresh row, a history that ends in
    dead-letter contains at least [maxAttempts] failures of that row or at
    least [maxDeliveries] reaps. Claims, deferrals and releases never spend
    the budget. *)
Theorem dead_letter_needs_limit ma md t ops id r r' :
  t !! id = Some r → r_status r ≠ dead_letter → spent r = (0, 0)%Z →
  run ma md t ops !! id = Some r' → r_status r' = dead_letter →
  (ma ≤ Z.of_nat (fails_of id ops) ∨ md ≤ Z.of_nat (reaps_of ops))%Z.
Proof.
  intros Hr Hnd Hs Hrun Hdead.
  pose proof (run_spent ma md ops t id r r' Hr Hnd) as H. rewrite Hs in H. simpl in H.
  specialize (H ltac:(lia) Hrun Hdead). lia.
Qed.

Lemma dead_letter_needs_limit_witness :
  (2 ≤ Z.of_nat (fails_of 1 [(9%Z, OFail 1 "x"); (10%Z, OClaim ∅ 4); (9000000000%Z, OClaim ∅ 1); (9000000001%Z, OFail 1 "y")])
   ∨ 3 ≤ Z.of_nat (reaps_of [(9%Z, OFail 1 "x"); (10%Z, OClaim ∅ 4); (9000000000%Z, OClaim ∅ 1); (9000000001%Z, OFail 1 "y")]))%Z.
Proof.
  eapply (dead_letter_needs_limit 2 3 {[1%Z := ex_row in_progress None None]} _ 1 (ex_row in_progress None None)).
  - reflexivity.
  - done.
  - reflexivity.
  - vm_compute. reflexivity.
  - reflexivity.
Defined.

(** A claim takes at most [n] rows, each pending, visible and unlocked; it
    marks exactly those in progress, so no later claim returns one of them
    before it is settled; what it leaves claimable is no more urgent than
    anything it took, and nothing claimable is left when it came up short. *)
Theorem Claim_exclusive now locked n t now' locked' n' :
  let '(t1, es) := Claim now locked n t in
  let '(_, es') := Claim now' locked' n' t1 in
  length es ≤ n ∧ NoDup (entryID <$> es) ∧
  (∀ e, e ∈ es → e ∉ es' ∧ entryID e ∉ entryID <$> es' ∧
     ∃ r, t !! entryID e = Some r ∧ claimable now r = true ∧ entryID e ∉ locked ∧
          t1 !! entryID e = Some (claimed_row now r)) ∧
  (∀ id r, t !! id = Some r → claimable now r = true → id ∉ locked → id ∉ entryID <$> es →
     length es = n ∧ ∀ e re, e ∈ es → t !! entryID e = Some re → claim_le (entryID e, re) (id, r)).
Proof.
  destruct (Claim now locked n t) as [t1 es] eqn:E1.
  destruct (Claim now' locked' n' t1) as [t2 es'] eqn:E2.
  assert (t1 = (Claim now locked n t).1) as Ht1 by by rewrite E1.
  assert (es = (Claim now locked n t).2) as Hes by by rewrite E1.
  assert (es = entry_of now <$> take n (candidates now locked t)) as Hes' by done.
  split_and!.
  - rewrite Hes', length_fmap, length_take. lia.
  - rewrite Hes', <- list_fmap_compose.
    eapply sublist_NoDup; [apply (candidates_NoDup now locked t)|]. apply fmap_sublist, sublist_take.
  - intros e He. rewrite Hes in He. pose proof He as Hcl.
    apply Claim_elem_claimable in Hcl as (r & Hr & Hc & Hk & _).
    assert (t1 !! entryID e = Some (claimed_row now r)) as Hrow.
    { rewrite Ht1, Claim_lookup, decide_True, Hr by (by apply list_elem_of_fmap_2). done. }
    assert (entryID e ∉ entryID <$> es') as Hni.
    { intros (e' & Heq & He')%list_elem_of_fmap.
      assert (e' ∈ (Claim now' locked' n' t1).2) as Hx by by rewrite E2.
      apply Claim_elem_claimable in Hx as (r' & Hr' & Hc' & _). rewrite <- Heq, Hrow in Hr'. by simplify_eq. }
    split_and!; [|done|eauto]. intros He'. by apply Hni, list_elem_of_fmap_2.
  - intros id r Hr Hc Hk Hni. rewrite Hes' in Hni |- *.
    assert ((id, r) ∈ candidates now locked t) as Hcand by (by apply candidates_elem).
    rewrite <- (take_drop n (candidates now locked t)) in Hcand.
    apply elem_of_app in Hcand as [Hin|Hin].
    { exfalso. apply Hni. rewrite <- list_fmap_compose. 
      by apply (list_elem_of_fmap_2 (entryID ∘ entry_of now) _ (id, r)). }
    split.
    + rewrite length_fmap, length_take. apply Nat.min_l.
      destruct (decide (n ≤ length (candidates now locked t))); [done|].
      rewrite drop_ge in Hin by lia. by apply not_elem_of_nil in Hin.
    + intros e re ([i r'] & -> & He)%list_elem_of_fmap Hre.
      assert ((i, r') ∈ candidates now locked t) as (Hl & _)%candidates_elem.
      { eapply elem_of_submseteq; [exact He|]. apply sublist_submseteq, sublist_take. }
      simpl in *. simplify_eq.
      assert (StronglySorted claim_le (candidates now locked t)) as Hss by apply (StronglySorted_merge_sort claim_le).
      rewrite <- (take_drop n (candidates now locked t)) in Hss.
      by eapply (StronglySorted_app_1_elem_of claim_le) in Hss.
Qed.

(** A crashed delivery recovers: a row claimed at [c] and never settled is
    claimable again at the first reap more than [ttl] later, or dead-lettered
    when its deliveries are used up, while a younger claim is left alone. *)
Theorem reap_recovers md c now ttl id r t :
  t !! id = Some (claimed_row c r) → claimable c r = true →
  (ReapStale md now ttl t).1 !! id =
    Some (if (c <? now - ttl)%Z then reaped_row md (claimed_row c r) else claimed_row c r) ∧
  (0 ≤ ttl → c < now - ttl →
     claimable now (reaped_row md (claimed_row c r)) =
       negb (COALESCE (r_deliveries r) 0 + 1 >=? md) ∧
     (r_status (reaped_row md (claimed_row c r)) = dead_letter ↔
       md ≤ COALESCE (r_deliveries r) 0 + 1))%Z.
Proof.
  intros Hr Hc. split.
  - unfold ReapStale; cbn [fst]. rewrite lookup_fmap, Hr. simpl. unfold reap_row, stale. simpl. done.
  - intros Httl Hlt. unfold claimable, visible in Hc |- *. to_prop. unfold reaped_row; simpl. split.
    + match goal with H : match _ with _ => _ end = true |- _ => rename H into Hv end.
      assert (match r_visibleAt r with Some v => (v <=? now)%Z | None => true end = true) as ->.
      { destruct (r_visibleAt r); [|done]. to_prop. apply Z.leb_le. lia. }
      rewrite andb_true_r. by destruct (_ >=? _)%Z.
    + rewrite <- Z.geb_le. by destruct (_ >=? _)%Z.
Qed.

Lemma reap_recovers_witness :
  (ReapStale 3 200 10 {[1%Z := claimed_row 100 (ex_row pending None None)]}).1 !! 1%Z =
    Some (reaped_row 3 (claimed_row 100 (ex_row pending None None))).
Proof.
  refine (proj1 (reap_recovers 3 100 200 10 1 (ex_row pending None None)
    {[1%Z := claimed_row 100 (ex_row pending None None)]} _ _)); reflexivity.
Defined.

(** The retry delay of a failed row is between 5 seconds and 10 minutes
    for every attempt count (the clamped exponent cannot overflow the
    interval), never shrinks as attempts grow, and the row is dead-lettered
    exactly when the counted attempt reaches the limit. *)
Theorem Fail_backoff ma now id reason t r :
  t !! id = Some r → r_status r = in_progress → (0 ≤ COALESCE (r_attempts r) 0)%Z →
  let a := COALESCE (r_attempts r) 0%Z in
  (Fail ma now id reason t).1 !! id = Some (failed_row ma now reason r) ∧
  (Fail ma now id reason t).2 = (a + 1 >=? ma)%Z ∧
  (∃ v, r_visibleAt (failed_row ma now reason r) = Some v ∧ now + seconds 5 ≤ v ≤ now + minutes 10)%Z ∧
  (backoff a ≤ backoff (a + 1))%Z ∧ (seconds (5 * 2 ^ Z.min a 20) ≤ max_int64)%Z.
Proof.
  intros Hr Hst Ha. simpl.
  assert (∀ x y, 0 ≤ x ≤ y → 2 ^ Z.min x 20 ≤ 2 ^ Z.min y 20)%Z as Hmono.
  { intros x y Hxy. apply Z.pow_le_mono_r; lia. }
  pose proof (Hmono 0 (COALESCE (r_attempts r) 0))%Z as H1. rewrite Z.min_l in H1 by lia. simpl in H1.
  pose proof (Z.pow_le_mono_r 2 (Z.min (COALESCE (r_attempts r) 0) 20) 20)%Z as H20.
  pose proof (Hmono (COALESCE (r_attempts r) 0) (COALESCE (r_attempts r) 0 + 1))%Z as Hm.
  unfold Fail. rewrite Hr, bool_decide_eq_true_2 by done. simpl. rewrite lookup_insert_eq.
  split_and!; [done| | | |].
  - by destruct (_ >=? _)%Z.
  - eexists; split; [done|]. unfold backoff, minutes, seconds. lia.
  - unfold backoff, minutes, seconds. lia.
  - unfold seconds, max_int64. lia.
Qed.

Lemma Fail_backoff_witness :
  (Fail 5 100 1 "x" {[1%Z := ex_row in_progress (Some 4%Z) None]}).2 = true.
Proof.
  refine (proj1 (proj2 (Fail_backoff 5 100 1 "x" {[1%Z := ex_row in_progress (Some 4%Z) None]}
    (ex_row in_progress (Some 4%Z) None) _ _ _))); [reflexivity|reflexivity|simpl; lia].
Defined.

(** The lag gauge never counts a deferred row (its attempts are reset and
    its visibility is set), at any later time, while a released row counts at
    once and a failed row that is not dead-lettered counts as soon as it is
    due. *)
Theorem backlog_counts ma now jitter reason id t r :
  t !! id = Some r → r_status r = in_progress → (0 ≤ COALESCE (r_attempts r) 0)%Z →
  (∃ d, Defer now jitter id t !! id = Some d ∧ r_status d = pending ∧ ∀ later, counted later d = false) ∧
  (∃ d, Release id t !! id = Some d ∧ ∀ later, counted later d = true) ∧
  (∃ d, (Fail ma now id reason t).1 !! id = Some d ∧
     ((COALESCE (r_attempts r) 0 + 1 < ma)%Z →
      ∀ later, counted later d = (now + backoff (COALESCE (r_attempts r) 0) <=? later)%Z)).
Proof.
  intros Hr Hst Ha. unfold Defer, Release, Fail.
  rewrite !transition_lookup, !decide_True, Hr by done. simpl.
  rewrite bool_decide_eq_true_2 by done. simpl. rewrite lookup_insert_eq.
  split_and!; eexists; (split; [done|]).
  - split; [done|]. intros later. unfold counted; simpl. by rewrite andb_false_r.
  - done.
  - intros Hma later. unfold counted, failed_row; simpl.
    assert ((COALESCE (r_attempts r) 0 + 1 >=? ma)%Z = false) as ->.
    { rewrite Z.geb_leb. apply Z.leb_gt. lia. }
    rewrite (proj2 (Z.ltb_lt 0 _)) by lia. simpl. by rewrite andb_true_r.
Qed.

Lemma backlog_counts_witness :
  ∃ d, Defer 100 7 1 {[1%Z := ex_row in_progress (Some 2%Z) None]} !! 1%Z = Some d ∧
    r_status d = pending ∧ ∀ later, counted later d = false.
Proof.
  refine (proj1 (backlog_counts 5 100 7 "x" 1 {[1%Z := ex_row in_progress (Some 2%Z) None]}
    (ex_row in_progress (Some 2%Z) None) _ _ _)); [reflexivity|reflexivity|simpl; lia].
Defined.

End Outbox.
