(* ===== verification/Stream.v ===== *)
(** * Byte streams, integrity on the stream, and content hashes

    [src/internal/domain/hash.go] ([VerifyReader]), the [eofReader] and
    [fanoutCopy] read loop of [src/internal/domain/backup.go], Go's
    [io.ReadFull], and [ValidateContentHash] / [ShardKey] of
    [src/internal/fsutil/fsutil.go].

    A reader is the script of what its next [Read] calls do; a call that asks
    for fewer bytes than the event holds leaves the rest for the next call,
    and a reader whose script is used up is at EOF. An error need not be
    sticky (the script may go on after one); [RSticky] is a reader that keeps
    failing, as a closed pipe does. The content hash is a section variable:
    every statement holds for any digest function. *)

From S2P Require Import Prelude GoText GoRuntime.
From Stdlib Require Import ZArith Lia.
From Stdlib Require Import Strings.Byte Strings.Ascii Strings.String.
From stdpp Require Import base strings list numbers.

Module Stream.
Import GoText(all_chars, Join, plain, plain_spec, isnt).

Abbreviation bytes := (list Byte.byte).

(** ** Readers *)

Inductive event := RData (bs : bytes) (e : goerr) | RPanic (r : string) | RSticky (e : err).

Abbreviation reader := (list event).

(** One [Read] into a buffer of [k] bytes. *)
Definition read (k : nat) (r : reader) : reader * attempt (bytes * goerr) :=
  match r with
  | [] => ([], Returns ([], Some (Sent EOF)))
  | RPanic s :: r' => (r', Panics s)
  | RSticky e :: _ => (r, Returns ([], Some e))
  | RData bs e :: r' =>
      if length bs <=? k then (r', Returns (bs, e))
      else (RData (drop k bs) e :: r', Returns (take k bs, None))
  end.

Definition event_size (ev : event) : nat :=
  match ev with RData bs _ => S (length bs) | RPanic _ | RSticky _ => 1 end.

(** A reader whose next reads all fail. *)
Definition stuck (r : reader) : bool :=
  match r with [] | RSticky _ :: _ => true | _ => false end.

Fixpoint rsize (r : reader) : nat :=
  match r with [] => 0 | ev :: r => event_size ev + rsize r end.

Lemma read_size k r : 1 ≤ k → stuck r = false → rsize (read k r).1 < rsize r.
Proof.
  intros Hk Hr. destruct r as [|[bs e|s|e] r]; [done| | |done]; cbn; [|lia].
  destruct (length bs <=? k) eqn:E; cbn; to_prop; [lia|]. rewrite length_drop. lia.
Qed.

Lemma read_stuck k r : stuck r = true → ∃ e, read k r = (r, Returns ([], Some e)).
Proof. destruct r as [|[bs e|s|e] r]; try done; simpl; eauto. Qed.

(** Everything a reader can still deliver. *)
Fixpoint content (r : reader) : bytes :=
  match r with
  | [] => []
  | RData bs _ :: r => bs ++ content r
  | RPanic _ :: r => content r
  | RSticky _ :: _ => []
  end.

Lemma read_content k r r' bs e : read k r = (r', Returns (bs, e)) → content r = bs ++ content r'.
Proof.
  destruct r as [|[bs' e'|s|e'] r]; simpl; try (by intros [= <- <- <-]).
  destruct (length bs' <=? k); intros [= <- <- <-]; simpl; [done|]. by rewrite app_assoc, take_drop.
Qed.

(** ** VerifyReader *)

Section hash.
Context (sum : bytes → string).   (* hexSum of newHash: the content digest *)

(** [v_acc] is everything written to the running hash; [Total] is its length. *)
Record VerifyReader := MkVR { v_r : reader; v_acc : bytes; v_want : string; v_maxLen : Z }.

Definition NewVerifyReader (r : reader) (want : string) (maxLen : Z) : VerifyReader :=
  MkVR r [] want maxLen.

Definition Total (v : VerifyReader) : Z := Z.of_nat (length (v_acc v)).

Definition errIntegrity : err := Msg "integrity: stream hash mismatch".
Definition errTooLarge : err := Msg "integrity: object exceeds the max (unrestorable if stored)".

(** [VerifyReader.Read]. *)
Definition VRead (k : nat) (v : VerifyReader) : VerifyReader * attempt (bytes * goerr) :=
  match read k (v_r v) with
  | (r', Panics s) => (MkVR r' (v_acc v) (v_want v) (v_maxLen v), Panics s)
  | (r', Returns (p, e)) =>
      let v' := MkVR r' (v_acc v ++ p) (v_want v) (v_maxLen v) in
      (v', Returns (p,
        if (0 <? v_maxLen v)%Z && (v_maxLen v <? Total v')%Z then Some errTooLarge
        else if errors_Is e EOF || errors_Is e ErrUnexpectedEOF then
          if bool_decide (sum (v_acc v') = v_want v) then e else Some errIntegrity
        else e))
  end.

(** A read that ends the stream ends it verified: the digest of everything
    read so far is the wanted one and the size is within the cap. *)
Definition verified (v : VerifyReader) : Prop :=
  sum (v_acc v) = v_want v ∧ (0 < v_maxLen v → Total v ≤ v_maxLen v)%Z.

Definition ends (e : goerr) : bool := errors_Is e EOF || errors_Is e ErrUnexpectedEOF.

Lemma VRead_spec k v v' p e : VRead k v = (v', Returns (p, e)) →
  v_acc v' = v_acc v ++ p ∧ v_want v' = v_want v ∧ v_maxLen v' = v_maxLen v ∧
  (ends e = true → verified v') ∧ v_r v' = (read k (v_r v)).1.
Proof.
  unfold VRead. destruct (read k (v_r v)) as [r' [[q e']|s]]; [|done]. intros [= <- <- <-].
  split_and!; [done|done|done| |done]. unfold verified.
  destruct ((0 <? v_maxLen v)%Z && _) eqn:Ecap; [done|].
  destruct (errors_Is e' EOF || errors_Is e' ErrUnexpectedEOF) eqn:Eend.
  2:{ unfold ends. rewrite Eend. done. }
  case_bool_decide as Hsum; [|done]. intros _. split; [done|].
  intros Hpos. unfold Total in *. simpl in *. apply andb_false_iff in Ecap as [?|?]; to_prop; lia.
Qed.

Lemma VRead_content k v v' p e : VRead k v = (v', Returns (p, e)) →
  v_acc v' ++ content (v_r v') = v_acc v ++ content (v_r v).
Proof.
  unfold VRead. destruct (read k (v_r v)) as [r' [[q e']|s]] eqn:Er; [|done]. intros [= <- _ _].
  simpl. apply read_content in Er. by rewrite Er, <- app_assoc.
Qed.

Lemma VRead_panic k v v' s : VRead k v = (v', Panics s) →
  v_acc v' = v_acc v ∧ v_want v' = v_want v ∧ v_maxLen v' = v_maxLen v ∧ v_r v' = (read k (v_r v)).1.
Proof. unfold VRead. destruct (read k (v_r v)) as [r' [[q e']|s']]; [done|]. by intros [= <- <-]. Qed.

Lemma VRead_stuck k v : stuck (v_r v) = true → ∃ e, (VRead k v).2 = Returns ([], Some e).
Proof.
  unfold VRead. intros [e ->]%(read_stuck k). simpl. repeat case_match; eauto.
Qed.

(** ** io.ReadFull *)

(** [err == EOF], the exact comparison [io.ReadAtLeast] makes. *)
Definition is_EOF (e : goerr) : bool :=
  match e with Some (Sent s) => bool_decide (s = EOF) | _ => false end.

Definition read_finish (min : nat) (got : bytes) (e : goerr) : bytes * goerr :=
  if min <=? length got then (got, None)
  else (got, if (0 <? length got) && is_EOF e then Some (Sent ErrUnexpectedEOF) else e).

Fixpoint read_loop (fuel min : nat) (v : VerifyReader) (got : bytes)
    : option (VerifyReader * attempt (bytes * goerr)) :=
  match fuel with
  | O => None
  | S fuel =>
      if length got <? min then
        match VRead (min - length got) v with
        | (v', Panics s) => Some (v', Panics s)
        | (v', Returns (p, None)) => read_loop fuel min v' (got ++ p)
        | (v', Returns (p, Some e)) => Some (v', Returns (read_finish min (got ++ p) (Some e)))
        end
      else Some (v, Returns (read_finish min got None))
  end.

Definition ReadFull (min : nat) (v : VerifyReader) : option (VerifyReader * attempt (bytes * goerr)) :=
  read_loop (S (S (rsize (v_r v)))) min v [].

(** What a ReadFull leaves behind: it consumed [p] more bytes, and reports the
    end of the stream only when the stream is verified. *)
Lemma read_loop_spec fuel min v got v' p e :
  read_loop fuel min v got = Some (v', Returns (p, e)) →
  (∃ q, p = got ++ q ∧ v_acc v' = v_acc v ++ q) ∧ v_want v' = v_want v ∧ v_maxLen v' = v_maxLen v ∧
  (ends e = true → verified v').
Proof.
  revert v got. induction fuel as [|fuel IH]; intros v got H; [done|]. simpl in H.
  destruct (length got <? min) eqn:Elt.
  2:{ unfold read_finish in H. to_prop. rewrite (proj2 (Nat.leb_le _ _)) in H by done.
      simplify_eq. split_and!; try done. exists []. by rewrite !app_nil_r. }
  destruct (VRead _ v) as [v1 [[q [e1|]]|s]] eqn:EV; [| |done].
  - apply VRead_spec in EV as (Hacc & Hw & Hm & Hend & _). injection H as <- H.
    unfold read_finish in H. destruct (min <=? _); simplify_eq; (split_and!; [by eauto|done|done|]).
    + done.
    + destruct (_ && is_EOF (Some e1)) eqn:Ec; [|by apply Hend].
      apply andb_true_iff in Ec as [_ Ec]. intros _. apply Hend.
      destruct e1 as [s| |]; try done. simpl in Ec. to_prop. subst s. done.
  - apply VRead_spec in EV as (Hacc & Hw & Hm & _ & _). apply IH in H as ((q' & -> & Hacc') & Hw' & Hm' & Hend').
    split_and!; [|congruence|congruence|done].
    exists (q ++ q'). by rewrite Hacc', Hacc, !app_assoc.
Qed.

Lemma read_loop_total fuel min v got : rsize (v_r v) + 1 < fuel → is_Some (read_loop fuel min v got).
Proof.
  revert v got. induction fuel as [|fuel IH]; intros v got Hf; [lia|]. simpl.
  destruct (length got <? min) eqn:Elt; [|by eexists]. to_prop.
  destruct (VRead (min - length got) v) as [v1 [[q [e1|]]|s]] eqn:EV; [by eexists| |by eexists].
  apply IH. assert (stuck (v_r v) = false) as Hne.
  { apply not_true_iff_false. intros Hst.
    destruct (VRead_stuck (min - length got) v Hst) as [e He]. by rewrite EV in He. }
  apply VRead_spec in EV as (_ & _ & _ & _ & ->).
  pose proof (read_size (min - length got) (v_r v) ltac:(lia) Hne). lia.
Qed.

Lemma read_loop_content fuel min v got v' p e :
  read_loop fuel min v got = Some (v', Returns (p, e)) →
  v_acc v' ++ content (v_r v') = v_acc v ++ content (v_r v).
Proof.
  revert v got. induction fuel as [|fuel IH]; intros v got Hl; [done|]. simpl in Hl.
  destruct (length got <? min); [|by simplify_eq].
  destruct (VRead _ v) as [v1 [[q [e1|]]|s]] eqn:EV; [| |done].
  - injection Hl as <- _. by eapply VRead_content.
  - rewrite (IH _ _ Hl). by eapply VRead_content.
Qed.

Lemma ReadFull_total min v : is_Some (ReadFull min v).
Proof. apply read_loop_total. lia. Qed.

(** A ReadFull that reports no error made progress. *)
Lemma read_loop_size fuel min v got v' p e :
  read_loop fuel min v got = Some (v', Returns (p, e)) → length got < min →
  rsize (v_r v') ≤ rsize (v_r v) ∧ (e = None → rsize (v_r v') < rsize (v_r v)).
Proof.
  revert v got. induction fuel as [|fuel IH]; intros v got H Hlt; [done|]. simpl in H.
  rewrite (proj2 (Nat.ltb_lt _ _)) in H by done.
  destruct (VRead _ v) as [v1 [[q [e1|]]|s]] eqn:EV; [| |done].
  - pose proof EV as EV'. apply VRead_spec in EV as (_ & _ & _ & _ & Hr). injection H as <- H.
    destruct (stuck (v_r v)) eqn:Hne.
    + destruct (read_stuck (min - length got) _ Hne) as [e2 Hst]. rewrite Hr, Hst. simpl.
      split; [done|]. unfold read_finish in H.
      assert (q = []) as ->. { unfold VRead in EV'. rewrite Hst in EV'. by simplify_eq. }
      rewrite app_nil_r in H. destruct (min <=? length got) eqn:El; to_prop; [lia|].
      simplify_eq. destruct (_ && _); done.
    + pose proof (read_size (min - length got) (v_r v) ltac:(lia) Hne). rewrite Hr. lia.
  - assert (stuck (v_r v) = false) as Hne.
    { apply not_true_iff_false. intros Hst.
      destruct (VRead_stuck (min - length got) v Hst) as [e' He]. by rewrite EV in He. }
    pose proof (read_size (min - length got) (v_r v) ltac:(lia) Hne).
    apply VRead_spec in EV as (_ & _ & _ & _ & Hr).
    destruct (decide (length (got ++ q) < min)) as [Hlt'|Hge].
    + apply IH in H as [H1 H2]; [|done]. rewrite Hr in *. lia.
    + destruct fuel as [|fuel]; [done|]. simpl in H.
      rewrite (proj2 (Nat.ltb_ge _ _)) in H by lia. simplify_eq. rewrite Hr. lia.
Qed.

Lemma ReadFull_size min v v' p e : 1 ≤ min → ReadFull min v = Some (v', Returns (p, e)) →
  rsize (v_r v') ≤ rsize (v_r v) ∧ (e = None → rsize (v_r v') < rsize (v_r v)).
Proof. intros Hmin H. eapply read_loop_size in H; [done|simpl; lia]. Qed.

Lemma ReadFull_spec min v v' p e : ReadFull min v = Some (v', Returns (p, e)) →
  v_acc v' = v_acc v ++ p ∧ v_want v' = v_want v ∧ v_maxLen v' = v_maxLen v ∧
  (ends e = true → verified v').
Proof.
  intros H. apply read_loop_spec in H as ((q & -> & Hacc) & Hw & Hm & He). simpl. done.
Qed.
End hash.

(** ** The content-hash gate and the sharded key *)

Definition is_lower_hex (c : ascii) : bool :=
  let n := N_of_ascii c in
  negb (((n <? N_of_ascii "0"%char)%N || (N_of_ascii "9"%char <? n)%N) &&
        ((n <? N_of_ascii "a"%char)%N || (N_of_ascii "f"%char <? n)%N)).

Definition ValidateContentHash (s : string) : goerr :=
  if negb (String.length s =? 64) then Some (Msg "invalid content hash: length")
  else if all_chars is_lower_hex s then None
  else Some (Msg "invalid content hash: not lowercase hex").

Definition ShardKey (hash : string) : string :=
  if 4 <=? String.length hash
  then Join [String.substring 0 2 hash; String.substring 2 2 hash; hash]
  else hash.

Lemma all_chars_substring f n m s : all_chars f s = true → all_chars f (String.substring n m s) = true.
Proof.
  revert n m. induction s as [|c s IH]; intros n m Hs; [by destruct n, m|].
  simpl in Hs. to_prop. destruct n, m; simpl; [done| | by apply IH|by apply IH].
  match goal with H : f c = true |- _ => rewrite H end. simpl. by apply IH.
Qed.

Lemma length_substring0 m s : m ≤ String.length s → String.length (String.substring 0 m s) = m.
Proof. revert m. induction s as [|c s IH]; intros [|m] Hm; simpl in *; try lia. rewrite IH; lia. Qed.

Lemma length_substring n m s : n + m ≤ String.length s → String.length (String.substring n m s) = m.
Proof.
  revert n m. induction s as [|c s IH]; intros [|n] m Hm; simpl in Hm.
  - by destruct m; [|lia].
  - lia.
  - by apply length_substring0.
  - simpl. apply IH. lia.
Qed.

(** The components of a content hash's key. *)
Definition shards (hash : string) : list string := [String.substring 0 2 hash; String.substring 2 2 hash; hash].

Lemma hex_plain s : s ≠ "" → all_chars is_lower_hex s = true → plain s = true.
Proof.
  intros Hne Hs. apply plain_spec. split_and!; [done| | |].
  - intros ->. done.
  - intros ->. done.
  - eapply GoText.all_chars_impl; [|exact Hs]. intros c Hc. apply GoText.isnt_true. intros ->. done.
Qed.

Lemma ValidateContentHash_None hash : ValidateContentHash hash = None ↔
  String.length hash = 64 ∧ all_chars is_lower_hex hash = true.
Proof.
  unfold ValidateContentHash. destruct (String.length hash =? 64) eqn:E; to_prop; cbn [negb].
  - destruct (all_chars is_lower_hex hash); split; [done|done|done|by intros [_ ?]].
  - split; [done|]. by intros [? _].
Qed.

(** The key of a valid hash has three plain components, the hash the last. *)
Lemma shards_plain hash : ValidateContentHash hash = None → Forall (λ c, plain c = true) (shards hash).
Proof.
  intros [Hl Hh]%ValidateContentHash_None.
  assert (∀ n, n + 2 ≤ 64 → plain (String.substring n 2 hash) = true) as Hsub.
  { intros n Hn. apply hex_plain; [|by apply all_chars_substring].
    intros He. pose proof (length_substring n 2 hash) as Hls. rewrite He in Hls. cbn in Hls. lia. }
  unfold shards. repeat constructor; [by apply Hsub; lia|by apply Hsub; lia|].
  apply hex_plain; [|done]. intros ->. cbn in Hl. lia.
Qed.

Lemma ShardKey_shards hash : ValidateContentHash hash = None → ShardKey hash = GoText.join "/" (shards hash).
Proof.
  intros Hv. pose proof (shards_plain hash Hv) as Hp. apply ValidateContentHash_None in Hv as [Hl _].
  unfold ShardKey. rewrite (proj2 (Nat.leb_le _ _)) by lia. by apply GoText.Join_plain.
Qed.

End Stream.
