(* ===== verification/Pool.v ===== *)
(** * The codec pools

    [zstdEncoderPool], [zstdDecoderPool], [ZstdReader], [getZstdDecoder] and
    [putZstdDecoder] of [src/internal/domain/transform.go]: every stream that is
    compressed or decompressed borrows a coder from a pool shared by all goroutines.

    The pool is a set of free objects on a heap; a [Get] takes any of them or makes
    a new one, and the runtime may drop a free one at any time. Goroutines ([job])
    interleave call by call. The coders themselves are a parameter: what the code
    relies on is that [Reset] starts a new, independent stream. The theorems show
    that pooling cannot be observed: an object is never in two hands, and what a
    goroutine produces is what it would have produced with a coder of its own. *)

From S2P Require Import Prelude GoRuntime Stream.
From Stdlib Require Import ZArith Lia.
From stdpp Require Import base gmap strings list relations.

Module Pool.
Import Stream.

(** ** A pool of objects *)

Section pool.
Context {E Job : Type}.

(** What a goroutine does next: take an object, call a method of the one it has,
    give it back, let go of it, or nothing more. *)
Inductive action :=
  | AGet (k : Job)
  | ACall (f : E → E * Job)
  | APut (k : Job)
  | ADrop (k : Job)
  | ADone.

Context (New : E) (act : Job → action).

Record pool := MkPool { heap : gmap nat E; free : gset nat; jobs : gmap nat (Job * option nat) }.

Definition with_job (j : nat) (x : Job * option nat) (s : pool) : pool := MkPool (heap s) (free s) (<[j := x]> (jobs s)).

Inductive step (s : pool) : pool → Prop :=
  | st_get j J k l : jobs s !! j = Some (J, None) → act J = AGet k → l ∈ free s →
      step s (MkPool (heap s) (free s ∖ {[l]}) (<[j := (k, Some l)]> (jobs s)))
  | st_new j J k l : jobs s !! j = Some (J, None) → act J = AGet k → heap s !! l = None →
      step s (MkPool (<[l := New]> (heap s)) (free s) (<[j := (k, Some l)]> (jobs s)))
  | st_call j J f l e : jobs s !! j = Some (J, Some l) → act J = ACall f → heap s !! l = Some e →
      step s (MkPool (<[l := (f e).1]> (heap s)) (free s) (<[j := ((f e).2, Some l)]> (jobs s)))
  | st_put j J k l : jobs s !! j = Some (J, Some l) → act J = APut k →
      step s (MkPool (heap s) ({[l]} ∪ free s) (<[j := (k, None)]> (jobs s)))
  | st_drop j J k l : jobs s !! j = Some (J, Some l) → act J = ADrop k → step s (with_job j (k, None) s)
  | st_collect l : l ∈ free s → step s (MkPool (heap s) (free s ∖ {[l]}) (jobs s)).

(** The goroutines of the service, each with its own work, and an empty pool. *)
Definition start (js : gmap nat Job) : pool := MkPool ∅ ∅ ((λ J, (J, None)) <$> js).

(** A goroutine on its own, with whatever object it was handed. *)
Inductive solo (J0 : Job) : Job → option E → Prop :=
  | so_start : solo J0 J0 None
  | so_get J k e : solo J0 J None → act J = AGet k → solo J0 k (Some e)
  | so_call J f e : solo J0 J (Some e) → act J = ACall f → solo J0 (f e).2 (Some (f e).1)
  | so_put J k e : solo J0 J (Some e) → act J = APut k → solo J0 k None
  | so_drop J k e : solo J0 J (Some e) → act J = ADrop k → solo J0 k None.

(** An object is in one hand or in the pool, and each goroutine is where it would be
    on its own. *)
Record inv (js : gmap nat Job) (s : pool) : Prop := MkInv {
  inv_free l : l ∈ free s → is_Some (heap s !! l);
  inv_held j J l : jobs s !! j = Some (J, Some l) → l ∉ free s ∧ is_Some (heap s !! l);
  inv_one j j' J J' l : jobs s !! j = Some (J, Some l) → jobs s !! j' = Some (J', Some l) → j = j';
  inv_solo j J o : jobs s !! j = Some (J, o) → ∃ J0, js !! j = Some J0 ∧ solo J0 J (o ≫= λ l, heap s !! l);
}.

Lemma pool_start_inv js : inv js (start js).
Proof.
  split; cbn.
  - set_solver.
  - intros j J l. rewrite lookup_fmap. destruct (js !! j); by intros ?; simplify_eq/=.
  - intros j j' J J' l. rewrite lookup_fmap. destruct (js !! j); by intros ?; simplify_eq/=.
  - intros j J o. rewrite lookup_fmap. destruct (js !! j) as [J0|] eqn:Ej; intros ?; simplify_eq/=.
    exists J. split; [done|]. apply so_start.
Qed.

(** Job [j] takes or keeps hold of [l]; nobody else has it. *)
Lemma inv_hold js s j J0 J l e fr : inv js s → js !! j = Some J0 → solo J0 J (Some e) →
  l ∉ fr → fr ⊆ free s → (∀ j' J', jobs s !! j' = Some (J', Some l) → j' = j) →
  inv js (MkPool (<[l := e]> (heap s)) fr (<[j := (J, Some l)]> (jobs s))).
Proof.
  intros [Hf Hh Ho Hs] HJ0 Hsolo Hl Hfr Hone. split; cbn.
  - intros l' Hl'. destruct (decide (l = l')) as [<-|]; [by rewrite lookup_insert_eq|].
    rewrite lookup_insert_ne by done. apply Hf. set_solver.
  - intros j' J' l'. destruct (decide (j = j')) as [<-|Hj].
    + rewrite lookup_insert_eq. intros [= <- <-]. by rewrite lookup_insert_eq.
    + rewrite lookup_insert_ne by done. intros Hj'. destruct (Hh _ _ _ Hj') as [? ?]. split; [set_solver|].
      destruct (decide (l = l')) as [<-|]; [by rewrite lookup_insert_eq|by rewrite lookup_insert_ne].
  - intros j1 j2 J1 J2 l'. destruct (decide (j = j1)) as [<-|H1], (decide (j = j2)) as [<-|H2]; [done|..];
      rewrite ?lookup_insert_eq, ?lookup_insert_ne by done.
    + intros [= <- <-] Hx. by rewrite (Hone _ _ Hx).
    + intros Hx [= <- <-]. by rewrite (Hone _ _ Hx).
    + apply Ho.
  - intros j' J' o. destruct (decide (j = j')) as [<-|Hj].
    + rewrite lookup_insert_eq. intros [= <- <-]. exists J0. split; [done|]. cbn. by rewrite lookup_insert_eq.
    + rewrite lookup_insert_ne by done. intros Hj'. destruct (Hs _ _ _ Hj') as (J1 & HJ1 & Hsol). exists J1. split; [done|].
      destruct o as [l'|]; [|done]. cbn in *. rewrite lookup_insert_ne; [done|]. intros <-. by apply Hj, eq_sym, (Hone _ J').
Qed.

(** Job [j] has let go of [l]. *)
Lemma inv_release js s j J J' l e J0 fr : inv js s → js !! j = Some J0 → jobs s !! j = Some (J, Some l) →
  heap s !! l = Some e → solo J0 J' None → fr ⊆ {[l]} ∪ free s →
  inv js (MkPool (heap s) fr (<[j := (J', None)]> (jobs s))).
Proof.
  intros [Hf Hh Ho Hs] HJ0 Hj He Hsolo Hfr. split; cbn.
  - intros l' Hl'. destruct (decide (l = l')) as [<-|]; [by rewrite He|]. apply Hf. set_solver.
  - intros j' J1 l'. destruct (decide (j = j')) as [<-|Hne]; [by rewrite lookup_insert_eq|].
    rewrite lookup_insert_ne by done. intros Hj'. destruct (Hh _ _ _ Hj') as [? ?]. split; [|done].
    assert (l' ≠ l) by (intros ->; by apply Hne, (Ho _ _ _ _ _ Hj Hj')). set_solver.
  - intros j1 j2 J1 J2 l'. destruct (decide (j = j1)) as [<-|H1]; [by rewrite lookup_insert_eq|].
    destruct (decide (j = j2)) as [<-|H2]; [by rewrite (lookup_insert_eq _ j)|].
    rewrite !lookup_insert_ne by done. apply Ho.
  - intros j' J1 o. destruct (decide (j = j')) as [<-|Hne]; [|rewrite lookup_insert_ne by done; apply Hs].
    rewrite lookup_insert_eq. intros [= <- <-]. by exists J0.
Qed.

Lemma pool_step_inv js s s' : inv js s → step s s' → inv js s'.
Proof.
  intros Hi Hst. pose proof Hi as [Hf Hh Ho Hs]. destruct Hst as
    [j J k l Hj Ha Hl|j J k l Hj Ha Hl|j J f l e Hj Ha He|j J k l Hj Ha|j J k l Hj Ha|l Hl].
  - destruct (Hs _ _ _ Hj) as (J0 & HJ0 & Hsol). destruct (Hf l Hl) as [e He].
    rewrite <- (insert_id (heap s) l e He).
    apply (inv_hold js s j J0); [done|done|by eapply so_get|set_solver|set_solver|].
    intros j' J' Hj'. by destruct (Hh _ _ _ Hj').
  - destruct (Hs _ _ _ Hj) as (J0 & HJ0 & Hsol).
    apply (inv_hold js s j J0); [done|done|by eapply so_get| |done|].
    + intros Hl'. destruct (Hf _ Hl'). congruence.
    + intros j' J' Hj'. destruct (Hh _ _ _ Hj') as [_ []]. congruence.
  - destruct (Hs _ _ _ Hj) as (J0 & HJ0 & Hsol). cbn in Hsol. rewrite He in Hsol.
    apply (inv_hold js s j J0); [done|done|by eapply so_call|by apply (Hh _ _ _ Hj)|done|].
    intros j' J' Hj'. by apply (Ho _ _ _ _ _ Hj' Hj).
  - destruct (Hs _ _ _ Hj) as (J0 & HJ0 & Hsol). destruct (Hh _ _ _ Hj) as [_ [e He]]. cbn in Hsol. rewrite He in Hsol.
    eapply inv_release; [done|done|done|done| |done]. by eapply so_put.
  - destruct (Hs _ _ _ Hj) as (J0 & HJ0 & Hsol). destruct (Hh _ _ _ Hj) as [_ [e He]]. cbn in Hsol. rewrite He in Hsol.
    eapply inv_release; [done|done|done|done| |set_solver]. by eapply so_drop.
  - split; cbn; [intros; apply Hf; set_solver| |done|done].
    intros j J l' Hj. destruct (Hh _ _ _ Hj). split; [set_solver|done].
Qed.

Lemma reachable_inv js s : rtc step (start js) s → inv js s.
Proof.
  intros Hr. enough (∀ s0, rtc step s0 s → inv js s0 → inv js s) as Hall by (eapply Hall; [exact Hr|apply pool_start_inv]).
  clear. intros s0. induction 1 as [s|s s1 s2 Hst _ IH]; [done|]. intros Hi. apply IH. by eapply pool_step_inv.
Qed.

(** *** With an object of its own *)

Inductive own (J0 : Job) : Job → option E → Prop :=
  | ow_start : own J0 J0 None
  | ow_get J k : own J0 J None → act J = AGet k → own J0 k (Some New)
  | ow_call J f e : own J0 J (Some e) → act J = ACall f → own J0 (f e).2 (Some (f e).1)
  | ow_put J k e : own J0 J (Some e) → act J = APut k → own J0 k None
  | ow_drop J k e : own J0 J (Some e) → act J = ADrop k → own J0 k None.

(** The first call on a borrowed object forgets what was done with it before. *)
Definition resets : Prop := ∀ J k, act J = AGet k → ∃ f, act k = ACall f ∧ ∀ e, f e = f New.

Lemma solo_own J0 J o : resets → solo J0 J o →
  own J0 J o ∨ ∃ J1, act J1 = AGet J ∧ own J0 J1 None ∧ o ≠ None.
Proof.
  intros Hre. induction 1 as [|J k e _ IH Ha|J f e _ IH Ha|J k e _ IH Ha|J k e _ IH Ha].
  - left. apply ow_start.
  - right. exists J. destruct IH as [?|(? & _ & _ & ?)]; done.
  - left. destruct IH as [Hown|(J1 & H1 & Hown & _)]; [by eapply ow_call|].
    destruct (Hre _ _ H1) as (f' & Hf' & Heq). rewrite Ha in Hf'. injection Hf' as <-. rewrite Heq.
    eapply ow_call; [|done]. by eapply ow_get.
  - left. destruct IH as [Hown|(J1 & H1 & _)]; [by eapply ow_put|].
    destruct (Hre _ _ H1) as (f' & Hf' & _). congruence.
  - left. destruct IH as [Hown|(J1 & H1 & _)]; [by eapply ow_drop|].
    destruct (Hre _ _ H1) as (f' & Hf' & _). congruence.
Qed.

(** However the goroutines interleave, each is where it would be alone with a new
    object. *)
Lemma pool_transparent js s j J o : resets → rtc step (start js) s → jobs s !! j = Some (J, o) →
  ∃ J0 o', js !! j = Some J0 ∧ own J0 J o'.
Proof.
  intros Hre Hr Hj. destruct (inv_solo _ _ (reachable_inv _ _ Hr) _ _ _ Hj) as (J0 & HJ0 & Hs).
  exists J0. destruct (solo_own _ _ _ Hre Hs) as [?|(J1 & Ha & Hown & _)]; [eauto|].
  exists (Some New). split; [done|]. by eapply ow_get.
Qed.
(** *** Executing a schedule *)

Inductive event := EvTake (j l : nat) | EvNew (j l : nat) | EvAct (j : nat) | EvCollect (l : nat).

Definition exec (ev : event) (s : pool) : option pool :=
  match ev with
  | EvTake j l =>
      match jobs s !! j with
      | Some (J, None) =>
          match act J with
          | AGet k => if bool_decide (l ∈ free s)
                      then Some (MkPool (heap s) (free s ∖ {[l]}) (<[j := (k, Some l)]> (jobs s))) else None
          | _ => None
          end
      | _ => None
      end
  | EvNew j l =>
      match jobs s !! j, heap s !! l with
      | Some (J, None), None =>
          match act J with
          | AGet k => Some (MkPool (<[l := New]> (heap s)) (free s) (<[j := (k, Some l)]> (jobs s)))
          | _ => None
          end
      | _, _ => None
      end
  | EvAct j =>
      match jobs s !! j with
      | Some (J, Some l) =>
          match act J, heap s !! l with
          | ACall f, Some e => Some (MkPool (<[l := (f e).1]> (heap s)) (free s) (<[j := ((f e).2, Some l)]> (jobs s)))
          | APut k, _ => Some (MkPool (heap s) ({[l]} ∪ free s) (<[j := (k, None)]> (jobs s)))
          | ADrop k, _ => Some (with_job j (k, None) s)
          | _, _ => None
          end
      | _ => None
      end
  | EvCollect l => if bool_decide (l ∈ free s) then Some (MkPool (heap s) (free s ∖ {[l]}) (jobs s)) else None
  end.

Definition exec_all (evs : list event) (s : pool) : option pool := foldl (λ s ev, s ≫= exec ev) (Some s) evs.

Lemma exec_step ev s s' : exec ev s = Some s' → step s s'.
Proof.
  destruct ev as [j l|j l|j|l]; cbn; intros He; repeat (case_match; simplify_eq/=); to_prop; by econstructor.
Qed.

Lemma exec_all_rtc evs s s' : exec_all evs s = Some s' → rtc step s s'.
Proof.
  unfold exec_all. revert s. induction evs as [|ev evs IH]; intros s; cbn; [by intros [= <-]; apply rtc_refl|].
  destruct (exec ev s) as [s1|] eqn:Es; [|clear; induction evs as [|ev' evs IH]; [done|exact IH]].
  intros Hr. eapply rtc_l; [by eapply exec_step|by apply IH].
Qed.
End pool.
Arguments action : clear implicits.
Arguments pool : clear implicits.

(** ** Encoders *)

(** The coder of the library: what it writes to its destination, and how a call ends. *)
Class Encoder := {
  enc : Type;
  NewWriter : enc;
  EReset : enc → enc;
  EWrite : enc → bytes → enc * attempt (bytes * goerr);
  EClose : enc → enc * attempt (bytes * goerr);
}.

(** [Reset] starts a new stream, independent of the earlier ones. *)
Class EncoderLaws `{Encoder} : Prop := EReset_new e : EReset e = EReset NewWriter.

Section encoder.
Context `{Encoder}.

(** The goroutine of [ZstdReader]: where it is, the chunks its source still has and
    the error it ends with, and what is in the pipe. *)
Inductive pc :=
  | PGet | PReset | PCopy
  | PClose (err : goerr)
  | PClear (err : goerr)      (* closed cleanly: Reset(nil), then Put *)
  | PPut (err : goerr)
  | PDrop (err : goerr)
  | PDone (err : goerr).

Record zjob := MkZ { z_pc : pc; z_src : list bytes; z_end : goerr; z_out : bytes }.

Definition at_pc (p : pc) (z : zjob) : zjob := MkZ p (z_src z) (z_end z) (z_out z).

Definition panicked (r : string) (z : zjob) : zjob := at_pc (PDrop (Some (PanicErr "zstd encode" r))) z.

(** [produce] of [ZstdReader]. *)
Definition ZstdReader (z : zjob) : action enc zjob :=
  match z_pc z with
  | PGet => AGet (at_pc PReset z)
  | PReset => ACall (λ e, (EReset e, at_pc PCopy z))
  | PCopy =>
      match z_src z with
      | [] => ACall (λ e, (e, at_pc (PClose (z_end z)) z))
      | p :: src => ACall (λ e,
          match EWrite e p with
          | (e, Panics r) => (e, panicked r z)
          | (e, Returns (o, None)) => (e, MkZ PCopy src (z_end z) (z_out z ++ o))
          | (e, Returns (o, Some x)) => (e, MkZ (PClose (Some x)) src (z_end z) (z_out z ++ o))
          end)
      end
  | PClose err => ACall (λ e,
      match EClose e with
      | (e, Panics r) => (e, panicked r z)
      | (e, Returns (o, closeErr)) =>
          let err := match err with None => closeErr | Some _ => err end in
          (e, MkZ (match closeErr with None => PClear err | Some _ => PDrop err end) (z_src z) (z_end z) (z_out z ++ o))
      end)
  | PClear err => ACall (λ e, (EReset e, at_pc (PPut err) z))
  | PPut err => APut (at_pc (PDone err) z)
  | PDrop err => ADrop (at_pc (PDone err) z)
  | PDone _ => ADone
  end.

Definition reader_of (src : list bytes) (rend : goerr) : zjob := MkZ PGet src rend [].

(** The same stream through an encoder of its own: the encoder after the copy, what
    it has written, and how the copy ended ([inr]: it panicked). *)
Fixpoint copied (e : enc) (src : list bytes) (rend : goerr) : enc * bytes * (goerr + string) :=
  match src with
  | [] => (e, [], inl rend)
  | p :: src =>
      match EWrite e p with
      | (e, Panics r) => (e, [], inr r)
      | (e, Returns (o, Some x)) => (e, o, inl (Some x))
      | (e, Returns (o, None)) => let '(e, o', r) := copied e src rend in (e, o ++ o', r)
      end
  end.

(** What the pipe carries in the end, and the error it is closed with. *)
Definition encoded (src : list bytes) (rend : goerr) : bytes * goerr :=
  let '(e, o, r) := copied (EReset NewWriter) src rend in
  match r with
  | inr x => (o, Some (PanicErr "zstd encode" x))
  | inl err =>
      match (EClose e).2 with
      | Panics x => (o, Some (PanicErr "zstd encode" x))
      | Returns (o', closeErr) => (o ++ o', match err with None => closeErr | Some _ => err end)
      end
  end.

(** A goroutine with its own encoder is on the way to [encoded]. *)
Definition on_track (src : list bytes) (rend : goerr) (z : zjob) (e : option enc) : Prop :=
  match z_pc z, e with
  | PGet, None => z = MkZ PGet src rend []
  | PReset, Some e => e = NewWriter ∧ z = MkZ PReset src rend []
  | PCopy, Some e =>
      z_end z = rend ∧
      copied (EReset NewWriter) src rend =
        let '(e', o, r) := copied e (z_src z) rend in (e', z_out z ++ o, r)
  | PClose err, Some e => copied (EReset NewWriter) src rend = (e, z_out z, inl err)
  | PClear err, Some _ | PPut err, Some _ | PDrop err, Some _ | PDone err, None => encoded src rend = (z_out z, err)
  | _, _ => False
  end.

Lemma own_on_track src rend z e : own NewWriter ZstdReader (reader_of src rend) z e → on_track src rend z e.
Proof.
  induction 1 as [|z k _ IH Ha|z f e _ IH Ha|z k e _ IH Ha|z k e _ IH Ha]; [done|..];
    unfold ZstdReader in Ha; destruct z as [p cs re o]; cbn in *.
  - destruct p; try done. injection Ha as <-. injection IH as -> -> ->. done.
  - destruct p as [| | |err|err|err|err|err]; try done.
    + destruct IH as [-> IH]. injection Ha as <-. injection IH as -> -> ->. split; [done|]. cbn. by destruct (copied _ src rend) as [[? ?] ?].
    + destruct IH as [Hre IH]. cbn in Hre. subst re. destruct cs as [|p cs]; injection Ha as <-; cbn.
      * rewrite IH. cbn. by rewrite app_nil_r.
      * cbn in IH. destruct (EWrite e p) as [e' [[q [x|]]|r]]; cbn.
        -- by rewrite IH.
        -- split; [done|]. rewrite IH. destruct (copied e' cs rend) as [[? ?] ?]. by rewrite app_assoc.
        -- unfold encoded. rewrite IH. by rewrite app_nil_r.
    + injection Ha as <-. cbn. cbn in IH. destruct (EClose e) as [e' [[q ce]|r]] eqn:Ec; cbn; [destruct ce|];
        unfold on_track, encoded; cbn; rewrite IH, Ec; by destruct err.
    + by injection Ha as <-.
  - destruct p; try done; [by destruct cs|]. by injection Ha as <-.
  - destruct p; try done; [by destruct cs|]. by injection Ha as <-.
Qed.

Lemma ZstdReader_resets `{!EncoderLaws} : resets NewWriter ZstdReader.
Proof.
  intros z k. unfold ZstdReader. destruct z as [[] cs re o]; cbn; try done; [|by destruct cs].
  intros [= <-]. eexists. split; [done|]. intros e. cbn. by rewrite EReset_new.
Qed.

Lemma encoded_copied src rend e o r : copied (EReset NewWriter) src rend = (e, o, r) → o `prefix_of` (encoded src rend).1.
Proof.
  intros Hc. unfold encoded. rewrite Hc. destruct r as [err|x]; [|done].
  destruct (EClose e).2 as [[o' ce]|x]; [by apply prefix_app_r|done].
Qed.

Lemma on_track_prefix src rend z e : on_track src rend z e → z_out z `prefix_of` (encoded src rend).1.
Proof.
  unfold on_track. destruct z as [p cs re o]; cbn. destruct p, e; try done; cbn.
  - intros [= _ _ ->]. apply prefix_nil.
  - intros [_ [= _ _ ->]]. apply prefix_nil.
  - intros [_ Hc]. destruct (copied e cs rend) as [[e' o'] r]. etrans; [|by eapply encoded_copied].
    by apply prefix_app_r.
  - intros Hc. by eapply encoded_copied.
  - by intros ->.
  - by intros ->.
  - by intros ->.
  - by intros ->.
Qed.
End encoder.

(** ** Decoders *)

Class DecoderObj := {
  dec : Type;
  NewReader : dec;
  DReset : dec → reader → dec * attempt goerr;
  DRelease : dec → dec;                       (* Reset(nil) *)
  DRead : dec → nat → dec * attempt (bytes * goerr);
}.

Class DecoderLaws `{DecoderObj} : Prop := DReset_new d r : DReset d r = DReset NewReader r.

Section decoder.
Context `{DecoderObj}.

(** What a caller of [getZstdDecoder] has seen: nothing yet, the error of Reset, the
    results of its reads, or a panic. *)
Inductive dpc :=
  | DGet | DOpen | DReading (sizes : list nat)
  | DClear | DPut | DDrop | DDone.

Record djob := MkDJ { dj_pc : dpc; dj_src : reader; dj_sizes : list nat; dj_seen : list (attempt (bytes * goerr)) }.

Definition at_dpc (p : dpc) (x : djob) : djob := MkDJ p (dj_src x) (dj_sizes x) (dj_seen x).
Definition saw (a : attempt (bytes * goerr)) (p : dpc) (x : djob) : djob := MkDJ p (dj_src x) (dj_sizes x) (dj_seen x ++ [a]).

(** [getZstdDecoder], the reads of a caller that stops at the first error, and
    [putZstdDecoder], which is deferred: it runs after a panic too. *)
Definition borrowDecoder (x : djob) : action dec djob :=
  match dj_pc x with
  | DGet => AGet (at_dpc DOpen x)
  | DOpen => ACall (λ d,
      match DReset d (dj_src x) with
      | (d, Returns None) => (d, at_dpc (DReading (dj_sizes x)) x)
      | (d, Returns (Some e)) => (d, saw (Returns ([], Some e)) DDrop x)
      | (d, Panics r) => (d, saw (Panics r) DDrop x)
      end)
  | DReading [] => ACall (λ d, (d, at_dpc DClear x))
  | DReading (k :: sizes) => ACall (λ d,
      match DRead d k with
      | (d, Returns (p, None)) => (d, saw (Returns (p, None)) (DReading sizes) x)
      | (d, a) => (d, saw a DClear x)
      end)
  | DClear => ACall (λ d, (DRelease d, at_dpc DPut x))
  | DPut => APut (at_dpc DDone x)
  | DDrop => ADrop (at_dpc DDone x)
  | DDone => ADone
  end.

Lemma borrowDecoder_resets `{!DecoderLaws} : resets NewReader borrowDecoder.
Proof.
  intros x k. unfold borrowDecoder. destruct x as [[] r sz sn]; cbn; try done; [|by destruct sizes].
  intros [= <-]. eexists. split; [done|]. intros d. cbn. by rewrite DReset_new.
Qed.
End decoder.

(** ** Properties *)

(** C30: pooling the encoders cannot be observed. However the goroutines that compress
    interleave, and whatever the pool reuses or drops, no encoder is in two hands or
    both in use and in the pool; what a goroutine has put in its pipe is a beginning
    of what an encoder of its own would have written for its source, and when it is
    done the pipe holds exactly that and is closed with the same error, also when
    the source failed or the encoder failed or panicked under other streams. *)
Theorem pooled_encoders_are_private `{Encoder} `{!EncoderLaws} (js : gmap nat (list bytes * goerr)) s j z o :
  rtc (step NewWriter ZstdReader) (start ((λ x, reader_of x.1 x.2) <$> js)) s →
  jobs s !! j = Some (z, o) →
  (∀ l, o = Some l → l ∉ free s ∧ ∀ j' z', jobs s !! j' = Some (z', Some l) → j' = j) ∧
  ∃ src rend, js !! j = Some (src, rend) ∧
    z_out z `prefix_of` (encoded src rend).1 ∧
    ∀ err, z_pc z = PDone err → encoded src rend = (z_out z, err).
Proof.
  intros Hr Hj. pose proof (reachable_inv _ _ _ _ Hr) as [_ Hh Ho _]. split.
  - intros l ->. split; [by apply (Hh _ _ _ Hj)|]. intros j' z' Hj'. by apply (Ho _ _ _ _ _ Hj' Hj).
  - destruct (pool_transparent _ _ _ _ _ _ _ ZstdReader_resets Hr Hj) as (J0 & e & HJ0 & Hown).
    rewrite lookup_fmap in HJ0. destruct (js !! j) as [[src rend]|] eqn:Ejs; [|done]. injection HJ0 as <-.
    apply own_on_track in Hown. exists src, rend. split_and!; [done|by eapply on_track_prefix|].
    intros err Hp. unfold on_track in Hown. rewrite Hp in Hown. by destruct e.
Qed.

(** The same of the decoders: a goroutine sees what it would have seen of a decoder of
    its own. *)
Theorem pooled_decoders_are_private `{DecoderObj} `{!DecoderLaws} (js : gmap nat (reader * list nat)) s j x o :
  rtc (step NewReader borrowDecoder) (start ((λ y, MkDJ DGet y.1 y.2 []) <$> js)) s →
  jobs s !! j = Some (x, o) →
  (∀ l, o = Some l → l ∉ free s ∧ ∀ j' x', jobs s !! j' = Some (x', Some l) → j' = j) ∧
  ∃ y o', js !! j = Some y ∧ own NewReader borrowDecoder (MkDJ DGet y.1 y.2 []) x o'.
Proof.
  intros Hr Hj. pose proof (reachable_inv _ _ _ _ Hr) as [_ Hh Ho _]. split.
  - intros l ->. split; [by apply (Hh _ _ _ Hj)|]. intros j' z' Hj'. by apply (Ho _ _ _ _ _ Hj' Hj).
  - destruct (pool_transparent _ _ _ _ _ _ _ borrowDecoder_resets Hr Hj) as (J0 & e & HJ0 & Hown).
    rewrite lookup_fmap in HJ0. destruct (js !! j) as [y|] eqn:Ejs; [|done]. injection HJ0 as <-. eauto.
Qed.

(** ** An encoder that is reused *)

(** A toy encoder that remembers, until it is reset, how much it has been given. *)
#[local] Instance ex_encoder : Encoder := {|
  enc := nat; NewWriter := 7; EReset := λ _, 0;
  EWrite := λ n p, (n + length p, Returns (p, None));
  EClose := λ n, (n, Returns (replicate n Byte.xff, None)) |}.
#[local] Instance ex_laws : EncoderLaws.
Proof. done. Qed.

Definition ex_jobs : gmap nat (list bytes * goerr) := {[ 0 := ([[Byte.x01]], None); 1 := ([[Byte.x02; Byte.x03]], None) ]}.

Definition ex_trace : list event := [EvNew 0 0] ++ replicate 6 (EvAct 0) ++ [EvTake 1 0] ++ replicate 6 (EvAct 1).

(** The second stream runs through the encoder of the first. *)
Lemma pooled_encoders_are_private_witness : ∃ s z,
  exec_all NewWriter ZstdReader ex_trace (start ((λ x, reader_of x.1 x.2) <$> ex_jobs)) = Some s ∧
  jobs s !! 1 = Some (z, None) ∧ heap s !! 1 = None ∧ z_pc z = PDone None ∧
  encoded [[Byte.x02; Byte.x03]] None = (z_out z, None).
Proof.
  eexists _, _. split; [vm_compute; reflexivity|]. split; [vm_compute; reflexivity|].
  split; [vm_compute; reflexivity|]. split; [reflexivity|].
  edestruct (pooled_encoders_are_private ex_jobs) as (_ & src & rend & Hjs & _ & Hd).
  - eapply exec_all_rtc with (evs := ex_trace). vm_compute. reflexivity.
  - instantiate (3 := 1). vm_compute. reflexivity.
  - change (ex_jobs !! 1) with (Some ([[Byte.x02; Byte.x03]], @None err)) in Hjs. injection Hjs as <- <-. by apply Hd.
Defined.
End Pool.
