(* ===== verification/Fanout.v ===== *)
(** * The verified fan-out

    [fanOut], [fanoutCopy], [fanoutWriter] ([Write], [collect]), [eofReader]
    and [storeWithCtx] of [src/internal/domain/backup.go]: one hash-verified
    source stream copied to every target.

    The concurrency is explicit in the environment: for each chunk, the order
    in which the pumps signal and when the stall timer fires ([cevent]); for
    each target, which arm [storeWithCtx]'s select takes. A sink is a program
    that reads its stream and then returns or panics ([sinkprog]), so what it
    saw when it committed is part of the model. *)

From S2P Require Import Prelude GoRuntime Stream.
From Stdlib Require Import ZArith Lia.
From stdpp Require Import base strings list numbers.

Module Fanout.
Import Stream.

(** ** The fan-out writer *)

(** The part of [fanoutWriter] that [Write] and [collect] change: which pumps
    are dead, which still owe a signal for the current chunk, which targets
    were dropped at the stall deadline, and what each pipe delivered. *)
Record fanoutWriter := MkFW {
  f_dead : list bool; f_pending : list bool; f_dropped : list bool; f_got : list bytes;
}.

Definition newFanoutWriter (n : nat) : fanoutWriter :=
  MkFW (replicate n false) (replicate n false) (replicate n false) (replicate n []).

Definition flag (l : list bool) (i : nat) : bool := default false (l !! i).

(** What [collect]'s select can receive: a pump's signal (with whether its pipe
    write failed), or the stall timer, which first drains the signals already
    buffered. *)
Inductive cevent :=
  | CDone (i : nat) (werr : bool)
  | CTick (drained : list (nat * bool)).

(** Pump [i] finished chunk [p]: it published [dead[i]], then its signal is
    received. *)
Definition signal (p : bytes) (f : fanoutWriter) (s : nat * bool) : fanoutWriter :=
  let '(i, werr) := s in
  if flag (f_pending f) i then
    MkFW (if werr then <[i := true]> (f_dead f) else f_dead f)
         (<[i := false]> (f_pending f)) (f_dropped f)
         (if werr then f_got f else alter (λ d, d ++ p) i (f_got f))
  else f.

(** [f.drop(i)] for every pump still pending at the deadline. *)
Definition drop_pending (f : fanoutWriter) : fanoutWriter :=
  MkFW (f_dead f) (f_pending f)
       (zip_with orb (f_dropped f) (f_pending f)) (f_got f).

#[global] Arguments signal : simpl never.
#[global] Arguments drop_pending : simpl never.

(** [collect]: runs until every dispatched pump has signalled; the timer fires
    at most once ([tick]). [None] while it is still blocked. *)
Fixpoint collect (p : bytes) (tick : bool) (evs : list cevent) (f : fanoutWriter) : option fanoutWriter :=
  if forallb negb (f_pending f) then Some f
  else match evs with
       | [] => None
       | CDone i werr :: evs => collect p tick evs (signal p f (i, werr))
       | CTick drained :: evs =>
           if tick then collect p false evs (drop_pending (foldl (signal p) f drained))
           else collect p tick evs f
       end.

(** [Write]: dispatch the chunk to every live pump, collect, and fail only when
    every target is gone. *)
Definition Write (stall : Z) (p : bytes) (evs : list cevent) (f : fanoutWriter) : option (fanoutWriter * goerr) :=
  let f := MkFW (f_dead f) (negb <$> f_dead f) (f_dropped f) (f_got f) in
  f ← collect p (0 <? stall)%Z evs f;
  Some (f, if existsb negb (f_dead f) then None else Some (Sent ErrClosedPipe)).

Section copy.
Context (sum : bytes → string) (buf : nat) (stall : Z) (evs : nat → list cevent).

(** [fanoutCopy]; [k] counts the chunks and [evs k] schedules the [k]-th one.
    [buf] is the aggregation buffer's length. A panic of the source read is
    recovered into the copy error by [fanOut]. [None]: out of fuel, or a
    chunk's collect blocks forever. *)
Fixpoint fanoutCopy (fuel k : nat) (f : fanoutWriter) (v : VerifyReader)
    : option (fanoutWriter * VerifyReader * goerr) :=
  match fuel with
  | O => None
  | S fuel =>
      r ← ReadFull sum buf v;
      match r with
      | (v, Panics s) => Some (f, v, Some (PanicErr "fanout source" s))
      | (v, Returns (p, rerr)) =>
          w ← (if 0 <? length p then Write stall p (evs k) f else Some (f, None));
          match w with
          | (f, Some werr) => Some (f, v, Some werr)
          | (f, None) =>
              match rerr with
              | None => fanoutCopy fuel (S k) f v
              | Some e => if ends (Some e) then Some (f, v, None) else Some (f, v, Some e)
              end
          end
      end
  end.
End copy.

(** ** Sinks *)

(** A [Sink.Store] call: reads of its stream, then the returned byte count and
    error together with the blob it committed (if any), or a panic. *)
Inductive sinkprog :=
  | SRet (n : Z) (e : goerr) (blob : option bytes)
  | SPanic (r : string)
  | SRead (size : nat) (k : bytes → goerr → sinkprog).

Record targetResult := MkRes { stored : Z; r_err : goerr; sawEOF : bool }.

(** What a finished Store leaves: its result and its committed blob. *)
Record storeOut := MkOut { so_result : attempt targetResult; so_blob : option bytes }.

(** Run a sink over the [eofReader] around its stream: [saw] is [er.sawEOF].
    A read of the stream that panics is a panic of Store. *)
Fixpoint run_sink (p : sinkprog) (r : reader) (saw : bool) : storeOut :=
  match p with
  | SRet n e blob => MkOut (Returns (MkRes n e saw)) blob
  | SPanic s => MkOut (Panics s) None
  | SRead size k =>
      match read size r with
      | (_, Panics s) => MkOut (Panics s) None
      | (r', Returns (bs, e)) => run_sink (k bs e) r' (saw || errors_Is e EOF)
      end
  end.

(** The [Sink.Store] contract: it commits, and reports success, only after
    reading the stream to EOF, and what it commits is what it read. After EOF it
    may ask again: a stream at its end answers EOF with no bytes. *)
Inductive obeys : bytes → sinkprog → Prop :=
  | ob_fail acc n e : obeys acc (SRet n (Some e) None)
  | ob_panic acc s : obeys acc (SPanic s)
  | ob_read acc size k :
      (∀ bs e, errors_Is e EOF = false → obeys (acc ++ bs) (k bs e)) →
      (∀ bs e, errors_Is e EOF = true → commits (acc ++ bs) (k bs e)) →
      obeys acc (SRead size k)
with commits : bytes → sinkprog → Prop :=
  | co_ok acc n : commits acc (SRet n None (Some acc))
  | co_fail acc n e blob : blob = None ∨ blob = Some acc → commits acc (SRet n (Some e) blob)
  | co_panic acc s : commits acc (SPanic s)
  | co_read acc size k : (∀ e, errors_Is e EOF = true → commits acc (k [] e)) → commits acc (SRead size k).

(** ** fanOut *)

Inductive Codec := CodecNone | CodecZstd.
#[global] Instance Codec_eq_dec : EqDecision Codec.
Proof. solve_decision. Defined.

(** A configured target: its sink's name, its codec and its Store behaviour. *)
Record Target := MkTarget { t_name : string; t_codec : Codec; t_store : string → sinkprog }.

(** How one target's goroutine goes: a panic of its own setup, or the arm the
    select of [storeWithCtx] takes, with [tctx.Err()] for the cancelled arm. *)
Record tgt_env := MkEnv { e_setup : option string; e_arm : select_arm; e_tctx : ctx_err }.

(** The encoder's output for a plaintext, and what it has flushed when its
    source fails. *)
Class Zstd := { zenc : bytes → bytes; zpart : bytes → bytes }.

Definition encode `{Zstd} (c : Codec) (d : bytes) : bytes :=
  match c with CodecNone => d | CodecZstd => zenc d end.

(** The stream target [i]'s Store reads: what its pipe delivered, then the
    pipe's close: EOF when the copy ended verified ([CloseWithError(nil)]), the
    copy error, or ErrClosedPipe when its own reader was closed (a dropped
    target; a dead one, whose Store had returned). Through zstd the source
    error ends the encoder's output. *)
Definition pipe_end (f : fanoutWriter) (i : nat) (copyErr : goerr) : goerr :=
  if flag (f_dead f) i || flag (f_dropped f) i then Some (Sent ErrClosedPipe) else copyErr.

Definition offered `{Zstd} (c : Codec) (f : fanoutWriter) (i : nat) (copyErr : goerr) : reader :=
  let d := default [] (f_got f !! i) in
  match pipe_end f i copyErr with
  | None => [RData (encode c d) None]
  | Some e => [RData (match c with CodecNone => d | CodecZstd => zpart d end) None; RSticky e]
  end.

(** [storeWithCtx]. *)
Definition storeWithCtx (env : tgt_env) (name : string) (fn : attempt targetResult) : targetResult :=
  RunAbandonable (e_arm env) fn (MkRes 0 (Some (ctx_error (e_tctx env))) false)
    (λ r, MkRes 0 (Some (PanicErr ("sink " +:+ name) r)) false).

(** Target [i]'s goroutine: its slot of [results], and the blob its sink has
    committed (an abandoned Store may still commit later). *)
Definition run_target `{Zstd} (hash : string) (f : fanoutWriter) (copyErr : goerr)
    (i : nat) (t : Target) (env : tgt_env) : targetResult * option bytes :=
  match e_setup env with
  | Some r => (MkRes 0 (Some (PanicErr ("sink " +:+ t_name t) r)) false, None)
  | None =>
      let out := run_sink (t_store t hash) (offered (t_codec t) f i copyErr) false in
      (storeWithCtx env (t_name t) (so_result out), so_blob out)
  end.

(** A sink that claims success without having read to EOF is failed. *)
Definition require_EOF (r : targetResult) : targetResult :=
  match r_err r with
  | None => if sawEOF r then r else MkRes (stored r) (Some (Sent errAbortedBeforeEOF)) (sawEOF r)
  | Some _ => r
  end.

Record fanout := MkFanout {
  fo_results : option (list targetResult);   (* None is the nil slice *)
  fo_verified : Z;
  fo_err : goerr;
  fo_blobs : list (option bytes);
}.

Definition maxObjectBytes : Z := 4 * 2 ^ 30.

(** [fanOut]. [fetch] is the source's answer; [ctx] is [ctx.Err()] once every
    target goroutine has finished. [None]: the copy does not return. *)
Definition fanOut `{Zstd} (sum : bytes → string) (buf : nat) (stall : Z) (evs : nat → list cevent)
    (fetch : reader + err) (ctx : ctxState) (hash : string)
    (targets : list Target) (envs : list tgt_env) : option fanout :=
  match fetch with
  | inr e => Some (MkFanout None (-1) (Some e) [])
  | inl rc =>
      c ← fanoutCopy sum buf stall evs (S (S (rsize rc))) 0 (newFanoutWriter (length targets))
            (NewVerifyReader rc hash maxObjectBytes);
      let '(f, v, copyErr) := c in
      let outs := imap (λ i te, run_target hash f copyErr i te.1 te.2) (zip targets envs) in
      let results := require_EOF <$> outs.*1 in
      let blobs := outs.*2 in
      Some (match ctx with
            | Some c =>
                MkFanout (Some results) (if copyErr then -1 else Total v)
                  (Some (Wrap "backup aborted" [ctx_error c])) blobs
            | None =>
                match copyErr with
                | Some ce =>
                    if Is ce ErrClosedPipe then MkFanout (Some results) (-1) None blobs
                    else MkFanout (Some results) (-1) (Some (Wrap "source read" [ce])) blobs
                | None => MkFanout (Some results) (Total v) None blobs
                end
            end)
  end.

(** ** One chunk *)

Definition sized (n : nat) (f : fanoutWriter) : Prop :=
  length (f_dead f) = n ∧ length (f_pending f) = n ∧ length (f_dropped f) = n ∧ length (f_got f) = n.

Definition got_of (f : fanoutWriter) (i : nat) : bytes := default [] (f_got f !! i).

(** The state of a chunk's delivery: a pending pump has received nothing of it
    yet, a pump that signalled without an error has received all of it; a
    dead or dropped target never comes back. *)
Definition delivering (p : bytes) (f0 f : fanoutWriter) : Prop :=
  ∀ i, i < length (f_dead f0) →
    (flag (f_dead f0) i = true → flag (f_dead f) i = true) ∧
    (flag (f_dropped f0) i = true → flag (f_dropped f) i = true) ∧
    (flag (f_pending f) i = true → flag (f_dead f) i = false ∧ got_of f i = got_of f0 i) ∧
    (flag (f_pending f) i = false → flag (f_dead f) i = false → got_of f i = got_of f0 i ++ p).

Lemma flag_insert l i j b : i < length l → flag (<[i := b]> l) j = (if decide (i = j) then b else flag l j).
Proof.
  intros Hi. unfold flag. case_decide as Hij.
  - subst j. by rewrite list_lookup_insert_eq.
  - by rewrite list_lookup_insert_ne.
Qed.

Lemma flag_lt l i : flag l i = true → i < length l.
Proof.
  unfold flag. destruct (l !! i) eqn:E; [|done]. intros _. by eapply lookup_lt_Some.
Qed.

Lemma got_of_alter f i j g d pe dr :
  i < length (f_got f) →
  got_of (MkFW d pe dr (alter g i (f_got f))) j = (if decide (i = j) then g (got_of f j) else got_of f j).
Proof.
  intros Hi. unfold got_of; simpl. case_decide as Hij.
  - subst j. rewrite list_lookup_alter_eq. destruct (f_got f !! i) eqn:E; [done|].
    apply lookup_ge_None in E. lia.
  - by rewrite list_lookup_alter_ne.
Qed.

Lemma signal_sized n p f s : sized n f → sized n (signal p f s).
Proof.
  destruct s as [i werr]. unfold signal, sized. case_match; [|done]. simpl.
  intros (?&?&?&?). destruct werr; by rewrite ?length_insert, ?length_alter.
Qed.

Lemma signal_delivering n p f0 f s : sized n f0 → sized n f →
  delivering p f0 f → delivering p f0 (signal p f s).
Proof.
  destruct s as [i werr]. intros (H0d & _) (Hd & Hp & Hdr & Hg) Hdel. unfold signal.
  destruct (flag (f_pending f) i) eqn:Ei; [|done].
  pose proof (flag_lt _ _ Ei) as Hi. intros j Hj. destruct (Hdel j Hj) as (H1 & H2 & H3 & H4).
  destruct (Hdel i) as (_ & _ & Hi3 & _); [lia|]. specialize (Hi3 Ei) as [Hid Hig].
  destruct werr; simpl; rewrite ?flag_insert, ?got_of_alter by lia.
  - case_decide; subst; split_and!; done.
  - case_decide; subst; split_and!; try done. intros _ _. by rewrite Hig.
Qed.

Lemma signals_delivering n p f0 f l : sized n f0 → sized n f → delivering p f0 f →
  sized n (foldl (signal p) f l) ∧ delivering p f0 (foldl (signal p) f l).
Proof.
  intros H0. revert f. induction l as [|s l IH]; intros f Hf Hd; [done|]. simpl.
  apply IH; [by apply signal_sized|by eapply signal_delivering].
Qed.

Lemma drop_pending_delivering n p f0 f : sized n f0 → sized n f → delivering p f0 f →
  sized n (drop_pending f) ∧ delivering p f0 (drop_pending f).
Proof.
  intros H0 (Hd & Hp & Hdr & Hg) Hdel. split.
  - unfold sized, drop_pending; simpl. rewrite length_zip_with. lia.
  - intros j Hj. destruct (Hdel j Hj) as (H1 & H2 & H3 & H4). unfold drop_pending; simpl. split_and!; try done.
    intros Hj0%H2. unfold flag in *. rewrite lookup_zip_with.
    destruct (f_dropped f !! j) as [b|] eqn:Eb; simpl in *; [|done]. subst b.
    destruct (lookup_lt_is_Some_2 (f_pending f) j) as [b ->]; [|done].
    apply lookup_lt_Some in Eb. lia.
Qed.

Lemma collect_delivering n p tick evs f0 f f' : sized n f0 → sized n f → delivering p f0 f →
  collect p tick evs f = Some f' →
  sized n f' ∧ delivering p f0 f' ∧ forallb negb (f_pending f') = true.
Proof.
  intros H0. revert tick f. induction evs as [|ev evs IH]; intros tick f Hf Hd Hc; simpl in Hc.
  { destruct (forallb negb (f_pending f)) eqn:E; by simplify_eq. }
  destruct (forallb negb (f_pending f)) eqn:E; [by simplify_eq|].
  destruct ev as [i werr|drained].
  - eapply IH; [| |done]; [by apply signal_sized|by eapply signal_delivering].
  - destruct tick; [|by eapply IH].
    destruct (signals_delivering n p f0 f drained H0 Hf Hd) as [Hs' Hd'].
    destruct (drop_pending_delivering n p f0 _ H0 Hs' Hd') as [Hs'' Hd'']. by eapply IH.
Qed.

Lemma forallb_flag l i : forallb negb l = true → flag l i = false.
Proof.
  intros Hl. unfold flag. destruct (l !! i) as [b|] eqn:E; [|done]. simpl.
  rewrite List.forallb_forall in Hl. specialize (Hl b). destruct b; [|done].
  exfalso. discriminate Hl. apply list_elem_of_In. by eapply list_elem_of_lookup_2.
Qed.

(** A written chunk reaches every target that is still usable, whole. *)
Lemma Write_delivers n stall p evs f f' e : sized n f → Write stall p evs f = Some (f', e) →
  sized n f' ∧
  ∀ i, i < n → flag (f_dead f') i = false →
    flag (f_dead f) i = false ∧ got_of f' i = got_of f i ++ p ∧
    (flag (f_dropped f') i = false → flag (f_dropped f) i = false).
Proof.
  intros Hs. unfold Write. set (g := MkFW _ _ _ _).
  destruct (collect p _ evs g) as [h|] eqn:Ec; simpl; [|done]. intros [= <- _].
  assert (sized n g) as Hg.
  { destruct Hs as (?&?&?&?). unfold sized, g; simpl. by rewrite length_fmap. }
  assert (delivering p g g) as Hd.
  { intros i Hi. split_and!; try done.
    - intros Hpe. split; [|done]. unfold g, flag in *; simpl in *. rewrite list_lookup_fmap in Hpe.
      destruct (f_dead f !! i) as [[]|]; done.
    - intros Hpe Hde. unfold g, flag in *; simpl in *. rewrite list_lookup_fmap in Hpe.
      destruct (lookup_lt_is_Some_2 _ _ Hi) as [b Hb]. rewrite Hb in Hpe, Hde. by destruct b. }
  destruct (collect_delivering n p _ evs g g h Hg Hg Hd Ec) as (Hh & Hdh & Hall).
  split; [done|]. intros i Hi Hlive.
  destruct (Hdh i) as (H1 & H2 & _ & H4); [destruct Hg; lia|]. simpl in *.
  split_and!.
  - destruct (flag (f_dead f) i); [|done]. by rewrite H1 in Hlive.
  - apply H4; [|done]. by apply forallb_flag.
  - intros Hdr. destruct (flag (f_dropped f) i); [|done]. by rewrite H2 in Hdr.
Qed.

Lemma signal_pending p f s i : flag (f_pending (signal p f s)) i = true →
  flag (f_pending f) i = true ∧ i ≠ s.1.
Proof.
  destruct s as [j werr]. unfold signal. destruct (flag (f_pending f) j) eqn:Ej; simpl.
  - rewrite flag_insert by (by apply flag_lt). case_decide; [done|]. naive_solver.
  - intros Hi. split; [done|]. congruence.
Qed.

Lemma collect_total p tick evs0 f :
  (∀ i, flag (f_pending f) i = true → ∃ werr, CDone i werr ∈ evs0) →
  is_Some (collect p tick evs0 f).
Proof.
  revert tick f. induction evs0 as [|ev evs0 IH]; intros tick f Hall; simpl.
  - rewrite (proj2 (List.forallb_forall negb (f_pending f))); [by eexists|].
    intros b [i Hi]%list_elem_of_In%list_elem_of_lookup. destruct b; [|done].
    destruct (Hall i) as [? Hn]; [unfold flag; by rewrite Hi|]. by apply not_elem_of_nil in Hn.
  - destruct (forallb negb (f_pending f)); [by eexists|]. destruct ev as [i werr|drained].
    + apply IH. intros j [Hj Hne]%signal_pending.
      destruct (Hall j Hj) as [w [[= -> ->]|Hin]%elem_of_cons]; [done|eauto].
    + assert (∀ g, (∀ j, flag (f_pending g) j = true → flag (f_pending f) j = true) →
        ∀ j, flag (f_pending g) j = true → ∃ werr, CDone j werr ∈ evs0) as Hsub.
      { intros g Hg j Hj. destruct (Hall j (Hg j Hj)) as [w [?|Hin]%elem_of_cons]; [done|eauto]. }
      destruct tick; [|by apply IH, Hsub]. apply IH, Hsub. simpl.
      clear. revert f. induction drained as [|s l IH]; intros f j; simpl; [done|].
      intros Hj. by apply IH, signal_pending in Hj as [? _].
Qed.

(** ** The whole copy *)

Section copy_spec.
Context (sum : bytes → string) (buf : nat) (stall : Z) (evs : nat → list cevent) (n : nat).

(** A copy that ends without an error ended on a verified stream, and every
    target that is still usable received all of it. A copy error never reads
    as an end of stream downstream. *)
Lemma fanoutCopy_spec fuel k f v f' v' e : sized n f →
  (∀ i, i < n → flag (f_dead f) i = false → got_of f i = v_acc v) →
  fanoutCopy sum buf stall evs fuel k f v = Some (f', v', e) →
  sized n f' ∧ v_want v' = v_want v ∧ v_maxLen v' = v_maxLen v ∧ ends e = false ∧
  (e = None → verified sum v' ∧
     ∀ i, i < n → flag (f_dead f') i = false → got_of f' i = v_acc v').
Proof.
  revert k f v. induction fuel as [|fuel IH]; intros k f v Hs Hgot H; [done|]. simpl in H.
  destruct (ReadFull sum buf v) as [[v1 [[p rerr]|s]]|] eqn:ER; simpl in H; [| |done].
  2:{ simplify_eq. unfold ReadFull in ER.
      assert (∀ fl v got, read_loop sum fl buf v got = Some (v', Panics s) →
        v_want v' = v_want v ∧ v_maxLen v' = v_maxLen v) as Hpan.
      { clear. induction fl as [|fl IH]; intros v got Hl; [done|]. simpl in Hl.
        destruct (_ <? _); [|done]. destruct (VRead _ _ v) as [v1 [[q [e1|]]|s1]] eqn:EV; [done| |].
        - apply VRead_spec in EV as (_ & ? & ? & _). apply IH in Hl as [-> ->]. done.
        - apply VRead_panic in EV as (_ & ? & ? & _). by simplify_eq. }
      apply Hpan in ER as [? ?]. by split_and!. }
  apply ReadFull_spec in ER as (Hacc & Hw & Hm & Hend).
  assert (∃ f1 we, (if 0 <? length p then Write stall p (evs k) f else Some (f, None)) = Some (f1, we) ∧
    sized n f1 ∧ ends we = false ∧
    (∀ i, i < n → flag (f_dead f1) i = false → got_of f1 i = v_acc v1)) as (f1 & we & Hwr & Hs1 & Hwe & Hgot1).
  { destruct (0 <? length p) eqn:Ep.
    - destruct (Write stall p (evs k) f) as [[f1 we]|] eqn:EW; simpl in H; [|done].
      destruct (Write_delivers n stall p (evs k) f f1 we Hs EW) as [Hs1 Hd].
      exists f1, we. split_and!; [done|done| |].
      + unfold Write in EW. destruct (collect _ _ _ _) as [fc|]; simpl in EW; [|done].
        simplify_eq. by destruct (existsb _ _).
      + intros i Hi Hl. destruct (Hd i Hi Hl) as (Hl0 & -> & _). by rewrite Hgot, Hacc.
    - exists f, None. to_prop. assert (p = []) as -> by (destruct p; simpl in *; [done|lia]).
      rewrite app_nil_r in Hacc. rewrite Hacc. done. }
  rewrite Hwr in H. simpl in H. destruct we as [werr|].
  { simplify_eq. split_and!; try done; congruence. }
  destruct rerr as [e1|].
  - destruct (ends (Some e1)) eqn:Ee; simplify_eq; split_and!; try done; try congruence.
    intros _. split; [by apply Hend|done].
  - apply IH in H as (? & ? & ? & ? & ?); [|done|done]. split_and!; try done; congruence.
Qed.

Lemma fanoutCopy_content fuel k f v f' v' : 
  fanoutCopy sum buf stall evs fuel k f v = Some (f', v', None) →
  v_acc v' ++ content (v_r v') = v_acc v ++ content (v_r v).
Proof.
  revert k f v. induction fuel as [|fuel IH]; intros k f v Hc; [done|]. simpl in Hc.
  destruct (ReadFull sum buf v) as [[v1 [[p rerr]|s]]|] eqn:ER; simpl in Hc; [|done|done].
  apply read_loop_content in ER. destruct (if 0 <? length p then _ else _) as [[f1 [we|]]|]; simpl in Hc; [done| |done].
  destruct rerr as [e1|]; [|rewrite (IH _ _ _ Hc); done].
  destruct (ends (Some e1)); by simplify_eq.
Qed.

(** With a schedule in which every pump signals for every chunk, the copy
    returns. *)
Definition fair : Prop := ∀ k i, i < n → ∃ werr, CDone i werr ∈ evs k.

Lemma fanoutCopy_total fuel k f v : fair → 1 ≤ buf → sized n f → rsize (v_r v) < fuel →
  is_Some (fanoutCopy sum buf stall evs fuel k f v).
Proof.
  intros Hfair Hbuf. revert k f v. induction fuel as [|fuel IH]; intros k f v Hs Hf; [lia|]. simpl.
  destruct (ReadFull_total sum buf v) as [[v1 [[p rerr]|s]] ER]; rewrite ER; simpl; [|by eexists].
  assert (∃ f1 we, (if 0 <? length p then Write stall p (evs k) f else Some (f, None)) = Some (f1, we) ∧
    sized n f1) as (f1 & we & -> & Hs1).
  { destruct (0 <? length p); [|by exists f, None].
    destruct (Write stall p (evs k) f) as [[f1 we]|] eqn:EW.
    - exists f1, we. split; [done|]. by eapply Write_delivers.
    - exfalso. unfold Write in EW. destruct (collect_total p (0 <? stall)%Z (evs k)
        (MkFW (f_dead f) (negb <$> f_dead f) (f_dropped f) (f_got f))) as [h Hh].
      { simpl. intros i Hi. apply Hfair. apply flag_lt in Hi. rewrite length_fmap in Hi. destruct Hs; lia. }
      by rewrite Hh in EW. }
  simpl. destruct we as [werr|]; [by eexists|]. destruct rerr as [e1|]; [case_match; by eexists|].
  apply ReadFull_size in ER as [_ Hlt]; [|done]. apply IH; [done|]. specialize (Hlt eq_refl). lia.
Qed.
End copy_spec.

(** ** What a sink can conclude from its stream *)

Lemma read_plain size d : ∃ d1 d2, d = d1 ++ d2 ∧
  (read size [RData d None] = ([RData d2 None], Returns (d1, None)) ∨
   d2 = [] ∧ read size [RData d None] = ([], Returns (d1, None))).
Proof.
  simpl. destruct (length d <=? size).
  - exists d, []. rewrite app_nil_r. auto.
  - exists (take size d), (drop size d). rewrite take_drop. auto.
Qed.

(** A stream that fails never lets its reader see EOF. *)
Lemma run_sink_failing p d e saw : errors_Is (Some e) EOF = false →
  (∀ res, so_result (run_sink p [RData d None; RSticky e] saw) = Returns res → sawEOF res = saw) ∧
  (∀ res, so_result (run_sink p [RSticky e] saw) = Returns res → sawEOF res = saw).
Proof.
  intros He. revert d saw. induction p as [n e' blob|s|size k IH]; intros d saw; simpl.
  { split; by intros res [= <-]. }
  { done. }
  simpl in He. split.
  - intros res. destruct (length d <=? size).
    + rewrite orb_false_r. by apply IH.
    + rewrite orb_false_r. by apply IH.
  - intros res. rewrite He, orb_false_r. by apply (IH [] (Some e) []).
Qed.

(** On a failing stream a sink that obeys its contract commits nothing, and
    does not report success. *)
Lemma obeys_failing p acc d e saw : obeys acc p → errors_Is (Some e) EOF = false →
  so_blob (run_sink p [RData d None; RSticky e] saw) = None ∧
  so_blob (run_sink p [RSticky e] saw) = None.
Proof.
  intros Ho He. revert acc d saw Ho. induction p as [n e' blob|s|size k IH]; intros acc d saw Ho; simpl.
  - inversion Ho; subst; done.
  - done.
  - inversion Ho as [| |? ? ? Hmore _]; subst. split.
    + destruct (length d <=? size).
      * apply (IH d None (acc ++ d) []). by apply Hmore.
      * apply (IH _ None (acc ++ take size d) (drop size d)). by apply Hmore.
    + apply (IH [] (Some e) (acc ++ []) []). by apply Hmore.
Qed.

Lemma obeys_failing_err p acc d e saw : obeys acc p → errors_Is (Some e) EOF = false →
  (∀ res, so_result (run_sink p [RData d None; RSticky e] saw) = Returns res → r_err res ≠ None) ∧
  (∀ res, so_result (run_sink p [RSticky e] saw) = Returns res → r_err res ≠ None).
Proof.
  intros Ho He. revert acc d saw Ho. induction p as [n e' blob|s|size k IH]; intros acc d saw Ho; simpl.
  - inversion Ho; subst. split; by intros res [= <-].
  - done.
  - inversion Ho as [| |? ? ? Hmore _]; subst. split.
    + destruct (length d <=? size).
      * apply (IH d None (acc ++ d) []). by apply Hmore.
      * apply (IH _ None (acc ++ take size d) (drop size d)). by apply Hmore.
    + apply (IH [] (Some e) (acc ++ []) []). by apply Hmore.
Qed.

(** At the end of its stream a sink that may commit commits what it has read. *)
Lemma commits_ended p acc : commits acc p →
  (∀ b, so_blob (run_sink p [] true) = Some b → b = acc) ∧
  (∀ res, so_result (run_sink p [] true) = Returns res → r_err res = None →
     so_blob (run_sink p [] true) = Some acc ∧ sawEOF res = true).
Proof.
  intros Hc. induction p as [n e blob|s|size k IH]; inversion Hc as [? ?|? ? ? ? Hb|? ?|? ? ? Hk]; subst; simpl.
  - split; [congruence|]. by intros res [= <-].
  - split; [destruct Hb; congruence|]. by intros res [= <-].
  - done.
  - by apply IH, Hk.
Qed.

(** On a stream that ends, it commits what the stream held, and success means
    it did. *)
Lemma obeys_ending p acc d saw : obeys acc p →
  (∀ b, so_blob (run_sink p [RData d None] saw) = Some b → b = acc ++ d) ∧
  (∀ res, so_result (run_sink p [RData d None] saw) = Returns res → r_err res = None →
     so_blob (run_sink p [RData d None] saw) = Some (acc ++ d) ∧ sawEOF res = true) ∧
  (d = [] → (∀ b, so_blob (run_sink p [] saw) = Some b → b = acc) ∧
     ∀ res, so_result (run_sink p [] saw) = Returns res → r_err res = None →
       so_blob (run_sink p [] saw) = Some acc ∧ sawEOF res = true).
Proof.
  intros Ho. revert acc d saw Ho. induction p as [n e' blob|s|size k IH]; intros acc d saw Ho.
  - inversion Ho; subst; simpl. split_and!; [done|by intros res [= <-]|].
    intros _. split; [done|by intros res [= <-]].
  - done.
  - inversion Ho as [| |? ? ? Hmore Hend]; subst.
    assert ((∀ b, so_blob (run_sink (SRead size k) [] saw) = Some b → b = acc) ∧
     ∀ res, so_result (run_sink (SRead size k) [] saw) = Returns res → r_err res = None →
       so_blob (run_sink (SRead size k) [] saw) = Some acc ∧ sawEOF res = true) as Hat.
    { cbn [run_sink read]. change (errors_Is (Some (Sent EOF)) EOF) with true. rewrite orb_true_r.
      specialize (Hend [] (Some (Sent EOF)) eq_refl). rewrite app_nil_r in Hend. by apply commits_ended. }
    split; [|split; [|intros _; by apply Hat]].
    + intros b. destruct (read_plain size d) as (d1 & d2 & -> & [Hr|[-> Hr]]); cbn [run_sink]; rewrite Hr.
      * rewrite app_assoc. apply (IH d1 None (acc ++ d1) d2 _ (Hmore d1 None eq_refl)).
      * rewrite app_nil_r.
        apply (proj2 (proj2 (IH d1 None (acc ++ d1) [] _ (Hmore d1 None eq_refl))) eq_refl).
    + intros res. destruct (read_plain size d) as (d1 & d2 & -> & [Hr|[-> Hr]]); cbn [run_sink]; rewrite Hr.
      * rewrite app_assoc. apply (IH d1 None (acc ++ d1) d2 _ (Hmore d1 None eq_refl)).
      * rewrite app_nil_r.
        apply (proj2 (proj2 (IH d1 None (acc ++ d1) [] _ (Hmore d1 None eq_refl))) eq_refl).
Qed.

Lemma require_EOF_ok r : r_err (require_EOF r) = None →
  require_EOF r = r ∧ r_err r = None ∧ sawEOF r = true.
Proof.
  unfold require_EOF. destruct (r_err r) eqn:Er; [congruence|]. by destruct (sawEOF r) eqn:Es.
Qed.

Section fanOut_spec.
Context `{Zstd} (sum : bytes → string) (buf : nat) (stall : Z) (evs : nat → list cevent).
Context (rc : reader) (ctx : ctxState) (hash : string) (targets : list Target) (envs : list tgt_env).

Lemma newFanoutWriter_sized n : sized n (newFanoutWriter n).
Proof. unfold sized; simpl. by rewrite !length_replicate. Qed.

Lemma newFanoutWriter_got n i : got_of (newFanoutWriter n) i = [].
Proof.
  unfold got_of; simpl. destruct (replicate n [] !! i) as [d|] eqn:E; [|done].
  by apply lookup_replicate in E as [-> _].
Qed.

(** The copy phase of a fan-out, in one statement: the error it ends with is
    never an end of stream, and without one every usable pipe delivered the
    one verified plaintext. *)
Lemma copy_phase f v e :
  fanoutCopy sum buf stall evs (S (S (rsize rc))) 0 (newFanoutWriter (length targets))
    (NewVerifyReader rc hash maxObjectBytes) = Some (f, v, e) →
  ends e = false ∧
  (e = None → sum (v_acc v) = hash ∧ (Total v ≤ maxObjectBytes)%Z ∧ v_acc v `prefix_of` content rc ∧
     ∀ i, i < length targets → flag (f_dead f) i = false → got_of f i = v_acc v).
Proof.
  intros Hc. pose proof Hc as Hcont. eapply (fanoutCopy_spec _ _ _ _ (length targets)) in Hc
    as (_ & Hw & Hm & He & Hok); [|apply newFanoutWriter_sized|].
  2:{ intros i _ _. by rewrite newFanoutWriter_got. }
  split; [done|]. intros Hn. destruct (Hok Hn) as [[Hsum Hmax] Hgot]. simpl in Hw, Hm.
  rewrite Hw in Hsum. rewrite Hm in Hmax. split_and!; [done|apply Hmax; done| |done].
  subst e. apply fanoutCopy_content in Hcont. simpl in Hcont. by exists (content (v_r v)).
Qed.

(** Either target [i]'s stream is the encoded verified plaintext and then EOF,
    or it fails without EOF. *)
Lemma offered_cases f v e i c :
  fanoutCopy sum buf stall evs (S (S (rsize rc))) 0 (newFanoutWriter (length targets))
    (NewVerifyReader rc hash maxObjectBytes) = Some (f, v, e) →
  i < length targets →
  (e = None ∧ sum (v_acc v) = hash ∧ (Total v ≤ maxObjectBytes)%Z ∧ v_acc v `prefix_of` content rc ∧
     offered c f i e = [RData (encode c (v_acc v)) None]) ∨
  ∃ d x, offered c f i e = [RData d None; RSticky x] ∧ errors_Is (Some x) EOF = false.
Proof.
  intros Hc Hi. destruct (copy_phase f v e Hc) as [He Hok]. unfold offered, pipe_end.
  destruct (flag (f_dead f) i || flag (f_dropped f) i) eqn:Ed; [right; eauto|].
  apply orb_false_iff in Ed as [Hd _]. destruct e as [x|].
  - right. eexists _, x. split; [done|]. unfold ends in He. by apply orb_false_iff in He as [? _].
  - left. destruct (Hok eq_refl) as (Hs & Hm & Hpre & Hg). split_and!; [done..|].
    specialize (Hg i Hi Hd). unfold got_of in Hg. by rewrite Hg.
Qed.

Lemma fanOut_lookup fo i t env :
  fanOut sum buf stall evs (inl rc) ctx hash targets envs = Some fo →
  targets !! i = Some t → envs !! i = Some env →
  ∃ f v e, fanoutCopy sum buf stall evs (S (S (rsize rc))) 0 (newFanoutWriter (length targets))
      (NewVerifyReader rc hash maxObjectBytes) = Some (f, v, e) ∧
    (fo_results fo ≫= (.!! i)) = Some (require_EOF (run_target hash f e i t env).1) ∧
    fo_blobs fo !! i = Some (run_target hash f e i t env).2 ∧
    (e = None → fo_verified fo = Total v) ∧ (e ≠ None → fo_verified fo = -1)%Z.
Proof.
  unfold fanOut. intros Hfo Ht Henv.
  destruct (fanoutCopy _ _ _ _ _ _ _ _) as [[[f v] e]|]; simpl in Hfo; [|done].
  exists f, v, e. split; [done|].
  assert (imap (λ i te, run_target hash f e i te.1 te.2) (zip targets envs) !! i =
    Some (run_target hash f e i t env)) as Hl.
  { rewrite list_lookup_imap, lookup_zip_with, Ht. simpl. by rewrite Henv. }
  destruct ctx as [c|], e as [ce|]; simplify_eq; try (destruct (Is ce ErrClosedPipe); simplify_eq);
    simpl; rewrite !list_lookup_fmap, Hl; done.
Qed.

Lemma run_target_result f e i t env :
  r_err (require_EOF (run_target hash f e i t env).1) = None →
  ∃ res, e_setup env = None ∧
    so_result (run_sink (t_store t hash) (offered (t_codec t) f i e) false) = Returns res ∧
    r_err res = None ∧ sawEOF res = true.
Proof.
  intros (_ & Hn & Hs)%require_EOF_ok. revert Hn Hs.
  unfold run_target. destruct (e_setup env) as [s|]; [done|]. simpl.
  unfold storeWithCtx, RunAbandonable. destruct (e_arm env); simpl; [|done].
  destruct (so_result _) as [res|s]; simpl; [|done]. eauto.
Qed.
End fanOut_spec.

(** A sink that copies its stream ([io.Copy]) and commits at EOF, for streams of
    at most [n] reads: the shape of the sinks' Store. It obeys the contract. *)
Fixpoint copy_sink (n size : nat) (acc : bytes) : sinkprog :=
  match n with
  | O => SRet 0 (Some (Msg "copy")) None
  | S n => SRead size (λ bs e,
      match e with
      | None => copy_sink n size (acc ++ bs)
      | Some e =>
          if Is e EOF then SRet (Z.of_nat (length (acc ++ bs))) None (Some (acc ++ bs))
          else SRet (Z.of_nat (length (acc ++ bs))) (Some (Wrap "copy" [e])) None
      end)
  end.

Lemma copy_sink_obeys n size acc : obeys acc (copy_sink n size acc).
Proof.
  revert acc. induction n as [|n IH]; intros acc; simpl; [constructor|]. constructor.
  - intros bs [e|] He; [simpl in He; rewrite He; constructor|apply IH].
  - intros bs [e|] He; [simpl in He; rewrite He; constructor|done].
Qed.

(** What a result without an error tells about the sink. *)
Lemma fanOut_stored `{Zstd} sum buf stall evs rc ctx hash targets envs fo i t r :
  fanOut sum buf stall evs (inl rc) ctx hash targets envs = Some fo →
  length envs = length targets → targets !! i = Some t →
  (fo_results fo ≫= (.!! i)) = Some r → r_err r = None →
  sawEOF r = true ∧
  ∃ data, sum data = hash ∧ data `prefix_of` content rc ∧ fo_verified fo = Z.of_nat (length data) ∧
    (obeys [] (t_store t hash) → fo_blobs fo !! i = Some (Some (encode (t_codec t) data))).
Proof.
  intros Hfo Hlen Ht Hr Hnil. pose proof (lookup_lt_Some _ _ _ Ht) as Hi.
  destruct (lookup_lt_is_Some_2 envs i) as [env Henv]; [lia|].
  destruct (fanOut_lookup sum buf stall evs rc ctx hash targets envs fo i t env Hfo Ht Henv)
    as (f & v & e & Hc & Hres & Hbl & Hv & _). rewrite Hres in Hr. injection Hr as <-.
  destruct (run_target_result hash f e i t env Hnil) as (res & Hset & Hrun & Hre & Hsaw).
  split.
  { by destruct (require_EOF_ok _ Hnil) as (-> & _ & ?). }
  destruct (offered_cases sum buf stall evs rc hash targets f v e i (t_codec t) Hc Hi)
    as [(He & Hs & Hm & Hpre & Hoff)|(d & x & Hoff & Hx)]; rewrite Hoff in Hrun.
  2:{ destruct (run_sink_failing (t_store t hash) d x false Hx) as [H1 _].
      specialize (H1 res Hrun). congruence. }
  exists (v_acc v). split_and!; [done|done|by rewrite (Hv He)|]. intros Hob. rewrite Hbl. f_equal.
  unfold run_target. rewrite Hset, Hoff. simpl.
  destruct (obeys_ending _ _ (encode (t_codec t) (v_acc v)) false Hob) as (_ & H2 & _).
  by apply (H2 res).
Qed.

(** What a committed blob tells about the source. *)
Lemma fanOut_blob `{Zstd} sum buf stall evs rc ctx hash targets envs fo i t b :
  fanOut sum buf stall evs (inl rc) ctx hash targets envs = Some fo →
  length envs = length targets → targets !! i = Some t → obeys [] (t_store t hash) →
  fo_blobs fo !! i = Some (Some b) →
  ∃ data, b = encode (t_codec t) data ∧ sum data = hash ∧ data `prefix_of` content rc ∧
    (Z.of_nat (length data) ≤ maxObjectBytes)%Z.
Proof.
  intros Hfo Hlen Ht Hob Hb. pose proof (lookup_lt_Some _ _ _ Ht) as Hi.
  destruct (lookup_lt_is_Some_2 envs i) as [env Henv]; [lia|].
  destruct (fanOut_lookup sum buf stall evs rc ctx hash targets envs fo i t env Hfo Ht Henv)
    as (f & v & e & Hc & _ & Hbl & _). rewrite Hbl in Hb. injection Hb as Hb.
  unfold run_target in Hb. destruct (e_setup env); [done|]. simpl in Hb.
  destruct (offered_cases sum buf stall evs rc hash targets f v e i (t_codec t) Hc Hi)
    as [(-> & Hs & Hm & Hpre & Hoff)|(d & x & Hoff & Hx)]; rewrite Hoff in Hb.
  - exists (v_acc v). split_and!; [|done|done|done].
    destruct (obeys_ending _ _ (encode (t_codec t) (v_acc v)) false Hob) as [H1 _]. by apply H1.
  - destruct (obeys_failing _ _ d x false Hob Hx) as [H1 _]. congruence.
Qed.

Lemma fanOut_total `{Zstd} sum buf stall evs rc ctx hash targets envs :
  fair evs (length targets) → 1 ≤ buf → length envs = length targets →
  ∃ fo rs, fanOut sum buf stall evs (inl rc) ctx hash targets envs = Some fo ∧
    fo_results fo = Some rs ∧ length rs = length targets.
Proof.
  intros Hfair Hbuf Hlen. unfold fanOut.
  destruct (fanoutCopy_total sum buf stall evs (length targets) (S (S (rsize rc))) 0
    (newFanoutWriter (length targets)) (NewVerifyReader rc hash maxObjectBytes) Hfair Hbuf
    (newFanoutWriter_sized _)) as [[[f v] e] ->]; [simpl; lia|]. simpl.
  set (rs := require_EOF <$> _). assert (length rs = length targets).
  { unfold rs. rewrite !length_fmap, length_imap, length_zip_with. lia. }
  destruct ctx, e as [ce|]; try (destruct (Is ce ErrClosedPipe)); eauto.
Qed.

(** ** Properties *)

(** C9: verify-then-commit. Whatever the source delivers and however the
    target goroutines interleave, stall, panic or are abandoned, a sink that
    honours the Store contract can have committed only the encoded bytes of a
    plaintext the source delivered whose content hash is the object's id and
    whose size is within the restorable cap. A corrupt, truncated or over-long source leaves
    nothing anywhere. *)
Theorem verify_then_commit `{Zstd} sum buf stall evs rc ctx hash targets envs fo i t b :
  fanOut sum buf stall evs (inl rc) ctx hash targets envs = Some fo →
  length envs = length targets → targets !! i = Some t → obeys [] (t_store t hash) →
  fo_blobs fo !! i = Some (Some b) →
  ∃ data, b = encode (t_codec t) data ∧ sum data = hash ∧ data `prefix_of` content rc ∧
    (Z.of_nat (length data) ≤ maxObjectBytes)%Z.
Proof. intros. by eapply fanOut_blob. Qed.

(** A target result without an error means the sink read the complete
    verified plaintext to EOF, the reported verified size is that plaintext's
    length, and (for a sink that honours the contract) the encoded bytes are
    committed. A non-consuming sink can never be recorded stored. *)
Theorem stored_means_committed `{Zstd} sum buf stall evs rc ctx hash targets envs fo i t r :
  fanOut sum buf stall evs (inl rc) ctx hash targets envs = Some fo →
  length envs = length targets → targets !! i = Some t →
  (fo_results fo ≫= (.!! i)) = Some r → r_err r = None →
  sawEOF r = true ∧
  ∃ data, sum data = hash ∧ data `prefix_of` content rc ∧ fo_verified fo = Z.of_nat (length data) ∧
    (obeys [] (t_store t hash) → fo_blobs fo !! i = Some (Some (encode (t_codec t) data))).
Proof. intros. by eapply fanOut_stored. Qed.


(** A two-target run whose second pipe fails on the first chunk. *)
#[local] Instance ex_zstd : Zstd := {| zenc := λ d, Byte.x28 :: d; zpart := λ _, [] |}.
Definition ex_sum (d : bytes) : string := if length d =? 2 then "two" else "other".
Definition ex_rc : reader := [RData [Byte.x01] None; RData [Byte.x02] None].
Definition ex_targets : list Target :=
  [MkTarget "a" CodecZstd (λ _, copy_sink 4 1 []); MkTarget "b" CodecNone (λ _, copy_sink 4 8 [])].
Definition ex_envs : list tgt_env := [MkEnv None ArmResult CtxCanceled; MkEnv None ArmDone CtxCanceled].
Definition ex_evs (k : nat) : list cevent := [CDone 0 false; CDone 1 true].
Definition ex_fo : option fanout :=
  fanOut ex_sum 1 5 ex_evs (inl ex_rc) None "two" ex_targets ex_envs.

Lemma verify_then_commit_witness :
  ∃ data, [Byte.x28; Byte.x01; Byte.x02] = encode CodecZstd data ∧ ex_sum data = "two" ∧
    data `prefix_of` content ex_rc ∧ (Z.of_nat (length data) ≤ maxObjectBytes)%Z.
Proof.
  eapply (verify_then_commit ex_sum 1 5 ex_evs ex_rc None "two" ex_targets ex_envs _ 0
    (MkTarget "a" CodecZstd (λ _, copy_sink 4 1 []))).
  - vm_compute. reflexivity.
  - reflexivity.
  - reflexivity.
  - apply copy_sink_obeys.
  - reflexivity.
Defined.

Lemma stored_means_committed_witness :
  ∃ fo r, ex_fo = Some fo ∧ (fo_results fo ≫= (.!! 0)) = Some r ∧ sawEOF r = true.
Proof.
  eexists _, _. split; [vm_compute; reflexivity|]. split; [reflexivity|].
  refine (proj1 (stored_means_committed ex_sum 1 5 ex_evs ex_rc None "two" ex_targets ex_envs _ 0
    (MkTarget "a" CodecZstd (λ _, copy_sink 4 1 [])) _ _ _ _ _ _)).
  - vm_compute. reflexivity.
  - reflexivity.
  - reflexivity.
  - reflexivity.
  - reflexivity.
Defined.


End Fanout.
