(* ===== verification/Pipeline.v ===== *)
(** * The backup pipeline

    [Pipeline.BackupOne] / [backupFrom] of [src/internal/domain/backup.go]
    with every step it takes: [precheck], [resolveStored], [pendingTargets],
    [fanOut] (Fanout.v), [shouldRecordCircuit], [recordCircuit],
    [classifyFanout] and the ledger record. The ledger is any implementation
    of [Ledger.LedgerIface]; the circuit breaker is the one of Circuit.v, or
    absent ([None], the nil breaker of the batch paths).

    Everything outside the call is the environment: the ledger read's error,
    the source's answer, the clocks, the schedule of the fan-out, and
    [ctx.Err()] at the three places the code reads it. *)

From S2P Require Import Prelude GoRuntime Ports Circuit Keyset Ledger Stream Fanout.
From Stdlib Require Import ZArith Lia.
From stdpp Require Import base gmap strings list numbers.

Import Ports.

Module Pipeline.
Import Stream Fanout Ledger.

(** Observations, in the order the code makes them. *)
Inductive metric :=
  | ObjectDedup (target : string)
  | ObjectStored (target : string) (n : Z)
  | ObjectFailed (target : string).

Section pipeline.
Context {L : Type} `{LedgerIface L} `{Zstd}.

(** The mutable state a backup touches. *)
Record pstate := MkP {
  ledger : L;
  circuit : option Circuit.CircuitBreaker;
  metrics : list metric;
}.

Record Pipeline := MkPipeline { Targets : list Target; StallTimeout : Z }.

Record env := MkPEnv {
  read_err : goerr;                       (* StoredTargets fails *)
  open_clock : string → Z * Z;            (* the two time.Now() of Circuit.Open *)
  rec_clock : string → Z;                 (* time.Now() of Circuit.Record *)
  fetch : attempt (reader + err);         (* Source.FetchContent *)
  digest : bytes → string;                (* the content hash *)
  bufsize : nat;                          (* the 1 MiB aggregation buffer *)
  sched : nat → list cevent;              (* per chunk, the pumps and the stall timer *)
  goroutine : nat → tgt_env;              (* per pending target, its store goroutine *)
  ctx_fanout : ctxState;                  (* ctx.Err() at the end of fanOut *)
  ctx_abort : ctxState;                   (* ctx.Err() of the abort test *)
  ctx_circuit : ctxState;                 (* ctx.Err() in shouldRecordCircuit *)
  db_now : Z;                             (* now() of the record statement *)
  record_fault : option (err * bool);     (* the record fails; was it applied? *)
}.

(** The outcome of a backup: the state it leaves, what the sinks committed (by
    target name), and what it returns: (done, deferred, err), or a panic. *)
Record outcome := MkOutcome {
  o_state : pstate;
  o_blobs : list (string * option bytes);
  o_ret : attempt (bool * bool * goerr);
}.

(** ** The steps *)

Definition precheck (p : Pipeline) (e : BackupItem) : goerr :=
  match ValidateContentHash (ExternalID e) with
  | Some x => Some x
  | None => if bool_decide (Targets p = []) then Some (Msg "backup: no targets configured") else None
  end.

Definition resolveStored (v : env) (s : pstate) (id : string) (known : option (gset string))
    : gset string + err :=
  match known with
  | Some k => inl k
  | None => match read_err v with
            | Some x => inr (Wrap "ledger read" [x])
            | None => inl (lg_StoredTargets (ledger s) id)
            end
  end.

(** [p.Circuit != nil && p.Circuit.Open(name)]. *)
Definition circuitOpen (v : env) (s : pstate) (name : string) : bool * pstate :=
  match circuit s with
  | None => (false, s)
  | Some cb =>
      let '(o, cb') := Circuit.Open cb name (open_clock v name).1 (open_clock v name).2 in
      (o, MkP (ledger s) (Some cb') (metrics s))
  end.

Fixpoint pendingTargets (v : env) (stored : gset string) (ts : list Target) (s : pstate)
    : list Target * bool * pstate :=
  match ts with
  | [] => ([], false, s)
  | t :: ts =>
      if bool_decide (t_name t ∈ stored) then
        pendingTargets v stored ts (MkP (ledger s) (circuit s) (metrics s ++ [ObjectDedup (t_name t)]))
      else
        let '(o, s) := circuitOpen v s (t_name t) in
        let '(pending, skipped, s) := pendingTargets v stored ts s in
        if o then (pending, true, s) else (t :: pending, skipped, s)
  end.

Definition shouldRecordCircuit (ctx : ctxState) (aborted streamVerified : bool) : bool :=
  if negb aborted then true
  else errors_Is (ctxErr ctx) DeadlineExceeded && streamVerified.

(** [None] is a runtime panic (an out-of-range index, or the breaker's). *)
Fixpoint recordCircuit (v : env) (cb : Circuit.CircuitBreaker) (pending : list Target)
    (results : list targetResult) : option Circuit.CircuitBreaker :=
  match pending, results with
  | [], _ => Some cb
  | t :: pending, r :: results =>
      cb ← Circuit.Record_ cb (t_name t) (bool_decide (r_err r = None)) (rec_clock v (t_name t));
      recordCircuit v cb pending results
  | _ :: _, [] => None
  end.

Definition record_circuit (v : env) (s : pstate) (pending : list Target) (results : list targetResult)
    : option pstate :=
  match circuit s with
  | None => Some s
  | Some cb => cb ← recordCircuit v cb pending results; Some (MkP (ledger s) (Some cb) (metrics s))
  end.

Definition isDown (cb : option Circuit.CircuitBreaker) (name : string) : bool :=
  match cb with None => false | Some cb => Circuit.Down cb name end.

(** (statuses, healthyFailed, allStored, metrics emitted). *)
Fixpoint classifyFanout (cb : option Circuit.CircuitBreaker) (pending : list Target)
    (results : list targetResult) (aborted : bool)
    : option (list TargetStatus * bool * bool * list metric) :=
  match pending, results with
  | [], _ => Some ([], false, true, [])
  | _ :: _, [] => None
  | t :: pending, r :: results =>
      rest ← classifyFanout cb pending results aborted;
      let '(sts, healthyFailed, allStored, ms) := rest in
      let name := t_name t in
      Some (match r_err r with
            | Some _ =>
                if isDown cb name then (sts, healthyFailed, false, ms)
                else if aborted then (sts, true, false, ms)
                else (MkStatus name StateFailed 0 :: sts, true, false, ObjectFailed name :: ms)
            | None =>
                (MkStatus name StateStored (Fanout.stored r) :: sts, healthyFailed, allStored,
                 ObjectStored name (Fanout.stored r) :: ms)
            end)
  end.

Definition mk_meta (e : BackupItem) (verified : Z) : ObjectMeta :=
  MkMeta (ExternalID e) (if (0 <=? verified)%Z then verified else Size e) (0 <=? verified)%Z
    (CreatedBy e) (CreatedDate e).

(** The ledger write, when there is a status to record. *)
Definition record (v : env) (s : pstate) (meta : ObjectMeta) (sts : list TargetStatus) : pstate * goerr :=
  match sts with
  | [] => (s, None)
  | _ =>
      let r := lg_RecordBackup (db_now v) meta sts (ledger s) in
      match record_fault v with
      | Some (x, applied) =>
          (match r with Ok l' => if applied : bool then MkP l' (circuit s) (metrics s) else s | Er _ => s end,
           Some (Wrap "ledger record" [x]))
      | None =>
          match r with
          | Ok l' => (MkP l' (circuit s) (metrics s), None)
          | Er x => (s, Some (Wrap "ledger record" [x]))
          end
      end
  end.

(** ** backupFrom

    The part after the fan-out has produced its results. *)
Definition settleFanout (v : env) (s : pstate) (e : BackupItem) (pending : list Target) (skippedOpen : bool)
    (fo : fanout) : pstate * attempt (bool * bool * goerr) :=
  let aborted := bool_decide (fo_err fo ≠ None) in
  let nilResults := match fo_results fo with None => true | Some _ => false end in
  let results := default [] (fo_results fo) in
  if aborted && (nilResults || bool_decide (ctx_abort v = None)) then (s, Returns (false, false, fo_err fo))
  else
    match (if shouldRecordCircuit (ctx_circuit v) aborted (0 <=? fo_verified fo)%Z
           then record_circuit v s pending results else Some s) with
    | None => (s, Panics "circuit")
    | Some s =>
        match classifyFanout (circuit s) pending results aborted with
        | None => (s, Panics "index out of range")
        | Some (sts, healthyFailed, allStored, ms) =>
            let s := MkP (ledger s) (circuit s) (metrics s ++ ms) in
            match record v s (mk_meta e (fo_verified fo)) sts with
            | (s, Some x) => (s, Returns (false, false, Some x))
            | (s, None) =>
                if healthyFailed then
                  (s, Returns (false, false, if aborted then fo_err fo else None))
                else
                  let d := allStored && negb skippedOpen && negb aborted in
                  (s, Returns (d, negb d, None))
            end
        end
    end.

(** [None]: the fan-out does not return. *)
Definition backupFrom (p : Pipeline) (v : env) (s : pstate) (e : BackupItem) (known : option (gset string))
    : option outcome :=
  match precheck p e with
  | Some x => Some (MkOutcome s [] (Returns (false, false, Some x)))
  | None =>
      match resolveStored v s (ExternalID e) known with
      | inr x => Some (MkOutcome s [] (Returns (false, false, Some x)))
      | inl st =>
          let '(pending, skippedOpen, s) := pendingTargets v st (Targets p) s in
          match pending with
          | [] => Some (MkOutcome s [] (Returns (negb skippedOpen, skippedOpen, None)))
          | _ =>
              match fetch v with
              | Panics x => Some (MkOutcome s [] (Panics x))
              | Returns src =>
                  fo ← fanOut (digest v) (bufsize v) (StallTimeout p) (sched v) src (ctx_fanout v)
                         (ExternalID e) pending (goroutine v <$> seq 0 (length pending));
                  let '(s, ret) := settleFanout v s e pending skippedOpen fo in
                  Some (MkOutcome s (zip (t_name <$> pending) (fo_blobs fo)) ret)
              end
          end
      end
  end.

Definition BackupOne (p : Pipeline) (v : env) (s : pstate) (e : BackupItem) : option outcome :=
  backupFrom p v s e None.
End pipeline.

(** ** Lemmas on the breaker *)

Lemma Open_Down cb t n1 n2 x : Circuit.Down (snd (Circuit.Open cb t n1 n2)) x = Circuit.Down cb x.
Proof.
  unfold Circuit.Open. destruct (Circuit.openUntil cb !! t) as [u|] eqn:E; [|done].
  case_match; [done|]. unfold Circuit.Down; simpl. apply bool_decide_ext.
  destruct (decide (t = x)) as [->|Hne]; [|by rewrite lookup_insert_ne].
  rewrite lookup_insert_eq, E. by split; intros _; eexists.
Qed.

Lemma Open_true_Down cb t n1 n2 : fst (Circuit.Open cb t n1 n2) = true → Circuit.Down cb t = true.
Proof.
  unfold Circuit.Open, Circuit.Down. destruct (Circuit.openUntil cb !! t) as [u|]; [|done].
  intros _. by apply bool_decide_eq_true.
Qed.

Lemma Record_Down_other cb t ok now cb' x : Circuit.Record_ cb t ok now = Some cb' → x ≠ t →
  Circuit.Down cb' x = Circuit.Down cb x.
Proof.
  unfold Circuit.Record_. intros Hr Hne. unfold Circuit.Down. apply bool_decide_ext.
  destruct (_ && _); [simplify_eq; simpl; by rewrite lookup_delete_ne by done|].
  destruct (Circuit.trim _ _); [|done]. case_match; simplify_eq; simpl; [|done].
  by rewrite lookup_insert_ne by done.
Qed.

Section spec.
Context {L : Type} `{LedgerIface L} `{Zstd}.
Implicit Types (s : pstate (L := L)).

(** Every target is deduplicated, pending, or skipped with its circuit open;
    picking them does not touch the ledger. *)
Lemma pendingTargets_spec v st ts s pending skipped s' :
  pendingTargets v st ts s = (pending, skipped, s') →
  ledger s' = ledger s ∧ pending `sublist_of` ts ∧
  (∀ x, isDown (circuit s') x = isDown (circuit s) x) ∧
  (∀ t, t ∈ pending → t_name t ∉ st) ∧
  (∀ t, t ∈ ts → t_name t ∈ st ∨ t ∈ pending ∨ isDown (circuit s') (t_name t) = true) ∧
  (skipped = false → ∀ t, t ∈ ts → t_name t ∈ st ∨ t ∈ pending).
Proof.
  revert s pending skipped s'. induction ts as [|t ts IH]; intros s pending skipped s' Hp; simpl in Hp.
  { simplify_eq. split_and!; try done; intros; by (exfalso; eapply not_elem_of_nil). }
  destruct (bool_decide (t_name t ∈ st)) eqn:Est.
  { apply IH in Hp as (Hl & Hsub & Hdn & Hnot & Hall & Hsk). simpl in *. to_prop.
    split_and!; [done|by constructor|done|done| |].
    - intros t' [->|Ht']%elem_of_cons; [by left|by apply Hall].
    - intros Hs t' [->|Ht']%elem_of_cons; [by left|by apply Hsk]. }
  to_prop. destruct (circuitOpen v s (t_name t)) as [o s1] eqn:Eo.
  assert (ledger s1 = ledger s ∧ (∀ x, isDown (circuit s1) x = isDown (circuit s) x) ∧
    (o = true → isDown (circuit s) (t_name t) = true)) as (Hl1 & Hd1 & Ho1).
  { unfold circuitOpen in Eo. destruct (circuit s) as [cb|] eqn:Ecb.
    - destruct (Circuit.Open cb _ _ _) as [o' cb'] eqn:EO. simplify_eq; simpl. split_and!; [done| |].
      + intros x. pose proof (Open_Down cb (t_name t) (open_clock v (t_name t)).1 (open_clock v (t_name t)).2 x) as HO.
        by rewrite EO in HO.
      + intros ->. eapply Open_true_Down. by rewrite EO.
    - simplify_eq. by rewrite Ecb. }
  destruct (pendingTargets v st ts s1) as [[pend sk] s2] eqn:Ep.
  apply IH in Ep as (Hl & Hsub & Hdn & Hnot & Hall & Hsk).
  destruct o; simplify_eq.
  - split_and!; [congruence|by constructor|intros; by rewrite Hdn, Hd1|done| |done].
    intros t' [->|Ht']%elem_of_cons; [right; right; by rewrite Hdn, Hd1, Ho1|by apply Hall].
  - split_and!; [congruence|by constructor|intros; by rewrite Hdn, Hd1| | |].
    + intros t' [->|Ht']%elem_of_cons; [done|by apply Hnot].
    + intros t' [->|Ht']%elem_of_cons; [right; left; by left|].
      destruct (Hall t' Ht') as [?|[?|?]]; [by left|right; left; by right|by right; right].
    + intros Hs t' [->|Ht']%elem_of_cons; [right; by left|].
      destruct (Hsk Hs t' Ht') as [?|?]; [by left|right; by right].
Qed.

Lemma recordCircuit_other v cb pending results cb' x : recordCircuit v cb pending results = Some cb' →
  x ∉ t_name <$> pending → Circuit.Down cb' x = Circuit.Down cb x.
Proof.
  revert cb results. induction pending as [|t pending IH]; intros cb results Hr Hni; simpl in Hr; [by simplify_eq|].
  destruct results as [|r results]; [done|].
  destruct (Circuit.Record_ cb _ _ _) as [cb1|] eqn:E1; simpl in Hr; [|done].
  rewrite fmap_cons, not_elem_of_cons in Hni. destruct Hni as [Hne Hni].
  rewrite (IH _ _ Hr Hni). by eapply Record_Down_other.
Qed.

Lemma record_circuit_spec v s pending results s' : record_circuit v s pending results = Some s' →
  ledger s' = ledger s ∧ ∀ x, x ∉ t_name <$> pending → isDown (circuit s') x = isDown (circuit s) x.
Proof.
  unfold record_circuit. destruct (circuit s) as [cb|] eqn:Ecb.
  - destruct (recordCircuit v cb pending results) as [cb'|] eqn:Er; simpl; [|done]. intros [= <-].
    split; [done|]. simpl. intros x. by eapply recordCircuit_other.
  - intros [= <-]. split; [done|]. intros x _. by rewrite Ecb.
Qed.

(** What the classification says of the per-target results. *)
Lemma classifyFanout_spec cb pending results aborted sts hf al ms :
  classifyFanout cb pending results aborted = Some (sts, hf, al, ms) →
  length pending ≤ length results ∧
  (∀ name, name ∈ stored_names sts ↔
     ∃ i t r, pending !! i = Some t ∧ results !! i = Some r ∧ r_err r = None ∧ t_name t = name) ∧
  (al = true ↔ ∀ i t r, pending !! i = Some t → results !! i = Some r → r_err r = None) ∧
  (hf = true ↔ ∃ i t r, pending !! i = Some t ∧ results !! i = Some r ∧ r_err r ≠ None ∧
     isDown cb (t_name t) = false).
Proof.
  revert results sts hf al ms. induction pending as [|t pending IH]; intros results sts hf al ms Hc; simpl in Hc.
  { simplify_eq. simpl. split_and!; [lia| | |].
    - intros name. rewrite elem_of_nil. split; [done|]. intros (i & t & r & Hi & _). by rewrite lookup_nil in Hi.
    - split; [|done]. intros _ i t r Hi. by rewrite lookup_nil in Hi.
    - split; [done|]. intros (i & t & r & Hi & _). by rewrite lookup_nil in Hi. }
  destruct results as [|r results]; [done|].
  destruct (classifyFanout cb pending results aborted) as [[[[sts' hf'] al'] ms']|] eqn:Er; simpl in Hc; [|done].
  apply IH in Er as (Hlen & Hn & Hal & Hhf).
  assert (∀ P : Target → targetResult → Prop,
    (∃ i t' r', (t :: pending) !! i = Some t' ∧ (r :: results) !! i = Some r' ∧ P t' r') ↔
    P t r ∨ ∃ i t' r', pending !! i = Some t' ∧ results !! i = Some r' ∧ P t' r') as Hcons.
  { intros P. split.
    - intros ([|i] & t' & r' & Ht' & Hr' & HP); simpl in *; simplify_eq; [by left|right; eauto 6].
    - intros [HP|(i & t' & r' & Ht' & Hr' & HP)]; [by exists 0, t, r|by exists (S i), t', r']. }
  assert (∀ P : Target → targetResult → Prop,
    (∀ i t' r', (t :: pending) !! i = Some t' → (r :: results) !! i = Some r' → P t' r') ↔
    P t r ∧ ∀ i t' r', pending !! i = Some t' → results !! i = Some r' → P t' r') as Hcons'.
  { intros P. split.
    - intros HP. split; [by apply (HP 0)|]. intros i t' r' Ht' Hr'. by apply (HP (S i)).
    - intros [HP Hall] [|i] t' r' Ht' Hr'; simpl in *; simplify_eq; [done|by eapply Hall]. }
  split; [simpl in *; lia|].
  setoid_rewrite (Hcons (λ t r, r_err r = None ∧ t_name t = _)).
  rewrite (Hcons' (λ t r, r_err r = None)), (Hcons (λ t r, r_err r ≠ None ∧ isDown cb (t_name t) = false)).
  rewrite <- Hal, <- Hhf. setoid_rewrite <- Hn.
  destruct (r_err r) as [x|] eqn:Erx.
  - destruct (isDown cb (t_name t)) eqn:Ed; [|destruct aborted]; simplify_eq;
      (split_and!; [intros name; simpl; naive_solver|naive_solver|naive_solver]).
  - simplify_eq. split_and!; [|naive_solver|naive_solver].
    intros name. simpl. rewrite elem_of_cons. naive_solver.
Qed.

(** The statuses of a fan-out name pending targets, each once and in their order. *)
Lemma classifyFanout_shape cb pending results aborted sts hf al ms :
  classifyFanout cb pending results aborted = Some (sts, hf, al, ms) →
  Ports.Target <$> sts `sublist_of` t_name <$> pending ∧
  Forall (λ st, State st = StateStored ∨ State st = StateFailed) sts.
Proof.
  revert results sts hf al ms. induction pending as [|t pending IH]; intros results sts hf al ms; cbn.
  { intros [= <- _ _ _]. by split. }
  destruct results as [|r results]; [done|].
  destruct (classifyFanout cb pending results aborted) as [[[[sts' hf'] al'] ms']|] eqn:E; [|done].
  destruct (IH _ _ _ _ _ E) as [Hs HF]. cbn. intros [= Heq]. revert Heq.
  repeat case_match; intros; simplify_eq; (split; [by constructor || by apply sublist_cons|]); auto.
Qed.

Lemma record_spec v s meta sts s' e : record v s meta sts = (s', e) →
  circuit s' = circuit s ∧
  (∀ id, lg_StoredTargets (ledger s') id = lg_StoredTargets (ledger s) id ∨
     lg_StoredTargets (ledger s') id = lg_StoredTargets (ledger s) id ∪
       (if bool_decide (id = m_ExternalID meta) then list_to_set (stored_names sts) else ∅)) ∧
  (e = None → ∀ id, lg_StoredTargets (ledger s') id = lg_StoredTargets (ledger s) id ∪
     (if bool_decide (id = m_ExternalID meta) then list_to_set (stored_names sts) else ∅)).
Proof.
  unfold record. destruct sts as [|st sts0] eqn:Ests.
  { intros [= <- <-]. split_and!; [done|by left|]. intros _ id. simpl. case_bool_decide; set_solver. }
  rewrite <- Ests. destruct (lg_RecordBackup _ _ _ _) as [l'|x] eqn:Er.
  - destruct (record_fault v) as [[y applied]|].
    + intros [= <- <-]. destruct applied; simpl; (split_and!; [done| |done]); intros id.
      * right. by eapply lg_record_stored.
      * by left.
    + intros [= <- <-]. simpl. split_and!; [done| |]; intros; [right|]; by eapply lg_record_stored.
  - destruct (record_fault v) as [[y applied]|]; intros [= <- <-]; (split_and!; [done|by left|done]).
Qed.
(** The ledger after the fan-out: only successful results are added, to this
    object only, and nothing is removed. *)
Lemma settleFanout_ledger v s e pending skipped fo s' ret :
  settleFanout v s e pending skipped fo = (s', ret) →
  (∀ id, lg_StoredTargets (ledger s) id ⊆ lg_StoredTargets (ledger s') id) ∧
  (∀ id n, n ∈ lg_StoredTargets (ledger s') id → n ∈ lg_StoredTargets (ledger s) id ∨
     id = ExternalID e ∧ ∃ i t r, pending !! i = Some t ∧ (fo_results fo ≫= (.!! i)) = Some r ∧
       r_err r = None ∧ t_name t = n) ∧
  (∀ x, x ∉ t_name <$> pending → isDown (circuit s') x = isDown (circuit s) x).
Proof.
  unfold settleFanout. set (ab := bool_decide (fo_err fo ≠ None)). cbv zeta.
  assert (∀ r, (s, r) = (s', ret) →
    (∀ id, lg_StoredTargets (ledger s) id ⊆ lg_StoredTargets (ledger s') id) ∧
    (∀ id n, n ∈ lg_StoredTargets (ledger s') id → n ∈ lg_StoredTargets (ledger s) id ∨
       id = ExternalID e ∧ ∃ i t r, pending !! i = Some t ∧ (fo_results fo ≫= (.!! i)) = Some r ∧
         r_err r = None ∧ t_name t = n) ∧
    (∀ x, x ∉ t_name <$> pending → isDown (circuit s') x = isDown (circuit s) x)) as Hsame.
  { intros r [= <- _]. split_and!; [done|by left|done]. }
  destruct (ab && _); [by apply Hsame|].
  destruct (if shouldRecordCircuit _ _ _ then _ else _) as [s1|] eqn:Er; [|by apply Hsame].
  assert (ledger s1 = ledger s ∧ ∀ x, x ∉ t_name <$> pending → isDown (circuit s1) x = isDown (circuit s) x)
    as [Hl1 Hd1].
  { destruct (shouldRecordCircuit _ _ _); [by eapply record_circuit_spec|by simplify_eq]. }
  destruct (classifyFanout (circuit s1) pending _ ab) as [[[[sts hf] al] ms]|] eqn:Ec.
  2:{ intros [= <- _]. split_and!; [by rewrite Hl1|rewrite Hl1; by left|done]. }
  apply classifyFanout_spec in Ec as (_ & Hn & _).
  destruct (record v _ _ sts) as [s2 x] eqn:Erec. intros Hres.
  assert (s' = s2) as -> by (destruct x, hf; by simplify_eq).
  apply record_spec in Erec as (Hc & Hor & _). simpl in *. rewrite Hc. split_and!; [| |done].
  - intros id. destruct (Hor id) as [->| ->]; rewrite Hl1; set_solver.
  - intros id n Hin. destruct (Hor id) as [Heq|Heq]; rewrite Heq, Hl1 in Hin; [by left|].
    apply elem_of_union in Hin as [?|Hin]; [by left|]. case_bool_decide as Hid; [|set_solver].
    right. split; [done|]. apply elem_of_list_to_set, Hn in Hin as (i & t & r & Ht & Hr & ? & ?).
    exists i, t, r. split_and!; [done| |done|done].
    destruct (fo_results fo) as [rs|]; [done|]. simpl in Hr. by rewrite lookup_nil in Hr.
Qed.

(** What the returned flags mean, for the fanned targets. *)
Lemma settleFanout_flags v s e pending skipped fo s' dn df x :
  settleFanout v s e pending skipped fo = (s', Returns (dn, df, x)) →
  (∀ rs, fo_results fo = Some rs → length rs = length pending) →
  (x ≠ None → dn = false ∧ df = false) ∧ dn && df = false ∧
  (dn = true → skipped = false ∧ ∀ t, t ∈ pending → t_name t ∈ lg_StoredTargets (ledger s') (ExternalID e)) ∧
  (df = true → ∀ t, t ∈ pending → t_name t ∈ lg_StoredTargets (ledger s') (ExternalID e) ∨
     isDown (circuit s') (t_name t) = true).
Proof.
  unfold settleFanout. set (ab := bool_decide (fo_err fo ≠ None)). cbv zeta. intros Hs Hlen.
  destruct (ab && _); [by simplify_eq|].
  destruct (if shouldRecordCircuit _ _ _ then _ else _) as [s1|] eqn:Er; [|done].
  destruct (classifyFanout (circuit s1) pending _ ab) as [[[[sts hf] al] ms]|] eqn:Ec; [|done].
  apply classifyFanout_spec in Ec as (Hle & Hn & Hal & Hhf).
  destruct (record v _ _ sts) as [s2 y] eqn:Erec. apply record_spec in Erec as (Hc & _ & Hok). simpl in *.
  destruct y as [y|]; [by simplify_eq|]. specialize (Hok eq_refl).
  destruct hf; [by simplify_eq|]. simplify_eq.
  assert (∀ i t r, pending !! i = Some t → default [] (fo_results fo) !! i = Some r → r_err r = None →
    t_name t ∈ lg_StoredTargets (ledger s') (ExternalID e)) as Hst.
  { intros i t r Ht Hr Hnil. rewrite Hok. simpl. rewrite bool_decide_eq_true_2 by done.
    apply elem_of_union_r, elem_of_list_to_set, Hn. by exists i, t, r. }
  assert (∀ i t, pending !! i = Some t → ∃ r, default [] (fo_results fo) !! i = Some r) as Hidx.
  { intros i t Ht%lookup_lt_Some. apply lookup_lt_is_Some_2. lia. }
  split_and!; [done|by destruct (al && _ && _)| |].
  - intros [[Ha Hsk]%andb_true_iff Hab]%andb_true_iff. to_prop. split; [done|].
    intros t [i Ht]%list_elem_of_lookup. destruct (Hidx i t Ht) as [r Hr].
    eapply Hst; [done|done|]. by eapply (proj1 Hal).
  - intros _ t [i Ht]%list_elem_of_lookup. destruct (Hidx i t Ht) as [r Hr].
    destruct (r_err r) as [y|] eqn:Ey; [|left; by eapply Hst]. right. rewrite Hc.
    destruct (isDown (circuit s1) (t_name t)) eqn:Ed; [done|].
    exfalso. assert (false = true) as Hf; [|done]. apply Hhf. exists i, t, r. by rewrite Ey.
Qed.

Lemma fanOut_length sum buf stall evs src ctx hash targets envs fo rs :
  length envs = length targets →
  fanOut sum buf stall evs src ctx hash targets envs = Some fo → fo_results fo = Some rs →
  length rs = length targets.
Proof.
  unfold fanOut. intros Hlen Hfo Hrs. destruct src as [rc|x]; [|by simplify_eq].
  destruct (fanoutCopy _ _ _ _ _ _ _ _) as [[[f v] e]|]; simpl in Hfo; [|done].
  destruct ctx as [c|], e as [ce|]; simplify_eq; try (destruct (Is ce ErrClosedPipe); simplify_eq);
    simpl in *; simplify_eq; rewrite !length_fmap, length_imap, length_zip_with; lia.
Qed.

Lemma goroutines_length v (pending : list Target) :
  length (goroutine v <$> seq 0 (length pending)) = length pending.
Proof. by rewrite length_fmap, length_seq. Qed.

(** The shape of a backup that got past its checks. *)
Lemma backupFrom_inv p v s e known o : backupFrom p v s e known = Some o →
  (o_blobs o = [] ∧ o_state o = s ∧ ∃ x, o_ret o = Returns (false, false, Some x)) ∨
  ∃ st pending skipped s1,
    precheck p e = None ∧ resolveStored v s (ExternalID e) known = inl st ∧
    pendingTargets v st (Targets p) s = (pending, skipped, s1) ∧
    ((pending = [] ∧ o = MkOutcome s1 [] (Returns (negb skipped, skipped, None))) ∨
     (pending ≠ [] ∧ ∃ x, fetch v = Panics x ∧ o = MkOutcome s1 [] (Panics x)) ∨
     (pending ≠ [] ∧ ∃ src fo s2 ret, fetch v = Returns src ∧
       fanOut (digest v) (bufsize v) (StallTimeout p) (sched v) src (ctx_fanout v) (ExternalID e) pending
         (goroutine v <$> seq 0 (length pending)) = Some fo ∧
       settleFanout v s1 e pending skipped fo = (s2, ret) ∧
       o = MkOutcome s2 (zip (t_name <$> pending) (fo_blobs fo)) ret)).
Proof.
  unfold backupFrom. intros Hb. destruct (precheck p e) as [x|] eqn:Epre; [left; simplify_eq; eauto|].
  destruct (resolveStored v s (ExternalID e) known) as [st|x] eqn:Est; [|left; simplify_eq; eauto].
  destruct (pendingTargets v st (Targets p) s) as [[pending skipped] s1] eqn:Ep. right.
  exists st, pending, skipped, s1. split_and!; [done..|].
  destruct pending as [|t ts]; [left; by simplify_eq|right].
  destruct (fetch v) as [src|x] eqn:Ef; [right|left; split; [done|]; exists x; by simplify_eq].
  split; [done|]. destruct (fanOut _ _ _ _ _ _ _ _ _) as [fo|] eqn:Efo; simpl in Hb; [|done].
  destruct (settleFanout v s1 e (t :: ts) skipped fo) as [s2 ret] eqn:Es. simplify_eq.
  by exists src, fo, s2, ret.
Qed.

Lemma resolveStored_sub v s id known st :
  (∀ k, known = Some k → k ⊆ lg_StoredTargets (ledger s) id) →
  resolveStored v s id known = inl st → st ⊆ lg_StoredTargets (ledger s) id.
Proof.
  intros Hk. unfold resolveStored. destruct known as [k|]; [intros [= <-]; by apply Hk|].
  destruct (read_err v); [done|]. by intros [= <-].
Qed.

(** The outcome flags of a whole backup. *)
Lemma backupFrom_flags p v s e known o dn df x :
  NoDup (t_name <$> Targets p) →
  (∀ k, known = Some k → k ⊆ lg_StoredTargets (ledger s) (ExternalID e)) →
  backupFrom p v s e known = Some o → o_ret o = Returns (dn, df, x) →
  (x ≠ None → dn = false ∧ df = false) ∧ dn && df = false ∧
  (dn = true → ∀ t, t ∈ Targets p → t_name t ∈ lg_StoredTargets (ledger (o_state o)) (ExternalID e)) ∧
  (df = true → ∀ t, t ∈ Targets p →
     t_name t ∈ lg_StoredTargets (ledger (o_state o)) (ExternalID e) ∨
     isDown (circuit (o_state o)) (t_name t) = true).
Proof.
  intros Hnd Hk Hb Hret. apply backupFrom_inv in Hb as [(_ & _ & y & Hy)|(st & pending & skipped & s1 & _ & Hst & Hp & Hcases)].
  { rewrite Hret in Hy. by simplify_eq. }
  apply (resolveStored_sub _ _ _ _ _ Hk) in Hst.
  apply pendingTargets_spec in Hp as (Hl1 & Hsub & Hd1 & Hnot & Hall & Hsk).
  destruct Hcases as [(-> & ->)|[(_ & y & _ & ->)|(_ & src & fo & s2 & ret & _ & Hfo & Hset & ->)]]; [| done |].
  - simpl in *. simplify_eq. split_and!; [done|by destruct df| |].
    + intros Hs t Ht. to_prop. destruct (Hsk Hs t Ht) as [?|Hn]; [|by apply not_elem_of_nil in Hn].
      rewrite Hl1. by apply Hst.
    + intros _ t Ht. destruct (Hall t Ht) as [?|[Hn|?]]; [left|by apply not_elem_of_nil in Hn|by right].
      rewrite Hl1. by apply Hst.
  - simpl in *. subst ret. pose proof (settleFanout_ledger _ _ _ _ _ _ _ _ Hset) as (Hmono & _ & Hdn).
    apply settleFanout_flags in Hset as (H1 & H2 & H3 & H4).
    2:{ intros rs. eapply fanOut_length; [apply goroutines_length|done]. }
    assert (∀ t, t ∈ Targets p → t_name t ∈ st → t_name t ∈ lg_StoredTargets (ledger s2) (ExternalID e)) as Hold.
    { intros t _ Hin. apply Hmono. rewrite Hl1. by apply Hst. }
    split_and!; [done..| |].
    + intros Hd t Ht. destruct (H3 Hd) as [Hs Hpend].
      destruct (Hsk Hs t Ht) as [?|?]; [by apply Hold|by apply Hpend].
    + intros Hd t Ht. destruct (decide (t_name t ∈ t_name <$> pending)) as [Hin|Hni].
      * apply list_elem_of_fmap in Hin as (t' & Hname & Hin). rewrite Hname. by apply H4.
      * destruct (Hall t Ht) as [?|[Hin|Hdown]]; [left; by apply Hold| |].
        -- exfalso. by apply Hni, list_elem_of_fmap_2.
        -- right. by rewrite Hdn.
Qed.

(** What a backup may add to the ledger. *)
Lemma backupFrom_ledger p v s e known o : backupFrom p v s e known = Some o →
  (∀ id, lg_StoredTargets (ledger s) id ⊆ lg_StoredTargets (ledger (o_state o)) id) ∧
  (∀ id n, n ∈ lg_StoredTargets (ledger (o_state o)) id → n ∈ lg_StoredTargets (ledger s) id ∨
     id = ExternalID e ∧
     ∃ i t src fo pending r, pending `sublist_of` Targets p ∧ fetch v = Returns src ∧
       fanOut (digest v) (bufsize v) (StallTimeout p) (sched v) src (ctx_fanout v) (ExternalID e) pending
         (goroutine v <$> seq 0 (length pending)) = Some fo ∧
       o_blobs o = zip (t_name <$> pending) (fo_blobs fo) ∧
       pending !! i = Some t ∧ (fo_results fo ≫= (.!! i)) = Some r ∧ r_err r = None ∧ t_name t = n).
Proof.
  intros [(_ & -> & _)|(st & pending & skipped & s1 & _ & _ & Hp & Hcases)]%backupFrom_inv.
  { split; [done|by left]. }
  apply pendingTargets_spec in Hp as (Hl1 & Hsub & _).
  destruct Hcases as [(_ & ->)|[(_ & y & _ & ->)|(_ & src & fo & s2 & ret & Hf & Hfo & Hset & ->)]]; simpl.
  1,2: rewrite Hl1; split; [done|by left].
  apply settleFanout_ledger in Hset as (Hmono & Hnew & _). rewrite Hl1 in Hmono, Hnew.
  split; [done|]. intros id n [?|(-> & i & t & r & Ht & Hr & He & Hn)]%Hnew; [by left|right].
  split; [done|]. by exists i, t, src, fo, pending, r.
Qed.
End spec.

(** ** Properties *)

(** The symmetric done-gate. A backup reports done only when the ledger it
    leaves records the object stored on EVERY configured target; it reports no
    error with it, and never both done and deferred. *)
Theorem done_means_stored {L} `{LedgerIface L} `{Zstd} p v (s : pstate (L := L)) e known o df x :
  NoDup (t_name <$> Targets p) →
  (∀ k, known = Some k → k ⊆ lg_StoredTargets (ledger s) (ExternalID e)) →
  backupFrom p v s e known = Some o → o_ret o = Returns (true, df, x) →
  x = None ∧ df = false ∧ Targets p ≠ [] ∧
  ∀ t, t ∈ Targets p → t_name t ∈ lg_StoredTargets (ledger (o_state o)) (ExternalID e).
Proof.
  intros Hnd Hk Hb Hret.
  destruct (backupFrom_flags p v s e known o true df x Hnd Hk Hb Hret) as (H1 & H2 & H3 & _).
  split_and!; [|by destruct df| |by apply H3].
  - destruct x; [|done]. by destruct H1.
  - intros Hnil. unfold backupFrom, precheck in Hb. rewrite Hnil in Hb. simpl in Hb.
    destruct (ValidateContentHash _); by simplify_eq.
Qed.

(** A deferred object (re-queued without an attempt) is stored on every
    configured target except ones whose circuit is open: a reachable target's
    failure is never hidden behind a deferral. *)
Theorem deferred_means_down {L} `{LedgerIface L} `{Zstd} p v (s : pstate (L := L)) e known o dn x :
  NoDup (t_name <$> Targets p) →
  (∀ k, known = Some k → k ⊆ lg_StoredTargets (ledger s) (ExternalID e)) →
  backupFrom p v s e known = Some o → o_ret o = Returns (dn, true, x) →
  x = None ∧ dn = false ∧
  ∀ t, t ∈ Targets p →
    t_name t ∈ lg_StoredTargets (ledger (o_state o)) (ExternalID e) ∨
    isDown (circuit (o_state o)) (t_name t) = true.
Proof.
  intros Hnd Hk Hb Hret.
  destruct (backupFrom_flags p v s e known o dn true x Hnd Hk Hb Hret) as (H1 & H2 & _ & H4).
  split_and!; [|by destruct dn|by apply H4]. destruct x; [|done]. by destruct H1.
Qed.

(** The ledger tells the truth. A backup only ever adds to the stored sets,
    only for its own object, and a target it newly records is one whose sink
    (honouring the Store contract) committed the encoded bytes of a plaintext
    with the object's content hash. *)
Theorem recorded_means_committed {L} `{LedgerIface L} `{Zstd} p v (s : pstate (L := L)) e known o :
  (∀ t, t ∈ Targets p → obeys [] (t_store t (ExternalID e))) →
  backupFrom p v s e known = Some o →
  ∀ id n, n ∈ lg_StoredTargets (ledger (o_state o)) id → n ∉ lg_StoredTargets (ledger s) id →
    id = ExternalID e ∧
    ∃ t data, t ∈ Targets p ∧ t_name t = n ∧ digest v data = id ∧
      (n, Some (encode (t_codec t) data)) ∈ o_blobs o.
Proof.
  intros Hob Hb id n Hin Hni. apply backupFrom_ledger in Hb as [_ Hnew].
  destruct (Hnew id n Hin) as [?|(-> & i & t & src & fo & pending & r & Hsub & Hf & Hfo & Hbl & Ht & Hr & He & Hn)];
    [done|]. split; [done|]. destruct src as [rc|y]; [|unfold fanOut in Hfo; by simplify_eq].
  destruct (fanOut_stored _ _ _ _ _ _ _ _ _ _ _ _ _ Hfo (goroutines_length v pending) Ht Hr He)
    as (_ & data & Hs & _ & _ & Hcom).
  assert (t ∈ Targets p) as Hin'.
  { eapply elem_of_submseteq; [by eapply list_elem_of_lookup_2|by apply sublist_submseteq]. }
  exists t, data. split_and!; [done|done|done|]. rewrite Hbl. apply list_elem_of_lookup. exists i.
  rewrite lookup_zip_with, list_lookup_fmap, Ht. simpl. rewrite (Hcom (Hob t Hin')). simpl. by rewrite Hn.
Qed.

(** A bad source leaves no trace. When no prefix of what the source can
    deliver has the object's hash, the ledger is unchanged and no sink that
    honours the contract commits anything, whatever else goes wrong. *)
Theorem corrupt_source_stores_nothing {L} `{LedgerIface L} `{Zstd} p v (s : pstate (L := L)) e known o rc :
  fetch v = Returns (inl rc) → (∀ data, data `prefix_of` content rc → digest v data ≠ ExternalID e) →
  (∀ t, t ∈ Targets p → obeys [] (t_store t (ExternalID e))) →
  backupFrom p v s e known = Some o →
  (∀ id, lg_StoredTargets (ledger (o_state o)) id = lg_StoredTargets (ledger s) id) ∧
  ∀ n b, (n, Some b) ∉ o_blobs o.
Proof.
  intros Hf Hbad Hob Hb. split.
  - intros id. apply set_eq. intros n. apply backupFrom_ledger in Hb as [Hmono Hnew].
    split; [|by apply Hmono].
    intros [?|(-> & i & t & src & fo & pending & r & Hsub & Hf' & Hfo & Hbl & Ht & Hr & He & Hn)]%Hnew; [done|].
    rewrite Hf in Hf'. simplify_eq.
    destruct (fanOut_stored _ _ _ _ _ _ _ _ _ _ _ _ _ Hfo (goroutines_length v pending) Ht Hr He)
      as (_ & data & Hs & Hpre & _). by destruct (Hbad data Hpre).
  - intros n b Hin.
    apply backupFrom_inv in Hb as [(Hnil & _)|(st & pending & skipped & s1 & _ & _ & Hp & Hcases)].
    { rewrite Hnil in Hin. by apply not_elem_of_nil in Hin. }
    apply pendingTargets_spec in Hp as (_ & Hsub & _).
    destruct Hcases as [(_ & ->)|[(_ & y & _ & ->)|(_ & src & fo & s2 & ret & Hf' & Hfo & Hset & ->)]]; simpl in Hin.
    1,2: by apply not_elem_of_nil in Hin.
    rewrite Hf in Hf'. simplify_eq. apply list_elem_of_lookup in Hin as [i Hi].
    rewrite lookup_zip_with, list_lookup_fmap in Hi.
    destruct (pending !! i) as [t|] eqn:Ht; simpl in Hi; [|done].
    destruct (fo_blobs fo !! i) as [b'|] eqn:Hbl; simplify_eq/=.
    assert (t ∈ Targets p) as Hin'.
    { eapply elem_of_submseteq; [by eapply list_elem_of_lookup_2|by apply sublist_submseteq]. }
    destruct (fanOut_blob _ _ _ _ _ _ _ _ _ _ _ _ _ Hfo (goroutines_length v pending) Ht (Hob t Hin') Hbl)
      as (data & _ & Hs & Hpre & _). by destruct (Hbad data Hpre).
Qed.

(** *** A run against the SQL ledger *)

Definition ex_id : string := "00000000000000000000000000000000000000000000000000000000000000ab".
Definition ex_digest (d : bytes) : string := if length d =? 2 then ex_id else "other".
#[local] Instance ex_zstd : Zstd := {| zenc := λ d, Byte.x28 :: d; zpart := λ _, [] |}.
Definition ex_item : BackupItem := MkItem 1 ex_id 99 None (Some 3%Z).
Definition ex_pipe : Pipeline :=
  MkPipeline [MkTarget "a" CodecZstd (λ _, copy_sink 5 2 []); MkTarget "b" CodecNone (λ _, copy_sink 5 2 [])] 60.
Definition ex_env (rc : reader) (bfails : bool) : env := MkPEnv None (λ _, (1, 1)%Z) (λ _, 1%Z)
  (Returns (inl rc)) ex_digest 8 (λ _, [CDone 0 false; CDone 1 bfails]) (λ _, MkEnv None ArmResult CtxCanceled)
  None None None 7 None.
Definition ex_src : reader := [RData [Byte.x01; Byte.x02] None].
Definition ex_start : pstate (L := db) := MkP empty_db (Some (Circuit.NewCircuitBreaker 1 100)) [].

Lemma ex_names : NoDup (t_name <$> Targets ex_pipe).
Proof. simpl. repeat constructor; rewrite ?elem_of_cons, ?elem_of_nil; naive_solver. Qed.

Lemma done_means_stored_witness :
  ∃ o, backupFrom ex_pipe (ex_env ex_src false) ex_start ex_item None = Some o ∧
    o_ret o = Returns (true, false, None) ∧
    ∀ t, t ∈ Targets ex_pipe → t_name t ∈ lg_StoredTargets (ledger (o_state o)) ex_id.
Proof.
  assert (o_ret <$> backupFrom ex_pipe (ex_env ex_src false) ex_start ex_item None =
    Some (Returns (true, false, None))) as Hr by (vm_compute; reflexivity).
  destruct (backupFrom ex_pipe (ex_env ex_src false) ex_start ex_item None) as [o|] eqn:Eo; [|done].
  injection Hr as Hr. exists o. split; [done|]. split; [done|].
  apply (done_means_stored ex_pipe (ex_env ex_src false) ex_start ex_item None o false None ex_names
    ltac:(done) Eo Hr).
Defined.

Lemma deferred_means_down_witness :
  ∃ o, backupFrom ex_pipe (ex_env ex_src true) ex_start ex_item None = Some o ∧
    o_ret o = Returns (false, true, None) ∧
    ∀ t, t ∈ Targets ex_pipe →
      t_name t ∈ lg_StoredTargets (ledger (o_state o)) ex_id ∨ isDown (circuit (o_state o)) (t_name t) = true.
Proof.
  assert (o_ret <$> backupFrom ex_pipe (ex_env ex_src true) ex_start ex_item None =
    Some (Returns (false, true, None))) as Hr by (vm_compute; reflexivity).
  destruct (backupFrom ex_pipe (ex_env ex_src true) ex_start ex_item None) as [o|] eqn:Eo; [|done].
  injection Hr as Hr. exists o. split; [done|]. split; [done|].
  apply (deferred_means_down ex_pipe (ex_env ex_src true) ex_start ex_item None o false None ex_names
    ltac:(done) Eo Hr).
Defined.

Lemma ex_obeys t : t ∈ Targets ex_pipe → obeys [] (t_store t (ExternalID ex_item)).
Proof.
  intros [->|[->|Hn]%elem_of_cons]%elem_of_cons; [apply copy_sink_obeys..|]. by apply not_elem_of_nil in Hn.
Qed.

Lemma recorded_means_committed_witness :
  ∃ o, backupFrom ex_pipe (ex_env ex_src false) ex_start ex_item None = Some o ∧
    (ex_id = ExternalID ex_item ∧
     ∃ t data, t ∈ Targets ex_pipe ∧ t_name t = "a" ∧ digest (ex_env ex_src false) data = ex_id ∧
       ("a", Some (encode (t_codec t) data)) ∈ o_blobs o).
Proof.
  assert ((λ o, is_stored (ledger (o_state o)) ex_id "a") <$>
    backupFrom ex_pipe (ex_env ex_src false) ex_start ex_item None = Some true) as Hr by (vm_compute; reflexivity).
  destruct (backupFrom ex_pipe (ex_env ex_src false) ex_start ex_item None) as [o|] eqn:Eo; [|done].
  injection Hr as Hr. exists o. split; [done|].
  apply (recorded_means_committed ex_pipe (ex_env ex_src false) ex_start ex_item None o ex_obeys Eo ex_id "a").
  - by apply (elem_of_StoredTargets (ledger (o_state o))).
  - intros Hin. apply (elem_of_StoredTargets empty_db) in Hin. done.
Defined.

Lemma corrupt_source_stores_nothing_witness :
  ∃ o, backupFrom ex_pipe (ex_env [RData [Byte.x01] None] false) ex_start ex_item None = Some o ∧
    (∀ id, lg_StoredTargets (ledger (o_state o)) id = lg_StoredTargets (ledger ex_start) id) ∧
    ∀ n b, (n, Some b) ∉ o_blobs o.
Proof.
  assert (o_ret <$> backupFrom ex_pipe (ex_env [RData [Byte.x01] None] false) ex_start ex_item None =
    Some (Returns (false, false, Some (Wrap "source read" [errIntegrity])))) as Hr by (vm_compute; reflexivity).
  destruct (backupFrom ex_pipe (ex_env [RData [Byte.x01] None] false) ex_start ex_item None) as [o|] eqn:Eo; [|done].
  exists o. split; [done|].
  apply (corrupt_source_stores_nothing ex_pipe (ex_env [RData [Byte.x01] None] false) ex_start ex_item None
    o [RData [Byte.x01] None] eq_refl); [|apply ex_obeys|done].
  intros data Hpre%prefix_length. simpl in *. unfold ex_digest.
  destruct data as [|? [|? [|? ?]]]; simpl in *; [done|done|lia|lia].
Defined.

End Pipeline.
