(* ===== verification/Consumer.v ===== *)
(** * The outbox consumer

    [src/internal/adapter/inbound/consumer/consumer.go]: one worker step
    ([claimStep], [process], [settle], [fail], [fireObjectTimeout]) and the
    reaper's tick ([reap]), composed from the outbox statements of Outbox.v
    and the pipeline of Pipeline.v. A database call can fail; [fault] says so,
    and whether the statement had been applied. *)

From S2P Require Import Prelude GoRuntime Ports Circuit Keyset Ledger Stream Fanout Outbox Pipeline.
From Stdlib Require Import ZArith Lia.
From stdpp Require Import base gmap strings list numbers.

Import Ports.

Module Consumer.
Import Pipeline.

(** The dead-letter limits and the observers' counts. *)
Record hooks := MkHooks { onDeadLetter : Z; onObjectTimeout : Z; onSourceGone : Z }.

(** A failing statement: its error, and whether it took effect. *)
Abbreviation fault := (option (err * bool)).

(** The effect of a statement under a fault. *)
Definition faulty {A} (f : fault) (old new : A) : A * goerr :=
  match f with None => (new, None) | Some (e, applied) => (if applied : bool then new else old, Some e) end.

Section consumer.
Context {L : Type} `{Ledger.LedgerIface L} `{Fanout.Zstd}.
Context (maxAttempts maxDeliveries : Z).

Record cstate := MkC { outbox : Outbox.table; pipe : pstate (L := L); hook : hooks }.

Definition set_outbox (s : cstate) (t : Outbox.table) : cstate := MkC t (pipe s) (hook s).

(** [fail]: the failure statement, and the observer once it dead-letters. *)
Definition fail (now : Z) (flt : fault) (id : Z) (reason : string) (s : cstate) : cstate :=
  let '(t', dead) := Outbox.Fail maxAttempts now id reason (outbox s) in
  let '(t, e) := faulty flt (outbox s) t' in
  let s := set_outbox s t in
  match e with
  | Some _ => s
  | None => if dead : bool
            then MkC (outbox s) (pipe s)
                   (MkHooks (onDeadLetter (hook s) + 1) (onObjectTimeout (hook s)) (onSourceGone (hook s)))
            else s
  end.

Definition fireObjectTimeout (ctx objCtx : ctxState) (s : cstate) : cstate :=
  if errors_Is (ctxErr objCtx) DeadlineExceeded && bool_decide (ctx = None)
  then MkC (outbox s) (pipe s)
         (MkHooks (onDeadLetter (hook s)) (onObjectTimeout (hook s) + 1) (onSourceGone (hook s)))
  else s.

Definition sourceGone (s : cstate) : cstate :=
  MkC (outbox s) (pipe s)
    (MkHooks (onDeadLetter (hook s)) (onObjectTimeout (hook s)) (onSourceGone (hook s) + 1)).

Definition transitioned (flt : fault) (f : Outbox.table → Outbox.table) (s : cstate) : cstate :=
  set_outbox s (faulty flt (outbox s) (f (outbox s))).1.

(** [settle]; [ctx] and [objCtx] are [Err()] of the worker's and the object's
    contexts, [jitter] the random part of a deferral. *)
Definition settle (ctx objCtx : ctxState) (now jitter : Z) (flt : fault)
    (id : Z) (ok deferred : bool) (e : goerr) (s : cstate) : cstate :=
  if ok && bool_decide (e = None) then transitioned flt (Outbox.MarkDone id) s
  else if bool_decide (ctx ≠ None) then transitioned flt (Outbox.Release id) s
  else if errors_Is e ErrSourceGone then transitioned flt (Outbox.Skip id) (sourceGone s)
  else if deferred then transitioned flt (Outbox.Defer now jitter id) (fireObjectTimeout ctx objCtx s)
  else match e with
       | Some x => fail now flt id (Error x) (fireObjectTimeout ctx objCtx s)
       | None => fail now flt id "not all targets stored" s
       end.

(** The environment of one [process]: the pipeline's, and what settling sees. *)
Record penv := MkE {
  e_pipe : env; e_ctx : ctxState; e_objCtx : ctxState; e_now : Z; e_jitter : Z; e_fault : fault;
}.

(** [process]; [None]: the backup does not return. *)
Definition process (p : Pipeline) (v : penv) (e : OutboxEntry) (s : cstate) : option cstate :=
  o ← BackupOne p (e_pipe v) (pipe s) (entryItem e);
  let s := MkC (outbox s) (o_state o) (hook s) in
  Some (match o_ret o with
        | Panics r => fail (e_now v) (e_fault v) (entryID e) ("panic: " +:+ r) s
        | Returns (ok, deferred, x) =>
            settle (e_ctx v) (e_objCtx v) (e_now v) (e_jitter v) (e_fault v) (entryID e) ok deferred x s
        end).

(** [claimStep]: what the worker did, and whether it should retry at once. *)
Definition claimStep (p : Pipeline) (now : Z) (locked : gset Z) (claim_fault : option (attempt err))
    (v : penv) (s : cstate) : option (cstate * bool) :=
  match claim_fault with
  | Some _ => Some (s, true)    (* a failed or panicking claim: back off and retry *)
  | None =>
      let '(t, entries) := Outbox.Claim now locked 1 (outbox s) in
      let s := set_outbox s t in
      match entries with
      | [e] => s ← process p v e s; Some (s, true)
      | _ => Some (s, false)
      end
  end.

(** One tick of [reap]: the sweep, the observers, and the error it reports. *)
Definition reap (now ttl : Z) (flt : fault) (s : cstate) : cstate * goerr :=
  let '(t', dead) := Outbox.ReapStale maxDeliveries now ttl (outbox s) in
  let '(t, e) := faulty flt (outbox s) t' in
  let s := set_outbox s t in
  match e with
  | Some x => (s, if Is x Canceled then None else Some x)
  | None =>
      (MkC (outbox s) (pipe s)
         (MkHooks (onDeadLetter (hook s) + Z.max 0 dead) (onObjectTimeout (hook s)) (onSourceGone (hook s))), None)
  end.

(** ** How a claimed row leaves [process] *)

Lemma outbox_settled flt id f s r : flt = None → outbox s !! id = Some r →
  Outbox.r_status r = Outbox.in_progress →
  outbox (transitioned flt (Outbox.transition id f) s) !! id = Some (f r).
Proof.
  intros -> Hr Hst. unfold transitioned; simpl. rewrite Outbox.transition_lookup, decide_True, Hr by done.
  simpl. by rewrite bool_decide_eq_true_2.
Qed.

Lemma outbox_fail now id reason s r : outbox s !! id = Some r →
  Outbox.r_status r = Outbox.in_progress →
  outbox (fail now None id reason s) !! id = Some (Outbox.failed_row maxAttempts now reason r).
Proof.
  intros Hr Hst. unfold fail, Outbox.Fail. rewrite Hr, bool_decide_eq_true_2 by done. simpl.
  case_match; simpl; by rewrite lookup_insert_eq.
Qed.

Lemma fireObjectTimeout_outbox ctx objCtx s : outbox (fireObjectTimeout ctx objCtx s) = outbox s.
Proof. unfold fireObjectTimeout. by case_match. Qed.

(** The row after settling, by outcome. *)
Definition settled_row (ctx : ctxState) (now jitter : Z) (ok deferred : bool) (e : goerr) (r : Outbox.row)
    : Outbox.row :=
  if ok && bool_decide (e = None) then
    Outbox.set_row r Outbox.done_ (Outbox.r_attempts r) (Outbox.r_deliveries r) (Outbox.r_lastError r)
      (Outbox.r_claimedAt r) (Outbox.r_visibleAt r)
  else if bool_decide (ctx ≠ None) then
    Outbox.set_row r Outbox.pending (Outbox.r_attempts r) (Outbox.r_deliveries r) (Outbox.r_lastError r) None None
  else if errors_Is e ErrSourceGone then
    Outbox.set_row r Outbox.skipped (Outbox.r_attempts r) (Outbox.r_deliveries r) (Outbox.r_lastError r)
      None (Outbox.r_visibleAt r)
  else if deferred then
    Outbox.set_row r Outbox.pending (Some 0%Z) (Outbox.r_deliveries r) (Outbox.r_lastError r) None
      (Some (now + Outbox.minutes 2 + jitter)%Z)
  else Outbox.failed_row maxAttempts now
         (match e with Some x => Error x | None => "not all targets stored" end) r.

Lemma settle_row ctx objCtx now jitter id ok deferred e s r :
  outbox s !! id = Some r → Outbox.r_status r = Outbox.in_progress →
  outbox (settle ctx objCtx now jitter None id ok deferred e s) !! id =
    Some (settled_row ctx now jitter ok deferred e r).
Proof.
  intros Hr Hst. unfold settle, settled_row.
  unfold Outbox.MarkDone, Outbox.Release, Outbox.Skip, Outbox.Defer.
  destruct (ok && _); [by rewrite (outbox_settled None id _ _ r)|].
  destruct (bool_decide (ctx ≠ None)); [by rewrite (outbox_settled None id _ _ r)|].
  destruct (errors_Is e ErrSourceGone); [by rewrite (outbox_settled None id _ _ r)|].
  destruct deferred; [rewrite (outbox_settled None id _ _ r); by rewrite ?fireObjectTimeout_outbox|].
  destruct e; apply outbox_fail; by rewrite ?fireObjectTimeout_outbox.
Qed.

Lemma settle_pipe ctx objCtx now jitter flt id ok deferred e s :
  pipe (settle ctx objCtx now jitter flt id ok deferred e s) = pipe s.
Proof.
  assert (∀ now flt reason s, pipe (fail now flt id reason s) = pipe s) as Hfail.
  { intros now' flt' reason s'. unfold fail. destruct (Outbox.Fail _ _ _ _ _) as [t' d].
    destruct (faulty _ _ _) as [t [x|]]; [done|]. by destruct d. }
  assert (∀ s, pipe (fireObjectTimeout ctx objCtx s) = pipe s) as Hfire.
  { intros s'. unfold fireObjectTimeout. by case_match. }
  unfold settle. destruct (ok && _); [done|]. destruct (bool_decide _); [done|].
  destruct (errors_Is _ _); [done|]. destruct deferred; [by apply Hfire|].
  destruct e; rewrite Hfail; [apply Hfire|done].
Qed.
End consumer.

(** ** Properties *)

Section props.
Context {L : Type} `{Ledger.LedgerIface L} `{Fanout.Zstd}.

(** End to end, an outbox row becomes done only when the ledger records the
    object stored on every configured target. *)
Theorem done_row_is_backed_up ma p v e (s s' : cstate (L := L)) r r' :
  NoDup (Fanout.t_name <$> Targets p) →
  outbox s !! entryID e = Some r → Outbox.r_status r = Outbox.in_progress → e_fault v = None →
  process ma p v e s = Some s' → outbox s' !! entryID e = Some r' → Outbox.r_status r' = Outbox.done_ →
  ∀ t, t ∈ Targets p →
    Fanout.t_name t ∈ Ledger.lg_StoredTargets (ledger (pipe s')) (ExternalID (entryItem e)).
Proof.
  intros Hnd Hr Hst Hflt. unfold process, BackupOne.
  destruct (backupFrom p (e_pipe v) (pipe s) (entryItem e) None) as [o|] eqn:Eo; simpl; [|done].
  intros [= <-]. rewrite Hflt. destruct (o_ret o) as [[[ok deferred] x]|pn] eqn:Eret.
  - rewrite (settle_row ma _ _ _ _ _ _ _ _ _ r), settle_pipe by done. intros [= <-]. unfold settled_row.
    destruct (ok && bool_decide (x = None)) eqn:Eok.
    + apply andb_true_iff in Eok as [-> _]. intros _.
      by destruct (backupFrom_flags p (e_pipe v) (pipe s) (entryItem e) None o true deferred x) as (_ & _ & Hd & _);
        [..|apply Hd].
    + simpl. unfold Outbox.failed_row. repeat case_match; done.
  - rewrite (outbox_fail ma _ _ _ _ r) by done. intros [= <-]. simpl. by case_match.
Qed.

(** No outcome strands a claim. Whatever the backup did (returned, errored,
    deferred, was shut down, or panicked), when the settlement statement
    succeeds the claimed row is no longer in progress. *)
Theorem process_never_strands ma p v e (s s' : cstate (L := L)) r :
  outbox s !! entryID e = Some r → Outbox.r_status r = Outbox.in_progress → e_fault v = None →
  process ma p v e s = Some s' →
  ∃ r', outbox s' !! entryID e = Some r' ∧ Outbox.r_status r' ≠ Outbox.in_progress.
Proof.
  intros Hr Hst Hflt. unfold process. destruct (BackupOne _ _ _ _) as [o|]; simpl; [|done].
  intros [= <-]. rewrite Hflt. destruct (o_ret o) as [[[ok deferred] x]|pn].
  - rewrite (settle_row ma _ _ _ _ _ _ _ _ _ r) by done. eexists; split; [done|].
    unfold settled_row, Outbox.failed_row. repeat case_match; done.
  - rewrite (outbox_fail ma _ _ _ _ r) by done. eexists; split; [done|]. simpl. by case_match.
Qed.

(** Only a genuine failure spends an attempt. A backup cut short by a
    shutdown, one whose source is gone, and one deferred for an open circuit
    leave the attempt count at most where it was and never dead-letter the
    row; a shutdown makes it claimable again at once. *)
Theorem settle_spares_attempts ma ctx objCtx now jitter id ok deferred e (s : cstate (L := L)) r :
  outbox s !! id = Some r → Outbox.r_status r = Outbox.in_progress →
  (0 ≤ Outbox.COALESCE (Outbox.r_attempts r) 0)%Z →
  (ctx ≠ None ∨ errors_Is e ErrSourceGone = true ∨ deferred = true ∨ ok = true ∧ e = None) →
  ∃ r', outbox (settle ma ctx objCtx now jitter None id ok deferred e s) !! id = Some r' ∧
    Outbox.r_status r' ≠ Outbox.dead_letter ∧
    (Outbox.COALESCE (Outbox.r_attempts r') 0 ≤ Outbox.COALESCE (Outbox.r_attempts r) 0)%Z ∧
    (ctx ≠ None → (ok && bool_decide (e = None)) = false → ∀ later, Outbox.claimable later r' = true).
Proof.
  intros Hr Hst Ha Hcases. rewrite (settle_row ma _ _ _ _ _ _ _ _ _ r) by done. eexists; split; [done|].
  unfold settled_row. destruct (ok && bool_decide (e = None)) eqn:Eok.
  { simpl. split_and!; [done|lia|done]. }
  destruct (bool_decide (ctx ≠ None)) eqn:Ec; to_prop.
  { simpl. split_and!; [done|lia|]. intros _ _ later. done. }
  destruct (errors_Is e ErrSourceGone) eqn:Eg.
  { simpl. split_and!; [done|lia|done]. }
  destruct deferred.
  { simpl. split_and!; [done|done|done]. }
  exfalso. destruct Hcases as [?|[?|[?|[-> ->]]]]; [done|done|done|]. done.
Qed.
End props.

#[local] Existing Instance Pipeline.ex_zstd.

Definition ex_entry : OutboxEntry := MkEntry ex_item 1.
Definition ex_row : Outbox.row := Outbox.MkRow 1 ex_id 0 Outbox.in_progress (Some 2%Z) None None None None None (Some 5%Z) None.
Definition ex_state : cstate (L := Ledger.db) := MkC {[1%Z := ex_row]} ex_start (MkHooks 0 0 0).
Definition ex_penv (bfails : bool) : penv := MkE (ex_env ex_src bfails) None None 100 7 None.

Lemma done_row_is_backed_up_witness :
  ∃ s', process 5 ex_pipe (ex_penv false) ex_entry ex_state = Some s' ∧
    ∀ t, t ∈ Targets ex_pipe → Fanout.t_name t ∈ Ledger.lg_StoredTargets (ledger (pipe s')) ex_id.
Proof.
  assert ((λ s, Outbox.r_status <$> outbox s !! 1%Z) <$> process 5 ex_pipe (ex_penv false) ex_entry ex_state =
    Some (Some Outbox.done_)) as Hr by (vm_compute; reflexivity).
  destruct (process 5 ex_pipe (ex_penv false) ex_entry ex_state) as [s'|] eqn:Es; [|done].
  injection Hr as Hr. destruct (outbox s' !! 1%Z) as [r'|] eqn:Er; [|done]. injection Hr as Hr.
  exists s'. split; [done|].
  apply (done_row_is_backed_up 5 ex_pipe (ex_penv false) ex_entry ex_state s' ex_row r'); [apply ex_names|..]; done.
Defined.

Lemma process_never_strands_witness :
  ∃ s' r', process 5 ex_pipe (ex_penv true) ex_entry ex_state = Some s' ∧
    outbox s' !! 1%Z = Some r' ∧ Outbox.r_status r' ≠ Outbox.in_progress.
Proof.
  assert ((λ s, Outbox.r_status <$> outbox s !! 1%Z) <$> process 5 ex_pipe (ex_penv true) ex_entry ex_state =
    Some (Some Outbox.pending)) as Hr by (vm_compute; reflexivity).
  destruct (process 5 ex_pipe (ex_penv true) ex_entry ex_state) as [s'|] eqn:Es; [|done].
  destruct (process_never_strands 5 ex_pipe (ex_penv true) ex_entry ex_state s' ex_row) as (r' & ? & ?); [done..|].
  by exists s', r'.
Defined.

Lemma settle_spares_attempts_witness :
  ∃ r', outbox (settle 3 (Some CtxCanceled) None 9 0 None 1 false false (Some (Sent Canceled)) ex_state) !! 1%Z = Some r' ∧
    Outbox.r_status r' ≠ Outbox.dead_letter ∧
    (Outbox.COALESCE (Outbox.r_attempts r') 0 ≤ 2)%Z ∧
    (Some CtxCanceled ≠ None → false = false → ∀ later, Outbox.claimable later r' = true).
Proof.
  apply (settle_spares_attempts 3 (Some CtxCanceled) None 9 0 1 false false (Some (Sent Canceled)) ex_state ex_row).
  - reflexivity.
  - reflexivity.
  - simpl. lia.
  - by left.
Defined.

End Consumer.
