(* ===== verification/Progress.v ===== *)
(** * Progress: a healthy target is served, a healthy object is done

    The other files show that the pipeline claims nothing it did not do. This one
    shows that it does what it should: with a source that delivers the object, a
    target whose pump keeps up and whose sink accepts the bytes is stored and
    recorded, whatever the other targets do in the meantime (fail, stall, panic,
    be dropped or skipped for an open circuit); and when no target is in trouble
    the backup is done and its outbox row is marked so. *)

From S2P Require Import Prelude GoRuntime Ports Circuit Keyset Ledger Stream Fanout Outbox Pipeline Consumer.
From Stdlib Require Import ZArith Lia.
From stdpp Require Import base gmap strings list numbers.

Module Progress.
Import Ports Stream Fanout Pipeline.

(** ** A source that delivers *)

(** No read fails, but for the end of the stream, with the last bytes or after them. *)
Fixpoint clean (r : reader) : bool :=
  match r with
  | [] => true
  | RData _ None :: r => clean r
  | [RData _ e] => is_EOF e
  | _ => false
  end.

Lemma is_EOF_Some e : is_EOF e = true → e = Some (Sent EOF).
Proof. destruct e as [[s| |]|]; try done. simpl. intros Hs. to_prop. by subst. Qed.

(** What the next read of a clean reader is. *)
Definition calm (e : goerr) (r : reader) : Prop := e = None ∨ ends e = true ∧ r = [].

Lemma read_clean k r : clean r = true →
  ∃ r' bs e, read k r = (r', Returns (bs, e)) ∧ clean r' = true ∧ (e = None ∨ e = Some (Sent EOF) ∧ r' = []).
Proof.
  destruct r as [|[bs e|s|e] r]; try done; simpl; [by eexists _, _, _; eauto|].
  intros Hc. destruct (length bs <=? k); eexists _, _, _; (split; [done|]).
  - destruct e as [e|]; [|by auto]. destruct r; [|done]. apply is_EOF_Some in Hc. auto.
  - split; [|by left]. simpl. done.
Qed.

Section source.
Context (sum : bytes → string).

(** What is left to read completes the object. *)
Record delivers (v : VerifyReader) : Prop := MkDelivers {
  dl_clean : clean (v_r v) = true;
  dl_hash : sum (v_acc v ++ content (v_r v)) = v_want v;
  dl_size : (Z.of_nat (length (v_acc v ++ content (v_r v))) ≤ v_maxLen v)%Z;
}.

Lemma VRead_delivers k v : delivers v →
  ∃ v' bs e, VRead sum k v = (v', Returns (bs, e)) ∧ delivers v' ∧ calm e (v_r v').
Proof.
  intros [Hc Hh Hs]. destruct (read_clean k _ Hc) as (r' & bs & e & Hr & Hc' & He).
  pose proof (read_content _ _ _ _ _ Hr) as Hcont. rewrite Hcont, app_assoc in Hh, Hs.
  unfold VRead. rewrite Hr. set (v' := MkVR r' _ _ _). exists v', bs, e. split; [|split; [by split|]].
  - do 3 f_equal. rewrite (proj2 (Z.ltb_ge (v_maxLen v) (Total v'))), andb_false_r.
    2:{ unfold Total, v'. simpl. rewrite !length_app in *. lia. }
    destruct He as [->|[-> ->]]; [done|]. simpl. rewrite bool_decide_eq_true_2; [done|].
    by rewrite app_nil_r in Hh.
  - destruct He as [->|[-> ->]]; [by left|by right].
Qed.

Lemma ReadFull_delivers min v v' res : delivers v → ReadFull sum min v = Some (v', res) →
  delivers v' ∧ ∃ p e, res = Returns (p, e) ∧ calm e (v_r v').
Proof.
  unfold ReadFull. generalize (S (S (rsize (v_r v)))) as fuel, (@nil Byte.byte) as got.
  intros fuel. revert v. induction fuel as [|fuel IH]; intros v got Hd Hl; [done|]. simpl in Hl.
  destruct (length got <? min).
  - destruct (VRead_delivers (min - length got) v Hd) as (v1 & bs & e & HV & Hd1 & He). rewrite HV in Hl.
    destruct e as [e|]; [|by eapply IH]. injection Hl as <- <-. split; [done|].
    eexists _, _. split; [by rewrite (surjective_pairing (read_finish _ _ _))|].
    unfold read_finish. destruct (min <=? _); simpl; [by left|]. destruct He as [|[He Hr]]; [done|].
    right. split; [|done]. by destruct (_ && _).
  - injection Hl as <- <-. split; [done|]. eexists _, _. unfold read_finish.
    rewrite andb_false_r. destruct (min <=? _); simpl; (split; [done|by left]).
Qed.
End source.

(** ** A pump that keeps up *)

(** In the events of one chunk, the first word from pump [i] is a success, and it
    comes before the stall timer drops it (at most among the signals the timer
    drains; [tick]: the timer is armed). *)
Fixpoint prompt (i : nat) (tick : bool) (evs : list cevent) : bool :=
  match evs with
  | [] => false
  | CDone j werr :: evs => if j =? i then negb werr else prompt i tick evs
  | CTick drained :: evs =>
      if tick then match List.find (λ s, s.1 =? i) drained with Some s => negb s.2 | None => false end
      else prompt i tick evs
  end.

Abbreviation alive f i := (flag (f_dead f) i = false ∧ flag (f_dropped f) i = false).

(** A pump that owes nothing is left alone. *)
Lemma signal_other p f s i : flag (f_pending f) i = false ∨ s.1 ≠ i →
  flag (f_pending (signal p f s)) i = flag (f_pending f) i ∧
  flag (f_dead (signal p f s)) i = flag (f_dead f) i ∧
  f_dropped (signal p f s) = f_dropped f.
Proof.
  destruct s as [j werr]. unfold signal. destruct (flag (f_pending f) j) eqn:Ej; [|done]. simpl.
  intros Hi. assert (j ≠ i) as Hne by (destruct Hi; congruence).
  assert (∀ l (b : bool), flag (<[j := b]> l) i = flag l i) as Hins.
  { intros l b. unfold flag. by rewrite list_lookup_insert_ne. }
  destruct werr; by rewrite ?Hins.
Qed.

Lemma signal_prompt p f i : flag (f_pending f) i = true → alive f i →
  flag (f_pending (signal p f (i, false))) i = false ∧ alive (signal p f (i, false)) i.
Proof.
  intros Hp [Hd Hr]. unfold signal. rewrite Hp. simpl. rewrite flag_insert by (by apply flag_lt).
  by rewrite decide_True.
Qed.

Lemma signals_settled p l f i : flag (f_pending f) i = false → alive f i →
  flag (f_pending (foldl (signal p) f l)) i = false ∧ alive (foldl (signal p) f l) i.
Proof.
  revert f. induction l as [|s l IH]; intros f Hp Hl; [done|]. simpl.
  destruct (signal_other p f s i (or_introl Hp)) as (H1 & H2 & H3). apply IH; [by rewrite H1|by rewrite H2, H3].
Qed.

Lemma drop_settled f i : flag (f_pending f) i = false → alive f i →
  flag (f_pending (drop_pending f)) i = false ∧ alive (drop_pending f) i.
Proof.
  intros Hp [Hd Hr]. unfold drop_pending; simpl. split_and!; [done..|].
  unfold flag in *. rewrite lookup_zip_with. destruct (f_dropped f !! i) as [b|]; [|done]. simpl in *. subst b.
  by destruct (f_pending f !! i) as [[]|].
Qed.

Lemma collect_settled p tick evs f f' i : flag (f_pending f) i = false → alive f i →
  collect p tick evs f = Some f' → alive f' i.
Proof.
  revert tick f. induction evs as [|ev evs IH]; intros tick f Hp Hl Hc; simpl in Hc;
    destruct (forallb negb (f_pending f)); simplify_eq; try done.
  destruct ev as [j werr|dr].
  - destruct (signals_settled p [(j, werr)] f i Hp Hl) as [? ?]. by eapply IH.
  - destruct tick; [|by eapply IH]. destruct (signals_settled p dr f i Hp Hl) as [Hp1 Hl1].
    destruct (drop_settled _ i Hp1 Hl1) as [? ?]. by eapply IH.
Qed.

Lemma signals_prompt p l f i s : flag (f_pending f) i = true → alive f i →
  List.find (λ s, s.1 =? i) l = Some s → s.2 = false →
  flag (f_pending (foldl (signal p) f l)) i = false ∧ alive (foldl (signal p) f l) i.
Proof.
  revert f. induction l as [|[j werr] l IH]; intros f Hp Hl Hf Hs; [done|]. simpl in Hf |- *.
  destruct (j =? i) eqn:Ej; to_prop.
  - simplify_eq. simpl in Hs. subst werr. destruct (signal_prompt p f i Hp Hl) as [? ?]. by apply signals_settled.
  - destruct (signal_other p f (j, werr) i (or_intror Ej)) as (H1 & H2 & H3).
    apply IH; [by rewrite H1|by rewrite H2, H3|done|done].
Qed.

Lemma collect_prompt p tick evs f f' i : flag (f_pending f) i = true → alive f i →
  prompt i tick evs = true → collect p tick evs f = Some f' → alive f' i.
Proof.
  revert tick f. induction evs as [|ev evs IH]; intros tick f Hp Hl Hpr Hc; [done|]. simpl in Hc, Hpr.
  assert (forallb negb (f_pending f) = false) as Hne.
  { apply not_true_iff_false. intros Hall. by rewrite (forallb_flag _ i Hall) in Hp. }
  rewrite Hne in Hc. destruct ev as [j werr|dr].
  - destruct (j =? i) eqn:Ej; to_prop.
    + subst j werr. destruct (signal_prompt p f i Hp Hl) as [? ?]. by eapply collect_settled.
    + destruct (signal_other p f (j, werr) i (or_intror Ej)) as (H1 & H2 & H3).
      eapply IH; [| |exact Hpr|exact Hc]; [by rewrite H1|by rewrite H2, H3].
  - destruct tick; [|by eapply IH]. destruct (List.find _ dr) as [s|] eqn:Ef; [|done]. to_prop.
    destruct (signals_prompt p dr f i s Hp Hl Ef Hpr) as [Hp1 Hl1].
    destruct (drop_settled _ i Hp1 Hl1) as [? ?]. by eapply collect_settled.
Qed.

Lemma Write_prompt n stall p evs f f' e i : sized n f → i < n → alive f i →
  prompt i (0 <? stall)%Z evs = true → Write stall p evs f = Some (f', e) → alive f' i ∧ e = None.
Proof.
  intros Hs Hi Hl Hpr. unfold Write. set (g := MkFW _ _ _ _).
  destruct (collect p _ evs g) as [h|] eqn:Ec; simpl; [|done]. intros [= <- <-].
  assert (flag (f_pending g) i = true) as Hp.
  { destruct Hl as [Hd _]. unfold g, flag in *; simpl. rewrite list_lookup_fmap.
    destruct (lookup_lt_is_Some_2 (f_dead f) i) as [b Hb]; [destruct Hs; lia|]. rewrite Hb in *. simpl in *. by subst b. }
  assert (sized n g) as Hg by (destruct Hs as (?&?&?&?); unfold sized, g; simpl; by rewrite length_fmap).
  assert (Write stall p evs f = Some (h, if existsb negb (f_dead h) then None else Some (Sent ErrClosedPipe))) as HW.
  { unfold Write. fold g. by rewrite Ec. }
  destruct (Write_delivers n stall p evs f h _ Hs HW) as [(Hdl & _) _].
  pose proof (collect_prompt p _ evs g h i Hp Hl Hpr Ec) as Hh. split; [done|]. destruct Hh as [Hh _].
  rewrite (proj2 (List.existsb_exists negb (f_dead h))); [done|]. exists false. split; [|done].
  destruct (lookup_lt_is_Some_2 (f_dead h) i) as [b Hb]; [lia|]. unfold flag in Hh. rewrite Hb in Hh. simpl in Hh. subst b.
  apply list_elem_of_In. by eapply list_elem_of_lookup_2.
Qed.

(** ** The fan-out *)

Section fanout.
Context `{Zstd} (sum : bytes → string) (buf : nat) (stall : Z) (evs : nat → list cevent).

(** With one prompt pump the copy of a clean source ends without an error, at the
    end of the source, and that pump is still there. *)
Lemma fanoutCopy_serves n fuel k f v f' v' e i : sized n f → i < n → alive f i → delivers sum v →
  (∀ k, prompt i (0 <? stall)%Z (evs k) = true) →
  fanoutCopy sum buf stall evs fuel k f v = Some (f', v', e) → e = None ∧ alive f' i ∧ v_r v' = [].
Proof.
  intros Hs Hi Hl Hd Hpr. revert k f v Hs Hl Hd.
  induction fuel as [|fuel IH]; intros k f v Hs Hl Hd Hc; [done|]. simpl in Hc.
  destruct (ReadFull sum buf v) as [[v1 res]|] eqn:ER; simpl in Hc; [|done].
  destruct (ReadFull_delivers sum buf v v1 res Hd ER) as (Hd1 & p & rerr & -> & He).
  assert (∃ f1, (if 0 <? length p then Write stall p (evs k) f else Some (f, None)) = Some (f1, None) ∧
    sized n f1 ∧ alive f1 i) as (f1 & Hw & Hs1 & Hl1).
  { destruct (0 <? length p); [|by exists f]. destruct (Write stall p (evs k) f) as [[f1 we]|] eqn:EW; [|done].
    destruct (Write_prompt n stall p (evs k) f f1 we i Hs Hi Hl (Hpr k) EW) as [Hl1 ->].
    exists f1. split_and!; [done| |by apply Hl1..]. by eapply Write_delivers. }
  rewrite Hw in Hc. simpl in Hc. destruct rerr as [x|]; [|by eapply IH].
  destruct He as [|[He Hr]]; [done|]. rewrite He in Hc. by simplify_eq.
Qed.

(** The store, given the encoded object to its end, succeeds. *)
Definition accepts (t : Target) (hash : string) (data : bytes) : Prop :=
  ∃ n, so_result (run_sink (t_store t hash) [RData (encode (t_codec t) data) None] false) = Returns (MkRes n None true).

(** Its goroutine neither panics on the way nor is abandoned. *)
Definition undisturbed (env : tgt_env) : Prop := e_setup env = None ∧ e_arm env = ArmResult.

Context (rc : reader) (ctx : ctxState) (hash : string) (targets : list Target) (envs : list tgt_env).

Lemma fanOut_serves fo i t env :
  fanOut sum buf stall evs (inl rc) ctx hash targets envs = Some fo →
  clean rc = true → sum (content rc) = hash → (Z.of_nat (length (content rc)) ≤ maxObjectBytes)%Z →
  targets !! i = Some t → envs !! i = Some env → undisturbed env →
  (∀ k, prompt i (0 <? stall)%Z (evs k) = true) → accepts t hash (content rc) →
  ∃ r, (fo_results fo ≫= (.!! i)) = Some r ∧ r_err r = None ∧
    (obeys [] (t_store t hash) → fo_blobs fo !! i = Some (Some (encode (t_codec t) (content rc)))) ∧
    (ctx = None → fo_err fo = None).
Proof.
  intros Hfo Hcl Hh Hsz Ht Henv [Hset Harm] Hpr [m Hacc]. pose proof (lookup_lt_Some _ _ _ Ht) as Hi.
  destruct (fanOut_lookup _ _ _ _ _ _ _ _ _ fo i t env Hfo Ht Henv) as (f & v & e & Hc & Hres & Hbl & _).
  assert (e = None ∧ alive f i ∧ v_r v = []) as (-> & [Hd Hr] & Hend).
  { eapply fanoutCopy_serves; [| | | |exact Hpr|exact Hc]; [apply newFanoutWriter_sized|exact Hi| |by split].
    unfold flag; simpl. by rewrite lookup_replicate_2. }
  pose proof (fanoutCopy_content _ _ _ _ _ _ _ _ _ _ Hc) as Hcont. rewrite Hend, app_nil_r in Hcont. simpl in Hcont.
  destruct (copy_phase _ _ _ _ _ _ _ _ _ _ Hc) as [_ Hok]. destruct (Hok eq_refl) as (_ & _ & _ & Hgot).
  specialize (Hgot i Hi Hd).
  assert (run_target hash f None i t env = (MkRes m None true,
    so_blob (run_sink (t_store t hash) [RData (encode (t_codec t) (content rc)) None] false))) as Hrun.
  { unfold run_target, offered, pipe_end. rewrite Hset, Hd, Hr. simpl. unfold got_of in Hgot. rewrite Hgot, Hcont.
    unfold storeWithCtx, RunAbandonable. by rewrite Harm, Hacc. }
  rewrite Hrun in Hres, Hbl. eexists. split_and!; [exact Hres|done| |].
  - intros Hob. rewrite Hbl. destruct (obeys_ending _ _ (encode (t_codec t) (content rc)) false Hob) as (_ & Hcom & _).
    f_equal. by apply (Hcom _ Hacc).
  - intros Hctx. unfold fanOut in Hfo. rewrite Hc, Hctx in Hfo. by simplify_eq/=.
Qed.
End fanout.

(** ** The pipeline *)

Section pipeline.
Context `{Zstd}.
Implicit Types (s : pstate (L := Ledger.db)).

(** The breaker's own invariant, which its constructor establishes and its calls
    keep (Circuit.v). *)
Definition breaker_ok s : Prop := ∀ cb, circuit s = Some cb → Circuit.wf cb.

(** The target names the schema accepts. *)
Record names_ok (ts : list Target) : Prop := MkNamesOk {
  no_distinct : NoDup (t_name <$> ts);
  no_width : Forall (λ n, String.length n ≤ 64) (t_name <$> ts);
}.

Lemma names_ok_sublist ts ts' : ts' `sublist_of` ts → names_ok ts → names_ok ts'.
Proof.
  intros Hs%(fmap_sublist t_name) [Hd Hw]. split; [by eapply sublist_NoDup|by eapply sublist_Forall].
Qed.

Lemma pendingTargets_wf v st ts s : breaker_ok s → breaker_ok (pendingTargets v st ts s).2.
Proof.
  revert s. induction ts as [|t ts IH]; intros s Hb; simpl; [done|].
  destruct (bool_decide _); [by apply IH|]. unfold circuitOpen.
  assert (∀ b s', breaker_ok s' →
    breaker_ok (let '(pending, skipped, s'') := pendingTargets v st ts s' in
                if b : bool then (pending, true, s'') else (t :: pending, skipped, s'')).2) as Hrest.
  { intros b s' Hs'. specialize (IH s' Hs'). destruct (pendingTargets v st ts s') as [[pend sk] s'']. by destruct b. }
  destruct (circuit s) as [cb|] eqn:Ecb; [|by apply (Hrest false)]. destruct (Circuit.Open cb _ _ _) as [o cb'] eqn:EO.
  apply (Hrest o). intros cb1 [= <-]. change cb' with (o, cb').2. rewrite <- EO. apply Circuit.wf_Open. by apply Hb.
Qed.

(** A target is skipped only when its circuit is open. *)
Lemma pendingTargets_none_skipped v st ts s :
  (∀ t, t ∈ ts → isDown (circuit s) (t_name t) = false) → (pendingTargets v st ts s).1.2 = false.
Proof.
  revert s. induction ts as [|t ts IH]; intros s Hup; simpl; [done|].
  destruct (bool_decide _); [apply IH; intros; apply Hup; by right|].
  pose proof (Hup t ltac:(by left)) as Ht. unfold circuitOpen. destruct (circuit s) as [cb|] eqn:Ecb.
  - simpl in Ht. destruct (Circuit.Open cb _ _ _) as [o cb'] eqn:EO.
    assert (o = false) as ->.
    { destruct o; [|done]. pose proof (Open_true_Down cb (t_name t) (open_clock v (t_name t)).1 (open_clock v (t_name t)).2) as HO.
      rewrite EO in HO. by rewrite HO in Ht. }
    specialize (IH (MkP (ledger s) (Some cb') (metrics s))). simpl in IH.
    destruct (pendingTargets v st ts _) as [[pend sk] s'']. apply IH. intros t' Ht'.
    pose proof (Open_Down cb (t_name t) (open_clock v (t_name t)).1 (open_clock v (t_name t)).2 (t_name t')) as HO.
    rewrite EO in HO. simpl in HO. rewrite HO. apply (Hup t'). by right.
  - specialize (IH s). rewrite Ecb in IH. destruct (pendingTargets v st ts s) as [[pend sk] s'']. apply IH. by intros.
Qed.

Lemma recordCircuit_total v cb pending results : Circuit.wf cb → length pending ≤ length results →
  is_Some (recordCircuit v cb pending results).
Proof.
  revert cb results. induction pending as [|t pending IH]; intros cb results Hw Hl; simpl; [by eexists|].
  destruct results as [|r results]; simpl in Hl; [lia|].
  destruct (Circuit.Record_spec cb (t_name t) (bool_decide (r_err r = None)) (rec_clock v (t_name t)) Hw) as (cb' & -> & Hw').
  simpl. apply IH; [done|lia].
Qed.

Lemma record_circuit_total v s pending results : breaker_ok s → length pending ≤ length results →
  is_Some (record_circuit v s pending results).
Proof.
  intros Hb Hl. unfold record_circuit. destruct (circuit s) as [cb|] eqn:Ecb; [|by eexists].
  destruct (recordCircuit_total v cb pending results) as [cb' ->]; [by apply Hb|done|]. by eexists.
Qed.

Lemma classifyFanout_total cb pending results ab : length pending ≤ length results →
  is_Some (classifyFanout cb pending results ab).
Proof.
  revert results. induction pending as [|t pending IH]; intros [|r results] Hl; simpl in *; try (by eexists); [lia|].
  destruct (IH results ltac:(lia)) as [[[[sts hf] al] ms] ->]. by eexists.
Qed.

(** The record statement is accepted when the names fit. *)
Lemma record_accepted v s e n sts : record_fault v = None → ValidateContentHash (ExternalID e) = None →
  NoDup (Ports.Target <$> sts) → Forall (λ n, String.length n ≤ 64) (Ports.Target <$> sts) →
  Forall (λ st, State st = StateStored ∨ State st = StateFailed) sts →
  (record v s (mk_meta e n) sts).2 = None.
Proof.
  intros Hf Hh Hnd Hw Hst. unfold record. destruct sts as [|st sts]; [done|]. rewrite Hf. simpl.
  unfold Ledger.RecordBackup. rewrite Ledger.well_typed_intro; [done| |done..]. simpl.
  apply ValidateContentHash_None in Hh as [-> _]. lia.
Qed.

(** What the settling does when it can: every target that stored is recorded, and
    an object stored everywhere is done. *)
Lemma settleFanout_records v s e pending skipped fo rs :
  breaker_ok s → names_ok pending → ValidateContentHash (ExternalID e) = None → record_fault v = None →
  fo_results fo = Some rs → length rs = length pending → (fo_err fo ≠ None → ctx_abort v ≠ None) →
  ∃ s' ret, settleFanout v s e pending skipped fo = (s', ret) ∧
    (∀ i t r, pending !! i = Some t → rs !! i = Some r → r_err r = None →
       t_name t ∈ Ledger.StoredTargets (ledger s') (ExternalID e)) ∧
    (fo_err fo = None → skipped = false → (∀ r, r ∈ rs → r_err r = None) → ret = Returns (true, false, None)).
Proof.
  intros Hb [Hnd Hw] Hh Hf Hrs Hlen Hctx. unfold settleFanout. rewrite Hrs. cbv zeta.
  change (default [] (Some rs)) with rs. rewrite orb_false_l.
  assert (bool_decide (fo_err fo ≠ None) && bool_decide (ctx_abort v = None) = false) as ->.
  { apply andb_false_iff. destruct (fo_err fo); [right; apply bool_decide_eq_false_2; by apply Hctx|by left]. }
  set (ab := bool_decide (fo_err fo ≠ None)).
  assert (∃ s1, (if shouldRecordCircuit (ctx_circuit v) ab (0 <=? fo_verified fo)%Z
           then record_circuit v s pending rs else Some s) = Some s1) as [s1 ->].
  { destruct (shouldRecordCircuit _ _ _); [|by eexists]. apply record_circuit_total; [done|lia]. }
  destruct (classifyFanout_total (circuit s1) pending rs ab) as [[[[sts hf] al] ms] Hc]; [lia|]. rewrite Hc.
  destruct (classifyFanout_shape _ _ _ _ _ _ _ _ Hc) as [Hsub Hst].
  apply classifyFanout_spec in Hc as (_ & Hn & Hal & Hhf). set (s1' := MkP (ledger s1) _ _).
  pose proof (record_accepted v s1' e (fo_verified fo) sts Hf Hh) as Hacc.
  destruct (record v s1' _ sts) as [s2 x] eqn:Er. simpl in Hacc.
  rewrite Hacc by (done || (by eapply sublist_NoDup) || by eapply sublist_Forall).
  rewrite Hacc in Er by (done || (by eapply sublist_NoDup) || by eapply sublist_Forall).
  apply record_spec in Er as (_ & _ & Hok). specialize (Hok eq_refl (ExternalID e)).
  assert (∀ i t r, pending !! i = Some t → rs !! i = Some r → r_err r = None →
    t_name t ∈ Ledger.StoredTargets (ledger s2) (ExternalID e)) as Hin.
  { intros i t r Ht Hr He. cbn in Hok. rewrite Hok, bool_decide_eq_true_2 by done.
    apply elem_of_union_r, elem_of_list_to_set, Hn. eauto 8. }
  destruct hf; eexists _, _; (split; [done|]); (split; [done|]); intros He Hsk Hall.
  - exfalso. destruct (proj1 Hhf eq_refl) as (i & t & r & _ & Hr & Hne & _). by eapply Hne, Hall, list_elem_of_lookup_2.
  - assert (al = true) as -> by (apply Hal; intros i t r _ Hr; by eapply Hall, list_elem_of_lookup_2).
    unfold ab. by rewrite He, Hsk.
Qed.

(** The source delivers the object [e] names, with the bytes of [rc]. *)
Record source_ok (v : env) (e : BackupItem) (rc : reader) : Prop := MkSourceOk {
  so_fetch : fetch v = Returns (inl rc);
  so_clean : clean rc = true;
  so_hash : digest v (content rc) = ExternalID e;
  so_size : (Z.of_nat (length (content rc)) ≤ maxObjectBytes)%Z;
}.

(** The store on the [i]-th pending target goes through. *)
Record healthy (p : Pipeline) (v : env) (e : BackupItem) (rc : reader) (i : nat) (t : Target) : Prop := MkHealthy {
  he_pump k : prompt i (0 <? StallTimeout p)%Z (sched v k) = true;
  he_run : undisturbed (goroutine v i);
  he_sink : accepts t (ExternalID e) (content rc);
}.

(** The backup after its choice of targets, when the record can be written: the
    fan-out returns and its outcome is settled. *)
Lemma backupFrom_settles p v s e known rc st pending skipped s1 :
  breaker_ok s → names_ok (Targets p) → source_ok v e rc → 1 ≤ bufsize v → record_fault v = None →
  (ctx_fanout v ≠ None → ctx_abort v ≠ None) →
  precheck p e = None → resolveStored v s (ExternalID e) known = inl st →
  pendingTargets v st (Targets p) s = (pending, skipped, s1) → pending ≠ [] → fair (sched v) (length pending) →
  (∃ i t, pending !! i = Some t ∧ healthy p v e rc i t) →
  ∃ fo rs s2 ret,
    fanOut (digest v) (bufsize v) (StallTimeout p) (sched v) (inl rc) (ctx_fanout v) (ExternalID e) pending
      (goroutine v <$> seq 0 (length pending)) = Some fo ∧
    fo_results fo = Some rs ∧ length rs = length pending ∧
    (∀ i t, pending !! i = Some t → healthy p v e rc i t → ∃ r, rs !! i = Some r ∧ r_err r = None ∧
       (obeys [] (t_store t (ExternalID e)) → fo_blobs fo !! i = Some (Some (encode (t_codec t) (content rc))))) ∧
    backupFrom p v s e known = Some (MkOutcome s2 (zip (t_name <$> pending) (fo_blobs fo)) ret) ∧
    (∀ i t r, pending !! i = Some t → rs !! i = Some r → r_err r = None →
       t_name t ∈ Ledger.StoredTargets (ledger s2) (ExternalID e)) ∧
    (ctx_fanout v = None → skipped = false → (∀ r, r ∈ rs → r_err r = None) → ret = Returns (true, false, None)).
Proof.
  intros Hb Hnm [Hf Hcl Hh Hsz] Hbuf Hrf Hctx Hpre Hst Hp Hne Hfair (i0 & t0 & Ht0 & Hh0).
  pose proof (goroutines_length v pending) as Hgl.
  destruct (fanOut_total (digest v) (bufsize v) (StallTimeout p) (sched v) rc (ctx_fanout v) (ExternalID e) pending
    _ Hfair Hbuf Hgl) as (fo & rs & Hfo & Hrs & Hlen).
  assert (∀ i t, pending !! i = Some t → healthy p v e rc i t →
    ∃ r, rs !! i = Some r ∧ r_err r = None ∧
      (obeys [] (t_store t (ExternalID e)) → fo_blobs fo !! i = Some (Some (encode (t_codec t) (content rc)))) ∧
      (ctx_fanout v = None → fo_err fo = None)) as Hserve.
  { intros i t Ht [Hk Hrun Hacc].
    destruct (fanOut_serves _ _ _ _ _ _ _ _ _ fo i t (goroutine v i) Hfo Hcl Hh Hsz Ht) as (r & Hr & He & Hbl & Hfe);
      [|done..|by rewrite Hrs in Hr; eauto].
    rewrite list_lookup_fmap, lookup_seq_lt; [done|by eapply lookup_lt_Some]. }
  destruct (Hserve i0 t0 Ht0 Hh0) as (_ & _ & _ & _ & Hferr).
  pose proof (pendingTargets_wf v st (Targets p) s Hb) as Hb1. rewrite Hp in Hb1. simpl in Hb1.
  pose proof (pendingTargets_spec _ _ _ _ _ _ _ Hp) as (_ & Hsub & _).
  destruct (settleFanout_records v s1 e pending skipped fo rs Hb1) as (s2 & ret & Hset & Hin & Hdone);
    [by eapply names_ok_sublist| |done|done|done| |].
  { unfold precheck in Hpre. by destruct (ValidateContentHash (ExternalID e)). }
  { intros He. apply Hctx. intros Hn. by apply He, Hferr. }
  exists fo, rs, s2, ret. split_and!; [done|done|done| | |done|].
  - intros i t Ht Hhe. destruct (Hserve i t Ht Hhe) as (r & ? & ? & ? & _). by exists r.
  - unfold backupFrom. rewrite Hpre, Hst, Hp, Hf. destruct pending; [done|]. rewrite Hfo. cbn [mbind option_bind].
    by rewrite Hset.
  - intros Hc. apply Hdone. by apply Hferr.
Qed.
End pipeline.

(** A backup none of whose targets is in trouble is done. *)
Lemma backup_completes `{Zstd} p v (s : pstate (L := Ledger.db)) e known st rc :
  breaker_ok s → names_ok (Targets p) → source_ok v e rc → 1 ≤ bufsize v →
  record_fault v = None → resolveStored v s (ExternalID e) known = inl st → ctx_fanout v = None → precheck p e = None →
  (∀ t, t ∈ Targets p → isDown (circuit s) (t_name t) = false) →
  (∀ n, n ≤ length (Targets p) → fair (sched v) n) →
  (∀ i t, t ∈ Targets p → i < length (Targets p) → healthy p v e rc i t) →
  ∃ o, backupFrom p v s e known = Some o ∧ o_ret o = Returns (true, false, None).
Proof.
  intros Hb Hnm Hsrc Hbuf Hrf Hst Hcf Hpre Hup Hfair Hhe.
  pose proof (pendingTargets_none_skipped v st (Targets p) s Hup) as Hsk.
  destruct (pendingTargets v st (Targets p) s) as [[pending skipped] s1] eqn:Hp. simpl in Hsk. subst skipped.
  pose proof (pendingTargets_spec _ _ _ _ _ _ _ Hp) as (_ & Hsub & _).
  assert (length pending ≤ length (Targets p)) as Hle by (by apply sublist_length).
  destruct (decide (pending = [])) as [->|Hne].
  { eexists. split; [unfold backupFrom; rewrite Hpre, Hst, Hp; reflexivity|done]. }
  assert (∀ i t, pending !! i = Some t → healthy p v e rc i t) as Hh.
  { intros i t Ht. apply Hhe; [|apply lookup_lt_Some in Ht; lia].
    eapply elem_of_submseteq; [by eapply list_elem_of_lookup_2|by apply sublist_submseteq]. }
  destruct (backupFrom_settles p v s e known rc st pending false s1 Hb Hnm Hsrc Hbuf Hrf)
    as (fo & rs & s2 & ret & _ & _ & Hlen & Hserve & Hbk & _ & Hdone); [congruence|done|done|done|done|by apply Hfair| |].
  { destruct pending as [|t0 ts]; [done|]. exists 0, t0. split; [done|by apply Hh]. }
  eexists. split; [exact Hbk|]. apply Hdone; [done|done|]. intros r [i Hr]%list_elem_of_lookup.
  destruct (lookup_lt_is_Some_2 pending i) as [t Ht]; [rewrite <- Hlen; by eapply lookup_lt_Some|].
  destruct (Hserve i t Ht (Hh i t Ht)) as (r' & Hr' & He' & _). congruence.
Qed.

(** ** Properties *)

(** C3: targets are isolated from one another. When the source delivers the object
    and the record can be written, a target that still needs it, whose pump keeps
    up and whose sink accepts the bytes, is recorded stored with the encoded
    object committed, whatever the other targets do (a failed or stalled pump, a
    drop, a panic, an abandoned store, an open circuit), and also when the
    object's deadline or a shutdown ends the call. *)
Theorem healthy_target_is_stored `{Zstd} p v (s : pstate (L := Ledger.db)) e known rc st pending skipped s1 i t :
  breaker_ok s → names_ok (Targets p) → source_ok v e rc → 1 ≤ bufsize v → record_fault v = None →
  (ctx_fanout v ≠ None → ctx_abort v ≠ None) →
  precheck p e = None → resolveStored v s (ExternalID e) known = inl st →
  pendingTargets v st (Targets p) s = (pending, skipped, s1) → fair (sched v) (length pending) →
  pending !! i = Some t → healthy p v e rc i t →
  ∃ o, backupFrom p v s e known = Some o ∧
    t_name t ∈ Ledger.StoredTargets (ledger (o_state o)) (ExternalID e) ∧
    (obeys [] (t_store t (ExternalID e)) → (t_name t, Some (encode (t_codec t) (content rc))) ∈ o_blobs o).
Proof.
  intros Hb Hnm Hsrc Hbuf Hrf Hctx Hpre Hst Hp Hfair Ht Hhe.
  assert (pending ≠ []) as Hne by (by intros ->).
  destruct (backupFrom_settles p v s e known rc st pending skipped s1 Hb Hnm Hsrc Hbuf Hrf Hctx Hpre Hst Hp Hne Hfair)
    as (fo & rs & s2 & ret & Hfo & Hrs & Hlen & Hserve & Hbk & Hin & _); [by exists i, t|].
  destruct (Hserve i t Ht Hhe) as (r & Hr & He & Hbl). eexists. split; [exact Hbk|]. split; [by eapply Hin|].
  intros Hob. simpl. apply list_elem_of_lookup. exists i.
  rewrite lookup_zip_with, list_lookup_fmap, Ht. simpl. by rewrite (Hbl Hob).
Qed.

(** C5: a healthy object is done. When the source delivers the object, no circuit is
    open, every pump keeps up, every sink accepts and the statements succeed, the
    worker's [process] returns, the object is recorded on every configured target,
    and the claimed row is marked done. *)
Theorem healthy_object_is_done `{Zstd} ma p v e (s : Consumer.cstate (L := Ledger.db)) rc row :
  let pv := Consumer.e_pipe v in let item := entryItem e in
  breaker_ok (Consumer.pipe s) → names_ok (Targets p) → source_ok pv item rc → 1 ≤ bufsize pv →
  record_fault pv = None → read_err pv = None → ctx_fanout pv = None → precheck p item = None →
  (∀ t, t ∈ Targets p → isDown (circuit (Consumer.pipe s)) (t_name t) = false) →
  (∀ n, n ≤ length (Targets p) → fair (sched pv) n) →
  (∀ i t, t ∈ Targets p → i < length (Targets p) → healthy p pv item rc i t) →
  Consumer.outbox s !! entryID e = Some row → Outbox.r_status row = Outbox.in_progress → Consumer.e_fault v = None →
  ∃ s' row', Consumer.process ma p v e s = Some s' ∧
    Consumer.outbox s' !! entryID e = Some row' ∧ Outbox.r_status row' = Outbox.done_ ∧
    ∀ t, t ∈ Targets p → t_name t ∈ Ledger.StoredTargets (ledger (Consumer.pipe s')) (ExternalID item).
Proof.
  intros pv item Hb Hnm Hsrc Hbuf Hrf Hre Hcf Hpre Hup Hfair Hhe Hrow Hstat Hflt.
  destruct (backup_completes p pv (Consumer.pipe s) item None (Ledger.StoredTargets (ledger (Consumer.pipe s)) (ExternalID item)) rc Hb Hnm Hsrc Hbuf Hrf) as (o & Ho & Hret);
    [by unfold resolveStored; rewrite Hre|done..|].
  unfold Consumer.process. fold pv item. unfold BackupOne. rewrite Ho. cbn [mbind option_bind]. rewrite Hret. eexists _, _.
  split; [reflexivity|]. rewrite Hflt. split; [by apply Consumer.settle_row|]. split; [done|]. intros t Ht.
  rewrite Consumer.settle_pipe. simpl.
  destruct (backupFrom_flags p pv (Consumer.pipe s) item None o true false None (no_distinct _ Hnm)) as (_ & _ & Hd & _);
    [done|exact Ho|done|]. by apply Hd.
Qed.

(** Target [b] stalls, is dropped, and its store is abandoned at the object's
    deadline; [a] is stored all the same. *)
#[local] Existing Instance Pipeline.ex_zstd.

Definition ex_trouble : env := MkPEnv None (λ _, (1, 1)%Z) (λ _, 1%Z)
  (Returns (inl ex_src)) ex_digest 8 (λ _, [CDone 0 false; CTick []; CDone 1 true])
  (λ i, MkEnv None (if i =? 0 then ArmResult else ArmDone) CtxDeadline)
  (Some CtxDeadline) (Some CtxDeadline) (Some CtxDeadline) 7 None.

Lemma ex_breaker_ok : breaker_ok ex_start.
Proof. intros cb [= <-]. apply Circuit.wf_new. lia. Qed.

Lemma ex_names_ok : names_ok (Targets ex_pipe).
Proof. split; [apply ex_names|]. repeat constructor; simpl; lia. Qed.

Lemma ex_fair v n : n ≤ 2 → sched v = (λ _, [CDone 0 false; CTick []; CDone 1 true]) ∨ sched v = (λ _, [CDone 0 false; CDone 1 false]) →
  fair (sched v) n.
Proof.
  intros Hn Hv k i Hi. destruct i as [|[|i]]; [exists false|exists (bool_decide (length (sched v k) = 3))|lia];
    destruct Hv as [->| ->]; simpl; rewrite !elem_of_cons; auto.
Qed.

Lemma healthy_target_is_stored_witness :
  ∃ o, backupFrom ex_pipe ex_trouble ex_start ex_item None = Some o ∧
    "a" ∈ Ledger.StoredTargets (ledger (o_state o)) ex_id ∧
    (obeys [] (copy_sink 5 2 []) → ("a", Some (encode CodecZstd (content ex_src))) ∈ o_blobs o).
Proof.
  apply (healthy_target_is_stored ex_pipe ex_trouble ex_start ex_item None ex_src ∅ (Targets ex_pipe) false ex_start 0
    (MkTarget "a" CodecZstd (λ _, copy_sink 5 2 []))).
  - apply ex_breaker_ok.
  - apply ex_names_ok.
  - by split.
  - simpl. lia.
  - reflexivity.
  - done.
  - vm_compute. reflexivity.
  - vm_compute. reflexivity.
  - vm_compute. reflexivity.
  - apply ex_fair; [simpl; lia|by left].
  - reflexivity.
  - split; [done|done|]. eexists. vm_compute. reflexivity.
Defined.

Lemma healthy_object_is_done_witness :
  ∃ s' row', Consumer.process 5 ex_pipe (Consumer.ex_penv false) Consumer.ex_entry Consumer.ex_state = Some s' ∧
    Consumer.outbox s' !! 1%Z = Some row' ∧ Outbox.r_status row' = Outbox.done_ ∧
    ∀ t, t ∈ Targets ex_pipe → t_name t ∈ Ledger.StoredTargets (ledger (Consumer.pipe s')) ex_id.
Proof.
  apply (healthy_object_is_done 5 ex_pipe (Consumer.ex_penv false) Consumer.ex_entry Consumer.ex_state ex_src Consumer.ex_row).
  - apply ex_breaker_ok.
  - apply ex_names_ok.
  - by split.
  - simpl. lia.
  - reflexivity.
  - reflexivity.
  - reflexivity.
  - vm_compute. reflexivity.
  - intros t [->|[->|Hn]%elem_of_cons]%elem_of_cons; [done..|]. by apply not_elem_of_nil in Hn.
  - intros n Hn. apply ex_fair; [exact Hn|by right].
  - intros i t [->|[->|Hn]%elem_of_cons]%elem_of_cons Hi; [..|by apply not_elem_of_nil in Hn];
      (split; [intros k; destruct i as [|[|i]]; [done|done|simpl in Hi; lia]|done|eexists; vm_compute; reflexivity]).
  - reflexivity.
  - reflexivity.
  - reflexivity.
Defined.

End Progress.
