(* ===== verification/ConsumerLoop.v ===== *)
(** * The consumer's goroutines

    [Run] of [src/internal/adapter/inbound/consumer/consumer.go]: a pool of
    self-claiming workers ([worker], [claimStep]), the LISTEN goroutine ([listen]),
    the polling floor ([poll]) and the reaper ([reap]) around one wake channel of
    capacity one ([signal] is a send that does not block). Each goroutine is a
    program counter, and [step] interleaves them at the granularity of a statement,
    a channel operation or a test of the context; the database's other clients and
    the cancellation of the context may step at any time.

    The outbox statements are those of Outbox.v, the settlement is [Consumer.settle]
    (or [Consumer.fail], after a panic), and a statement may fail with or without
    having been applied. What a backup does to the ledger and the circuits is left
    open here: between a claim and its settlement the pipeline's state may become
    anything.

    Executions carry the list of what happened, newest first, so the theorems speak
    of the past: which rows were claimed by others, which statements failed, when a
    claim last found nothing. *)

From S2P Require Import Prelude GoRuntime Ports Circuit Keyset Ledger Stream Fanout Outbox Pipeline Consumer.
From Stdlib Require Import ZArith Lia.
From stdpp Require Import base gmap strings list numbers.

Import Ports.

Module ConsumerLoop.
Import Consumer.

(** ** Program counters *)

(** [worker] with [claimStep] inlined. *)
Inductive wloc :=
  | WLoop                       (* for ctx.Err() == nil *)
  | WClaim                      (* Outbox.Claim *)
  | WBackoff                    (* backoff(ctx), then retry *)
  | WSignal (e : OutboxEntry)   (* signal(wake) *)
  | WProcess (e : OutboxEntry)  (* process(ctx, e) *)
  | WWait                       (* select { ctx.Done, wake } *)
  | WExit.

(** [listen]. *)
Inductive lloc :=
  | LLoop                       (* for ctx.Err() == nil, the outer loop *)
  | LAcquire                    (* ListenPool.Acquire *)
  | LExec                       (* LISTEN *)
  | LInner                      (* for ctx.Err() == nil, the inner loop *)
  | LNotify                     (* WaitForNotification *)
  | LSignal                     (* signal(wake) *)
  | LBroken                     (* backoff(ctx) on the broken connection, then Release *)
  | LBackoff                    (* backoff(ctx), then continue *)
  | LExit.

(** [TickLoop], around the body of [poll] or of [reap]. *)
Inductive tloc := TFn | TSelect | TExit.

Inductive actor := Worker (i : nat) | Listener | Poller | Reaper | Other.

Inductive event :=
  | ESignal                                                   (* a send on the wake channel *)
  | EEmpty (now : Z) (locked : gset Z) (t : Outbox.table)     (* a claim found nothing *)
  | EFault (id : Z)                                           (* a statement on the row failed *)
  | EForeign (id : Z)                                         (* another process claimed the row *)
  | ETau.

(** The last thing that bears on the wake-up: [Some], a claim that found nothing. *)
Fixpoint attended (evs : list (actor * event)) : option (Z * gset Z * Outbox.table) :=
  match evs with
  | [] => None
  | (_, ESignal) :: _ => None
  | (_, EEmpty now locked t) :: _ => Some (now, locked, t)
  | _ :: evs => attended evs
  end.

Section loop.
Context {L : Type} `{Ledger.LedgerIface L} `{Fanout.Zstd}.
Context (maxAttempts maxDeliveries staleTTL : Z).

Record sys := MkSys {
  cs : cstate (L := L); ctx : ctxState; wake : bool;
  workers : list wloc; listener : lloc; conn : bool; poller : tloc; reaper : tloc;
}.

Definition set_worker (s : sys) (i : nat) (w : wloc) : sys :=
  MkSys (cs s) (ctx s) (wake s) (<[i := w]> (workers s)) (listener s) (conn s) (poller s) (reaper s).
Definition set_cs (s : sys) (c : cstate) : sys :=
  MkSys c (ctx s) (wake s) (workers s) (listener s) (conn s) (poller s) (reaper s).
Definition set_listener (s : sys) (l : lloc) (c : bool) : sys :=
  MkSys (cs s) (ctx s) (wake s) (workers s) l c (poller s) (reaper s).
Definition set_poller (s : sys) (l : tloc) : sys :=
  MkSys (cs s) (ctx s) (wake s) (workers s) (listener s) (conn s) l (reaper s).
Definition set_reaper (s : sys) (l : tloc) : sys :=
  MkSys (cs s) (ctx s) (wake s) (workers s) (listener s) (conn s) (poller s) l.

(** [signal(wake)]: the channel holds one token at most. *)
Definition signal (s : sys) : sys :=
  MkSys (cs s) (ctx s) true (workers s) (listener s) (conn s) (poller s) (reaper s).
Definition receive (s : sys) : sys :=
  MkSys (cs s) (ctx s) false (workers s) (listener s) (conn s) (poller s) (reaper s).

(** [Run]: Concurrency workers and the three other goroutines; without a pool the
    listener returns at once. *)
Definition Run (n : nat) (listenPool : bool) (c : cstate) (x : ctxState) : sys :=
  MkSys c x false (replicate n WLoop) (if listenPool then LLoop else LExit) false TFn TFn.

Definition table (s : sys) : Outbox.table := outbox (cs s).
Definition set_table (s : sys) (t : Outbox.table) : sys := set_cs s (set_outbox (cs s) t).

Definition inprog (t : Outbox.table) (id : Z) : Prop :=
  ∃ r, t !! id = Some r ∧ Outbox.r_status r = Outbox.in_progress.

(** The steps of worker [i] at [w]. *)
Inductive wstep (s : sys) (i : nat) : wloc → event → sys → Prop :=
  | ws_stop x : ctx s = Some x → wstep s i WLoop ETau (set_worker s i WExit)
  | ws_go : ctx s = None → wstep s i WLoop ETau (set_worker s i WClaim)
  | ws_claimed now locked t e :
      Outbox.Claim now locked 1 (table s) = (t, [e]) →
      wstep s i WClaim ETau (set_worker (set_table s t) i (WSignal e))
  | ws_empty now locked t :
      Outbox.Claim now locked 1 (table s) = (t, []) →
      wstep s i WClaim (EEmpty now locked (table s)) (set_worker (set_table s t) i WWait)
  | ws_claim_failed w : w = WBackoff ∨ w = WLoop ∧ ctx s ≠ None →
      wstep s i WClaim ETau (set_worker s i w)
  | ws_claim_lost now locked t e w :
      w = WBackoff ∨ w = WLoop ∧ ctx s ≠ None → Outbox.Claim now locked 1 (table s) = (t, [e]) →
      wstep s i WClaim (EFault (entryID e)) (set_worker (set_table s t) i w)
  | ws_backoff : wstep s i WBackoff ETau (set_worker s i WLoop)
  | ws_signal e : wstep s i (WSignal e) ESignal (set_worker (signal s) i (WProcess e))
  | ws_settle e pipe' objCtx now jitter flt ok deferred x :
      wstep s i (WProcess e) (match flt with None => ETau | Some _ => EFault (entryID e) end)
        (set_worker (set_cs s (settle maxAttempts (ctx s) objCtx now jitter flt (entryID e) ok deferred x
                                 (MkC (outbox (cs s)) pipe' (hook (cs s))))) i WLoop)
  | ws_panic e pipe' now flt r :
      wstep s i (WProcess e) (match flt with None => ETau | Some _ => EFault (entryID e) end)
        (set_worker (set_cs s (fail maxAttempts now flt (entryID e) r
                                 (MkC (outbox (cs s)) pipe' (hook (cs s))))) i WLoop)
  | ws_done x : ctx s = Some x → wstep s i WWait ETau (set_worker s i WExit)
  | ws_wake : wake s = true → wstep s i WWait ETau (set_worker (receive s) i WLoop).

(** The steps of the listener. *)
Inductive lstep (s : sys) : lloc → event → sys → Prop :=
  | ls_stop x : ctx s = Some x → lstep s LLoop ETau (set_listener s LExit (conn s))
  | ls_go : ctx s = None → lstep s LLoop ETau (set_listener s LAcquire (conn s))
  | ls_acquired : lstep s LAcquire ETau (set_listener s LExec true)
  | ls_no_conn : lstep s LAcquire ETau (set_listener s LBackoff (conn s))
  | ls_listening : lstep s LExec ETau (set_listener s LInner (conn s))
  | ls_exec_failed : lstep s LExec ETau (set_listener s LBackoff false)
  | ls_inner_stop x : ctx s = Some x → lstep s LInner ETau (set_listener s LLoop false)
  | ls_inner_go : ctx s = None → lstep s LInner ETau (set_listener s LNotify (conn s))
  | ls_notified : lstep s LNotify ETau (set_listener s LSignal (conn s))
  | ls_notify_failed : lstep s LNotify ETau (set_listener s LBroken (conn s))
  | ls_signal : lstep s LSignal ESignal (set_listener (signal s) LInner (conn s))
  | ls_broken : lstep s LBroken ETau (set_listener s LLoop false)
  | ls_backoff : lstep s LBackoff ETau (set_listener s LLoop (conn s)).

(** Every step of the process and of its surroundings. *)
Inductive step (s : sys) : actor * event → sys → Prop :=
  | st_worker i w ev s' : workers s !! i = Some w → wstep s i w ev s' → step s (Worker i, ev) s'
  | st_listen ev s' : lstep s (listener s) ev s' → step s (Listener, ev) s'
  | st_poll : poller s = TFn → step s (Poller, ESignal) (set_poller (signal s) TSelect)
  | st_poll_tick : poller s = TSelect → step s (Poller, ETau) (set_poller s TFn)
  | st_poll_stop x : poller s = TSelect → ctx s = Some x → step s (Poller, ETau) (set_poller s TExit)
  | st_reap now flt : reaper s = TFn →
      step s (Reaper, ETau) (set_reaper (set_cs s (reap maxDeliveries now staleTTL flt (cs s)).1) TSelect)
  | st_reap_tick : reaper s = TSelect → step s (Reaper, ETau) (set_reaper s TFn)
  | st_reap_stop x : reaper s = TSelect → ctx s = Some x → step s (Reaper, ETau) (set_reaper s TExit)
  | st_foreign_claim now t id r : table s !! id = Some r → t = <[id := Outbox.claimed_row now r]> (table s) →
      step s (Other, EForeign id) (set_table s t)
  | st_other t : (∀ id, inprog t id → inprog (table s) id) → step s (Other, ETau) (set_table s t)
  | st_cancel x : ctx s = None →
      step s (Other, ETau) (MkSys (cs s) (Some x) (wake s) (workers s) (listener s) (conn s) (poller s) (reaper s)).

(** Executions, with what happened, newest first. *)
Inductive exec (s0 : sys) : list (actor * event) → sys → Prop :=
  | ex_start : exec s0 [] s0
  | ex_step evs s a s' : exec s0 evs s → step s a s' → exec s0 (a :: evs) s'.

(** ** What the statements leave in progress *)

Lemma transition_inprog id f t id' :
  (∀ r, Outbox.r_status (f r) ≠ Outbox.in_progress) →
  inprog (Outbox.transition id f t) id' → id' ≠ id ∧ inprog t id'.
Proof.
  intros Hf (r & Hr & Hst). rewrite Outbox.transition_lookup in Hr. case_decide as Hid; [|by split; [congruence|exists r]].
  exfalso. destruct (t !! id') as [r0|]; [|done]. cbn in Hr. case_bool_decide; injection Hr as <-; [by apply (Hf r0)|done].
Qed.

Lemma failed_inprog now reason r : Outbox.r_status (Outbox.failed_row maxAttempts now reason r) ≠ Outbox.in_progress.
Proof. unfold Outbox.failed_row. cbn. by case_match. Qed.

Lemma fail_inprog now flt id reason (c : cstate (L := L)) id' :
  inprog (outbox (fail maxAttempts now flt id reason c)) id' →
  inprog (outbox c) id' ∧ (flt = None → id' ≠ id).
Proof.
  unfold fail. pose proof (Outbox.Fail_transition maxAttempts now id reason (outbox c)) as Hf.
  destruct (Outbox.Fail _ _ _ _ _) as [t' dead]. cbn [fst] in Hf. subst t'. intros Hin.
  destruct flt as [[e [|]]|]; cbn in Hin; [|by split|].
  - apply transition_inprog in Hin as [? ?]; [by split|apply failed_inprog].
  - destruct dead; apply transition_inprog in Hin as [? ?]; (done || apply failed_inprog).
Qed.

Lemma transitioned_inprog flt id f (c : cstate (L := L)) id' :
  (∀ r, Outbox.r_status (f r) ≠ Outbox.in_progress) →
  inprog (outbox (transitioned flt (Outbox.transition id f) c)) id' →
  inprog (outbox c) id' ∧ (flt = None → id' ≠ id).
Proof.
  intros Hf Hin. destruct flt as [[e [|]]|]; cbn in Hin; [|by split|]; apply transition_inprog in Hin as [? ?]; done.
Qed.

(** A settlement that is applied leaves the row out of progress, and no settlement
    puts another row in progress. *)
Lemma settle_inprog x objCtx now jitter flt id ok deferred e (c : cstate (L := L)) id' :
  inprog (outbox (settle maxAttempts x objCtx now jitter flt id ok deferred e c)) id' →
  inprog (outbox c) id' ∧ (flt = None → id' ≠ id).
Proof.
  unfold settle, Outbox.MarkDone, Outbox.Release, Outbox.Skip, Outbox.Defer.
  destruct (ok && _); [by apply transitioned_inprog|].
  destruct (bool_decide (x ≠ None)); [by apply transitioned_inprog|].
  destruct (errors_Is e ErrSourceGone); [by apply (transitioned_inprog flt id _ (sourceGone c))|].
  destruct deferred.
  { intros Hin. apply transitioned_inprog in Hin as [Hin ?]; [|done]. by rewrite fireObjectTimeout_outbox in Hin. }
  destruct e; intros Hin; apply fail_inprog in Hin as [Hin ?]; rewrite ?fireObjectTimeout_outbox in Hin; done.
Qed.

Lemma Claim_inprog now locked n t id :
  inprog (Outbox.Claim now locked n t).1 id → inprog t id ∨ id ∈ entryID <$> (Outbox.Claim now locked n t).2.
Proof. intros (r & Hr & Hst). rewrite Outbox.Claim_lookup in Hr. case_decide; [by right|left; by exists r]. Qed.

Lemma reap_inprog now flt (c : cstate (L := L)) id :
  inprog (outbox (reap maxDeliveries now staleTTL flt c).1) id → inprog (outbox c) id.
Proof.
  assert (inprog (Outbox.ReapStale maxDeliveries now staleTTL (outbox c)).1 id → inprog (outbox c) id) as Hr.
  { intros (r & Hr & Hst). unfold Outbox.ReapStale in Hr. cbn [fst] in Hr. rewrite lookup_fmap in Hr.
    destruct (outbox c !! id) as [r0|] eqn:E; [|done]. cbn in Hr. injection Hr as <-. exists r0. split; [done|].
    unfold Outbox.reap_row in Hst. destruct (Outbox.stale now staleTTL r0); [|done].
    unfold Outbox.reaped_row in Hst. cbn in Hst. by case_match. }
  unfold reap. destruct (Outbox.ReapStale _ _ _ _) as [t' dead]. cbn [fst] in Hr.
  destruct flt as [[e [|]]|]; cbn; auto.
Qed.

(** ** Rows held *)

Definition holds (w : wloc) : option Z :=
  match w with WSignal e | WProcess e => Some (entryID e) | _ => None end.

Definition held (s : sys) (id : Z) : Prop := ∃ i w, workers s !! i = Some w ∧ holds w = Some id.

(** A row in progress was so at the start, or another process claimed it, or a
    statement on it failed, or a worker holds it. *)
Definition accounted (s0 : sys) (evs : list (actor * event)) (s : sys) : Prop :=
  ∀ id, inprog (table s) id →
    inprog (table s0) id ∨ EForeign id ∈ evs.*2 ∨ EFault id ∈ evs.*2 ∨ held s id.

Lemma held_other s i w w' id :
  workers s !! i = Some w → holds w ≠ Some id ∨ holds w = holds w' →
  held s id → ∃ j x, <[i := w']> (workers s) !! j = Some x ∧ holds x = Some id.
Proof.
  intros Hi Hw (j & x & Hj & Hx). destruct (decide (j = i)) as [->|Hne].
  - rewrite Hi in Hj. injection Hj as <-. exists i, w'.
    rewrite list_lookup_insert_eq by (by eapply lookup_lt_Some). destruct Hw as [Hw|Hw]; [congruence|]. by rewrite <- Hw.
  - exists j, x. by rewrite list_lookup_insert_ne.
Qed.

(** How one step of a worker changes what is in progress and what is held. *)
Lemma wstep_accounts s i w ev s' id :
  workers s !! i = Some w → wstep s i w ev s' → inprog (table s') id →
  inprog (table s) id ∧ (held s id → held s' id) ∨ ev = EFault id ∨ held s' id.
Proof.
  intros Hi Hst Hin.
  assert (∀ w' s1, workers s1 = workers s → holds w ≠ Some id ∨ holds w = holds w' → held s id → held (set_worker s1 i w') id) as Hh.
  { intros w' s1 Hs1 Hw Hd. destruct (held_other s i w w' id Hi Hw Hd) as (j & x & ? & ?). exists j, x. cbn. by rewrite Hs1. }
  assert (∀ e now locked t, Outbox.Claim now locked 1 (table s) = (t, e) → inprog t id → inprog (table s) id ∨ id ∈ entryID <$> e) as Hc.
  { intros e now locked t Ht Hit. pose proof (Claim_inprog now locked 1 (table s) id) as Hx. rewrite Ht in Hx. auto. }
  assert (∀ w' s1, workers s1 = workers s → holds w' = Some id → held (set_worker s1 i w') id) as Hnew.
  { intros w' s1 Hs1 Hw. exists i, w'. cbn. rewrite Hs1, list_lookup_insert_eq by (by eapply lookup_lt_Some). done. }
  destruct Hst; cbn [table set_worker set_cs set_table cs signal receive] in Hin;
    try (left; split; [exact Hin|apply Hh; cbn; auto]; fail).
  - destruct (Hc _ _ _ _ H1 Hin) as [?|Hid%list_elem_of_singleton]; [left; split; [done|apply Hh; cbn; auto]|].
    right; right. apply Hnew; [done|]. by rewrite Hid.
  - destruct (Hc _ _ _ _ H1 Hin) as [?|Hid%elem_of_nil]; [left; split; [done|apply Hh; cbn; auto]|done].
  - destruct (Hc _ _ _ _ H2 Hin) as [?|Hid%list_elem_of_singleton]; [left; split; [done|apply Hh; cbn; auto]|].
    right; left. by rewrite Hid.
  - apply settle_inprog in Hin as [Hin Hne]. destruct flt as [?|].
    + destruct (decide (id = entryID e)) as [->|?]; [by right; left|]. left. split; [done|]. apply Hh; [done|left; cbn; congruence].
    + left. split; [done|]. apply Hh; [done|left; cbn]. specialize (Hne eq_refl). congruence.
  - apply fail_inprog in Hin as [Hin Hne]. destruct flt as [?|].
    + destruct (decide (id = entryID e)) as [->|?]; [by right; left|]. left. split; [done|]. apply Hh; [done|left; cbn; congruence].
    + left. split; [done|]. apply Hh; [done|left; cbn]. specialize (Hne eq_refl). congruence.
Qed.

Lemma step_accounts s a s' id :
  step s a s' → inprog (table s') id →
  inprog (table s) id ∧ (held s id → held s' id) ∨ a.2 = EForeign id ∨ a.2 = EFault id ∨ held s' id.
Proof.
  intros Hst Hin. destruct Hst as [i w ev s' Hi Hw|ev s' Hl| | | |now flt Hr| | |now t i r Hr ->|t Ht|];
    try (left; split; [exact Hin|done]; fail).
  - destruct (wstep_accounts s i w ev s' id Hi Hw Hin) as [?|[?|?]]; auto.
  - left. destruct Hl; by split.
  - left. split; [|done]. by apply reap_inprog in Hin.
  - cbn in Hin. destruct Hin as (r' & Hr' & Hst). destruct (decide (id = i)) as [->|Hne]; [by right; left|].
    left. split; [|done]. exists r'. by rewrite lookup_insert_ne in Hr' by done.
  - left. split; [by apply Ht|done].
Qed.

Lemma exec_accounted s0 evs s : exec s0 evs s → accounted s0 evs s.
Proof.
  induction 1 as [|evs s a s' He IH Hst]; intros id Hin; [by left|]. rewrite fmap_cons.
  destruct (step_accounts s a s' id Hst Hin) as [[Hin' Hheld]|[Ha|[Ha|?]]].
  - destruct (IH id Hin') as [?|[?|[?|?]]]; [by left|right; left; by right|right; right; left; by right|].
    right; right; right. auto.
  - right; left. rewrite Ha. by left.
  - right; right; left. rewrite Ha. by left.
  - by right; right; right.
Qed.

(** ** Wake-ups *)

(** A worker that will attempt a claim before it waits. *)
Definition active (w : wloc) : bool := match w with WWait | WExit => false | _ => true end.

Definition awake (s : sys) : Prop := wake s = true ∨ ∃ i w, workers s !! i = Some w ∧ active w = true.

Lemma awake_worker s1 s i w w' :
  workers s !! i = Some w → workers s1 = workers s → active w' = true → awake (set_worker s1 i w').
Proof.
  intros Hi Hs Ha. right. exists i, w'. cbn. rewrite Hs, list_lookup_insert_eq by (by eapply lookup_lt_Some). done.
Qed.

(** A step keeps a pending wake-up pending, unless a claim found nothing. *)
Lemma step_awake s a s' :
  step s a s' → ctx s' = None →
  ctx s = None ∧ ((awake s → awake s') ∧ (a.2 = ESignal → awake s') ∨ ∃ now locked t, a.2 = EEmpty now locked t).
Proof.
  intros Hst Hc.
  destruct Hst as [i w ev s' Hi Hw|ev s' Hl| | | | | | | | |]; try (split; [exact Hc|]; left; split; [auto|by left]; fail).
  - destruct Hw; cbn in Hc; (split; [exact Hc|]); try (right; by eauto; fail); try congruence;
      left; (split; intros _; [|try done]);
      try (by (eapply awake_worker; [exact Hi|done|done])).
    all: match goal with Hw : _ = WBackoff ∨ _ |- _ => destruct Hw as [->|[-> ?]] end;
      by (eapply awake_worker; [exact Hi|done|done]).
  - destruct Hl; cbn in Hc; (split; [exact Hc|]); left; split; auto; by left.
  - split; [exact Hc|]. left. by split; left.
  - done.
Qed.

Lemma exec_awake s0 evs s :
  awake s0 → exec s0 evs s → ctx s = None → attended evs = None → awake s.
Proof.
  intros Ha0. induction 1 as [|evs s a s' He IH Hst]; intros Hc Ha; [done|].
  destruct (step_awake s a s' Hst Hc) as [Hc0 [[Hk Hs]|(now & locked & t & Ht)]].
  - destruct a as [who ev]. destruct ev; cbn in *; auto; done.
  - destruct a as [who ev]. cbn in *. by subst.
Qed.

Lemma attended_Some evs now locked t :
  attended evs = Some (now, locked, t) →
  ∃ newer who older, evs = newer ++ (who, EEmpty now locked t) :: older ∧ ESignal ∉ newer.*2.
Proof.
  induction evs as [|[who ev] evs IH]; [done|].
  assert (ev ≠ ESignal → attended evs = Some (now, locked, t) →
    ∃ newer who' older, (who, ev) :: evs = newer ++ (who', EEmpty now locked t) :: older ∧ ESignal ∉ newer.*2) as Hc.
  { intros Hne Ha. destruct (IH Ha) as (newer & who' & older & -> & Hn). exists ((who, ev) :: newer), who', older.
    split; [done|]. rewrite fmap_cons, not_elem_of_cons. auto. }
  destruct ev; cbn [attended]; try (by apply Hc); [done|].
  intros [= -> -> ->]. exists [], who, evs. split; [done|apply not_elem_of_nil].
Qed.

(** A claim that finds nothing saw no claimable row but locked ones. *)
Lemma exec_empty s0 evs s who now locked t id r :
  exec s0 evs s → (who, EEmpty now locked t) ∈ evs → t !! id = Some r → id ∉ locked → Outbox.claimable now r = false.
Proof.
  intros He Hin Hr Hl. induction He as [|evs s a s' He IH Hst]; [by apply not_elem_of_nil in Hin|].
  apply elem_of_cons in Hin as [<-|Hin]; [|by apply IH].
  inversion Hst as [i w ev s1 Hi Hw|ev s1 Hw| | | | | | | | |]; subst; [|by inversion Hw].
  inversion Hw as [| | |now' locked' t' Hcl| | | | | | | |]; subst.
  - destruct (Outbox.claimable now r) eqn:Hc; [|done]. exfalso.
    assert ((id, r) ∈ Outbox.candidates now locked (table s)) as Hcand by (by apply Outbox.candidates_elem).
    unfold Outbox.Claim in Hcl. destruct (Outbox.candidates now locked (table s)) as [|x l]; [by apply elem_of_nil in Hcand|done].
  - by destruct flt.
  - by destruct flt.
Qed.

(** ** The drain *)

Definition rank (w : wloc) : nat :=
  match w with
  | WExit => 0 | WLoop => 1 | WBackoff | WProcess _ | WWait => 2 | WSignal _ => 3 | WClaim => 4
  end.

Definition lrank (l : lloc) : nat :=
  match l with
  | LExit => 0 | LLoop => 1 | LBackoff | LBroken | LInner => 2 | LSignal | LExec => 3 | LNotify | LAcquire => 4
  end.

(** The steps the workers and the listener can still take once the context is done. *)
Definition drain (s : sys) : nat := sum_list (rank <$> workers s) + lrank (listener s).

Definition own (a : actor * event) : bool := match a.1 with Worker _ | Listener => true | _ => false end.

Definition own_steps (evs : list (actor * event)) : nat := length (List.filter own evs).

Lemma step_drain s a s' x :
  ctx s = Some x → step s a s' → ctx s' = Some x ∧ drain s' + (if own a then 1 else 0) ≤ drain s.
Proof.
  intros Hx Hst. destruct Hst as [i w ev s' Hi Hw|ev s' Hl| | | | | | | | |]; cbn;
    try (split; [done|unfold drain; cbn; lia]; fail); [| |congruence].
  - assert (∀ s1 w', workers s1 = workers s → listener s1 = listener s → rank w' < rank w →
      drain (set_worker s1 i w') + 1 ≤ drain s) as Hd.
    { intros s1 w' Hw' Hl' Hr. unfold drain. cbn. rewrite Hw', Hl'. pose proof (sum_insert rank (workers s) i w w' Hi). lia. }
    destruct Hw; cbn; (split; [done|]); try (apply Hd; cbn; done || lia); try congruence;
      (apply Hd; [done..|]); match goal with Hw : _ = WBackoff ∨ _ |- _ => destruct Hw as [->|[-> ?]] end; cbn; lia.
  - remember (listener s) as l eqn:Hl0. destruct Hl; (split; [done|]); try congruence; unfold drain; rewrite <- Hl0; cbn; lia.
Qed.

Lemma exec_drain s evs s' x :
  ctx s = Some x → exec s evs s' → ctx s' = Some x ∧ own_steps evs + drain s' ≤ drain s.
Proof.
  intros Hx. induction 1 as [|evs s1 a s2 He IH Hst]; [by split|]. destruct IH as [Hx1 Hd].
  destruct (step_drain s1 a s2 x Hx1 Hst) as [Hx2 Hd2]. split; [done|].
  unfold own_steps in *. cbn [List.filter]. destruct (own a); cbn [length]; lia.
Qed.

(** A goroutine that has not returned can take a step. *)
Lemma drain_enabled s x : ctx s = Some x → drain s ≠ 0 → ∃ a s', own a = true ∧ step s a s'.
Proof.
  intros Hx Hd. destruct (decide (lrank (listener s) = 0)) as [Hl|Hl].
  - assert (∃ i w, workers s !! i = Some w ∧ rank w ≠ 0) as (i & w & Hi & Hw).
    { unfold drain in Hd. assert (sum_list (rank <$> workers s) ≠ 0) as Hs by lia. clear Hd Hl. revert Hs.
      induction (workers s) as [|w l IH]; [done|]. cbn. destruct (decide (rank w = 0)) as [Hw|Hw].
      - rewrite Hw. intros Hs. destruct (IH Hs) as (i & w' & ? & ?). by exists (Datatypes.S i), w'.
      - intros _. by exists 0, w. }
    cut (∃ ev s', wstep s i w ev s'); [intros (ev & s' & H'); exists (Worker i, ev), s'; split; [done|by econstructor]|].
    destruct w; [..|done]; eexists _, _.
    + by eapply ws_stop.
    + eapply ws_claim_failed. by left.
    + apply ws_backoff.
    + apply ws_signal.
    + apply (ws_panic s i e (pipe (cs s)) 0 None "").
    + by eapply ws_done.
  - cut (∃ ev s', lstep s (listener s) ev s'); [intros (ev & s' & H'); exists (Listener, ev), s'; split; [done|by constructor]|].
    destruct (listener s); [..|done]; eexists _, _; econstructor; exact Hx.
Qed.

(** The listener holds a connection only where [listen] does. *)
Lemma exec_conn n pool c x evs s :
  exec (Run n pool c x) evs s →
  conn s = match listener s with LLoop | LAcquire | LBackoff | LExit => false | _ => true end.
Proof.
  induction 1 as [|evs s a s' He IH Hst]; [by destruct pool|].
  destruct Hst as [i w ev s' Hi Hw|ev s' Hl| | | | | | | | |]; try exact IH; [by destruct Hw|].
  remember (listener s) as l eqn:Hl0. destruct Hl; rewrite <- ?Hl0 in IH; cbn; done.
Qed.

(** ** Properties *)

(** C20: a graceful shutdown strands nothing: when every worker has returned, a row
    still in progress was so before the consumer started, or was claimed by another
    process, or is one a statement on which failed; and once the listener has
    returned its connection is released. *)
Theorem drained_consumer_holds_nothing n pool (c : cstate (L := L)) x evs s :
  exec (Run n pool c x) evs s →
  (Forall (λ w, w = WExit) (workers s) → ∀ id, inprog (table s) id →
    inprog (outbox c) id ∨ EForeign id ∈ evs.*2 ∨ EFault id ∈ evs.*2) ∧
  (listener s = LExit → conn s = false).
Proof.
  intros He. split.
  - intros Hw id Hin. destruct (exec_accounted _ _ _ He id Hin) as [?|[?|[?|(i & w & Hi & Hh)]]]; auto.
    rewrite list.Forall_forall in Hw. apply list_elem_of_lookup_2, Hw in Hi. by subst.
  - intros Hl. rewrite (exec_conn _ _ _ _ _ _ He). by rewrite Hl.
Qed.

(** C19: no wake-up is lost: if, with the context live, every worker waits and the wake
    channel is empty, then the last thing that bore on it was a claim that found no
    claimable row outside the locked ones, and nothing (a notification, the polling
    floor, a sibling that claimed a row) was signalled since. *)
Theorem no_lost_wakeup n pool (c : cstate (L := L)) evs s :
  0 < n → exec (Run n pool c None) evs s → ctx s = None →
  Forall (λ w, w = WWait) (workers s) → wake s = false →
  ∃ newer who older now locked t,
    evs = newer ++ (who, EEmpty now locked t) :: older ∧ ESignal ∉ newer.*2 ∧
    ∀ id r, t !! id = Some r → id ∉ locked → Outbox.claimable now r = false.
Proof.
  intros Hn He Hc Hw Hk. destruct (attended evs) as [[[now locked] t]|] eqn:Ha.
  - destruct (attended_Some _ _ _ _ Ha) as (newer & who & older & -> & Hs).
    exists newer, who, older, now, locked, t. split_and!; [done..|]. intros id r Hr Hl.
    eapply exec_empty; [exact He| |exact Hr|exact Hl]. apply elem_of_app. right. by left.
  - exfalso. assert (awake (Run n pool c None)) as H1.
    { right. exists 0, WLoop. split; [|done]. cbn. by apply lookup_replicate_2. }
    destruct (exec_awake _ _ _ H1 He Hc Ha) as [?|(i & w & Hi & Hact)]; [congruence|].
    rewrite list.Forall_forall in Hw. apply list_elem_of_lookup_2, Hw in Hi. by subst.
Qed.

Lemma drain_bound s : drain s ≤ 4 * (length (workers s) + 1).
Proof.
  assert (sum_list (rank <$> workers s) ≤ 4 * length (workers s)) as Hs.
  { induction (workers s) as [|w l IH]; [done|]. cbn. assert (rank w ≤ 4) by (destruct w; cbn; lia).
    assert (sum_list (rank <$> l) ≤ 4 * length l) as IH' by exact IH. clear IH. etrans; [apply Nat.add_le_mono; [done|exact IH']|lia]. }
  unfold drain. assert (lrank (listener s) ≤ 4) by (destruct (listener s); cbn; lia). lia.
Qed.

Lemma drain_zero s : drain s = 0 → Forall (λ w, w = WExit) (workers s) ∧ listener s = LExit.
Proof.
  unfold drain. intros Hd. split; [|by destruct (listener s); cbn in Hd; try lia].
  assert (sum_list (rank <$> workers s) = 0) as Hs by lia. clear Hd.
  induction (workers s) as [|w l IH]; [done|]. cbn in Hs. apply Nat.eq_add_0 in Hs as [Hw Hs].
  constructor; [by destruct w|]. by apply IH.
Qed.

End loop.

#[local] Existing Instance Pipeline.ex_zstd.

Definition ex_cs : cstate (L := Ledger.db) := ex_state.
Definition ex_live : sys (L := Ledger.db) := Run 1 false ex_cs None.
Definition ex_down : sys (L := Ledger.db) := Run 1 false ex_cs (Some CtxCanceled).

Lemma drained_consumer_holds_nothing_witness :
  ∃ s, exec 5 50 3600 ex_down [(Worker 0, ETau)] s ∧ workers s = [WExit] ∧
    ∀ id, inprog (table s) id → inprog (outbox ex_cs) id ∨ EForeign id ∈ [ETau] ∨ EFault id ∈ [ETau].
Proof.
  assert (exec 5 50 3600 ex_down [(Worker 0, ETau)] (set_worker ex_down 0 WExit)) as He.
  { eapply ex_step; [apply ex_start|]. eapply st_worker; [reflexivity|]. by eapply ws_stop. }
  eexists. split; [exact He|]. split; [reflexivity|].
  refine (proj1 (drained_consumer_holds_nothing 5 50 3600 1 false ex_cs (Some CtxCanceled) _ _ He) _).
  repeat constructor.
Defined.

Lemma no_lost_wakeup_witness :
  ∃ evs s newer who older now locked t, exec 5 50 3600 ex_live evs s ∧ workers s = [WWait] ∧
    evs = newer ++ (who, EEmpty now locked t) :: older ∧ ESignal ∉ newer.*2.
Proof.
  assert (exec 5 50 3600 ex_live [(Worker 0, EEmpty 7 ∅ (table ex_live)); (Worker 0, ETau)]
    (set_worker (set_table (set_worker ex_live 0 WClaim) (table ex_live)) 0 WWait)) as He.
  { assert (exec 5 50 3600 ex_live [(Worker 0, ETau)] (set_worker ex_live 0 WClaim)) as H1.
    { eapply ex_step; [apply ex_start|]. eapply st_worker; [reflexivity|]. by eapply ws_go. }
    eapply ex_step; [exact H1|]. eapply st_worker; [reflexivity|].
    apply (ws_empty 5 (set_worker ex_live 0 WClaim) 0 7 ∅ (table ex_live)). vm_compute. reflexivity. }
  destruct (no_lost_wakeup 5 50 3600 1 false ex_cs _ _ ltac:(lia) He eq_refl ltac:(by repeat constructor) eq_refl)
    as (newer & who & older & now & locked & t & Hev & Hs & _).
  eexists _, _, newer, who, older, now, locked, t. split; [exact He|]. split; [reflexivity|]. split; [exact Hev|exact Hs].
Defined.

End ConsumerLoop.
