(* ===== verification/Verdict.v ===== *)
(** * Audit verdicts and the probe engine

    [src/internal/domain/verdict.go] (the status vocabulary, the pass/fail
    policy, the report's verdict, [probeTargets] / [probeOne] and their
    classifiers) and [src/internal/domain/immutability.go] (the WORM
    drift-check and the gauges [ImmutabilitySampler] derives from it). *)

From S2P Require Import Prelude GoRuntime.
From Stdlib Require Import ZArith Lia.
From stdpp Require Import base gmap strings list numbers.

Module Verdict.

Inductive VerdictStatus :=
  | StatusUnknown | StatusVerified | StatusDrift | StatusNoData
  | StatusUnverifiable | StatusCorrupt | StatusFault.
#[global] Instance VerdictStatus_eq_dec : EqDecision VerdictStatus.
Proof. solve_decision. Defined.

Definition status_string (s : VerdictStatus) : string :=
  match s with
  | StatusUnknown => "UNKNOWN" | StatusVerified => "verified" | StatusDrift => "DRIFT"
  | StatusNoData => "no-data" | StatusUnverifiable => "unverifiable"
  | StatusCorrupt => "CORRUPT" | StatusFault => "FAULT"
  end.

(** The one pass/fail policy. *)
Definition Failed (s : VerdictStatus) (exemptUnverifiable : bool) : bool :=
  match s with
  | StatusDrift | StatusCorrupt | StatusFault | StatusUnknown => true
  | StatusUnverifiable => negb exemptUnverifiable
  | StatusVerified | StatusNoData => false
  end.

Record TargetVerdict := MkV {
  v_Target : string;
  v_ExemptUnverifiable : bool;
  v_Status : VerdictStatus;
  v_Detail : string;
  v_Checked : Z; v_Missing : Z; v_Extra : Z;
  v_Err : goerr;
}.

(** The zero value, and a verdict literal with only its status and detail set. *)
Definition zeroVerdict : TargetVerdict := MkV "" false StatusUnknown "" 0 0 0 None.
Definition verdict (s : VerdictStatus) (detail : string) : TargetVerdict := MkV "" false s detail 0 0 0 None.
Definition faultVerdict (e : err) (detail : string) : TargetVerdict :=
  MkV "" false StatusFault detail 0 0 0 (Some e).

Definition vFailed (v : TargetVerdict) : bool := Failed (v_Status v) (v_ExemptUnverifiable v).

(** [VerdictReport.FailErr]. *)
Definition FailErr (targets : list TargetVerdict) : goerr :=
  let bad := List.filter vFailed targets in
  let errs := v_Err <$> List.filter (λ v, bool_decide (v_Err v ≠ None)) bad in
  let failed := List.filter (λ v, bool_decide (v_Err v = None)) bad in
  errors_Join (errs ++
    match failed with
    | [] => []
    | _ => [Some (Msg (foldl (λ acc v, acc +:+ " " +:+ v_Target v +:+ " (" +:+ status_string (v_Status v)
             +:+ ": " +:+ v_Detail v +:+ ")") "targets failed audit:" failed))]
    end).

(** ** Targets, as the audit sees them *)

(** A sink's optional capabilities: whether it declares readability (a call
    that may panic), and its immutability read. *)
Record Sink := MkSink {
  k_name : string;
  k_readable : option (attempt bool);               (* immutabilityReadable *)
  k_immutability : option (attempt (bool * bool * goerr)); (* immutabilityChecker *)
}.

Record Target := MkTarget { t_sink : option Sink; t_worm : bool }.

Definition safeSinkName (t : Target) : string :=
  match t_sink t with None => "<nil-sink>" | Some k => k_name k end.

Definition targetUnverifiableExempt (t : Target) : attempt bool :=
  if negb (t_worm t) then Returns false
  else match t_sink t ≫= k_readable with
       | Some (Returns r) => Returns (negb r)
       | Some (Panics p) => Panics p
       | None => Returns false
       end.

Definition shutdownVerdict (cause : goerr) : TargetVerdict := verdict StatusNoData "aborted by shutdown".

Definition abandonVerdict (parentCtx probeCtx : ctxState) : TargetVerdict :=
  if bool_decide (parentCtx ≠ None) then shutdownVerdict (ctxErr probeCtx)
  else verdict StatusUnverifiable "per-target probe deadline exceeded (wedged target)".

(** How one probe goes: the select's arm, the contexts' errors when it is
    abandoned, and what the probe itself does. *)
Record probe_env := MkPE {
  pe_arm : select_arm; pe_parent : ctxState; pe_pctx : ctxState; pe_probe : attempt TargetVerdict;
}.

Definition stamp (v : TargetVerdict) (name : string) (exempt : bool) : TargetVerdict :=
  MkV name exempt (v_Status v) (v_Detail v) (v_Checked v) (v_Missing v) (v_Extra v) (v_Err v).

Definition probeOne (t : Target) (v : probe_env) : attempt TargetVerdict :=
  let r := RunAbandonable (pe_arm v) (pe_probe v)
    (abandonVerdict (pe_parent v) (pe_pctx v))
    (λ p, faultVerdict (PanicErr ("probe " +:+ safeSinkName t) p) "") in
  match targetUnverifiableExempt t with
  | Returns ex => Returns (stamp r (safeSinkName t) ex)
  | Panics p => Panics p
  end.

(** [probeTargets]: the goroutines fill their slots in any order; a recovered
    body panic becomes a failing Fault. *)
Definition probeTargets (order : list nat) (targets : list Target) (env : nat → probe_env) : list TargetVerdict :=
  let run i := match targets !! i with
               | Some t => match probeOne t (env i) with
                           | Returns _ => Returns None | Panics p => Panics p end
               | None => Returns None
               end in
  let label i := "probe " +:+ default "" (safeSinkName <$> targets !! i) in
  let errs := RunParallelIdx order (length targets) label run in
  imap (λ i t,
    match mjoin (errs !! i) with
    | Some e => MkV (safeSinkName t) false StatusFault "" 0 0 0 (Some e)
    | None => match probeOne t (env i) with Returns v => v | Panics _ => zeroVerdict end
    end) targets.

(** ** Immutability *)

(** [immutabilityProbe]; [pctx] is the probe context's error. *)
Definition immutabilityProbe (pctx : ctxState) (t : Target) : attempt TargetVerdict :=
  match t_sink t ≫= k_immutability with
  | None => Returns (verdict StatusNoData "target type cannot report object-lock (not an S3 target)")
  | Some check =>
      match targetUnverifiableExempt t with
      | Panics p => Panics p
      | Returns true => Returns (verdict StatusNoData "no audit/read credential")
      | Returns false =>
          match check with
          | Panics p => Panics p
          | Returns (lock, versioning, e) =>
              Returns (match e with
                | Some _ =>
                    if cancelledInFlight pctx e then shutdownVerdict e
                    else verdict StatusUnverifiable "unverifiable (read-denying credential or transient error)"
                | None =>
                    if lock && versioning then verdict StatusVerified "object-lock=true versioning=true"
                    else verdict StatusDrift "object-lock or versioning disabled"
                end)
          end
      end
  end.

(** [CheckImmutability]: only the targets expected to be immutable. *)
Definition CheckImmutability (order : list nat) (targets : list Target)
    (arm : nat → select_arm) (parent pctx : nat → ctxState) : list TargetVerdict :=
  let worm := List.filter t_worm targets in
  probeTargets order worm (λ i, MkPE (arm i) (parent i) (pctx i)
    (match worm !! i with Some t => immutabilityProbe (pctx i) t | None => Panics "index" end)).

(** The two gauges: [ok] has a series per verified or drifted target,
    [unverifiable] the alerting targets. *)
Record gauges := MkG { g_ok : gmap string bool; g_unverifiable : gmap string bool }.

Definition SetImmutabilityOK (t : string) (b : bool) (g : gauges) := MkG (<[t := b]> (g_ok g)) (g_unverifiable g).
Definition ClearImmutabilityOK (t : string) (g : gauges) := MkG (delete t (g_ok g)) (g_unverifiable g).
Definition SetImmutabilityUnverifiable (t : string) (b : bool) (g : gauges) :=
  MkG (g_ok g) (if b then <[t := true]> (g_unverifiable g) else delete t (g_unverifiable g)).

Definition sample_one (st : gauges * list goerr) (v : TargetVerdict) : gauges * list goerr :=
  let '(g, faults) := st in
  let t := v_Target v in
  match v_Status v with
  | StatusVerified => (SetImmutabilityUnverifiable t false (SetImmutabilityOK t true g), faults)
  | StatusDrift => (SetImmutabilityUnverifiable t false (SetImmutabilityOK t false g), faults)
  | StatusNoData => (SetImmutabilityUnverifiable t false (ClearImmutabilityOK t g), faults)
  | _ => (SetImmutabilityUnverifiable t true (ClearImmutabilityOK t g),
          if bool_decide (v_Status v = StatusFault) && bool_decide (v_Err v ≠ None)
          then faults ++ [v_Err v] else faults)
  end.

(** [ImmutabilitySampler.Sample] over the pass's verdicts. *)
Definition Sample (ctx : ctxState) (report : list TargetVerdict) (g : gauges) : gauges * goerr :=
  match ctx with
  | Some c => (g, Some (ctx_error c))
  | None => let '(g, faults) := foldl sample_one (g, []) report in (g, errors_Join faults)
  end.

(** ** Lemmas *)

Lemma probeTargets_lookup order targets env i t :
  schedule (length targets) order → targets !! i = Some t →
  probeTargets order targets env !! i = Some
    (match probeOne t (env i) with
     | Returns v => v
     | Panics p => MkV (safeSinkName t) false StatusFault "" 0 0 0 (Some (PanicErr ("probe " +:+ safeSinkName t) p))
     end).
Proof.
  intros Hs Ht. unfold probeTargets, RunParallelIdx. rewrite list_lookup_imap, Ht. simpl. f_equal.
  rewrite RunParallel_map by (by rewrite length_seq). rewrite list_lookup_fmap.
  rewrite lookup_seq_lt by (by eapply lookup_lt_Some). simpl. unfold guarded. rewrite Ht. simpl.
  by destruct (probeOne t (env i)).
Qed.

Lemma probeTargets_length order targets env : length (probeTargets order targets env) = length targets.
Proof. apply length_imap. Qed.

Lemma filter_errs (l : list TargetVerdict) :
  Forall (λ e, e = None) (v_Err <$> List.filter (λ v, bool_decide (v_Err v ≠ None)) l) ↔
  Forall (λ v, v_Err v = None) l.
Proof.
  induction l as [|v l IH]; simpl; [by split|]. case_bool_decide as Hv; simpl; rewrite list.Forall_cons.
  - rewrite list.Forall_cons. naive_solver.
  - rewrite IH. destruct (v_Err v); naive_solver.
Qed.

(** The report's error is nil exactly when no target failed. *)
Lemma FailErr_nil targets : FailErr targets = None ↔ Forall (λ v, vFailed v = false) targets.
Proof.
  unfold FailErr. rewrite errors_Join_None, list.Forall_app, filter_errs.
  trans (List.filter vFailed targets = []).
  - generalize (List.filter vFailed targets) as bad. intros bad. split; [|by intros ->].
    intros [Herr Hmsg]. destruct bad as [|v l]; [done|].
    inversion_clear Herr as [|? ? Hv _]. simpl in Hmsg. rewrite bool_decide_eq_true_2 in Hmsg by done.
    by inversion Hmsg.
  - induction targets as [|v l IH]; simpl; [by split|].
    destruct (vFailed v) eqn:E; rewrite list.Forall_cons, E.
    + by split; [|intros [? _]].
    + rewrite IH. by split; [|intros [_ ?]].
Qed.

Lemma FailErr_surfaces targets v s : v ∈ targets → vFailed v = true → errors_Is (v_Err v) s = true →
  errors_Is (FailErr targets) s = true.
Proof.
  intros Hin Hf Hs. unfold FailErr. rewrite errors_Join_Is, existsb_app. apply orb_true_iff. left.
  apply existsb_exists. exists (v_Err v). split; [|done]. apply list_elem_of_In, list_elem_of_fmap_2.
  apply list_elem_of_In, List.filter_In. split.
  - apply List.filter_In. split; [by apply list_elem_of_In|done].
  - apply bool_decide_eq_true. intros Hn. by rewrite Hn in Hs.
Qed.

(** ** Properties *)

(** How a probed target can come not to fail. *)
Lemma pass_cases order targets env i t v :
  schedule (length targets) order → targets !! i = Some t →
  probeTargets order targets env !! i = Some v → vFailed v = false →
  (pe_arm (env i) = ArmResult ∧ ∃ pv, pe_probe (env i) = Returns pv ∧ v_Status v = v_Status pv ∧
     (v_Status pv = StatusVerified ∨ v_Status pv = StatusNoData ∨
      v_Status pv = StatusUnverifiable ∧ targetUnverifiableExempt t = Returns true)) ∨
  (pe_arm (env i) = ArmDone ∧ (pe_parent (env i) ≠ None ∨ targetUnverifiableExempt t = Returns true)).
Proof.
  intros Hs Ht. rewrite (probeTargets_lookup _ _ _ _ t) by done. intros [= <-].
  unfold probeOne, RunAbandonable, RunAbandonableClose.
  destruct (targetUnverifiableExempt t) as [ex|p] eqn:Eex; [|done].
  unfold vFailed, stamp; simpl. destruct (pe_arm (env i)); simpl.
  - destruct (pe_probe (env i)) as [pv|p]; simpl; [|done]. intros Hf. left. split; [done|].
    exists pv. split_and!; [done..|]. destruct (v_Status pv); simpl in Hf; try done; auto.
    to_prop. subst. auto.
  - intros Hf. right. split; [done|]. unfold abandonVerdict in Hf. destruct (bool_decide _) eqn:Eb; to_prop.
    + by left.
    + simpl in Hf. to_prop. subst. by right.
Qed.

(** No target can silently pass. Under every schedule of the probe
    goroutines, a verdict that does not fail comes from a probe that returned
    normally with a passing status (Verified, NoData, or Unverifiable on a
    declared write-only WORM copy), from a parent shutdown, or from an
    exempt target wedged at its deadline. A panic anywhere fails. *)
Theorem no_silent_pass order targets env i t v :
  schedule (length targets) order → targets !! i = Some t →
  probeTargets order targets env !! i = Some v → vFailed v = false →
  (pe_arm (env i) = ArmResult ∧ ∃ pv, pe_probe (env i) = Returns pv ∧ v_Status v = v_Status pv ∧
     (v_Status pv = StatusVerified ∨ v_Status pv = StatusNoData ∨
      v_Status pv = StatusUnverifiable ∧ targetUnverifiableExempt t = Returns true)) ∨
  (pe_arm (env i) = ArmDone ∧ (pe_parent (env i) ≠ None ∨ targetUnverifiableExempt t = Returns true)).
Proof. apply pass_cases. Qed.

Definition ex_sink (readable : bool) (im : attempt (bool * bool * goerr)) : Sink :=
  MkSink "s3" (Some (Returns readable)) (Some im).
Definition ex_targets : list Target :=
  [MkTarget (Some (ex_sink false (Panics "x"))) true; MkTarget None false].
Definition ex_penv (i : nat) : probe_env :=
  if i =? 0 then MkPE ArmResult None None (Returns (verdict StatusUnverifiable "403"))
  else MkPE ArmResult None None (Panics "nil sink").

Lemma no_silent_pass_witness :
  pe_arm (ex_penv 0) = ArmResult ∧
  vFailed (default zeroVerdict (probeTargets [1; 0] ex_targets ex_penv !! 1)) = true.
Proof.
  split; [|reflexivity].
  destruct (no_silent_pass [1; 0] ex_targets ex_penv 0 (MkTarget (Some (ex_sink false (Panics "x"))) true)
    (stamp (verdict StatusUnverifiable "403") "s3" true)) as [[H _]|[H _]].
  - unfold schedule. simpl. apply Permutation_swap.
  - reflexivity.
  - reflexivity.
  - reflexivity.
  - exact H.
  - discriminate H.
Defined.

(** The report fails exactly when some target's verdict fails, and the
    cause a failed Fault or Corrupt verdict carries is visible to errors.Is
    on the report's error. *)
Theorem FailErr_exact targets :
  (FailErr targets = None ↔ ∀ v, v ∈ targets → vFailed v = false) ∧
  (∀ v s, v ∈ targets → vFailed v = true → errors_Is (v_Err v) s = true → errors_Is (FailErr targets) s = true).
Proof.
  split; [by rewrite FailErr_nil, list.Forall_forall|]. intros v s. apply FailErr_surfaces.
Qed.

(** What one pass leaves in the gauges for a target checked once. *)
Definition gauge_of (s : VerdictStatus) : option bool * option bool :=
  match s with
  | StatusVerified => (Some true, None)
  | StatusDrift => (Some false, None)
  | StatusNoData => (None, None)
  | _ => (None, Some true)
  end.

Lemma sample_one_spec g faults v :
  let g' := (sample_one (g, faults) v).1 in
  (g_ok g' !! v_Target v, g_unverifiable g' !! v_Target v) = gauge_of (v_Status v) ∧
  ∀ t, t ≠ v_Target v → g_ok g' !! t = g_ok g !! t ∧ g_unverifiable g' !! t = g_unverifiable g !! t.
Proof.
  simpl. unfold sample_one, gauge_of.
  destruct (v_Status v); simpl; rewrite ?lookup_insert_eq, ?lookup_delete_eq;
    (split; [done|]); intros t Ht; by rewrite ?lookup_insert_ne, ?lookup_delete_ne by done.
Qed.

Lemma foldl_sample_spec report g faults t :
  NoDup (v_Target <$> report) →
  let g' := (foldl sample_one (g, faults) report).1 in
  match list_find (λ v, v_Target v = t) report with
  | Some (_, v) => (g_ok g' !! t, g_unverifiable g' !! t) = gauge_of (v_Status v)
  | None => g_ok g' !! t = g_ok g !! t ∧ g_unverifiable g' !! t = g_unverifiable g !! t
  end.
Proof.
  revert g faults. induction report as [|v report IH]; intros g faults Hnd; [done|].
  rewrite fmap_cons in Hnd. inversion_clear Hnd as [|? ? Hni Hnd'].
  destruct (sample_one_spec g faults v) as [Hv Hother]. cbn [foldl list_find].
  destruct (sample_one (g, faults) v) as [g1 f1] eqn:E1. simpl in Hv, Hother.
  specialize (IH g1 f1 Hnd'). cbv zeta in *.
  destruct (decide (v_Target v = t)) as [<-|Hne].
  - destruct (list_find _ report) as [[j w]|] eqn:Ef.
    + exfalso. apply list_find_Some in Ef as (Hj & Heq & _). apply Hni. rewrite <- Heq.
      by eapply list_elem_of_fmap_2, list_elem_of_lookup_2.
    + destruct IH as [-> ->]. exact Hv.
  - destruct (Hother t ltac:(done)) as [Ho Hu].
    destruct (list_find _ report) as [[j w]|]; simpl; [done|]. by rewrite <- Ho, <- Hu.
Qed.

(** Every verdict of a pass carries its target's name, in the order of the targets. *)
Lemma probeTargets_names order targets env :
  schedule (length targets) order → v_Target <$> probeTargets order targets env = safeSinkName <$> targets.
Proof.
  intros Hs. apply list_eq. intros j. rewrite !list_lookup_fmap.
  destruct (targets !! j) as [u|] eqn:Eu.
  - rewrite (probeTargets_lookup order targets env j u Hs Eu). simpl. f_equal.
    unfold probeOne. by destruct (targetUnverifiableExempt u).
  - rewrite (proj2 (lookup_ge_None _ _)); [done|]. rewrite probeTargets_length. by apply lookup_ge_None.
Qed.

(** A target is verified only by a check that returned in time and saw both
    object-lock and versioning. *)
Lemma immutability_verified t env ctx :
  pe_probe env = immutabilityProbe ctx t →
  v_Status (match probeOne t env with
            | Returns v => v
            | Panics p => MkV (safeSinkName t) false StatusFault "" 0 0 0 (Some (PanicErr ("probe " +:+ safeSinkName t) p))
            end) = StatusVerified →
  pe_arm env = ArmResult ∧ ∃ check, t_sink t ≫= k_immutability = Some (Returns check) ∧ check = (true, true, None).
Proof.
  intros Hp Hver. unfold probeOne in Hver. rewrite Hp in Hver.
  unfold immutabilityProbe in Hver. destruct (targetUnverifiableExempt t) as [ex|p]; [|done].
  simpl in Hver. unfold RunAbandonable in Hver. destruct (pe_arm env); simpl in Hver.
  2:{ unfold abandonVerdict in Hver. by case_match. }
  split; [done|]. destruct (t_sink t ≫= k_immutability) as [[[[lock ver] e]|p]|]; simpl in Hver.
  - destruct ex; [done|]. destruct e as [x|]; simpl in Hver; [by case_match|].
    destruct lock, ver; simpl in Hver; try done. by eexists.
  - by destruct ex.
  - done.
Qed.

(** The series of a report's only verdict for a target are that verdict's. *)
Lemma Sample_lookup report g g' e i v :
  NoDup (v_Target <$> report) → report !! i = Some v → Sample None report g = (g', e) →
  (g_ok g' !! v_Target v, g_unverifiable g' !! v_Target v) = gauge_of (v_Status v).
Proof.
  intros Hnd Hv HS. unfold Sample in HS.
  pose proof (foldl_sample_spec report g [] (v_Target v) Hnd) as HF. cbv zeta in HF.
  destruct (foldl sample_one (g, []) _) as [g1 f1]. simplify_eq. simpl in HF.
  destruct (list_find _ _) as [[j w]|] eqn:Ef.
  - apply list_find_Some in Ef as (Hj & Hw & _).
    assert (j = i) as ->; [|by rewrite Hv in Hj; simplify_eq].
    eapply (NoDup_lookup (v_Target <$> report)); [done| |]; rewrite list_lookup_fmap;
      [by rewrite Hj; simpl; rewrite Hw|by rewrite Hv].
  - exfalso. apply list_find_None in Ef. rewrite list.Forall_forall in Ef.
    by apply (Ef v); [eapply list_elem_of_lookup_2|].
Qed.

(** The gauge is never stale-green. After a pass, a checked target's ok
    series is 1 only if this pass verified object-lock and versioning, it is
    gone when the target could not be read, and the alerting series is raised
    exactly for an unreadable or faulted target; other series are untouched. *)
Theorem gauges_follow_verdicts order targets arm parent pctx g i t g' e :
  let worm := List.filter t_worm targets in
  let report := CheckImmutability order targets arm parent pctx in
  schedule (length worm) order → NoDup (safeSinkName <$> worm) → worm !! i = Some t →
  Sample None report g = (g', e) →
  ∃ v, report !! i = Some v ∧
    (g_ok g' !! safeSinkName t, g_unverifiable g' !! safeSinkName t) = gauge_of (v_Status v) ∧
    (g_ok g' !! safeSinkName t = Some true →
       arm i = ArmResult ∧ ∃ check, t_sink t ≫= k_immutability = Some (Returns check) ∧ check = (true, true, None)).
Proof.
  intros worm report Hs Hnd Ht HS. unfold report, CheckImmutability in *. fold worm in HS |- *.
  set (env := λ i, MkPE _ _ _ _) in *.
  pose proof (probeTargets_lookup order worm env i t Hs Ht) as Hl.
  set (v := match probeOne t (env i) with Returns v => v | Panics p => _ end) in Hl.
  pose proof (probeTargets_names order worm env Hs) as Hnames.
  exists v. split; [done|].
  assert (v_Target v = safeSinkName t) as Hname.
  { apply (f_equal (lookup i)) in Hnames. rewrite !list_lookup_fmap, Hl, Ht in Hnames. by injection Hnames. }
  assert ((g_ok g' !! safeSinkName t, g_unverifiable g' !! safeSinkName t) = gauge_of (v_Status v)) as HG.
  { rewrite <- Hname. eapply Sample_lookup; [by rewrite Hnames|done..]. }
  split; [done|]. intros Hok. rewrite Hok in HG.
  apply (immutability_verified t (env i) (pctx i)).
  - unfold env; cbn [pe_probe]. by replace (worm !! i) with (Some t).
  - fold v. destruct (v_Status v); simpl in HG; by simplify_eq.
Qed.

Lemma gauges_follow_verdicts_witness :
  let t := MkTarget (Some (ex_sink true (Returns (true, true, None)))) true in
  ∃ v, CheckImmutability [0] [t] (λ _, ArmResult) (λ _, None) (λ _, None) !! 0 = Some v ∧
    v_Status v = StatusVerified.
Proof.
  intros t.
  destruct (gauges_follow_verdicts [0] [t] (λ _, ArmResult) (λ _, None) (λ _, None) (MkG ∅ ∅) 0 t
    (Sample None (CheckImmutability [0] [t] (λ _, ArmResult) (λ _, None) (λ _, None)) (MkG ∅ ∅)).1
    (Sample None (CheckImmutability [0] [t] (λ _, ArmResult) (λ _, None) (λ _, None)) (MkG ∅ ∅)).2) as (v & Hv & _).
  - apply schedule_seq.
  - simpl. apply NoDup_singleton.
  - reflexivity.
  - reflexivity.
  - exists v. split; [exact Hv|].
    assert (v_Status <$> CheckImmutability [0] [t] (λ _, ArmResult) (λ _, None) (λ _, None) !! 0 =
      Some StatusVerified) as Hs by reflexivity.
    rewrite Hv in Hs. by injection Hs.
Defined.

End Verdict.
