(* ===== verification/PresenceAudit.v ===== *)
(** * The existence audit

    The ledger-to-target direction of [src/internal/domain/audit.go]:
    [existsWithCtx], [existsPage], [auditTally], [auditTarget],
    [classifyAuditErr], over the sampled sweep of Keyset.v and the ledger
    pages of Ledger.v. *)

From S2P Require Import Prelude GoRuntime Ports Keyset Ledger Verdict.
From Stdlib Require Import ZArith Lia.
From stdpp Require Import base gmap strings list numbers.

Module Audit.
Import Keyset Verdict.

Record existsResult := MkER { present : bool; er_err : goerr }.

(** [existsWithCtx]: the abandonable probe of one object. *)
Definition existsWithCtx (arm : select_arm) (ctx : ctxState) (name : string)
    (exists_ : attempt (bool * goerr)) : existsResult :=
  RunAbandonable arm
    (match exists_ with Returns (p, e) => Returns (MkER p e) | Panics r => Panics r end)
    (MkER false (ctxErr ctx)) (λ r, MkER false (Some (PanicErr ("sink Exists " +:+ name) r))).

(** [existsPage]: every slot starts unchecked (Canceled); the probes collected
    before a cancellation fill theirs, in the order [completed]. *)
Definition existsPage (probe : string → existsResult) (completed : list nat) (page : list string)
    : list existsResult :=
  foldl (λ rs i, match page !! i with Some id => <[i := probe id]> rs | None => rs end)
    (replicate (length page) (MkER false (Some (Sent Canceled)))) completed.

(** ** The tally *)

Record auditTally := MkTally {
  checked : Z; missing : Z; errored : Z; readDenied : Z; panicErr : goerr;
}.
Definition zeroTally : auditTally := MkTally 0 0 0 0 None.

Definition add_one (a : auditTally) (e : existsResult) : auditTally :=
  match er_err e with
  | Some x =>
      MkTally (checked a + 1) (missing a) (errored a + 1)
        (if Is x ErrReadDenied then readDenied a + 1 else readDenied a)
        (if Is x ErrProbePanic then Some x else panicErr a)
  | None =>
      MkTally (checked a + 1) (if present e then missing a else missing a + 1) (errored a)
        (readDenied a) (panicErr a)
  end.

Definition add (a : auditTally) (results : list existsResult) : auditTally := foldl add_one a results.

Definition allReadDenied (a : auditTally) : bool := (0 <? checked a)%Z && (readDenied a =? checked a)%Z.

Definition tally_verdict (name : string) (a : auditTally) : TargetVerdict :=
  match panicErr a with
  | Some x => MkV "" false StatusFault "probe panicked" (checked a) 0 0 (Some (Wrap ("audit probe " +:+ name) [x]))
  | None =>
      if (0 <? missing a)%Z then MkV "" false StatusDrift "" (checked a) (missing a) 0 None
      else if (0 <? errored a)%Z then MkV "" false StatusUnverifiable "" (checked a) 0 0 None
      else MkV "" false StatusVerified "" (checked a) 0 0 None
  end.

Definition classifyAuditErr (parentCtx : ctxState) (name : string) (e : err) : TargetVerdict :=
  if cancelledInFlight parentCtx (Some e) then shutdownVerdict (Some e)
  else faultVerdict (Wrap ("audit target " +:+ name) [e]) "ledger/sweep read error".

(** [storedPageLedgerTagged]: a ledger error is tagged errLedgerRead. *)
Definition storedPageLedgerTagged (page : res (list string)) : res (list string) :=
  match page with
  | Ok p => Ok p
  | Er e => Er (Wrap "ledger page" [Sent errLedgerRead; e])
  end.

(** ** auditTarget

    [pages k] answers the [k]-th ledger page query; [order k page] is the order in
    which the [k]-th probed page's probes complete and [after k] the context
    error read after it; [ctxs] is read at the top of each sweep iteration and [final] by the
    classifier. *)
Section target.
Context (name : string) (exempt : bool) (probe : string → existsResult).
Context (pages : nat → string → nat → res (list string)).
Context (order : nat → list string → list nat) (after ctxs : nat → ctxState) (final : ctxState).

Definition emit (st : auditTally * nat) (page : list string) : auditTally * nat * goerr :=
  let '(tally, k) := st in
  let results := existsPage probe (order k page) page in
  match after k with
  | Some c => ((tally, S k), Some (ctx_error c))
  | None =>
      let tally := add tally results in
      ((tally, S k), if exempt && allReadDenied tally then Some (Sent errAuditReadDenied) else None)
  end.

Definition auditTarget (fuel : nat) (samplePerTarget : Z) (startAfter : string) : option TargetVerdict :=
  r ← keysetSample samplePerTarget startAfter (λ k a n, storedPageLedgerTagged (pages k a n))
        emit ctxs fuel (zeroTally, 0);
  let '((tally, _), e) := r in
  Some (match e with
        | Some x => if Is x errAuditReadDenied then tally_verdict name tally
                    else classifyAuditErr final name x
        | None => tally_verdict name tally
        end).
End target.

(** ** Lemmas *)

Lemma add_app a r1 r2 : add a (r1 ++ r2) = add (add a r1) r2.
Proof. apply foldl_app. Qed.

Lemma existsPage_map probe completed page : completed ≡ₚ seq 0 (length page) →
  existsPage probe completed page = probe <$> page.
Proof.
  intros Hc. unfold existsPage.
  assert (∀ l rs, length rs = length page →
    length (foldl (λ rs i, match page !! i with Some id => <[i := probe id]> rs | None => rs end) rs l) = length page ∧
    ∀ j, foldl (λ rs i, match page !! i with Some id => <[i := probe id]> rs | None => rs end) rs l !! j =
      (if decide (j ∈ l) then probe <$> page !! j else rs !! j)) as Hf.
  { induction l as [|i l IH]; intros rs Hlen; cbn [foldl].
    { split; [done|]. intros j. rewrite decide_False; [done|]. apply not_elem_of_nil. }
    assert (length (match page !! i with Some id => <[i := probe id]> rs | None => rs end) = length page) as Hlen'.
    { destruct (page !! i); [by rewrite length_insert|done]. }
    destruct (IH _ Hlen') as [Hl Hj]. split; [done|]. intros j. rewrite Hj.
    destruct (decide (j ∈ l)) as [Hin|Hin]; [by rewrite decide_True by by right|].
    destruct (decide (j = i)) as [->|Hne].
    - rewrite decide_True by by left. destruct (page !! i) as [id|] eqn:E; simpl.
      + apply list_lookup_insert_eq. rewrite Hlen. by eapply lookup_lt_Some.
      + apply lookup_ge_None in E. apply lookup_ge_None. lia.
    - rewrite decide_False by (by rewrite elem_of_cons; intros [?|?]).
      destruct (page !! i); [by apply list_lookup_insert_ne|done]. }
  apply list_eq. intros j. destruct (Hf completed (replicate (length page) (MkER false (Some (Sent Canceled))))) as [_ ->];
    [apply length_replicate|].
  rewrite list_lookup_fmap. case_decide as Hin; [done|]. rewrite Hc, elem_of_seq in Hin.
  rewrite (proj2 (lookup_ge_None page j)) by lia. apply lookup_ge_None. rewrite length_replicate. lia.
Qed.

(** The counters of a tally are the counts of its results. *)
Definition count {A} (f : A → bool) (l : list A) : Z := Z.of_nat (length (List.filter f l)).

Lemma count_cons {A} (f : A → bool) x l : count f (x :: l) = ((if f x then 1 else 0) + count f l)%Z.
Proof. unfold count; simpl. destruct (f x); simpl; lia. Qed.

Definition is_missing (e : existsResult) : bool := bool_decide (er_err e = None) && negb (present e).
Definition is_denied (e : existsResult) : bool := errors_Is (er_err e) ErrReadDenied.
Definition is_panic (e : existsResult) : bool := errors_Is (er_err e) ErrProbePanic.
Definition is_error (e : existsResult) : bool := bool_decide (er_err e ≠ None).

Lemma add_counts a rs :
  checked (add a rs) = (checked a + Z.of_nat (length rs))%Z ∧
  missing (add a rs) = (missing a + count is_missing rs)%Z ∧
  errored (add a rs) = (errored a + count is_error rs)%Z ∧
  readDenied (add a rs) = (readDenied a + count is_denied rs)%Z ∧
  (panicErr (add a rs) = None ↔ panicErr a = None ∧ count is_panic rs = 0%Z).
Proof.
  revert a. induction rs as [|e rs IH]; intros a.
  { unfold count; simpl. split_and!; try lia. split; [done|by intros [? _]]. }
  unfold add in *. simpl. destruct (IH (add_one a e)) as (-> & -> & -> & -> & ->).
  rewrite !count_cons. assert (0 ≤ count is_panic rs)%Z by (unfold count; lia).
  set (cm := count is_missing rs). set (ce := count is_error rs). set (cd := count is_denied rs).
  set (cp := count is_panic rs) in *. unfold add_one, is_missing, is_error, is_denied, is_panic.
  destruct (er_err e) as [x|]; simpl.
  - destruct (Is x ErrReadDenied), (Is x ErrProbePanic); simpl; (split_and!; [lia|lia|lia|lia|]);
      (split; intros [? ?]; first [split; [done|lia]|exfalso; done|exfalso; lia]).
  - destruct (present e); simpl; (split_and!; [lia|lia|lia|lia|]);
      (split; intros [? ?]; split; [done|lia|done|lia]).
Qed.

Lemma count_le {A} (f : A → bool) l : (0 ≤ count f l ≤ Z.of_nat (length l))%Z.
Proof. unfold count. pose proof (List.filter_length_le f l). lia. Qed.

Lemma count_zero {A} (f : A → bool) l : count f l = 0%Z ↔ ∀ x, x ∈ l → f x = false.
Proof.
  unfold count. induction l as [|x l IH]; simpl.
  { split; [|done]. intros _ x Hx. by apply not_elem_of_nil in Hx. }
  destruct (f x) eqn:Ef; simpl.
  - split; [lia|]. intros Hall. by rewrite (Hall x) in Ef by by left.
  - rewrite IH. split.
    + intros Hall y [->|Hy]%elem_of_cons; [done|by apply Hall].
    + intros Hall y Hy. apply Hall. by right.
Qed.

Lemma count_fmap {A B} (f : B → bool) (g : A → B) (l : list A) :
  count f (g <$> l) = Z.of_nat (length (List.filter (λ x, f (g x)) l)).
Proof.
  induction l as [|x l IH]; [done|]. rewrite fmap_cons, count_cons, IH. simpl.
  destruct (f (g x)); simpl; lia.
Qed.

Section exact.
Context (name : string) (exempt : bool) (probe : string → existsResult).
Context (order : nat → list string → list nat).

(** Without an early stop, the sweep's pages accumulate into one tally. *)
Lemma emit_pages (after : nat → ctxState) pages tally k :
  (∀ k, after k = None) → (∀ k page, order k page ≡ₚ seq 0 (length page)) →
  exempt = false ∨ (∀ id, is_denied (probe id) = false) ∧ readDenied tally = 0%Z ∧ (0 ≤ checked tally)%Z →
  for_each (emit exempt probe order after) (tally, k) pages =
    ((add tally (probe <$> concat pages), k + length pages), None).
Proof.
  intros Hafter Hord. revert tally k. induction pages as [|p pages IH]; intros tally k Hno; simpl.
  { by rewrite Nat.add_0_r. }
  rewrite existsPage_map by apply Hord. rewrite Hafter.
  assert (exempt && allReadDenied (add tally (probe <$> p)) = false) as ->.
  { destruct Hno as [->|(Hnd & Hz & Hc)]; [done|]. unfold allReadDenied.
    destruct (add_counts tally (probe <$> p)) as (-> & _ & _ & -> & _).
    assert (count is_denied (probe <$> p) = 0%Z) as ->.
    { apply count_zero. intros x (id & -> & _)%list_elem_of_fmap. apply Hnd. }
    rewrite Hz. apply andb_false_iff. right. apply andb_false_iff.
    destruct (decide (0 < checked tally + Z.of_nat (length (probe <$> p)))%Z) as [H|H].
    - right. apply Z.eqb_neq. lia.
    - left. apply Z.ltb_ge. lia. }
  rewrite IH.
  - by rewrite fmap_app, add_app, Nat.add_succ_r.
  - destruct Hno as [->|(Hnd & Hz & Hc)]; [by left|right]. split; [done|].
    destruct (add_counts tally (probe <$> p)) as (-> & _ & _ & -> & _).
    assert (count is_denied (probe <$> p) = 0%Z) as ->.
    { apply count_zero. intros x (id & -> & _)%list_elem_of_fmap. apply Hnd. }
    lia.
Qed.
End exact.

Lemma page_is_table d target a n :
  Ledger.StoredExternalIDsPage d target a n = table_page (λ x, x) (Ledger.stored_ids d target) a n.
Proof. done. Qed.

(** The verdict of a full sweep over a stable ledger is the tally of its probes. *)
Lemma full_audit_tally name exempt probe pages order after ctxs final d fuel sample :
  (sample ≤ 0)%Z → (∀ k a n, pages k a n = Ok (Ledger.StoredExternalIDsPage d name a n)) →
  (∀ k, after k = None) → (∀ k, ctxs k = None) →
  (∀ k page, order k page ≡ₚ seq 0 (length page)) →
  exempt = false ∨ (∀ id, is_denied (probe id) = false) →
  2 * length (Ledger.stored_ids d name) + 4 < fuel →
  auditTarget name exempt probe pages order after ctxs final fuel sample "" =
  Some (tally_verdict name (add zeroTally (probe <$> List.filter (λ id, str_ltb "" id) (Ledger.stored_ids d name)))).
Proof.
  intros Hsam Hpages Hafter Hctxs Hord Hno Hfuel. set (ids := Ledger.stored_ids d name). unfold auditTarget, keysetSample.
  assert (∀ k a n, storedPageLedgerTagged (pages k a n) = Ok (table_page (λ x, x) ids a n)) as Hpg
    by (intros k a n; by rewrite Hpages).
  destruct (sample_loop_spec sample "" ids _ (emit exempt probe order after) ctxs Hpg (Ledger.stored_ids_ascending d name)
    Hctxs fuel (zeroTally, 0) false "" 0 0) as (pgs & Hc & Hr).
  { pose proof (fuel_for_le sample "" ids). unfold ids in *. lia. }
  rewrite Hr, (emit_pages exempt probe order after), Hc; [|done|done|].
  2:{ destruct Hno as [->|Hno]; [by left|right]. split; [done|]. simpl. lia. }
  unfold rest_spec, next_seg, wraps, seg; simpl. rewrite (proj2 (Z.ltb_ge 0 sample) Hsam). simpl. by rewrite app_nil_r.
Qed.

(** A tally is Verified exactly when every probe found its object. *)
Lemma tally_verified name rs :
  v_Status (tally_verdict name (add zeroTally rs)) = StatusVerified ↔ ∀ r, r ∈ rs → present r = true ∧ er_err r = None.
Proof.
  destruct (add_counts zeroTally rs) as (_ & Hmi & Her & _ & Hpn). simpl in Hmi, Her. unfold tally_verdict. split.
  - intros Hv. destruct (panicErr (add zeroTally rs)) as [x|]; [done|].
    destruct (Z.ltb_spec 0 (missing (add zeroTally rs))); [done|].
    destruct (Z.ltb_spec 0 (errored (add zeroTally rs))); [done|].
    pose proof (count_le is_missing rs). pose proof (count_le is_error rs).
    assert (count is_missing rs = 0%Z) as Hm by lia. assert (count is_error rs = 0%Z) as He by lia.
    rewrite count_zero in Hm, He. intros r Hr. specialize (Hm r Hr). specialize (He r Hr).
    unfold is_missing, is_error in *. apply bool_decide_eq_false_1 in He. destruct (er_err r); [by exfalso; apply He|].
    rewrite bool_decide_eq_true_2 in Hm by done. destruct (present r); done.
  - intros Hall.
    assert (count is_missing rs = 0%Z) as Hm.
    { apply count_zero. intros r Hr. destruct (Hall r Hr) as [Hp _]. unfold is_missing. by rewrite Hp, andb_false_r. }
    assert (count is_error rs = 0%Z) as He.
    { apply count_zero. intros r Hr. destruct (Hall r Hr) as [_ Hn]. unfold is_error. apply bool_decide_eq_false_2. intros H. by apply H. }
    rewrite (proj2 Hpn), Hmi, Hm, Her, He; [done|]. split; [done|].
    apply count_zero. intros r Hr. destruct (Hall r Hr) as [_ Hn]. unfold is_panic. by rewrite Hn.
Qed.

(** ** Properties *)

(** A full audit over a stable ledger is exact: it terminates, probes every
    object the ledger records stored on the target once, and its verdict is
    the tally of those probes. With no probe panicking it reports Drift with
    the exact number of lost objects if any is lost, Unverifiable if some probe
    could not tell, and Verified only if every recorded object is present.
    (The early stop of a write-only WORM copy needs a read-denied probe.) *)
Theorem full_audit_exact name exempt probe order d fuel :
  (∀ k page, order k page ≡ₚ seq 0 (length page)) →
  exempt = false ∨ (∀ id, is_denied (probe id) = false) →
  (∀ id, is_panic (probe id) = false) →
  2 * length (Ledger.stored_ids d name) + 4 < fuel →
  let ids := Ledger.stored_ids d name in
  let lost := List.filter (λ id, is_missing (probe id)) (List.filter (λ id, str_ltb "" id) ids) in
  let unsure := List.filter (λ id, is_error (probe id)) (List.filter (λ id, str_ltb "" id) ids) in
  ∃ v, auditTarget name exempt probe (λ _ a n, Ok (Ledger.StoredExternalIDsPage d name a n))
         order (λ _, None) (λ _, None) None fuel 0 "" = Some v ∧
    v_Status v = (match lost, unsure with
                  | _ :: _, _ => StatusDrift | [], _ :: _ => StatusUnverifiable | [], [] => StatusVerified end) ∧
    v_Missing v = Z.of_nat (length lost) ∧
    v_Checked v = Z.of_nat (length (List.filter (λ id, str_ltb "" id) ids)).
Proof.
  intros Hord Hno Hpan Hfuel ids lost unsure. rewrite (full_audit_tally _ _ _ _ _ _ _ _ d) by done. fold ids.
  set (swept := List.filter (λ id, str_ltb "" id) ids) in *.
  destruct (add_counts zeroTally (probe <$> swept)) as (Hch & Hmi & Her & _ & Hpn).
  assert (∀ f, count f (probe <$> swept) = Z.of_nat (length (List.filter (λ id, f (probe id)) swept))) as Hcount.
  { intros f. apply count_fmap. }
  eexists. split; [done|]. unfold tally_verdict.
  assert (panicErr (add zeroTally (probe <$> swept)) = None) as ->.
  { apply Hpn. split; [done|]. apply count_zero. intros x (id & -> & _)%list_elem_of_fmap. apply Hpan. }
  rewrite Hmi, Her, Hch, !Hcount, length_fmap. simpl.
  fold lost unsure. destruct lost as [|x l]; simpl.
  - destruct unsure; simpl; split_and!; try done; lia.
  - split_and!; try done; lia.
Qed.

(** The ledger records two objects on t1; the sink lost one. *)
Definition ex_db : Ledger.db :=
  Ledger.apply_records
    [(1%Z, Ports.MkMeta "aa" 7 true None None, [Ports.MkStatus "t1" Ports.StateStored 5]);
     (2%Z, Ports.MkMeta "bb" 7 true None None, [Ports.MkStatus "t1" Ports.StateStored 5])] Ledger.empty_db.
Definition ex_probe (id : string) : existsResult := MkER (bool_decide (id = "aa")) None.

Lemma full_audit_exact_witness :
  ∃ v, auditTarget "t1" false ex_probe (λ _ a n, Ok (Ledger.StoredExternalIDsPage ex_db "t1" a n))
         (λ _ p, seq 0 (length p)) (λ _, None) (λ _, None) None 20 0 "" = Some v ∧
    v_Status v = StatusDrift ∧ v_Missing v = 1%Z ∧ v_Checked v = 2%Z.
Proof.
  apply (full_audit_exact "t1" false ex_probe (λ _ p, seq 0 (length p)) ex_db 20).
  - done.
  - by left.
  - done.
  - vm_compute. lia.
Defined.

(** The sweep fails closed. A ledger page error becomes a failing Fault
    carrying the error on every target, WORM or not, unless it is the parent's
    own shutdown, and a cancelled sweep never reads as a clean pass. *)
Theorem ledger_error_is_fault name exempt probe order after ctxs final fuel sample start e :
  ctxs 0 = None →
  let v := auditTarget name exempt probe (λ _ _ _, Er e) order after ctxs final (S fuel) sample start in
  (sample = 0)%Z → Is e errAuditReadDenied = false →
  ∃ w, v = Some w ∧
    (cancelledInFlight final (Some e) = false →
       v_Status w = StatusFault ∧ errors_Is (v_Err w) errLedgerRead = true ∧ ∀ ex, Failed (v_Status w) ex = true) ∧
    (cancelledInFlight final (Some e) = true → v_Status w = StatusNoData).
Proof.
  intros Hctx v -> Hdenied. unfold v, auditTarget, keysetSample. simpl. rewrite Hctx. simpl.
  rewrite Hdenied. simpl. eexists; split; [done|]. unfold classifyAuditErr.
  unfold cancelledInFlight. simpl. rewrite orb_false_r. split.
  - intros ->. simpl. by split_and!.
  - intros ->. done.
Qed.

Lemma ledger_error_is_fault_witness :
  ∃ w, auditTarget "t1" true ex_probe (λ _ _ _, Er (Sent DeadlineExceeded)) (λ _ _, []) (λ _, None)
         (λ _, None) None 1 0 "" = Some w ∧
    (cancelledInFlight None (Some (Sent DeadlineExceeded)) = false →
       v_Status w = StatusFault ∧ errors_Is (v_Err w) errLedgerRead = true ∧ ∀ ex, Failed (v_Status w) ex = true) ∧
    (cancelledInFlight None (Some (Sent DeadlineExceeded)) = true → v_Status w = StatusNoData).
Proof.
  apply (ledger_error_is_fault "t1" true ex_probe (λ _ _, []) (λ _, None) (λ _, None) None 0 0 ""); reflexivity.
Defined.

End Audit.
