(* ===== verification/Inventory.v ===== *)
(** * The inventory audit

    The target-to-ledger direction, [src/internal/domain/inventory.go]: the
    manifest scanner, the lock-step merge against the ledger's stored ids, the
    order-independent fallback, and the classification into a verdict.

    A fetched manifest is its list of lines, each already given to
    [json.Unmarshal] ([MBad] is a line it rejects, [MLine] the decoded
    externalID, possibly empty), and the error the scanner stops with. A pull
    iterator is the ids it yields and the error it ends with ([None]: the
    clean end). *)

From S2P Require Import Prelude GoRuntime Ports Keyset Ledger Verdict.
From Stdlib Require Import ZArith Lia.
From stdpp Require Import base gmap strings list sorting numbers.

Module Inventory.
Import Verdict Ports.

Inductive mline := MEmpty | MBad | MLine (externalID : string).

Abbreviation iter := (list string * goerr)%type.

(** ** The scanner *)

Definition scan_error (serr : goerr) : goerr :=
  match serr with
  | None => None
  | Some e =>
      if Is e Canceled || Is e DeadlineExceeded then Some e
      else if Is e ErrTooLong then Some (Wrap "line too long" [Sent errCorruptManifest; e])
      else Some (Wrap "manifest read" [e])
  end.

(** [manifestScanner]; [prev] is the last yielded id. *)
Fixpoint manifestScanner (strict : bool) (prev : string) (lines : list mline) (serr : goerr) : iter :=
  match lines with
  | [] => ([], scan_error serr)
  | MEmpty :: lines => manifestScanner strict prev lines serr
  | MBad :: _ => ([], Some (Wrap "parse line" [Sent errCorruptManifest; Msg "json"]))
  | MLine id :: lines =>
      if bool_decide (id = "") then manifestScanner strict prev lines serr
      else if strict && bool_decide (prev ≠ "") && negb (str_ltb prev id)
      then ([], Some (Wrap "not byte-ascending" [Sent errNonAscendingManifest]))
      else let '(ids, e) := manifestScanner strict id lines serr in (id :: ids, e)
  end.

Definition manifestIterator (lines : list mline) (serr : goerr) : iter := manifestScanner true "" lines serr.

(** [collectManifestIDs]. *)
Definition collectManifestIDs (lines : list mline) (serr : goerr) (maxIDs : Z) : list string + err :=
  let '(ids, e) := manifestScanner false "" lines serr in
  if (maxIDs <? Z.of_nat (length ids))%Z then inr (Msg "manifest exceeds the id bound")
  else match e with Some x => inr x | None => inl ids end.

(** ** The merge *)

Record counts := MkCounts { extra : Z; missing : Z; manifestSize : Z }.

(** The loop of [mergeInventory]: the heads of [m] and [l] are the pulled ids;
    an exhausted stream with an error stops the merge at the pull. *)
Fixpoint merge (fuel : nat) (m l : list string) (me le : goerr) (c : counts) : option (counts * goerr) :=
  match fuel with
  | O => None
  | S fuel =>
      let pulled (s : list string) (e : goerr) (c : counts) (k : option (counts * goerr)) :=
        match s, e with [], Some x => Some (c, Some x) | _, _ => k end in
      match m, l with
      | [], [] => Some (c, None)
      | x :: m', [] =>
          let c := MkCounts (extra c + 1) (missing c) (manifestSize c + 1) in
          pulled m' me c (merge fuel m' l me le c)
      | [], y :: l' =>
          let c := MkCounts (extra c) (missing c + 1) (manifestSize c) in
          pulled l' le c (merge fuel m l' me le c)
      | x :: m', y :: l' =>
          if str_ltb x y then
            let c := MkCounts (extra c + 1) (missing c) (manifestSize c + 1) in
            pulled m' me c (merge fuel m' l me le c)
          else if str_ltb y x then
            let c := MkCounts (extra c) (missing c + 1) (manifestSize c) in
            pulled l' le c (merge fuel m l' me le c)
          else
            let c := MkCounts (extra c) (missing c) (manifestSize c + 1) in
            pulled m' me c (pulled l' le c (merge fuel m' l' me le c))
      end
  end.

Definition zeroCounts : counts := MkCounts 0 0 0.

Definition mergeInventory (m l : iter) : option (counts * goerr) :=
  match m with
  | ([], Some e) => Some (zeroCounts, Some e)
  | (ms, me) =>
      match l with
      | ([], Some e) => Some (zeroCounts, Some e)
      | (ls, le) => merge (S (length ms + length ls)) ms ls me le zeroCounts
      end
  end.

(** ** Verdicts *)

Definition classifyInventoryErr (parentCtx : ctxState) (name : string) (e : err) : TargetVerdict :=
  if Is e ErrNotExist then verdict StatusNoData "no manifest written yet (nothing to diff)"
  else if cancelledInFlight parentCtx (Some e) then shutdownVerdict (Some e)
  else if Is e ErrProbePanic then faultVerdict (Wrap ("inventory probe " +:+ name) [e]) "probe panicked"
  else if Is e errCorruptManifest then
    MkV "" false StatusCorrupt "corrupt manifest" 0 0 0 (Some (Wrap ("manifest for " +:+ name) [e]))
  else if Is e errLedgerRead then faultVerdict (Wrap ("inventory diff for " +:+ name) [e]) "ledger read error"
  else verdict StatusUnverifiable "manifest unverifiable (wedged/read-denying/transient)".

Definition mergeToVerdict (ctx : ctxState) (name : string) (c : counts) (merr : goerr) : TargetVerdict :=
  match merr with
  | Some e =>
      if (0 <? extra c)%Z then MkV "" false StatusDrift "orphan seen before read fault" 0 (missing c) (extra c) None
      else classifyInventoryErr ctx name e
  | None =>
      MkV "" false (if (0 <? extra c)%Z then StatusDrift else StatusVerified) "" 0 (missing c) (extra c) None
  end.

(** What opening the latest manifest gives: its lines and scan error, or the
    fetch's error ([abandonableFetch] and [openManifestReader]). *)
Definition abandonableFetch {A} (arm : select_arm) (fctx : ctxState) (fetch : attempt (A + err)) : A + err :=
  RunAbandonable arm fetch
    (inr (Wrap "manifest fetch deadline/cancel (wedged target)" (omap id [ctxErr fctx])))
    (λ r, inr (PanicErr "latest manifest" r)).

(** The environment of one probe: the two openings (the second only for the
    fallback), the ledger's answer and the audit context. *)
Record ienv := MkI {
  i_arm1 : select_arm; i_open1 : attempt ((list mline * goerr) + err);
  i_arm2 : select_arm; i_open2 : attempt ((list mline * goerr) + err);
  i_fctx : ctxState; i_ctx : ctxState; i_ledger : iter;
}.

Definition maxSortedManifestIDs : Z := 1000000.

Definition inventorySortedDiff (name : string) (v : ienv) : option TargetVerdict :=
  match abandonableFetch (i_arm2 v) (i_fctx v) (i_open2 v) with
  | inr e => Some (classifyInventoryErr (i_ctx v) name e)
  | inl (lines, serr) =>
      match collectManifestIDs lines serr maxSortedManifestIDs with
      | inr e => Some (classifyInventoryErr (i_ctx v) name e)
      | inl ids =>
          r ← mergeInventory (Ledger.sort_ids ids, None) (i_ledger v);
          Some (mergeToVerdict (i_ctx v) name r.1 r.2)
      end
  end.

(** [inventoryProbe] of a sink that can enumerate its manifest. *)
Definition inventoryProbe (name : string) (v : ienv) : option TargetVerdict :=
  match abandonableFetch (i_arm1 v) (i_fctx v) (i_open1 v) with
  | inr e => Some (classifyInventoryErr (i_ctx v) name e)
  | inl (lines, serr) =>
      r ← mergeInventory (manifestIterator lines serr) (i_ledger v);
      if errors_Is r.2 errNonAscendingManifest && (extra r.1 =? 0)%Z
      then inventorySortedDiff name v
      else Some (mergeToVerdict (i_ctx v) name r.1 r.2)
  end.

(** ** The merge counts differences *)

Definition minus (m l : list string) : list string := List.filter (λ x, negb (bool_decide (x ∈ l))) m.

#[global] Arguments minus : simpl never.

Lemma minus_head_in x m l : x ∈ l → minus (x :: m) l = minus m l.
Proof. intros Hin. unfold minus; simpl. by rewrite bool_decide_eq_true_2. Qed.

Lemma minus_head_out x m l : x ∉ l → minus (x :: m) l = x :: minus m l.
Proof. intros Hin. unfold minus; simpl. by rewrite bool_decide_eq_false_2. Qed.

Lemma minus_skip m y l : y ∉ m → minus m (y :: l) = minus m l.
Proof.
  intros Hni. unfold minus. induction m as [|x m IH]; [done|]. rewrite not_elem_of_cons in Hni.
  destruct Hni as [Hne Hni]. cbn [List.filter].
  rewrite (bool_decide_ext (x ∈ y :: l) (x ∈ l)) by (rewrite elem_of_cons; naive_solver).
  by rewrite IH.
Qed.

Lemma ascending_head_out (x y : string) l : ascending (y :: l) → str_ltb x y = true → x ∉ y :: l.
Proof.
  intros [_ Hall]%ascending_cons Hxy [->|Hin]%elem_of_cons.
  - pose proof (klt_irrefl y) as Hi. simpl in Hi. congruence.
  - rewrite list.Forall_forall in Hall. specialize (Hall x Hin). pose proof (klt_asym x y Hxy) as Ha.
    simpl in Ha, Hall. congruence.
Qed.

Lemma ascending_tail_out (x : string) l : ascending (x :: l) → x ∉ l.
Proof.
  intros [_ Hall]%ascending_cons Hin. rewrite list.Forall_forall in Hall. specialize (Hall x Hin).
  pose proof (klt_irrefl x) as Hi. simpl in Hi, Hall. congruence.
Qed.

Lemma str_eq_of_not_lt (x y : string) : str_ltb x y = false → str_ltb y x = false → x = y.
Proof. intros H1 H2. destruct (Keyset.str_trichotomy x y) as [(?&_)|[(_&?&_)|(_&_&?)]]; congruence. Qed.

(** A pull that finds its stream ended either faults there or goes on. *)
Lemma pull_cases (m : list string) (me : goerr) (c : counts) (k : option (counts * goerr)) (P : option (counts * goerr) → Prop) :
  (m = [] → ∀ e, me = Some e → P (Some (c, me))) → ((m = [] → me = None) → P k) →
  P (match m, me with [], Some x => Some (c, Some x) | _, _ => k end).
Proof. intros H1 H2. destruct m, me as [e|]; try (apply H2; done). by apply (H1 eq_refl e). Qed.

(** Equal heads of two ascending lists leave both differences. *)
Lemma minus_same_head x m l : ascending (x :: m) → ascending (x :: l) → minus (x :: m) (x :: l) = minus m l.
Proof. intros Hm Hl. rewrite minus_head_in by by left. apply minus_skip. by apply ascending_tail_out. Qed.

(** The merge of two ascending streams, the ledger's without a fault: the
    extras are the manifest's ids the ledger lacks, whether or not the manifest
    ends in a fault, and a clean merge also counts the missing ones. *)
Lemma merge_spec fuel m l me c :
  ascending m → ascending l → length m + length l < fuel → (m = [] → me = None) →
  ∃ mi, merge fuel m l me None c =
    Some (MkCounts (extra c + Z.of_nat (length (minus m l))) mi (manifestSize c + Z.of_nat (length m)), me) ∧
    (me = None → mi = missing c + Z.of_nat (length (minus l m)))%Z.
Proof.
  revert m l c. induction fuel as [|fuel IH]; intros m l c Hm Hl Hf Hme; [lia|].
  destruct m as [|x m'], l as [|y l']; cbn [merge].
  - rewrite (Hme eq_refl). destruct c. simpl. eexists. rewrite !Z.add_0_r. split; [done|]. simpl. lia.
  - destruct (IH [] l' (MkCounts (extra c) (missing c + 1) (manifestSize c)) Hm) as (mi & Hr & Hmi);
      [by apply ascending_cons in Hl as [? _]|simpl in *; lia|done|].
    exists mi. rewrite Hr. split; [by destruct l'|]. intros Hn.
    rewrite (Hmi Hn), minus_head_out by apply not_elem_of_nil. cbn [length missing]. lia.
  - apply (pull_cases m' me _ _ (λ r, ∃ mi, r = _ ∧ _)).
    + intros -> e He. eexists. rewrite minus_head_out by apply not_elem_of_nil. simpl. by rewrite He.
    + intros Hme'. destruct (IH m' [] (MkCounts (extra c + 1) (missing c) (manifestSize c + 1))) as (mi & Hr & Hmi);
        [by apply ascending_cons in Hm as [? _]|done|simpl in *; lia|done|].
      exists mi. rewrite Hr, minus_head_out by apply not_elem_of_nil. simpl. split.
      * f_equal. f_equal. f_equal; lia.
      * intros Hn. by rewrite (Hmi Hn).
  - destruct (str_ltb x y) eqn:Exy; [|destruct (str_ltb y x) eqn:Eyx].
    + pose proof (ascending_head_out x y l' Hl Exy) as Hout.
      apply (pull_cases m' me _ _ (λ r, ∃ mi, r = _ ∧ _)).
      * intros -> e He. eexists. rewrite minus_head_out by done. simpl. by rewrite He.
      * intros Hme'. destruct (IH m' (y :: l') (MkCounts (extra c + 1) (missing c) (manifestSize c + 1))) as (mi & Hr & Hmi);
          [by apply ascending_cons in Hm as [? _]|done|simpl in *; lia|done|].
        exists mi. rewrite Hr, minus_head_out by done. cbn [length extra missing manifestSize]. split.
        -- f_equal. f_equal. f_equal; lia.
        -- intros Hn. rewrite (Hmi Hn), minus_skip by done. done.
    + pose proof (ascending_head_out y x m' Hm Eyx) as Hout.
      destruct (IH (x :: m') l' (MkCounts (extra c) (missing c + 1) (manifestSize c))) as (mi & Hr & Hmi);
        [done|by apply ascending_cons in Hl as [? _]|simpl in *; lia|done|].
      exists mi. assert (minus (x :: m') (y :: l') = minus (x :: m') l') as -> by by apply minus_skip.
      split; [by destruct l'|]. intros Hn. rewrite (Hmi Hn), minus_head_out by done. cbn [length missing]. lia.
    + pose proof (str_eq_of_not_lt x y Exy Eyx) as <-.
      rewrite !minus_same_head by done. apply (pull_cases m' me _ _ (λ r, ∃ mi, r = _ ∧ _)).
      * intros -> e He. eexists. simpl. rewrite He, Z.add_0_r. by split.
      * intros Hme'. destruct (IH m' l' (MkCounts (extra c) (missing c) (manifestSize c + 1))) as (mi & Hr & Hmi);
          [by apply ascending_cons in Hm as [? _]|by apply ascending_cons in Hl as [? _]|simpl in *; lia|done|].
        exists mi. split; [|intros Hn; by rewrite (Hmi Hn)].
        assert (∀ k, match l', (@None err) with [], Some x0 => Some (MkCounts (extra c) (missing c) (manifestSize c + 1), Some x0) | _, _ => k end = k) as ->
          by (intros k; by destruct l').
        rewrite Hr. cbn [length extra manifestSize]. f_equal. f_equal. f_equal; lia.
Qed.

(** ** The scanner on well-formed lines *)

Definition ids_of (lines : list mline) : list string :=
  omap (λ l, match l with MLine id => if bool_decide (id = "") then None else Some id | _ => None end) lines.

Definition parses (lines : list mline) : Prop := MBad ∉ lines.

Lemma scan_all lines : parses lines → ∀ prev, manifestScanner false prev lines None = (ids_of lines, None).
Proof.
  unfold parses. induction lines as [|[| |id] lines IH]; intros Hp prev; [done|..];
    rewrite not_elem_of_cons in Hp; destruct Hp as [Hne Hp]; [by apply IH|done|].
  cbn [manifestScanner]. unfold ids_of; simpl. case_bool_decide; simpl; [by apply IH|].
  by rewrite (IH Hp id).
Qed.

(** The strict scan yields the ids as far as they ascend; it ends cleanly, or
    with the non-ascending signal after at least one id. *)
Lemma scan_strict lines : parses lines → ∀ prev, ∃ pre suf,
  ids_of lines = pre ++ suf ∧
  (prev = "" ∧ ascending pre ∨ ascending (prev :: pre)) ∧
  ((suf = [] ∧ manifestScanner true prev lines None = (pre, None)) ∨
   (suf ≠ [] ∧ (prev = "" → pre ≠ []) ∧
    ∃ e, manifestScanner true prev lines None = (pre, Some e) ∧ Is e errNonAscendingManifest = true)).
Proof.
  unfold parses. induction lines as [|[| |id] lines IH]; intros Hp prev.
  - exists [], []. split_and!; [done| |by left].
    destruct (decide (prev = "")); [left; split; [done|apply ascending_nil]|right]. repeat constructor.
  - rewrite not_elem_of_cons in Hp. destruct Hp as [_ Hp]. apply (IH Hp prev).
  - rewrite not_elem_of_cons in Hp. by destruct Hp.
  - rewrite not_elem_of_cons in Hp. destruct Hp as [_ Hp]. cbn [manifestScanner].
    unfold ids_of; simpl. fold (ids_of lines). case_bool_decide as Hid; simpl; [by apply IH|].
    destruct (bool_decide (prev ≠ "") && negb (str_ltb prev id)) eqn:Eg.
    + to_prop. exists [], (id :: ids_of lines). split_and!; [done| |right; split_and!; [done|done|eauto]].
      right. constructor; constructor.
    + destruct (IH Hp id) as (pre & suf & Heq & Hasc & Hcase).
      assert (ascending (id :: pre)) as Hasc'.
      { destruct Hasc as [[-> _]|]; done. }
      exists (id :: pre), suf. split_and!; [simpl; f_equal; exact Heq| |].
      * destruct (decide (prev = "")) as [->|Hne]; [by left|right].
        rewrite bool_decide_eq_true_2 in Eg by done. simpl in Eg. to_prop.
        apply ascending_cons. split; [done|]. constructor; [done|].
        apply ascending_cons in Hasc' as [_ Hall]. eapply list.Forall_impl; [exact Hall|].
        intros z Hz. exact (klt_trans prev id z Eg Hz).
      * destruct Hcase as [[-> ->]|(Hs & _ & e & -> & He)]; [by left|right].
        split_and!; [done|done|eauto].
Qed.

(** The ledger iterator ([ledgerStoredPull]) over a stable ledger: the keyset
    pull yields the target's stored ids. *)
Definition ledgerStored (d : Ledger.db) (target : string) : iter :=
  (List.filter (λ id, str_ltb "" id) (Ledger.stored_ids d target), None).

Lemma ledgerStored_pull d target fuel : length (Ledger.stored_ids d target) < fuel →
  Keyset.KeysetLoop (λ id : string, id)
    (λ _ a n, Keyset.Ok (Ledger.StoredExternalIDsPage d target a n)) Keyset.KeysetPageSize fuel ""
    (λ acc id, (acc ++ [id], None)) [] = Some ((ledgerStored d target).1, None).
Proof.
  intros Hf. unfold Keyset.KeysetLoop.
  rewrite (Keyset.loop_spec (λ id : string, id) _ _ (Ledger.stored_ids d target)).
  - f_equal. rewrite (Keyset.for_each_map (λ id, id)), list_fmap_id. done.
  - done.
  - unfold Keyset.keyed_ascending. rewrite list_fmap_id. apply Ledger.stored_ids_ascending.
  - apply Keyset.KeysetPageSize_pos.
  - unfold Keyset.sweeping; simpl. lia.
  - pose proof (List.filter_length_le (λ id, str_ltb "" id) (Ledger.stored_ids d target)).
    unfold Keyset.remaining; simpl. unfold Keyset.above. simpl. lia.
Qed.

Lemma minus_prefix pre suf l : minus (pre ++ suf) l = [] → minus pre l = [].
Proof. unfold minus. rewrite List.filter_app. by intros [? _]%app_eq_nil. Qed.

Lemma minus_perm m m' l : m ≡ₚ m' → length (minus m l) = length (minus m' l).
Proof.
  unfold minus. induction 1 as [|x m m' _ IH|x y m|m1 m2 m3 _ IH1 _ IH2]; simpl; [done| | |congruence].
  - destruct (negb _); simpl; by rewrite IH.
  - destruct (negb (bool_decide (x ∈ l))), (negb (bool_decide (y ∈ l))); done.
Qed.

(** What the merge of an ascending manifest prefix against the ledger gives. *)
Lemma mergeInventory_spec pre me l : ascending pre → ascending l → (pre = [] → me = None) →
  ∃ mi, mergeInventory (pre, me) (l, None) =
    Some (MkCounts (Z.of_nat (length (minus pre l))) mi (Z.of_nat (length pre)), me) ∧
    (me = None → mi = Z.of_nat (length (minus l pre))).
Proof.
  intros Hp Hl Hme. unfold mergeInventory.
  destruct (merge_spec (S (length pre + length l)) pre l me zeroCounts Hp Hl) as (mi & Hr & Hmi); [lia|done|].
  exists mi. simpl in Hr, Hmi. split; [|done].
  destruct pre as [|x pre]; [rewrite (Hme eq_refl) in *; by destruct l|by destruct l].
Qed.

(** No orphan among ids that are not empty: the merge's count is zero exactly
    when the ledger records each of them stored. *)
Lemma minus_stored d name m : "" ∉ m →
  (length (minus m (ledgerStored d name).1) = 0 ↔ ∀ id, id ∈ m → Ledger.is_stored d id name = true).
Proof.
  intros Hm. assert (∀ id, id ≠ "" → id ∈ (ledgerStored d name).1 ↔ Ledger.is_stored d id name = true) as Hl.
  { intros id Hid. simpl. rewrite list_elem_of_In, List.filter_In, <- list_elem_of_In, Ledger.elem_of_stored_ids.
    split; [by intros [? _]|]. intros ?. split; [done|]. by apply Keyset.str_ltb_empty. }
  unfold minus. induction m as [|x m IH]; [split; [|done]; intros _ id Hid; by apply not_elem_of_nil in Hid|].
  rewrite not_elem_of_cons in Hm. destruct Hm as [Hx Hm]. specialize (IH Hm). cbn [List.filter].
  case_bool_decide as Hin; cbn [negb length]; rewrite (Hl x) in Hin by done; split.
  - intros Hz id [->|Hid]%elem_of_cons; [done|]. by apply IH.
  - intros Hall. apply IH. intros id Hid. apply Hall. by right.
  - done.
  - intros Hall. destruct Hin. apply Hall. by left.
Qed.

Lemma ids_of_nonempty lines : "" ∉ ids_of lines.
Proof. unfold ids_of. intros ([| |id] & _ & Hid)%list_elem_of_omap; try done. case_bool_decide; by simplify_eq. Qed.

(** The verdict of a complete diff, as the theorem states it. *)
Lemma status_of_orphans d name (ids : list string) (P : bool) :
  (P = true ↔ ∀ id, id ∈ ids → Ledger.is_stored d id name = true) →
  (if bool_decide (Exists (λ id, Ledger.is_stored d id name = false) ids) then StatusDrift else StatusVerified) =
    (if P then StatusVerified else StatusDrift).
Proof.
  intros HP. case_bool_decide as Hex.
  - apply list.Exists_exists in Hex as (id & Hid & Hns). destruct P; [|done]. rewrite (proj1 HP eq_refl id Hid) in Hns. done.
  - destruct P; [done|]. exfalso. assert (false = true); [|done]. apply HP. intros id Hid.
    destruct (Ledger.is_stored d id name) eqn:E; [done|]. exfalso. apply Hex, list.Exists_exists. eauto.
Qed.

(** ** Properties *)

(** The lock-step merge is exact. On two ascending id streams it ends and
    counts precisely the manifest ids the ledger lacks (extra) and the ledger
    ids the manifest lacks (missing), in one pass. *)
Theorem merge_exact m l : ascending m → ascending l →
  mergeInventory (m, None) (l, None) =
    Some (MkCounts (Z.of_nat (length (minus m l))) (Z.of_nat (length (minus l m))) (Z.of_nat (length m)), None).
Proof.
  intros Hm Hl. destruct (mergeInventory_spec m None l Hm Hl) as (mi & -> & Hmi); [done|]. by rewrite Hmi.
Qed.

Lemma merge_exact_witness :
  mergeInventory (["a"; "c"; "d"], None) (["b"; "c"], None) = Some (MkCounts 2 1 3, None).
Proof. apply (merge_exact ["a"; "c"; "d"] ["b"; "c"]); repeat constructor. Defined.

(** Orphan detection does not depend on the manifest's order. For any
    cleanly read manifest with distinct ids, ascending or not (an old-format
    or locale-collated one takes the sorted fallback), the verdict is Drift
    exactly when some declared object is not recorded stored on the target,
    and Verified otherwise. *)
Theorem inventory_exact name v d lines :
  i_arm1 v = ArmResult → i_arm2 v = ArmResult →
  i_open1 v = Returns (inl (lines, None)) → i_open2 v = Returns (inl (lines, None)) →
  i_ledger v = ledgerStored d name → parses lines → NoDup (ids_of lines) →
  (Z.of_nat (length (ids_of lines)) ≤ maxSortedManifestIDs)%Z →
  ∃ w, inventoryProbe name v = Some w ∧
    v_Status w = (if bool_decide (Exists (λ id, Ledger.is_stored d id name = false) (ids_of lines))
                  then StatusDrift else StatusVerified).
Proof.
  intros Ha1 Ha2 Ho1 Ho2 Hled Hparse Hnd Hmax.
  pose proof (minus_stored d name) as Horphan. pose proof (status_of_orphans d name (ids_of lines)) as Hstat.
  set (l := (ledgerStored d name).1) in *.
  assert (ascending l) as Hl by apply Ledger.ascending_filter, Ledger.stored_ids_ascending.
  pose proof (ids_of_nonempty lines) as Hnonempty.
  unfold inventoryProbe, abandonableFetch, RunAbandonable. rewrite Ha1, Ho1, Hled. simpl.
  change (ledgerStored d name) with (l, @None err).
  destruct (scan_strict lines Hparse "") as (pre & suf & Heq & Hasc & Hcase).
  assert (ascending pre) as Hpre.
  { destruct Hasc as [[_ ?]|[? _]%ascending_cons]; done. }
  unfold manifestIterator.
  destruct Hcase as [[-> ->]|(Hs & Hne & e & -> & He)].
  - rewrite app_nil_r in Heq. destruct (mergeInventory_spec pre None l Hpre Hl) as (mi & -> & _); [done|]. simpl.
    eexists; split; [done|]. simpl. rewrite (Hstat (length (minus pre l) =? 0)).
    + destruct (minus pre l); done.
    + rewrite Nat.eqb_eq, Heq. apply Horphan. by rewrite <- Heq.
  - destruct (mergeInventory_spec pre (Some e) l Hpre Hl) as (mi & -> & _); [by intros ->; destruct Hne|]. simpl.
    rewrite He. simpl. destruct (minus pre l) as [|x xs] eqn:Eminus; simpl.
    + unfold inventorySortedDiff, abandonableFetch, RunAbandonable, RunAbandonableClose, sent.
      rewrite Ha2, Ho2, Hled. cbn [fst]. unfold collectManifestIDs. rewrite (scan_all lines Hparse), (proj2 (Z.ltb_ge _ _)) by done.
      change (ledgerStored d name) with (l, @None err).
      destruct (mergeInventory_spec (Ledger.sort_ids (ids_of lines)) None l) as (mi' & -> & _);
        [by apply Ledger.sort_ids_ascending|done|done|]. cbn [mbind option_bind fst snd].
      eexists; split; [done|]. unfold mergeToVerdict; cbn [v_Status extra].
      rewrite (Hstat (length (minus (Ledger.sort_ids (ids_of lines)) l) =? 0)).
      * by destruct (length (minus (Ledger.sort_ids (ids_of lines)) l)).
      * rewrite Nat.eqb_eq, (minus_perm _ (ids_of lines)) by apply Ledger.sort_ids_Permutation. by apply Horphan.
    + eexists; split; [done|]. simpl. rewrite (Hstat false); [done|]. split; [done|]. intros Hall. exfalso.
      assert (length (minus pre l) = 0) as Hz.
      { apply Horphan; [intros Hz; apply Hnonempty; rewrite Heq; by apply elem_of_app; left|].
        intros id Hid. apply Hall. rewrite Heq. by apply elem_of_app; left. }
      by rewrite Eminus in Hz.
Qed.

Definition ex_db : Ledger.db :=
  Ledger.apply_records
    [(1%Z, MkMeta "aa" 7 true None None, [MkStatus "t1" StateStored 5]);
     (2%Z, MkMeta "bb" 7 true None None, [MkStatus "t1" StateStored 5])] Ledger.empty_db.
Definition ex_ienv (lines : list mline) : ienv :=
  MkI ArmResult (Returns (inl (lines, None))) ArmResult (Returns (inl (lines, None))) None None
    (ledgerStored ex_db "t1").

Lemma inventory_exact_witness :
  ∃ w, inventoryProbe "t1" (ex_ienv [MLine "bb"; MEmpty; MLine "aa"]) = Some w ∧
    v_Status w = StatusVerified.
Proof.
  destruct (inventory_exact "t1" (ex_ienv [MLine "bb"; MEmpty; MLine "aa"]) ex_db [MLine "bb"; MEmpty; MLine "aa"])
    as (w & Hw & Hs).
  - reflexivity.
  - reflexivity.
  - reflexivity.
  - reflexivity.
  - reflexivity.
  - unfold parses. rewrite !elem_of_cons, elem_of_nil. naive_solver.
  - simpl. repeat constructor; rewrite ?elem_of_cons, ?elem_of_nil; naive_solver.
  - unfold maxSortedManifestIDs. simpl. lia.
  - exists w. split; [exact Hw|]. rewrite Hs.
    rewrite bool_decide_eq_false_2; [done|]. intros (id & Hid & Hns)%list.Exists_exists. simpl in Hid.
    rewrite !elem_of_cons, elem_of_nil in Hid. destruct Hid as [->|[->|[]]]; vm_compute in Hns; done.
Defined.

(** A repeated id turns the fallback against a healthy target: a manifest
    that lists one recorded object twice is reported as drift, because the
    strict scan treats the repeat as non-ascending and the sorted merge then
    counts the second copy as an id the ledger lacks. *)
Theorem duplicate_manifest_id_reads_as_drift :
  ∃ w, inventoryProbe "t1" (ex_ienv [MLine "aa"; MLine "aa"; MLine "bb"]) = Some w ∧
    v_Status w = StatusDrift ∧ v_Extra w = 1%Z ∧
    ∀ id, id ∈ ids_of [MLine "aa"; MLine "aa"; MLine "bb"] → Ledger.is_stored ex_db id "t1" = true.
Proof.
  assert ((λ w, (v_Status w, v_Extra w)) <$> inventoryProbe "t1" (ex_ienv [MLine "aa"; MLine "aa"; MLine "bb"]) =
    Some (StatusDrift, 1%Z)) as H by (vm_compute; reflexivity).
  destruct (inventoryProbe "t1" _) as [w|]; [|done]. simpl in H. injection H as H1 H2.
  exists w. split_and!; [done..|]. intros id. simpl. rewrite !elem_of_cons, elem_of_nil.
  intros [->|[->|[->|[]]]]; vm_compute; reflexivity.
Qed.

End Inventory.
