(* ===== verification/StallReader.v ===== *)
(** * The manifest reader of the inventory audit

    [abandonableFetch], [openManifestReader] and [stallReader]
    ([src/internal/domain/inventory.go]) as a machine: the audit's goroutine,
    which fetches a manifest, reads it and closes it; the goroutine each of
    those calls runs the target's operation on; and the detached goroutine
    that frees what an abandoned call produced late ([RunAbandonableClose] of
    [backup.go], here with its interleavings). A target may answer at any
    time, after the caller has left, or never.

    Buffers are locations of one heap, so that a late read that still writes
    a slice is seen by everyone who holds it. The log lists what is done to
    the underlying [io.ReadCloser]; the abstract specification is the life
    cycle [rc_step] of such a reader. *)

From S2P Require Import Prelude GoRuntime.
From Stdlib Require Import ZArith Lia Strings.Byte.
From stdpp Require Import base gmap sets strings list numbers.

Module StallReader.

(** ** The life cycle of an [io.ReadCloser] *)

Inductive rcop := RcOpen | RcReadBegin | RcReadEnd | RcClose.

Inductive rcstate := Unopened | Opened | Reading | Closed.

(** One operation at a time, none before it is opened and none after the one
    close, which does not overlap a read. *)
Definition rc_step (st : rcstate) (o : rcop) : option rcstate :=
  match st, o with
  | Unopened, RcOpen => Some Opened
  | Opened, RcReadBegin => Some Reading
  | Reading, RcReadEnd => Some Opened
  | Opened, RcClose => Some Closed
  | _, _ => None
  end.

Definition rc_run (log : list rcop) : option rcstate :=
  foldl (λ st o, st ≫= λ x, rc_step x o) (Some Unopened) log.

(** ** The state *)

Abbreviation loc := nat (only parsing).
Abbreviation bytes := (list Byte.byte).

(** [manifestFetch]: a reader, or an error. *)
Inductive manifestFetch := FReader | FErr (e : err).

Record readResult := MkRead { n : nat; rerr : goerr }.

(** The goroutine of one [RunAbandonableClose] call: not there (not started,
    or its result was received), inside the operation, or done with its result
    in the channel of capacity one. *)
Inductive gor (T : Type) := NoG | Running | InChan (t : T).
Arguments NoG {T}.
Arguments Running {T}.
Arguments InChan {T} t.

(** Where the audit's goroutine is: in the select of the fetch, of a read into
    its buffer [p] or of the close; between calls; or done, with or without a
    reader. *)
Inductive client := InFetch | NoReader (e : err) | Idle | InRead (p : loc) | InClose | Returned.

(** [stallReader] ([own], [abandoned], [ctx]) with the memory around it.
    [priv] are the buffers the reader made, [rbuf] and [rlen] the slice the
    last read goroutine was given, [ret] what the last call returned.
    [produced] lists the data of each completed read of the target, [got] that
    of each read as its caller finds it in its own buffer. *)
Record state := MkS {
  heap : gmap loc bytes; priv : gset loc;
  own : option loc; abandoned : bool; ctx : ctxState;
  pc : client; ret : nat * goerr;
  fetchG : gor manifestFetch;
  readG : gor readResult; rbuf : option loc; rlen : nat;
  closeG : gor goerr;
  log : list rcop; produced : list bytes; got : list bytes; crashed : bool;
}.

Definition set_mem (h : gmap loc bytes) (s : state) : state :=
  MkS h (priv s) (own s) (abandoned s) (ctx s) (pc s) (ret s) (fetchG s) (readG s) (rbuf s) (rlen s)
    (closeG s) (log s) (produced s) (got s) (crashed s).
Definition set_own (o : option loc) (pr : gset loc) (s : state) : state :=
  MkS (heap s) pr o (abandoned s) (ctx s) (pc s) (ret s) (fetchG s) (readG s) (rbuf s) (rlen s)
    (closeG s) (log s) (produced s) (got s) (crashed s).
Definition set_abandoned (s : state) : state :=
  MkS (heap s) (priv s) (own s) true (ctx s) (pc s) (ret s) (fetchG s) (readG s) (rbuf s) (rlen s)
    (closeG s) (log s) (produced s) (got s) (crashed s).
Definition set_ctx (c : ctx_err) (s : state) : state :=
  MkS (heap s) (priv s) (own s) (abandoned s) (Some c) (pc s) (ret s) (fetchG s) (readG s) (rbuf s) (rlen s)
    (closeG s) (log s) (produced s) (got s) (crashed s).
Definition set_pc (c : client) (s : state) : state :=
  MkS (heap s) (priv s) (own s) (abandoned s) (ctx s) c (ret s) (fetchG s) (readG s) (rbuf s) (rlen s)
    (closeG s) (log s) (produced s) (got s) (crashed s).
Definition returns (m : nat) (e : goerr) (c : client) (s : state) : state :=
  MkS (heap s) (priv s) (own s) (abandoned s) (ctx s) c (m, e) (fetchG s) (readG s) (rbuf s) (rlen s)
    (closeG s) (log s) (produced s) (got s) (crashed s).
Definition set_fetchG (g : gor manifestFetch) (s : state) : state :=
  MkS (heap s) (priv s) (own s) (abandoned s) (ctx s) (pc s) (ret s) g (readG s) (rbuf s) (rlen s)
    (closeG s) (log s) (produced s) (got s) (crashed s).
Definition set_readG (g : gor readResult) (b : option loc) (l : nat) (s : state) : state :=
  MkS (heap s) (priv s) (own s) (abandoned s) (ctx s) (pc s) (ret s) (fetchG s) g b l
    (closeG s) (log s) (produced s) (got s) (crashed s).
Definition set_closeG (g : gor goerr) (s : state) : state :=
  MkS (heap s) (priv s) (own s) (abandoned s) (ctx s) (pc s) (ret s) (fetchG s) (readG s) (rbuf s) (rlen s)
    g (log s) (produced s) (got s) (crashed s).
Definition logs (o : list rcop) (s : state) : state :=
  MkS (heap s) (priv s) (own s) (abandoned s) (ctx s) (pc s) (ret s) (fetchG s) (readG s) (rbuf s) (rlen s)
    (closeG s) (log s ++ o) (produced s) (got s) (crashed s).
Definition produces (d : list bytes) (s : state) : state :=
  MkS (heap s) (priv s) (own s) (abandoned s) (ctx s) (pc s) (ret s) (fetchG s) (readG s) (rbuf s) (rlen s)
    (closeG s) (log s) (produced s ++ d) (got s) (crashed s).
Definition gets (d : list bytes) (s : state) : state :=
  MkS (heap s) (priv s) (own s) (abandoned s) (ctx s) (pc s) (ret s) (fetchG s) (readG s) (rbuf s) (rlen s)
    (closeG s) (log s) (produced s) (got s ++ d) (crashed s).
Definition set_crashed (b : bool) (s : state) : state :=
  MkS (heap s) (priv s) (own s) (abandoned s) (ctx s) (pc s) (ret s) (fetchG s) (readG s) (rbuf s) (rlen s)
    (closeG s) (log s) (produced s) (got s) b.

(** What a slice variable points to; the nil slice is empty. *)
Definition deref (h : gmap loc bytes) (b : option loc) : bytes := default [] (b ≫= λ l, h !! l).

(** The built-in [copy]. *)
Definition copy (dst src : bytes) : bytes := take (length dst) src ++ drop (length src) dst.

(** [context.WithTimeout]: the child ends with its own deadline, or with the
    parent's error. *)
Definition child_done (parent : ctxState) (c : ctx_err) : bool :=
  bool_decide (c = CtxDeadline) || bool_decide (parent = Some c).

(** ** [abandonableFetch] and [openManifestReader] *)

(** The fetch goroutine's operation ends, with a reader, an error or a panic. *)
Definition fetch_return (r : attempt manifestFetch) (s : state) : option state :=
  match fetchG s with
  | Running =>
      let res := sent r (λ x, FErr (PanicErr "latest manifest" x)) in
      Some (set_fetchG (InChan res) (logs (match res with FReader => [RcOpen] | FErr _ => [] end) s))
  | _ => None
  end.

(** The caller receives the result: a [stallReader], or the error it classifies. *)
Definition fetch_take (s : state) : option state :=
  match pc s, fetchG s with
  | InFetch, InChan FReader => Some (set_fetchG NoG (set_pc Idle s))
  | InFetch, InChan (FErr e) => Some (set_fetchG NoG (set_pc (NoReader e) s))
  | _, _ => None
  end.

Definition fetch_abandon (c : ctx_err) (s : state) : option state :=
  match pc s with
  | InFetch =>
      if child_done (ctx s) c
      then Some (set_pc (NoReader (Wrap "manifest fetch deadline/cancel (wedged target)" [ctx_error c])) s)
      else None
  | _ => None
  end.

(** [rc.Close] on the detached goroutine of an abandoned call: its error is
    dropped, a panic is not recovered there. *)
Definition late_close (r : attempt goerr) (s : state) : state :=
  set_crashed (match r with Returns _ => false | Panics _ => true end) (logs [RcClose] s).

(** The [onLateResult] of the fetch. *)
Definition fetch_late (r : attempt goerr) (s : state) : option state :=
  match pc s, fetchG s with
  | NoReader _, InChan FReader => Some (late_close r (set_fetchG NoG s))
  | NoReader _, InChan (FErr _) => Some (set_fetchG NoG s)
  | _, _ => None
  end.

(** ** [Read] *)

(** [s.own = make([]byte, len(p))]: a location nobody else holds. *)
Definition make_own (len : nat) (s : state) : state :=
  let l := fresh (dom (heap s)) in
  set_own (Some l) ({[ l ]} ∪ priv s) (set_mem (<[l := replicate len Byte.x00]> (heap s)) s).

(** The read goroutine starts on [s.own[:len(p)]]; the caller waits. *)
Definition spawn_read (p : loc) (len : nat) (s : state) : state :=
  logs [RcReadBegin] (set_readG Running (own s) len (set_pc (InRead p) s)).

(** Up to the select: the guards, the buffer (a new one when the old is too
    short), the read goroutine. *)
Definition Read (p : loc) (s : state) : option state :=
  match pc s, heap s !! p with
  | Idle, Some pb =>
      if bool_decide (p ∈ priv s) then None
      else match ctx s with
      | Some c => Some (returns 0 (Some (ctx_error c)) Idle s)
      | None =>
          if abandoned s then Some (returns 0 (Some (Sent DeadlineExceeded)) Idle s)
          else
            if length (deref (heap s) (own s)) <? length pb
            then Some (spawn_read p (length pb) (make_own (length pb) s))
            else Some (spawn_read p (length pb) s)
      end
  | _, _ => None
  end.

(** The target's reader writes the slice it was given, any number of times
    while it runs ([io.Reader] may use all of it as scratch space). *)
Definition scratch (bs : bytes) (s : state) : option state :=
  match readG s, rbuf s with
  | Running, Some l =>
      if bool_decide (length bs = rlen s)
      then Some (set_mem (<[l := copy (deref (heap s) (Some l)) bs]> (heap s)) s) else None
  | _, _ => None
  end.

Definition read_result (r : attempt (nat * goerr)) : readResult :=
  match r with
  | Returns (m, e) => MkRead m e
  | Panics x => MkRead 0 (Some (PanicErr "manifest read" x))
  end.

(** It returns how much of it is data, with an error or without, or panics. *)
Definition read_return (r : attempt (nat * goerr)) (s : state) : option state :=
  match readG s with
  | Running =>
      let res := read_result r in
      if n res <=? rlen s
      then Some (produces [take (n res) (deref (heap s) (rbuf s))]
                   (logs [RcReadEnd] (set_readG (InChan res) (rbuf s) (rlen s) s)))
      else None
  | _ => None
  end.

(** The caller receives it and copies the data into its own buffer. *)
Definition read_take (s : state) : option state :=
  match pc s, readG s with
  | InRead p, InChan res =>
      let src := take (n res) (deref (heap s) (rbuf s)) in
      let dst := copy (deref (heap s) (Some p)) src in
      let m := Nat.min (length dst) (length src) in
      Some (gets [take m dst]
             (returns m (rerr res) Idle (set_readG NoG (rbuf s) (rlen s) (set_mem (<[p := dst]> (heap s)) s))))
  | _, _ => None
  end.

(** The caller leaves at the deadline of this read, or with its context. *)
Definition read_abandon (c : ctx_err) (s : state) : option state :=
  match pc s with
  | InRead _ =>
      if child_done (ctx s) c then Some (set_abandoned (returns 0 (Some (ctx_error c)) Idle s)) else None
  | _ => None
  end.

(** The [onLateResult] of the read. *)
Definition read_late (r : attempt goerr) (s : state) : option state :=
  match abandoned s, readG s with
  | true, InChan _ => Some (late_close r (set_readG NoG (rbuf s) (rlen s) s))
  | _, _ => None
  end.

(** ** [Close] *)

Definition Close (s : state) : option state :=
  match pc s with
  | Idle =>
      if abandoned s then Some (returns 0 None Returned s)
      else Some (set_closeG Running (set_pc InClose s))
  | _ => None
  end.

Definition close_return (r : attempt goerr) (s : state) : option state :=
  match closeG s with
  | Running => Some (set_closeG (InChan (sent r (λ x, Some (PanicErr "manifest close" x)))) (logs [RcClose] s))
  | _ => None
  end.

Definition close_take (s : state) : option state :=
  match pc s, closeG s with
  | InClose, InChan e => Some (set_closeG NoG (returns 0 e Returned s))
  | _, _ => None
  end.

Definition close_abandon (c : ctx_err) (s : state) : option state :=
  match pc s with
  | InClose => if child_done (ctx s) c then Some (returns 0 (Some (ctx_error c)) Returned s) else None
  | _ => None
  end.

(** ** The machine *)

(** What can happen next. The program around the reader makes buffers and
    stores into them, except into one it has lent to a running [Read]. *)
Inductive event :=
  | EvCancel (c : ctx_err)
  | EvMake (p : loc) (b : bytes) | EvStore (p : loc) (b : bytes)
  | EvFetchReturn (r : attempt manifestFetch) | EvFetchTake | EvFetchAbandon (c : ctx_err)
  | EvFetchLate (r : attempt goerr)
  | EvRead (p : loc) | EvScratch (bs : bytes) | EvReadReturn (r : attempt (nat * goerr))
  | EvReadTake | EvReadAbandon (c : ctx_err) | EvReadLate (r : attempt goerr)
  | EvClose | EvCloseReturn (r : attempt goerr) | EvCloseTake | EvCloseAbandon (c : ctx_err).

Definition lent (p : loc) (s : state) : bool :=
  match pc s with InRead q => bool_decide (p = q) | _ => false end.

Definition make (p : loc) (b : bytes) (s : state) : option state :=
  if bool_decide (p ∈ dom (heap s)) then None else Some (set_mem (<[p := b]> (heap s)) s).

Definition store (p : loc) (b : bytes) (s : state) : option state :=
  if bool_decide (p ∈ dom (heap s)) && negb (bool_decide (p ∈ priv s)) && negb (lent p s)
  then Some (set_mem (<[p := copy (deref (heap s) (Some p)) b]> (heap s)) s) else None.

Definition cancel (c : ctx_err) (s : state) : option state :=
  match ctx s with None => Some (set_ctx c s) | Some _ => None end.

Definition act (e : event) : state → option state :=
  match e with
  | EvCancel c => cancel c
  | EvMake p b => make p b
  | EvStore p b => store p b
  | EvFetchReturn r => fetch_return r
  | EvFetchTake => fetch_take
  | EvFetchAbandon c => fetch_abandon c
  | EvFetchLate r => fetch_late r
  | EvRead p => Read p
  | EvScratch bs => scratch bs
  | EvReadReturn r => read_return r
  | EvReadTake => read_take
  | EvReadAbandon c => read_abandon c
  | EvReadLate r => read_late r
  | EvClose => Close
  | EvCloseReturn r => close_return r
  | EvCloseTake => close_take
  | EvCloseAbandon c => close_abandon c
  end.

(** An unrecovered panic ends the process: nothing happens after it. *)
Definition step (s : state) (e : event) : option state := if crashed s then None else act e s.

(** The audit of one target as it enters [openManifestReader]. *)
Definition init : state :=
  MkS ∅ ∅ None false None InFetch (0, None) Running NoG None 0 NoG [] [] [] false.

Definition run (evs : list event) : option state :=
  foldl (λ s e, s ≫= λ x, step x e) (Some init) evs.

Lemma run_snoc evs e : run (evs ++ [e]) = run evs ≫= λ s, step s e.
Proof. unfold run. by rewrite foldl_app. Qed.

(** Induction on the run: what holds at the start and is kept by every step
    holds in every state that is reached. *)
Lemma run_ind (P : state → Prop) : P init →
  (∀ s e s', P s → crashed s = false → act e s = Some s' → P s') →
  ∀ evs s, run evs = Some s → P s.
Proof.
  intros H0 Hs evs. induction evs as [|e evs IH] using rev_ind; intros s.
  { intros [= <-]. done. }
  rewrite run_snoc. destruct (run evs) as [x|]; cbn [mbind option_bind]; [|done].
  unfold step. destruct (crashed x) eqn:Hc; [done|]. eauto.
Qed.

(** ** The reader's life cycle *)

Lemma rc_run_app l l' st : rc_run l = Some st →
  rc_run (l ++ l') = foldl (λ x o, x ≫= λ y, rc_step y o) (Some st) l'.
Proof. intros H. unfold rc_run in *. by rewrite foldl_app, H. Qed.

(** Which callers can coexist with a fetch, a read and a close that are not
    settled yet. *)
Definition fetch_side (c : client) : bool :=
  match c with InFetch | NoReader _ => true | _ => false end.

Definition read_side (c : client) (ab : bool) : bool :=
  match c, ab with InRead _, false | Idle, true | Returned, true => true | _, _ => false end.

Definition close_side (c : client) : bool :=
  match c with InClose | Returned => true | _ => false end.

(** Where the reader is, by where the goroutines are. *)
Inductive phase : client → bool → gor manifestFetch → gor readResult → gor goerr → rcstate → Prop :=
  | Ph_fetching c : fetch_side c = true → phase c false Running NoG NoG Unopened
  | Ph_reader c : fetch_side c = true → phase c false (InChan FReader) NoG NoG Opened
  | Ph_failed c e : fetch_side c = true → phase c false (InChan (FErr e)) NoG NoG Unopened
  | Ph_none e : phase (NoReader e) false NoG NoG NoG Unopened
  | Ph_freed e : phase (NoReader e) false NoG NoG NoG Closed
  | Ph_idle : phase Idle false NoG NoG NoG Opened
  | Ph_reading c ab : read_side c ab = true → phase c ab NoG Running NoG Reading
  | Ph_read c ab r : read_side c ab = true → phase c ab NoG (InChan r) NoG Opened
  | Ph_late c : read_side c true = true → phase c true NoG NoG NoG Closed
  | Ph_closing c : close_side c = true → phase c false NoG NoG Running Opened
  | Ph_closed c e : close_side c = true → phase c false NoG NoG (InChan e) Closed
  | Ph_done : phase Returned false NoG NoG NoG Closed.

#[local] Hint Constructors phase : phase.

Definition cycle (s : state) : Prop :=
  ∃ st, rc_run (log s) = Some st ∧ phase (pc s) (abandoned s) (fetchG s) (readG s) (closeG s) st.

(** Opens the transition [H : act e s = Some s'] of a state in constructor
    form down to the branches that step. *)
Ltac open_act H :=
  cbv beta iota zeta delta [act cancel make store fetch_return fetch_take fetch_abandon fetch_late Read make_own
    spawn_read scratch read_return read_take read_abandon read_late Close close_return close_take close_abandon
    late_close set_mem set_own set_abandoned set_ctx set_pc returns set_fetchG set_readG set_closeG logs
    produces gets set_crashed heap priv own abandoned ctx pc ret fetchG readG rbuf rlen closeG log produced got
    crashed] in H;
  repeat case_match; simplify_eq; simpl in *.

Lemma act_cycle s e s' : cycle s → act e s = Some s' → cycle s'.
Proof.
  destruct s as [h pr o ab cx c rt fg rg rb rl cg l pd gt cr].
  intros (st & Hl & Hp) Ha; simpl in *.
  destruct e, ab; open_act Ha; inversion Hp; subst; simplify_eq/=; try done.
  all: try destruct (sent _ _).
  all: eexists; cbn [log pc abandoned fetchG readG closeG];
    (split; [first [exact Hl|rewrite (rc_run_app _ _ _ Hl); reflexivity]|eauto with phase]).
Qed.

Lemma run_cycle evs s : run evs = Some s → cycle s.
Proof.
  apply run_ind; [|intros; by eapply act_cycle].
  exists Unopened. split; [done|]. by constructor.
Qed.

(** ** The data *)

Lemma copy_length dst src : length (copy dst src) = length dst.
Proof. unfold copy. rewrite length_app, length_take, length_drop. lia. Qed.

Lemma take_copy dst src : length src ≤ length dst → take (length src) (copy dst src) = src.
Proof.
  intros Hle. unfold copy. rewrite (take_ge src) by done. by rewrite take_app_length.
Qed.

Lemma deref_insert_ne h l b o : o ≠ Some l → deref (<[l := b]> h) o = deref h o.
Proof. destruct o as [k|]; [|done]. intros Hne. unfold deref. simpl. rewrite lookup_insert_ne; congruence. Qed.

Lemma deref_insert_eq h l b : deref (<[l := b]> h) (Some l) = b.
Proof. unfold deref. simpl. by rewrite lookup_insert_eq. Qed.

(** The memory: the reader's buffers are its own, the read goroutine holds the
    current one, long enough, and the caller's buffer is none of them. *)
Record separate (s : state) : Prop := MkSep {
  sep_dom : priv s ⊆ dom (heap s);
  sep_own l : own s = Some l → l ∈ priv s;
  sep_buf : readG s ≠ NoG → rbuf s = own s ∧ rlen s ≤ length (deref (heap s) (own s));
  sep_caller p : pc s = InRead p →
    p ∈ dom (heap s) ∧ p ∉ priv s ∧ length (deref (heap s) (Some p)) = rlen s;
}.

(** The data the target has produced and no caller has received. *)
Definition in_order (s : state) : Prop :=
  ∃ rest, produced s = got s ++ rest ∧
    match readG s with
    | InChan r => n r ≤ rlen s ∧ rest = [take (n r) (deref (heap s) (rbuf s))]
    | Running => rest = []
    | NoG => if abandoned s then length rest ≤ 1 else rest = []
    end.

(** A step that changes one location outside the reader's buffers and not the
    one lent to it, or none, keeps both. *)
Lemma separate_poke s l b : separate s → l ∉ priv s → lent l s = false →
  separate (set_mem (<[l := b]> (heap s)) s).
Proof.
  intros [Hd Ho Hb Hc] Hl Hn. split; simpl.
  - set_solver.
  - done.
  - intros Hg. rewrite deref_insert_ne; [auto|]. intros Heq. by apply Hl, Ho.
  - intros p Hp. destruct (Hc p Hp) as (Hdp & Hpp & Hlen). unfold lent in Hn. rewrite Hp in Hn.
    rewrite deref_insert_ne; [set_solver|]. intros [= ->]. by rewrite bool_decide_eq_true_2 in Hn.
Qed.

Lemma in_order_poke s l b : separate s → in_order s → l ∉ priv s →
  in_order (set_mem (<[l := b]> (heap s)) s).
Proof.
  intros [Hd Ho Hb Hc] (rest & Hp & Hr) Hl. exists rest. split; [done|]. simpl.
  destruct (readG s) eqn:Hg; [done|done|]. destruct Hr as [Hle ->]. split; [done|].
  destruct Hb as [Heq _]; [done|]. rewrite deref_insert_ne; [done|].
  rewrite Heq. intros Ho'. by apply Hl, Ho.
Qed.

Definition data (s : state) : Prop := separate s ∧ in_order s.

Lemma lent_dom s l : separate s → l ∉ dom (heap s) → lent l s = false.
Proof.
  intros [_ _ _ Hc] Hl. unfold lent. destruct (pc s) eqn:Hp; try done.
  apply bool_decide_eq_false_2. intros ->. by destruct (Hc p eq_refl).
Qed.

Lemma data_poke s l b : data s → l ∉ priv s → lent l s = false → data (set_mem (<[l := b]> (heap s)) s).
Proof. intros [Hs Ho] ??. split; [by apply separate_poke|by apply in_order_poke]. Qed.

Lemma make_data s l b s' : data s → make l b s = Some s' → data s'.
Proof.
  intros Hd. unfold make. case_bool_decide as Hl; [done|]. intros [= <-].
  destruct Hd as [Hs Ho]. apply data_poke; [done| |by apply lent_dom].
  intros Hin. apply Hl. by apply (sep_dom s Hs).
Qed.

Lemma store_data s l b s' : data s → store l b s = Some s' → data s'.
Proof.
  intros Hd. unfold store. do 2 (case_bool_decide; [|done] || (case_bool_decide; [done|])).
  simpl. destruct (lent l s) eqn:Hl; [done|]. intros [= <-]. by apply data_poke.
Qed.

(** The buffer [Read] makes is new, so it is neither lent nor in flight. *)
Lemma make_own_data len s : data s → readG s = NoG → pc s = Idle → data (make_own len s).
Proof.
  intros [[Hd Ho Hb Hc] (rest & Hp & Hr)] Hg Hpc. split.
  - split; simpl; [set_solver|set_solver| |]; rewrite ?Hg, ?Hpc; done.
  - exists rest. simpl. rewrite Hg in *. done.
Qed.

Lemma spawn_data p len s : data s → readG s = NoG → abandoned s = false → p ∈ dom (heap s) → p ∉ priv s →
  length (deref (heap s) (Some p)) = len → len ≤ length (deref (heap s) (own s)) →
  data (spawn_read p len s).
Proof.
  intros [[Hd Ho Hb Hc] (rest & Hp & Hr)] Hg Ha Hpd Hpp Hlen Hown. rewrite Hg, Ha in Hr. split.
  - split; simpl; try done. intros q [= <-]. done.
  - exists rest. done.
Qed.

Lemma Read_data p s s' : cycle s → data s → Read p s = Some s' → data s'.
Proof.
  intros (st & _ & Hph) Hd. unfold Read.
  destruct (pc s) eqn:Hpc; try done. destruct (heap s !! p) as [pb|] eqn:Hp; [|done].
  case_bool_decide as Hpp; [done|]. destruct (ctx s); [intros [= <-]; by destruct Hd as [[] ?]|].
  destruct (abandoned s) eqn:Ha; [intros [= <-]; by destruct Hd as [[] ?]|].
  assert (Hg : readG s = NoG) by by inversion Hph.
  assert (Hdom : p ∈ dom (heap s)) by by apply elem_of_dom.
  assert (Hlen : length (deref (heap s) (Some p)) = length pb) by by unfold deref; simpl; rewrite Hp.
  destruct (_ <? _) eqn:Hlt; intros [= <-].
  - assert (Hf : p ≠ fresh (dom (heap s))) by (intros Heq; apply (is_fresh (dom (heap s))); by rewrite <- Heq).
    apply spawn_data; try done; [by apply make_own_data|set_solver|simpl; set_solver| |].
    + simpl. rewrite deref_insert_ne by congruence. done.
    + simpl. by rewrite deref_insert_eq, length_replicate.
  - apply Nat.ltb_ge in Hlt. by apply spawn_data.
Qed.

Lemma scratch_data bs s s' : data s → scratch bs s = Some s' → data s'.
Proof.
  intros [[Hd Ho Hb Hc] (rest & Hp & Hr)]. unfold scratch.
  destruct (readG s) eqn:Hg; try done. destruct (rbuf s) as [l|] eqn:Hl; [|done].
  case_bool_decide; [|done]. intros [= <-]. destruct Hb as [Hbo Hlen]; [done|].
  assert (Hpriv : l ∈ priv s) by by apply Ho.
  split; [split; simpl|exists rest; simpl; by rewrite Hg]; [set_solver|done| |].
  - intros _. rewrite <- Hbo, Hl, deref_insert_eq, copy_length. by rewrite <- Hbo in Hlen.
  - intros p Hpc. destruct (Hc p Hpc) as (? & ? & ?). rewrite deref_insert_ne by congruence. set_solver.
Qed.

Lemma read_return_data r s s' : data s → read_return r s = Some s' → data s'.
Proof.
  intros [[Hd Ho Hb Hc] (rest & Hp & Hr)]. unfold read_return.
  destruct (readG s) eqn:Hg; try done. destruct (_ <=? _) eqn:Hle; [|done]. intros [= <-].
  apply Nat.leb_le in Hle. subst rest. rewrite app_nil_r in Hp. split.
  - split; try done. simpl. intros _. by apply Hb.
  - eexists. simpl. by rewrite Hp.
Qed.

Lemma read_take_data s s' : cycle s → data s → read_take s = Some s' → data s'.
Proof.
  intros (st & _ & Hph) [[Hd Ho Hb Hc] (rest & Hp & Hr)]. unfold read_take.
  destruct (pc s) eqn:Hpc; try done. destruct (readG s) as [| |res] eqn:Hg; try done. intros [= <-].
  destruct (Hc p eq_refl) as (Hdp & Hpp & Hlen), Hr as [Hle ->], Hb as [Hbo Hbl]; [done|].
  assert (Ha : abandoned s = false) by (inversion Hph; simplify_eq/=; by destruct (abandoned s)).
  split; [split; simpl; [set_solver|done|done|done]|].
  exists []. simpl. rewrite Ha. split; [|done]. rewrite app_nil_r, Hp. do 2 f_equal.
  rewrite copy_length, Nat.min_r by (rewrite length_take; lia).
  by rewrite take_copy by (rewrite length_take; lia).
Qed.

(** The other steps leave the memory and what was received alone. *)
Lemma act_data e s s' : cycle s → data s → act e s = Some s' → data s'.
Proof.
  intros Hcy Hd Ha. destruct e; simpl in Ha;
    eauto using make_data, store_data, Read_data, scratch_data, read_return_data, read_take_data.
  all: destruct Hcy as (st & _ & Hph), Hd as [[Hd Ho Hb Hc] (rest & Hp & Hr)].
  all: destruct s as [h pr o ab cx k rt fg rg rb rl cg l pd gt cr]; simpl in *.
  all: destruct ab; open_act Ha; inversion Hph; simplify_eq/=; try done.
  all: split; [by split|eexists; split; [first [exact Hp|reflexivity]|]; simpl; try done; try lia].
  all: by destruct Hr as [_ ->].
Qed.

Lemma run_data evs s : run evs = Some s → cycle s ∧ data s.
Proof.
  apply (run_ind (λ s, cycle s ∧ data s)).
  - split; [by apply (run_cycle [])|]. split; [by split|]. by exists [].
  - intros x e s' [Hc Hd] _ Ha. eauto using act_cycle, act_data.
Qed.

Lemma insert_changes (h : gmap loc bytes) l b p : <[l := b]> h !! p ≠ h !! p → l = p.
Proof. destruct (decide (l = p)); [done|]. by rewrite lookup_insert_ne. Qed.

(** Who can change a location that is not one of the reader's buffers. *)
Lemma act_writes e s s' p : data s → act e s = Some s' → p ∉ priv s' → heap s' !! p ≠ heap s !! p →
  (e = EvReadTake ∧ pc s = InRead p) ∨ (∃ b, e = EvMake p b ∨ e = EvStore p b).
Proof.
  intros [[Hd Ho Hb Hc] _] Ha Hp Hne.
  destruct s as [h pr o ab cx k rt fg rg rb rl cg l pd gt cr]; simpl in *.
  destruct e; open_act Ha; try done.
  all: apply insert_changes in Hne; subst; eauto; exfalso.
  { set_solver. }
  destruct Hb as [<- _]; [done|]. by apply Hp, Ho.
Qed.

(** ** The theorems *)

(** Nothing is under way any more: the audit of the target has returned and
    every goroutine it started has ended. *)
Definition quiescent (s : state) : bool :=
  match pc s, fetchG s, readG s, closeG s with
  | (NoReader _ | Returned), NoG, NoG, (NoG | InChan _) => true
  | _, _, _, _ => false
  end.

Definition waiting (s : state) : bool :=
  match pc s with InFetch | InRead _ | InClose => true | _ => false end.

(** The caller's own way out of each of the three selects. *)
Definition leave (s : state) : event :=
  match pc s with
  | InFetch => EvFetchAbandon CtxDeadline
  | InRead _ => EvReadAbandon CtxDeadline
  | _ => EvCloseAbandon CtxDeadline
  end.

(** C22: The manifest's reader is used by one goroutine at a time and freed
    exactly once, whatever is abandoned and whatever answers late: in every
    interleaving the operations on it follow the life cycle (no read after or
    during the close, no second close); once everything under way has ended a
    reader that was opened is closed; and a caller that waits, on the fetch, a
    read or the close, can always leave at its deadline, without the target. *)
Theorem manifest_reader_freed_once evs s : run evs = Some s →
  rc_run (log s) ≠ None ∧
  (quiescent s = true → rc_run (log s) = Some Unopened ∨ rc_run (log s) = Some Closed) ∧
  (waiting s = true → crashed s = false → ∃ s', step s (leave s) = Some s' ∧ waiting s' = false).
Proof.
  intros Hr. destruct (run_cycle _ _ Hr) as (st & Hl & Hp). rewrite Hl. split; [done|]. split.
  - unfold quiescent. intros Hq. inversion Hp as [| | | | | | | | |? Hs Hx|? ? Hs Hx|]; subst; try done; auto.
    all: repeat case_match; simplify_eq/=; try done; auto.
  - unfold waiting, leave, step. intros Hw ->.
    destruct (pc s) eqn:Hpc; try done; simpl; unfold fetch_abandon, read_abandon, close_abandon;
      rewrite Hpc; by eexists.
Qed.

(** A read that is abandoned, a late answer, a close that finds the reader
    taken care of. *)
Definition ex_abandoned : list event :=
  [EvMake 7 [Byte.x01; Byte.x02]; EvFetchReturn (Returns FReader); EvFetchTake; EvRead 7;
   EvReadAbandon CtxDeadline; EvClose; EvScratch [Byte.x09; Byte.x09]; EvReadReturn (Returns (2, None));
   EvReadLate (Returns None)].

Lemma manifest_reader_freed_once_witness :
  ∃ s, run ex_abandoned = Some s ∧ quiescent s = true ∧ rc_run (log s) = Some Closed ∧ ret s = (0, None) ∧
    heap s !! 7 = Some [Byte.x01; Byte.x02].
Proof.
  destruct (run ex_abandoned) as [s|] eqn:Hr; [|by vm_compute in Hr].
  pose proof (manifest_reader_freed_once _ _ Hr) as (_ & Hq & _).
  vm_compute in Hr. injection Hr as <-. eexists. split; [done|].
  destruct (Hq eq_refl) as [H|H]; [done|]. done.
Defined.

(** C23: A late read never writes what it was not lent. Between a [Read] that
    was abandoned and the end of its goroutine, and at any other time, no step
    changes a buffer of the program around the reader, except the delivery of
    a read into the buffer it was called with (and the program's own
    stores). What the callers received is, in order and in full, what the
    target's reads produced, up to the one read under way or abandoned. *)
Theorem late_read_stays_private evs s e s' p : run evs = Some s → step s e = Some s' →
  (p ∉ priv s' → heap s' !! p ≠ heap s !! p →
     (e = EvReadTake ∧ pc s = InRead p) ∨ (∃ b, e = EvMake p b ∨ e = EvStore p b)) ∧
  got s' `prefix_of` produced s' ∧ length (produced s') ≤ S (length (got s')) ∧
  (abandoned s' = false → pc s' = Idle → got s' = produced s').
Proof.
  intros Hr Hs. destruct (run_data _ _ Hr) as [Hc Hd].
  unfold step in Hs. destruct (crashed s); [done|].
  pose proof (act_cycle _ _ _ Hc Hs) as (st & _ & Hph).
  destruct (act_data _ _ _ Hc Hd Hs) as [_ (rest & Hp & Hrest)].
  split; [eauto using act_writes|].
  assert (Hle : length rest ≤ 1).
  { destruct (readG s'); [destruct (abandoned s')| |destruct Hrest as [_ Hrest]]; subst; simpl; lia. }
  rewrite Hp. split; [by apply prefix_app_r|]. split; [rewrite length_app; lia|].
  intros Ha Hi. rewrite Ha, Hi in Hph. assert (Hg : readG s' = NoG) by by inversion Hph.
  rewrite Hg, Ha in Hrest. subst rest. by rewrite app_nil_r.
Qed.

(** The delivered read, then one whose late answer finds its caller gone. *)
Definition ex_delivered : list event :=
  [EvMake 7 [Byte.x01; Byte.x02]; EvFetchReturn (Returns FReader); EvFetchTake; EvRead 7;
   EvScratch [Byte.x09; Byte.x08]; EvReadReturn (Returns (1, None)); EvReadTake; EvRead 7;
   EvReadAbandon CtxDeadline; EvStore 7 [Byte.x05; Byte.x05]].

Lemma late_read_stays_private_witness :
  ∃ s s', run ex_delivered = Some s ∧ step s (EvScratch [Byte.x0a; Byte.x0a]) = Some s' ∧
    got s' = [[Byte.x09]] ∧ got s' `prefix_of` produced s' ∧ heap s' !! 7 = Some [Byte.x05; Byte.x05].
Proof.
  destruct (run ex_delivered) as [s|] eqn:Hr; [|by vm_compute in Hr].
  destruct (step s (EvScratch [Byte.x0a; Byte.x0a])) as [s'|] eqn:Hs;
    [|vm_compute in Hr; injection Hr as <-; by vm_compute in Hs].
  pose proof (late_read_stays_private _ _ _ _ 7 Hr Hs) as (_ & Hpre & _).
  exists s, s'. split; [done|]. split; [done|]. split; [|split; [done|]].
  all: vm_compute in Hr; injection Hr as <-; vm_compute in Hs; by injection Hs as <-.
Defined.

End StallReader.
