(* ===== verification/Files.v ===== *)
(** * The durable-write spine

    [CommitWrite], [commitFile], [syncDir] and [CreateTemp] of
    [src/internal/fsutil/fsutil.go].

    The file system keeps, for every inode, its current data and whether that
    data has been fsynced, and two views of the directory: the current one and
    the one known to be on disk. [crash] is what a power loss may leave: each
    name resolves as in one of the two views, and data that was not fsynced is
    arbitrary. Each call the code makes appends the state it leaves to the
    run, so a theorem can speak of a crash between any two of them. *)

From S2P Require Import Prelude GoRuntime Stream.
From Stdlib Require Import ZArith Lia.
From stdpp Require Import base gmap strings list numbers.

Module Files.
Import Stream.

Record inode := MkInode { i_data : bytes; i_synced : bool }.

Record fs := MkFs {
  inodes : gmap N inode;
  names : gmap string N;     (* the current directory *)
  disk : gmap string N;      (* the directory as last fsynced *)
}.

(** What a reader of the path sees now. *)
Definition contents (s : fs) (p : string) : option bytes :=
  i_data <$> (names s !! p ≫= λ i, inodes s !! i).

Inductive crash (s : fs) (c : fs) : Prop :=
  | crash_intro :
      (∀ p, names c !! p = names s !! p ∨ names c !! p = disk s !! p) →
      (∀ i n, inodes s !! i = Some n → i_synced n = true →
              ∃ n', inodes c !! i = Some n' ∧ i_data n' = i_data n) →
      crash s c.

(** What the [fill] callback does to its open temp file. *)
Inductive fillop := FWrite (bs : bytes) | FTruncate.

Definition fill_data (d : bytes) (op : fillop) : bytes :=
  match op with FWrite bs => d ++ bs | FTruncate => [] end.

Definition written (ops : list fillop) : bytes := foldl fill_data [] ops.

(** ** System calls *)

Definition create (p : string) (i : N) (s : fs) : fs :=
  MkFs (<[i := MkInode [] false]> (inodes s)) (<[p := i]> (names s)) (disk s).

Definition fill_step (i : N) (s : fs) (op : fillop) : fs :=
  MkFs (alter (λ n, MkInode (fill_data (i_data n) op) false) i (inodes s)) (names s) (disk s).

Definition fsync (i : N) (s : fs) : fs :=
  MkFs (alter (λ n, MkInode (i_data n) true) i (inodes s)) (names s) (disk s).

Definition remove (p : string) (s : fs) : fs := MkFs (inodes s) (delete p (names s)) (disk s).

Definition rename (a b : string) (s : fs) : fs :=
  match names s !! a with
  | Some i => MkFs (inodes s) (<[b := i]> (delete a (names s))) (disk s)
  | None => s
  end.

Definition fsyncDir (s : fs) : fs := MkFs (inodes s) (names s) (names s).

(** ** CommitWrite *)

(** The answer of every call that can fail, and what [fill] did. [w_tmp] and
    [w_inode] are the fresh name and inode [os.CreateTemp] picked. *)
Record wenv := MkW {
  w_tmp : string; w_inode : N;
  w_mkdir : goerr; w_create : goerr;
  w_fill : list fillop * goerr;
  w_sync : goerr; w_close : goerr; w_ctx : ctxState;
  w_chmod : goerr; w_rename : goerr; w_syncdir : goerr;
}.

(** The states the run went through (latest last) and the returned error. *)
Definition run : Type := list fs * goerr.

Definition last_state (s : fs) (r : run) : fs := default s (list.last r.1).

(** [commitFile] on the already closed temp in state [s]. *)
Definition commitFile (v : wenv) (dest : string) (s : fs) : run :=
  match w_chmod v with
  | Some e => ([remove (w_tmp v) s], Some (Wrap "chmod" [e]))
  | None =>
      match w_rename v with
      | Some e => ([remove (w_tmp v) s], Some (Wrap "rename" [e]))
      | None =>
          let s1 := rename (w_tmp v) dest s in
          match w_syncdir v with
          | Some e => ([s1], Some e)
          | None => ([s1; fsyncDir s1], None)
          end
      end
  end.

(** The deferred cleanup of an uncommitted temp. *)
Definition abandon (v : wenv) (before : list fs) (s : fs) (e : err) : run :=
  (before ++ [remove (w_tmp v) s], Some e).

Definition fill_states (i : N) (s : fs) (ops : list fillop) : list fs :=
  (λ k, foldl (fill_step i) s (take k ops)) <$> seq 1 (length ops).

Definition CommitWrite (v : wenv) (dest : string) (s : fs) : run :=
  match w_mkdir v with
  | Some e => ([], Some (Wrap "mkdir" [e]))
  | None =>
      match w_create v with
      | Some e => ([], Some (Wrap "create temp" [e]))
      | None =>
          let s0 := create (w_tmp v) (w_inode v) s in
          let filled := s0 :: fill_states (w_inode v) s0 (w_fill v).1 in
          let s1 := foldl (fill_step (w_inode v)) s0 (w_fill v).1 in
          match (w_fill v).2 with
          | Some e => abandon v filled s1 (Wrap "write temp" [e])
          | None =>
              match w_sync v with
              | Some e => abandon v filled s1 (Wrap "sync" [e])
              | None =>
                  let s2 := fsync (w_inode v) s1 in
                  let synced := filled ++ [s2] in
                  match w_close v, w_ctx v with
                  | Some e, _ => abandon v synced s2 (Wrap "close" [e])
                  | None, Some c => abandon v synced s2 (ctx_error c)
                  | None, None =>
                      let r := commitFile v dest s2 in (synced ++ r.1, r.2)
                  end
              end
          end
      end
  end.

(** ** Lemmas *)

(** The temp's name and inode are fresh: [os.CreateTemp] opens with O_EXCL. *)
Definition fresh (v : wenv) (dest : string) (s : fs) : Prop :=
  names s !! w_tmp v = None ∧ disk s !! w_tmp v = None ∧ w_tmp v ≠ dest ∧
  inodes s !! w_inode v = None ∧
  (∀ p, names s !! p ≠ Some (w_inode v)) ∧ (∀ p, disk s !! p ≠ Some (w_inode v)).

(** The path was last written by a completed call: the directory entry and the
    data behind it are on disk. *)
Definition settled (s : fs) (p : string) : Prop :=
  disk s !! p = names s !! p ∧
  ∀ i, names s !! p = Some i → ∃ n, inodes s !! i = Some n ∧ i_synced n = true.

(** A state in which [dest] is as in [s], whatever the temp holds. *)
Definition untouched (dest : string) (tmp : string) (i : N) (s s' : fs) : Prop :=
  names s' !! dest = names s !! dest ∧ disk s' = disk s ∧
  (∀ j, j ≠ i → inodes s' !! j = inodes s !! j) ∧
  (∀ p, p ≠ tmp → names s' !! p = names s !! p).

Lemma untouched_create v dest s : fresh v dest s →
  untouched dest (w_tmp v) (w_inode v) s (create (w_tmp v) (w_inode v) s).
Proof.
  intros (_ & _ & Hne & _). unfold untouched, create; simpl. split_and!; [|done| |].
  - by rewrite lookup_insert_ne.
  - intros j Hj. by rewrite lookup_insert_ne.
  - intros p Hp. by rewrite lookup_insert_ne.
Qed.

Lemma untouched_fill dest tmp i s s' op : untouched dest tmp i s s' → untouched dest tmp i s (fill_step i s' op).
Proof.
  intros (H1 & H2 & H3 & H4). unfold untouched, fill_step; simpl. split_and!; [done|done| |done].
  intros j Hj. rewrite lookup_alter_ne by done. by apply H3.
Qed.

Lemma untouched_fills dest tmp i s s' ops : untouched dest tmp i s s' →
  untouched dest tmp i s (foldl (fill_step i) s' ops).
Proof. revert s'. induction ops as [|op ops IH]; intros s' H; [done|]. simpl. by apply IH, untouched_fill. Qed.

Lemma untouched_fsync dest tmp i s s' : untouched dest tmp i s s' → untouched dest tmp i s (fsync i s').
Proof.
  intros (H1 & H2 & H3 & H4). unfold untouched, fsync; simpl. split_and!; [done|done| |done].
  intros j Hj. rewrite lookup_alter_ne by done. by apply H3.
Qed.

Lemma untouched_remove dest tmp i s s' : tmp ≠ dest → untouched dest tmp i s s' →
  untouched dest tmp i s (remove tmp s').
Proof.
  intros Hne (H1 & H2 & H3 & H4). unfold untouched, remove; simpl.
  split_and!; [by rewrite lookup_delete_ne|done|done|].
  intros p Hp. rewrite lookup_delete_ne by done. by apply H4.
Qed.

(** The temp itself through the fill. *)
Lemma fills_temp i s ops : inodes s !! i = Some (MkInode [] false) →
  ∃ b, inodes (foldl (fill_step i) s ops) !! i = Some (MkInode (written ops) b).
Proof.
  intros Hi. enough (∀ d b, inodes s !! i = Some (MkInode d b) →
    ∃ b', inodes (foldl (fill_step i) s ops) !! i = Some (MkInode (foldl fill_data d ops) b')) as H.
  { apply (H [] false Hi). }
  clear Hi. revert s. induction ops as [|op ops IH]; intros s d b Hi; simpl; [eauto|].
  apply (IH _ _ false). unfold fill_step; simpl. by rewrite lookup_alter_eq, Hi.
Qed.

Lemma fills_names i s ops : names (foldl (fill_step i) s ops) = names s.
Proof. revert s. induction ops as [|op ops IH]; intros s; simpl; [done|]. by rewrite IH. Qed.

(** The state right before the rename. *)
Definition prepared (v : wenv) (s : fs) : fs :=
  fsync (w_inode v) (foldl (fill_step (w_inode v)) (create (w_tmp v) (w_inode v) s) (w_fill v).1).

Lemma prepared_spec v dest s : fresh v dest s →
  untouched dest (w_tmp v) (w_inode v) s (prepared v s) ∧
  names (prepared v s) !! w_tmp v = Some (w_inode v) ∧
  inodes (prepared v s) !! w_inode v = Some (MkInode (written (w_fill v).1) true).
Proof.
  intros Hf. unfold prepared. split_and!.
  - by apply untouched_fsync, untouched_fills, untouched_create.
  - simpl. rewrite fills_names. simpl. by rewrite lookup_insert_eq.
  - destruct (fills_temp (w_inode v) (create (w_tmp v) (w_inode v) s) (w_fill v).1) as [b Hb].
    { simpl. by rewrite lookup_insert_eq. }
    simpl. rewrite lookup_alter_eq, Hb. done.
Qed.

(** A state that keeps the old [dest], or has the new one, filled without an
    error and with its data on disk. *)
Definition whole (v : wenv) (dest : string) (s s' : fs) : Prop :=
  untouched dest (w_tmp v) (w_inode v) s s' ∨
  ((w_fill v).2 = None ∧ w_ctx v = None ∧ names s' !! dest = Some (w_inode v) ∧
   (disk s' !! dest = disk s !! dest ∨ disk s' !! dest = Some (w_inode v)) ∧
   (∀ j, j ≠ w_inode v → inodes s' !! j = inodes s !! j) ∧
   inodes s' !! w_inode v = Some (MkInode (written (w_fill v).1) true)).

Lemma renamed_spec v dest s : fresh v dest s → (w_fill v).2 = None → w_ctx v = None →
  let s1 := rename (w_tmp v) dest (prepared v s) in
  whole v dest s s1 ∧ whole v dest s (fsyncDir s1) ∧
  names s1 !! dest = Some (w_inode v) ∧ names s1 !! w_tmp v = None ∧
  (∀ p, p ≠ dest → p ≠ w_tmp v → names s1 !! p = names s !! p) ∧
  inodes s1 !! w_inode v = Some (MkInode (written (w_fill v).1) true).
Proof.
  intros Hf Hfill Hctx. destruct (prepared_spec v dest s Hf) as ((H1 & H2 & H3 & H4) & Ht & Hi).
  destruct Hf as (_ & _ & Hne & _).
  assert (∃ s1, s1 = rename (w_tmp v) dest (prepared v s) ∧
    inodes s1 = inodes (prepared v s) ∧ disk s1 = disk s ∧
    names s1 = <[dest := w_inode v]> (delete (w_tmp v) (names (prepared v s)))) as (s1 & <- & Ei & Ed & En).
  { eexists. split; [done|]. unfold rename. rewrite Ht. by rewrite H2. }
  cbv zeta. unfold whole.
  assert (names s1 !! dest = Some (w_inode v)) as Hd by (by rewrite En, lookup_insert_eq).
  rewrite Ei. split_and!; try done.
  - right. rewrite Ed. split_and!; [done|done|done|by left|done|done].
  - right. simpl. rewrite Ei. split_and!; [done|done|done|by right|done|done].
  - rewrite En, lookup_insert_ne by done. by rewrite lookup_delete_eq.
  - intros p Hp Hp'. rewrite En, lookup_insert_ne, lookup_delete_ne by done. by apply H4.
Qed.

Lemma filled_whole v dest s : fresh v dest s →
  let s0 := create (w_tmp v) (w_inode v) s in
  Forall (whole v dest s) (s0 :: fill_states (w_inode v) s0 (w_fill v).1).
Proof.
  intros Hf. pose proof (untouched_create v dest s Hf) as H0. cbv zeta. apply list.Forall_cons. split; [by left|].
  apply list.Forall_forall. intros x. unfold fill_states. rewrite list_elem_of_fmap.
  intros (k & -> & _). left. by apply untouched_fills.
Qed.

Lemma abandon_whole v dest s before s' e : fresh v dest s →
  Forall (whole v dest s) before → untouched dest (w_tmp v) (w_inode v) s s' →
  Forall (whole v dest s) (abandon v before s' e).1.
Proof.
  intros (_ & _ & Hne & _) Hb Hs. apply list.Forall_app. split; [done|].
  apply list.Forall_cons. split; [|constructor]. left. by apply untouched_remove.
Qed.

(** Every state of a run keeps [dest] whole. *)
Lemma CommitWrite_whole v dest s : fresh v dest s → Forall (whole v dest s) (CommitWrite v dest s).1.
Proof.
  intros Hf. pose proof (filled_whole v dest s Hf) as Hfill. cbv zeta in Hfill.
  pose proof (untouched_fills dest (w_tmp v) (w_inode v) s _ (w_fill v).1 (untouched_create v dest s Hf)) as Hs1.
  unfold CommitWrite. destruct (w_mkdir v); [constructor|]. destruct (w_create v); [constructor|].
  destruct (w_fill v).2 eqn:Efill; [by apply abandon_whole|]. destruct (w_sync v); [by apply abandon_whole|].
  pose proof (untouched_fsync _ _ _ _ _ Hs1) as Hs2.
  assert (∀ l, Forall (whole v dest s) l → Forall (whole v dest s)
    ((create (w_tmp v) (w_inode v) s :: fill_states (w_inode v) (create (w_tmp v) (w_inode v) s) (w_fill v).1)
      ++ [prepared v s] ++ l)) as Happ.
  { intros l Hl. apply list.Forall_app. split; [done|]. apply list.Forall_cons. split; [by left|done]. }
  destruct (w_close v), (w_ctx v) eqn:Ectx;
    try (apply abandon_whole; [done|exact (Happ [] (Forall_nil _))|exact Hs2]).
  cbn [fst]. rewrite <- app_assoc. apply Happ. unfold commitFile. fold (prepared v s).
  destruct (renamed_spec v dest s Hf Efill Ectx) as (Hw1 & Hw2 & _). destruct Hf as (_ & _ & Hne & _).
  destruct (w_chmod v); [|destruct (w_rename v); [|destruct (w_syncdir v)]]; cbn [fst];
    repeat (first [apply Forall_nil|apply list.Forall_cons; split]); try done;
    left; by apply untouched_remove.
Qed.

(** What a crash makes of a whole state. *)
Lemma whole_crash v dest s s' c : fresh v dest s → settled s dest → whole v dest s s' → crash s' c →
  contents c dest = contents s dest ∨
  (contents c dest = Some (written (w_fill v).1) ∧ (w_fill v).2 = None ∧ w_ctx v = None).
Proof.
  intros (_ & _ & _ & _ & Hni & Hdi) [Hset Hold] Hw [Hn Hi].
  assert (names s !! dest = names c !! dest → (∀ j, j ≠ w_inode v → inodes s' !! j = inodes s !! j) →
          contents c dest = contents s dest) as Hsame.
  { intros Heq Hin. unfold contents. rewrite <- Heq. destruct (names s !! dest) as [j|] eqn:Ej; [|done]. simpl.
    destruct (Hold j eq_refl) as (n & Hj & Hsy). rewrite Hj. simpl.
    destruct (Hi j n) as (n' & -> & Hd); [|done|by simpl; rewrite Hd].
    rewrite Hin; [done|]. intros ->. by apply (Hni dest). }
  destruct Hw as [(H1 & H2 & H3 & _)|(Hfi & Hct & H1 & H2 & H3 & H4)].
  - left. apply Hsame; [|done]. destruct (Hn dest) as [->| ->]; [done|]. by rewrite H2.
  - assert (names c !! dest = Some (w_inode v) ∨ names c !! dest = names s !! dest) as [Hc|Hc].
    { destruct (Hn dest) as [Hc|Hc]; [left; congruence|]. destruct H2 as [H2|H2]; [right|left]; congruence. }
    + right. split_and!; [|done|done]. unfold contents. rewrite Hc. simpl. destruct (Hi _ _ H4 eq_refl) as (n' & -> & Hd). simpl. by rewrite Hd.
    + left. by apply Hsame.
Qed.

(** The last state of a run, on success and on failure. *)
Lemma last_state_app s (l : list fs) x e : last_state s (l ++ [x], e) = x.
Proof. unfold last_state. simpl. by rewrite last_snoc. Qed.

Lemma CommitWrite_success v dest s : fresh v dest s → (CommitWrite v dest s).2 = None →
  (w_fill v).2 = None ∧ w_ctx v = None ∧
  last_state s (CommitWrite v dest s) = fsyncDir (rename (w_tmp v) dest (prepared v s)).
Proof.
  intros Hf. unfold CommitWrite.
  destruct (w_mkdir v); [done|]. destruct (w_create v); [done|]. destruct (w_fill v).2; [done|].
  destruct (w_sync v); [done|]. destruct (w_close v), (w_ctx v); try done. unfold commitFile.
  destruct (w_chmod v); [done|]. destruct (w_rename v); [done|]. destruct (w_syncdir v); [done|].
  intros _. split_and!; [done|done|]. cbn [fst snd]. fold (prepared v s).
  match goal with |- context [?l ++ [?a; ?b]] => change (l ++ [a; b]) with (l ++ [a] ++ [b]) end.
  by rewrite app_assoc, last_state_app.
Qed.

Lemma CommitWrite_failure v dest s : fresh v dest s → w_syncdir v = None → (CommitWrite v dest s).2 ≠ None →
  let s' := last_state s (CommitWrite v dest s) in
  (∀ p, names s' !! p = names s !! p) ∧ disk s' = disk s ∧ contents s' dest = contents s dest.
Proof.
  intros Hf Hsd He. assert (∀ s', untouched dest (w_tmp v) (w_inode v) s s' → (∀ p, p = w_tmp v → names s' !! p = None) →
    (∀ p, names s' !! p = names s !! p) ∧ disk s' = disk s ∧ contents s' dest = contents s dest) as Hend.
  { intros s' (H1 & H2 & H3 & H4) Htmp. destruct Hf as (Hn & _ & _ & _ & Hni & _). split_and!; [|done|].
    - intros p. destruct (decide (p = w_tmp v)) as [->|Hp]; [|by apply H4]. rewrite Htmp by done. by rewrite Hn.
    - unfold contents. rewrite H1. destruct (names s !! dest) as [j|] eqn:Ej; [|done]. simpl.
      rewrite H3; [done|]. intros ->. by apply (Hni dest). }
  assert (∀ s' before e, untouched dest (w_tmp v) (w_inode v) s s' →
    (∀ p, names (last_state s (abandon v before s' e)) !! p = names s !! p) ∧
    disk (last_state s (abandon v before s' e)) = disk s ∧
    contents (last_state s (abandon v before s' e)) dest = contents s dest) as Hab.
  { intros s' before e Hu. unfold abandon. rewrite last_state_app. apply Hend.
    - destruct Hf as (_ & _ & Hne & _). by apply untouched_remove.
    - intros p ->. simpl. by rewrite lookup_delete_eq. }
  pose proof (untouched_fills dest (w_tmp v) (w_inode v) s _ (w_fill v).1 (untouched_create v dest s Hf)) as Hs1.
  pose proof (untouched_fsync _ _ _ _ _ Hs1) as Hs2.
  cbv zeta. revert He. unfold CommitWrite. destruct (w_mkdir v); [done|]. destruct (w_create v); [done|].
  destruct (w_fill v).2; [intros _; by apply Hab|]. destruct (w_sync v); [intros _; by apply Hab|].
  destruct (w_close v), (w_ctx v); try (intros _; by apply Hab). unfold commitFile.
  destruct (w_chmod v); [intros _; cbn [fst snd]; by apply Hab|].
  destruct (w_rename v); [intros _; cbn [fst snd]; by apply Hab|]. by rewrite Hsd.
Qed.

(** A run that returns nil: the new contents are there and stay. *)
Lemma CommitWrite_durable v dest s : fresh v dest s → (CommitWrite v dest s).2 = None →
  let s' := last_state s (CommitWrite v dest s) in
  (w_fill v).2 = None ∧ contents s' dest = Some (written (w_fill v).1) ∧ names s' !! w_tmp v = None ∧ settled s' dest ∧
  (∀ p, p ≠ dest → names s' !! p = names s !! p) ∧
  (∀ c, crash s' c → contents c dest = Some (written (w_fill v).1)).
Proof.
  intros Hf He. cbv zeta. destruct (CommitWrite_success v dest s Hf He) as (Hfill & Hctx & ->).
  destruct (renamed_spec v dest s Hf Hfill Hctx) as (_ & _ & Hd & Ht & Hp & Hi).
  assert (settled (fsyncDir (rename (w_tmp v) dest (prepared v s))) dest) as Hst.
  { split; [done|]. simpl. intros j Hj. rewrite Hd in Hj. simplify_eq. eauto. }
  split_and!; [done| |done|done| |].
  - unfold contents; simpl. rewrite Hd. simpl. by rewrite Hi.
  - intros p Hne. simpl. destruct (decide (p = w_tmp v)) as [->|]; [|by apply Hp].
    rewrite Ht. by destruct Hf as (-> & _).
  - intros c [Hn Hci]. unfold contents. assert (names c !! dest = Some (w_inode v)) as ->.
    { destruct (Hn dest) as [->| ->]; done. }
    simpl. destruct (Hci _ _ Hi eq_refl) as (n' & -> & Hdat). simpl. by rewrite Hdat.
Qed.

(** Either nothing that has a name changed, or the whole new contents are at
    [dest] and nothing else changed. *)
Definition written_whole (dest : string) (d : bytes) (s s' : fs) : Prop :=
  contents s' dest = Some d ∧ (∀ p, p ≠ dest → names s' !! p = names s !! p ∧ contents s' p = contents s p) ∧
  is_Some (names s' !! dest).

Definition unwritten (s s' : fs) : Prop := ∀ p, names s' !! p = names s !! p ∧ contents s' p = contents s p.

Lemma renamed_written v dest s : fresh v dest s → (w_fill v).2 = None → w_ctx v = None →
  written_whole dest (written (w_fill v).1) s (rename (w_tmp v) dest (prepared v s)).
Proof.
  intros Hf Hfill Hctx. destruct (renamed_spec v dest s Hf Hfill Hctx) as (_ & _ & Hd & Ht & Hp & Hi).
  split_and!; [unfold contents; rewrite Hd; cbn; by rewrite Hi| |by eexists].
  intros p Hne. assert (names (rename (w_tmp v) dest (prepared v s)) !! p = names s !! p) as Hnp.
  { destruct (decide (p = w_tmp v)) as [->|]; [|by apply Hp]. rewrite Ht. by destruct Hf as (-> & _). }
  split; [done|]. unfold contents. rewrite Hnp. destruct (names s !! p) as [j|] eqn:Ej; [|done]. cbn.
  destruct (prepared_spec v dest s Hf) as ((_ & _ & H3 & _) & Htmp & _). unfold rename. rewrite Htmp. cbn [inodes].
  rewrite H3; [done|]. intros ->. destruct Hf as (_ & _ & _ & _ & Hni & _). by apply (Hni p).
Qed.

(** A settled path survives any crash. *)
Lemma settled_crash s p d c : settled s p → contents s p = Some d → crash s c → contents c p = Some d.
Proof.
  intros [Hd Hs] Hc [Hn Hi]. unfold contents in *. assert (names c !! p = names s !! p) as ->.
  { destruct (Hn p) as [->| ->]; done. }
  destruct (names s !! p) as [i|] eqn:Ei; [|done]. destruct (Hs i eq_refl) as (n & Hin & Hsy). cbn in *.
  rewrite Hin in Hc. destruct (Hi i n Hin Hsy) as (n' & -> & Hd'). cbn in *. by rewrite Hd'.
Qed.

(** A completed write of one path leaves the others as they were, and settled. *)
Lemma CommitWrite_keeps v dest s p : fresh v dest s → (CommitWrite v dest s).2 = None → p ≠ dest → settled s p →
  settled (last_state s (CommitWrite v dest s)) p ∧ contents (last_state s (CommitWrite v dest s)) p = contents s p.
Proof.
  intros Hf He Hne [Hd Hs]. destruct (CommitWrite_durable v dest s Hf He) as (_ & _ & _ & _ & Hnm & _).
  specialize (Hnm p Hne). destruct (CommitWrite_success v dest s Hf He) as (Hfill & Hctx & Hlast).
  destruct (renamed_written v dest s Hf Hfill Hctx) as (_ & Hoth & _). destruct (Hoth p Hne) as [_ Hcont].
  rewrite Hlast in *. split; [|done]. split; [done|]. intros i Hi. rewrite Hnm in Hi.
  destruct (Hs i Hi) as (n & Hin & Hsy). exists n. split; [|done].
  destruct (prepared_spec v dest s Hf) as ((_ & _ & H3 & _) & Htmp & _). cbn. unfold rename. rewrite Htmp. cbn.
  rewrite H3; [done|]. intros ->. destruct Hf as (_ & _ & _ & _ & Hni & _). by apply (Hni p).
Qed.

Lemma unwritten_trans a b c : unwritten a b → unwritten b c → unwritten a c.
Proof. intros H1 H2 p. destruct (H1 p), (H2 p). split; congruence. Qed.

(** Removing a temp whose name and inode nobody else has undoes its writing. *)
Lemma remove_restores tmp i s s' : names s !! tmp = None → (∀ p, names s !! p ≠ Some i) →
  (∀ j, j ≠ i → inodes s' !! j = inodes s !! j) → (∀ p, p ≠ tmp → names s' !! p = names s !! p) →
  unwritten s (remove tmp s').
Proof.
  intros Hn Hni Hin Hnm p. unfold remove, contents. cbn [names inodes]. destruct (decide (p = tmp)) as [->|Hp].
  - by rewrite lookup_delete_eq, Hn.
  - rewrite lookup_delete_ne, Hnm by done. split; [done|]. destruct (names s !! p) as [j|] eqn:Ej; [|done].
    cbn. rewrite Hin; [done|]. intros ->. by apply (Hni p).
Qed.

Lemma removed_unwritten v dest s s' : fresh v dest s → untouched dest (w_tmp v) (w_inode v) s s' → unwritten s (remove (w_tmp v) s').
Proof. intros (Hn & _ & _ & _ & Hni & _) (_ & _ & Hin & Hnm). by apply (remove_restores _ (w_inode v)). Qed.

Lemma CommitWrite_cases v dest s : fresh v dest s →
  let r := CommitWrite v dest s in
  (unwritten s (last_state s r) ∧ r.2 ≠ None) ∨
  ((w_fill v).2 = None ∧ written_whole dest (written (w_fill v).1) s (last_state s r)).
Proof.
  intros Hf. pose proof (untouched_fills dest (w_tmp v) (w_inode v) s _ (w_fill v).1 (untouched_create v dest s Hf)) as Hs1.
  pose proof (untouched_fsync _ _ _ _ _ Hs1) as Hs2. cbv zeta. unfold CommitWrite.
  destruct (w_mkdir v); [by left|]. destruct (w_create v); [by left|].
  assert (∀ b s' e, untouched dest (w_tmp v) (w_inode v) s s' →
    unwritten s (last_state s (abandon v b s' e)) ∧ (abandon v b s' e).2 ≠ None) as Hab.
  { intros b s' e Hu. unfold abandon. rewrite last_state_app. split; [by eapply removed_unwritten|done]. }
  destruct (w_fill v).2 eqn:Efill; [left; by apply Hab|]. destruct (w_sync v); [left; by apply Hab|].
  destruct (w_close v), (w_ctx v) eqn:Ectx; try (left; by apply Hab).
  unfold commitFile. fold (prepared v s). pose proof (renamed_written v dest s Hf Efill Ectx) as Hw.
  destruct (w_chmod v); [left; cbn [fst snd]; by apply Hab|]. destruct (w_rename v); [left; cbn [fst snd]; by apply Hab|].
  right. split; [done|]. destruct (w_syncdir v); cbn [fst snd]; [by rewrite last_state_app|].
  match goal with |- context [?l ++ [?a; ?b]] => change (l ++ [a; b]) with (l ++ [a] ++ [b]) end.
  by rewrite app_assoc, last_state_app.
Qed.

(** ** Properties *)


(** Freshness of a concrete temp, decided on the two directories. *)
Definition freshb (v : wenv) (dest : string) (s : fs) : bool :=
  bool_decide (names s !! w_tmp v = None) && bool_decide (disk s !! w_tmp v = None) && bool_decide (w_tmp v ≠ dest) &&
  negb (bool_decide (is_Some (inodes s !! w_inode v))) &&
  forallb (λ e : string * N, negb (e.2 =? w_inode v)%N) (map_to_list (names s)) &&
  forallb (λ e : string * N, negb (e.2 =? w_inode v)%N) (map_to_list (disk s)).

Lemma freshb_fresh v dest s : freshb v dest s = true → fresh v dest s.
Proof.
  unfold freshb. rewrite !andb_true_iff, negb_true_iff, !bool_decide_eq_true, bool_decide_eq_false, !forallb_forall.
  intros (((((H1 & H2) & H3) & H4) & H5) & H6). unfold fresh. split_and!; [done..| | |].
  - by apply eq_None_not_Some.
  - intros p Hp. apply elem_of_map_to_list, list_elem_of_In, H5 in Hp. cbn in Hp. by rewrite N.eqb_refl in Hp.
  - intros p Hp. apply elem_of_map_to_list, list_elem_of_In, H6 in Hp. cbn in Hp. by rewrite N.eqb_refl in Hp.
Qed.

(** A file system whose path "d/a" holds one byte, and a run that overwrites it. *)
Definition ex_fs : fs :=
  MkFs {[1%N := MkInode [Byte.x41] true]} {["d/a" := 1%N]} {["d/a" := 1%N]}.
Definition ex_wenv (e : goerr) : wenv :=
  MkW "d/a.1.partial" 2 None None ([FWrite [Byte.x42]; FWrite [Byte.x43]], e) None None None None None None.

Lemma ex_fresh e : fresh (ex_wenv e) "d/a" ex_fs.
Proof.
  assert (∀ p, names ex_fs !! p ≠ Some 2%N) as Hn.
  { intros p Hp. unfold ex_fs, names in Hp.
    apply lookup_singleton_Some in Hp as [_ ?]. done. }
  unfold fresh. split_and!; done.
Qed.

Lemma ex_settled : settled ex_fs "d/a".
Proof. split; [done|]. intros i Hi. vm_compute in Hi. simplify_eq. by eexists. Qed.


End Files.
