(* ===== verification/Workers.v ===== *)
(** * Durable writes side by side

    Any number of goroutines inside [fsutil.CommitWrite]
    ([src/internal/fsutil/fsutil.go]) at once, over one file system: the workers of a
    restore or a drill ([runBoundedPaced]), the stores of several objects into one
    filesystem target, a manifest beside them. Each worker makes its system calls one
    by one and the scheduler picks who is next ([step]); a directory fsync covers the
    names of its own directory only.

    [alone_is_CommitWrite] ties a worker that runs alone to the sequential model of
    Files.v; [workers_commit_atomically] is the guarantee for all of them together. *)

From S2P Require Import Prelude GoText GoRuntime Stream Files.
From Stdlib Require Import ZArith Lia.
From Stdlib Require Import Strings.Ascii Strings.String.
From stdpp Require Import base gmap strings list numbers relations.

Module Workers.
Import Stream Files.

(** ** A worker *)

(** [filepath.Dir] of a joined path: everything before the last slash. *)
Definition dirOf (p : string) : string := GoText.join "/" (removelast (GoText.Split "/" p)).

(** The suffix [CreateTemp] gives its names. *)
Definition partial (p : string) : bool :=
  bool_decide (is_Some (GoText.strip (GoText.reverse ".partial") (GoText.reverse p))).

(** [syncDir]: the entries of one directory reach the disk. *)
Definition syncDir (dir : string) (s : fs) : fs :=
  MkFs (inodes s) (names s)
    (filter (λ e, dirOf e.1 = dir) (names s) ∪ filter (λ e, dirOf e.1 ≠ dir) (disk s)).

(** Where a worker stands: before its temp, with [n] pieces filled, synced, renamed,
    or returned. *)
Inductive pc := PStart | PFill (n : nat) | PSynced | PRenamed | PFailed (e : err) | PReturned (e : goerr).

Definition returned (p : pc) : option goerr :=
  match p with PFailed e => Some (Some e) | PReturned e => Some e | _ => None end.

(** One call of [CommitWrite] or [commitFile]. [os.CreateTemp] opens with O_EXCL: it
    gets a name nobody has, and an inode. *)
Definition wstep (v : wenv) (dest : string) (p : pc) (s : fs) : option (pc * fs) :=
  let drop e := Some (PFailed e, remove (w_tmp v) s) in
  match p with
  | PStart =>
      match w_mkdir v, w_create v with
      | Some e, _ => Some (PFailed (Wrap "mkdir" [e]), s)
      | None, Some e => Some (PFailed (Wrap "create temp" [e]), s)
      | None, None =>
          match names s !! w_tmp v, inodes s !! w_inode v with
          | None, None => Some (PFill 0, create (w_tmp v) (w_inode v) s)
          | _, _ => None
          end
      end
  | PFill n =>
      match (w_fill v).1 !! n with
      | Some op => Some (PFill (S n), fill_step (w_inode v) s op)
      | None =>
          match (w_fill v).2, w_sync v with
          | Some e, _ => drop (Wrap "write temp" [e])
          | None, Some e => drop (Wrap "sync" [e])
          | None, None => Some (PSynced, fsync (w_inode v) s)
          end
      end
  | PSynced =>
      match w_close v, w_ctx v, w_chmod v, w_rename v with
      | Some e, _, _, _ => drop (Wrap "close" [e])
      | None, Some c, _, _ => drop (ctx_error c)
      | None, None, Some e, _ => drop (Wrap "chmod" [e])
      | None, None, None, Some e => drop (Wrap "rename" [e])
      | None, None, None, None => Some (PRenamed, rename (w_tmp v) dest s)
      end
  | PRenamed =>
      match w_syncdir v with
      | Some e => Some (PReturned (Some e), s)
      | None => Some (PReturned None, syncDir (dirOf dest) s)
      end
  | PFailed _ | PReturned _ => None
  end.

Lemma syncDir_disk dir s q : disk (syncDir dir s) !! q = if decide (dirOf q = dir) then names s !! q else disk s !! q.
Proof.
  unfold syncDir. cbn [disk]. rewrite lookup_union, !map_lookup_filter.
  destruct (names s !! q), (disk s !! q), (decide (dirOf q = dir)); cbn; repeat case_guard; done.
Qed.

(** ** All of them *)

Lemma written_snoc ops op : written (ops ++ [op]) = fill_data (written ops) op.
Proof. unfold written. by rewrite foldl_app. Qed.

Section workers.
Context (jobs : list (wenv * string)).

Definition world : Type := list pc * fs.

(** The scheduler lets worker [k] make one call. *)
Definition wturn (k : nat) (w : world) : option world :=
  '(v, dest) ← jobs !! k; p ← w.1 !! k; '(p', s') ← wstep v dest p w.2; Some (<[k := p']> w.1, s').

Inductive step (w w' : world) : Prop :=
  | step_intro k : wturn k w = Some w' → step w w'.

Definition start (s : fs) : world := (replicate (length jobs) PStart, s).

Definition at_ (pcs : list pc) (k : nat) (v : wenv) (d : string) (p : pc) : Prop :=
  jobs !! k = Some (v, d) ∧ pcs !! k = Some p.

(** With a temp, and past the rename. *)
Definition alive (p : pc) : bool := match p with PFill _ | PSynced => true | _ => false end.
Definition committed (p : pc) : bool := match p with PRenamed | PReturned _ => true | _ => false end.
Definition active (p : pc) : bool := alive p || committed p.

(** What a worker's inode holds. *)
Definition data_ok (v : wenv) (p : pc) (s : fs) : Prop :=
  match p with
  | PFill n => ∃ b, inodes s !! w_inode v = Some (MkInode (written (take n (w_fill v).1)) b)
  | PSynced | PRenamed | PReturned _ =>
      inodes s !! w_inode v = Some (MkInode (written (w_fill v).1) true) ∧ (w_fill v).2 = None
  | PStart | PFailed _ => True
  end.

(** The entry of [q] is one a worker renamed there. *)
Definition renamed (pcs : list pc) (q : string) (o : option N) : Prop :=
  ∃ k v p, at_ pcs k v q p ∧ committed p = true ∧ o = Some (w_inode v).

Section invariant.
Context (s0 : fs).

Definition entry_ok (pcs : list pc) (q : string) (o : option N) : Prop := o = names s0 !! q ∨ renamed pcs q o.

Record Inv (pcs : list pc) (s : fs) : Prop := MkInv {
  inv_data : ∀ k v d p, at_ pcs k v d p → data_ok v p s;
  inv_inode : ∀ k v d p, at_ pcs k v d p → active p = true → inodes s0 !! w_inode v = None;
  inv_temp : ∀ k v d p, at_ pcs k v d p → alive p = true →
    names s !! w_tmp v = Some (w_inode v) ∧ names s0 !! w_tmp v = None;
  inv_distinct : ∀ k k' v v' d d' p p', at_ pcs k v d p → at_ pcs k' v' d' p' → k ≠ k' →
    active p = true → active p' = true → w_inode v ≠ w_inode v';
  inv_committed : ∀ k v d p, at_ pcs k v d p → committed p = true → renamed pcs d (names s !! d);
  inv_returned : ∀ k v d, at_ pcs k v d (PReturned None) → renamed pcs d (disk s !! d);
  inv_old : ∀ i n, inodes s0 !! i = Some n → inodes s !! i = Some n;
  inv_entries : ∀ q, partial q = false → entry_ok pcs q (names s !! q) ∧ entry_ok pcs q (disk s !! q);
  inv_temps : ∀ q, partial q = true → names s !! q = names s0 !! q ∨
    ∃ k v d p, at_ pcs k v d p ∧ alive p = true ∧ w_tmp v = q;
}.

(** Temps carry the suffix and destinations do not. *)
Context (Hjobs : Forall (λ j, partial (w_tmp j.1) = true ∧ partial j.2 = false) jobs).

Lemma at_partial pcs k v d p : at_ pcs k v d p → partial (w_tmp v) = true ∧ partial d = false.
Proof. intros [Hj _]. rewrite list.Forall_lookup in Hjobs. exact (Hjobs _ _ Hj). Qed.

Lemma at_update pcs k v d p p' j w c q : at_ pcs k v d p →
  at_ (<[k := p']> pcs) j w c q ↔ (j = k ∧ w = v ∧ c = d ∧ q = p') ∨ (j ≠ k ∧ at_ pcs j w c q).
Proof.
  intros [Hj Hp]. unfold at_. destruct (decide (j = k)) as [->|Hne].
  - rewrite list_lookup_insert_eq by (by eapply lookup_lt_Some). rewrite Hj. naive_solver.
  - rewrite list_lookup_insert_ne by done. naive_solver.
Qed.

(** Renamed entries stay renamed: no worker leaves the committed states. *)
Lemma renamed_mono pcs k v d p p' q o : at_ pcs k v d p → (committed p = true → committed p' = true) →
  renamed pcs q o → renamed (<[k := p']> pcs) q o.
Proof.
  intros Hk Hc (j & w & r & Hj & Hr & ->). destruct (decide (j = k)) as [->|Hne].
  - assert (v = w ∧ d = q ∧ p = r) as (<- & <- & <-) by (destruct Hk, Hj; naive_solver).
    exists k, v, p'. split; [rewrite at_update by done; by left|]. auto.
  - exists j, w, r. split; [rewrite at_update by done; by right|done].
Qed.

Lemma entry_mono pcs k v d p p' q o : at_ pcs k v d p → (committed p = true → committed p' = true) →
  entry_ok pcs q o → entry_ok (<[k := p']> pcs) q o.
Proof. intros Hk Hc [?|?]; [by left|right; by eapply renamed_mono]. Qed.

(** What a call of worker [k] does, seen from outside: to its own inode, its own temp
    and, with the rename, its destination; and what it leaves to its worker. *)
Record effect (v : wenv) (d : string) (p p' : pc) (s s' : fs) : Prop := MkEffect {
  eff_inodes : ∀ i, i ≠ w_inode v → inodes s' !! i = inodes s !! i;
  eff_own : active p = true ∨ inodes s !! w_inode v = None ∨ inodes s' = inodes s;
  eff_temps : ∀ q, q ≠ w_tmp v → partial q = true → names s' !! q = names s !! q;
  eff_tmp : alive p = true ∨ names s !! w_tmp v = None ∨ names s' = names s;
  eff_names : ∀ q, partial q = false → names s' !! q = names s !! q ∨
    (q = d ∧ committed p' = true ∧ names s' !! q = Some (w_inode v));
  eff_disk : ∀ q, partial q = false → disk s' !! q = disk s !! q ∨ disk s' !! q = names s' !! q;
  eff_data : data_ok v p' s';
  eff_active : active p' = true → active p = true ∨ inodes s !! w_inode v = None;
  eff_alive : alive p' = true → names s' !! w_tmp v = Some (w_inode v) ∧ (alive p = true ∨ names s !! w_tmp v = None);
  eff_dropped : alive p = true → alive p' = false → names s' !! w_tmp v = None;
  eff_idle : alive p = false → alive p' = false → names s' = names s;
  eff_committed : committed p = true → committed p' = true;
  eff_renamed : committed p' = true → committed p = true ∨ names s' !! d = Some (w_inode v);
  eff_returned : p' = PReturned None → disk s' !! d = names s' !! d;
}.

Lemma absent_inode pcs s i : Inv pcs s → inodes s !! i = None → inodes s0 !! i = None.
Proof. intros HI Hn. destruct (inodes s0 !! i) as [n|] eqn:E; [|done]. apply (inv_old _ _ HI) in E. congruence. Qed.

Lemma absent_temp pcs s q : Inv pcs s → partial q = true → names s !! q = None → names s0 !! q = None.
Proof.
  intros HI Hq Hn. destruct (inv_temps _ _ HI q Hq) as [<-|(k & v & d & p & Hk & Hp & <-)]; [done|].
  destruct (inv_temp _ _ HI _ _ _ _ Hk Hp). congruence.
Qed.

(** Another worker's inode is not the one this call changes. *)
Lemma other_inode pcs s s' k v d p p' j w c q : Inv pcs s → at_ pcs k v d p → effect v d p p' s s' →
  at_ pcs j w c q → j ≠ k → active q = true → inodes s' !! w_inode w = inodes s !! w_inode w.
Proof.
  intros HI Hk E Hj Hne Hq. destruct (eff_own _ _ _ _ _ _ E) as [Ha|[Ha|Ha]]; [| |by rewrite Ha].
  - apply (eff_inodes _ _ _ _ _ _ E). by eapply (inv_distinct _ _ HI j k).
  - apply (eff_inodes _ _ _ _ _ _ E). intros Heq. pose proof (inv_data _ _ HI _ _ _ _ Hj) as Hd. rewrite <- Heq in Ha.
    destruct q; try done; cbn in Hd; destruct Hd; congruence.
Qed.

(** Nor is its temp. *)
Lemma other_temp pcs s s' k v d p p' j w c q : Inv pcs s → at_ pcs k v d p → effect v d p p' s s' →
  at_ pcs j w c q → j ≠ k → alive q = true → names s' !! w_tmp w = names s !! w_tmp w.
Proof.
  intros HI Hk E Hj Hne Hq. destruct (inv_temp _ _ HI _ _ _ _ Hj Hq) as [Ht _]. destruct (at_partial _ _ _ _ _ Hj) as [Hpw _].
  destruct (eff_tmp _ _ _ _ _ _ E) as [Ha|[Ha|Ha]]; [| |by rewrite Ha]; apply (eff_temps _ _ _ _ _ _ E); try done.
  - intros Heq. destruct (inv_temp _ _ HI _ _ _ _ Hk Ha) as [Ht' _]. rewrite Heq, Ht' in Ht. injection Ht as Ht.
    apply (inv_distinct _ _ HI j k w v c d q p Hj Hk Hne); [by unfold active; rewrite Hq|by unfold active; rewrite Ha|done].
  - intros Heq. congruence.
Qed.

Lemma data_ok_same w q s s' : (active q = true → inodes s' !! w_inode w = inodes s !! w_inode w) → data_ok w q s → data_ok w q s'.
Proof. intros Hs. destruct q; cbn in *; try done; rewrite Hs by done; done. Qed.

Lemma effect_old pcs s s' k v d p p' i n : Inv pcs s → at_ pcs k v d p → effect v d p p' s s' →
  inodes s0 !! i = Some n → inodes s' !! i = Some n.
Proof.
  intros HI Hk E Hi. pose proof (inv_old _ _ HI _ _ Hi) as Hs. rewrite <- Hs.
  destruct (eff_own _ _ _ _ _ _ E) as [Ha|[Ha|Ha]]; [| |by rewrite Ha]; apply (eff_inodes _ _ _ _ _ _ E); intros ->.
  - pose proof (inv_inode _ _ HI _ _ _ _ Hk Ha). congruence.
  - congruence.
Qed.

Lemma effect_entries pcs s s' k v d p p' q : Inv pcs s → at_ pcs k v d p → effect v d p p' s s' → partial q = false →
  entry_ok (<[k := p']> pcs) q (names s' !! q) ∧ entry_ok (<[k := p']> pcs) q (disk s' !! q).
Proof.
  intros HI Hk E Hq. destruct (inv_entries _ _ HI q Hq) as [Hn Hd].
  apply (entry_mono _ _ _ _ _ p' _ _ Hk (eff_committed _ _ _ _ _ _ E)) in Hn, Hd.
  assert (entry_ok (<[k := p']> pcs) q (names s' !! q)) as Hn'.
  { destruct (eff_names _ _ _ _ _ _ E q Hq) as [->|(-> & Hc & ->)]; [done|]. right. exists k, v, p'.
    split; [rewrite at_update by done; by left|done]. }
  split; [done|]. by destruct (eff_disk _ _ _ _ _ _ E q Hq) as [-> | ->].
Qed.

(** A renamed entry of the directory is still one after the call. *)
Lemma effect_renamed pcs s s' k v d p p' q : Inv pcs s → at_ pcs k v d p → effect v d p p' s s' → partial q = false →
  renamed pcs q (names s !! q) → renamed (<[k := p']> pcs) q (names s' !! q).
Proof.
  intros HI Hk E Hq Hr. destruct (eff_names _ _ _ _ _ _ E q Hq) as [->|(-> & Hc & ->)].
  - eapply renamed_mono; [done| |done]. apply E.
  - exists k, v, p'. split; [rewrite at_update by done; by left|done].
Qed.

(** The destination of a worker that has committed, after the call. *)
Lemma effect_committed pcs s s' k v d p p' j w c q : Inv pcs s → at_ pcs k v d p → effect v d p p' s s' →
  at_ (<[k := p']> pcs) j w c q → committed q = true → renamed (<[k := p']> pcs) c (names s' !! c).
Proof.
  intros HI Hk E Hj Hq. destruct (at_partial _ _ _ _ _ Hj) as [_ Hc]. rewrite (at_update _ _ _ _ _ p' _ _ _ _ Hk) in Hj.
  destruct Hj as [(-> & -> & -> & ->)|[Hne Hj]]; [|by eapply effect_renamed, inv_committed].
  destruct (eff_renamed _ _ _ _ _ _ E Hq) as [Hp|Hn]; [by eapply effect_renamed, inv_committed|]. rewrite Hn.
  exists k, v, p'. split; [rewrite at_update by done; by left|done].
Qed.

Lemma effect_returned pcs s s' k v d p p' j w c : Inv pcs s → at_ pcs k v d p → effect v d p p' s s' →
  at_ (<[k := p']> pcs) j w c (PReturned None) → renamed (<[k := p']> pcs) c (disk s' !! c).
Proof.
  intros HI Hk E Hj. pose proof (effect_committed _ _ _ _ _ _ _ _ _ _ _ _ HI Hk E Hj eq_refl) as Hn.
  destruct (at_partial _ _ _ _ _ Hj) as [_ Hc]. rewrite (at_update _ _ _ _ _ p' _ _ _ _ Hk) in Hj.
  destruct Hj as [(-> & -> & -> & <-)|[Hne Hj]]; [by rewrite (eff_returned _ _ _ _ _ _ E)|].
  destruct (eff_disk _ _ _ _ _ _ E c Hc) as [-> | ->]; [|done].
  eapply renamed_mono; [done|apply E|by eapply inv_returned].
Qed.

(** A temp name another worker has, or nobody. *)
Lemma temp_kept pcs s s' k v d p p' q : Inv pcs s → at_ pcs k v d p → names s' !! q = names s !! q → partial q = true →
  (alive p = true → q ≠ w_tmp v) →
  names s' !! q = names s0 !! q ∨ ∃ j w c r, at_ (<[k := p']> pcs) j w c r ∧ alive r = true ∧ w_tmp w = q.
Proof.
  intros HI Hk Hn Hq Hne. rewrite Hn. destruct (inv_temps _ _ HI q Hq) as [?|(j & w & c & r & Hj & Hr & <-)]; [by left|right].
  exists j, w, c, r. split; [rewrite at_update by done; right|done]. split; [|done]. intros ->.
  assert (v = w ∧ p = r) as [<- <-] by (destruct Hk, Hj; naive_solver). by apply Hne.
Qed.

Lemma effect_temps pcs s s' k v d p p' q : Inv pcs s → at_ pcs k v d p → effect v d p p' s s' → partial q = true →
  names s' !! q = names s0 !! q ∨ ∃ j w c r, at_ (<[k := p']> pcs) j w c r ∧ alive r = true ∧ w_tmp w = q.
Proof.
  intros HI Hk E Hq. destruct (decide (q = w_tmp v)) as [->|Hne].
  - destruct (alive p') eqn:Hp'.
    { right. exists k, v, d, p'. split; [rewrite at_update by done; by left|done]. }
    destruct (alive p) eqn:Hp.
    + left. rewrite (eff_dropped _ _ _ _ _ _ E Hp Hp'). by destruct (inv_temp _ _ HI _ _ _ _ Hk Hp) as [_ ->].
    + eapply temp_kept; [done|exact Hk| |done|congruence]. by rewrite (eff_idle _ _ _ _ _ _ E).
  - eapply temp_kept; [done|exact Hk| |done|done]. by apply (eff_temps _ _ _ _ _ _ E).
Qed.

(** The invariant through one call. *)
Lemma Inv_effect pcs s s' k v d p p' : Inv pcs s → at_ pcs k v d p → effect v d p p' s s' → Inv (<[k := p']> pcs) s'.
Proof.
  intros HI Hk E. split.
  - intros j w c q Hj. rewrite (at_update _ _ _ _ _ p' _ _ _ _ Hk) in Hj. destruct Hj as [(-> & -> & -> & ->)|[Hne Hj]]; [apply E|].
    eapply data_ok_same; [|by eapply inv_data]. intros Hq. exact (other_inode _ _ _ _ _ _ _ _ _ _ _ _ HI Hk E Hj Hne Hq).
  - intros j w c q Hj Hq. rewrite (at_update _ _ _ _ _ p' _ _ _ _ Hk) in Hj. destruct Hj as [(-> & -> & -> & ->)|[Hne Hj]]; [|by eapply inv_inode].
    destruct (eff_active _ _ _ _ _ _ E Hq); [by eapply inv_inode|by eapply absent_inode].
  - intros j w c q Hj Hq. rewrite (at_update _ _ _ _ _ p' _ _ _ _ Hk) in Hj. destruct Hj as [(-> & -> & -> & ->)|[Hne Hj]].
    + destruct (eff_alive _ _ _ _ _ _ E Hq) as [-> Ho]. split; [done|]. destruct Ho as [Ho|Ho]; [by destruct (inv_temp _ _ HI _ _ _ _ Hk Ho)|].
      eapply absent_temp; [done| |done]. by eapply at_partial.
    + rewrite (other_temp _ _ _ _ _ _ _ _ _ _ _ _ HI Hk E Hj Hne Hq). exact (inv_temp _ _ HI _ _ _ _ Hj Hq).
  - assert (∀ j w c q, at_ pcs j w c q → j ≠ k → active q = true → active p' = true → w_inode w ≠ w_inode v) as Hd.
    { intros j w c q Hj Hne Hq Hp'. destruct (eff_active _ _ _ _ _ _ E Hp') as [Hp|Hp]; [by eapply (inv_distinct _ _ HI j k)|].
      intros Heq. pose proof (inv_data _ _ HI _ _ _ _ Hj) as Hd. rewrite <- Heq in Hp.
      destruct q; try done; cbn in Hd; destruct Hd; congruence. }
    intros j j' w w' c c' q q' Hj Hj' Hne Hq Hq'. rewrite (at_update _ _ _ _ _ p' j _ _ _ Hk) in Hj. rewrite (at_update _ _ _ _ _ p' j' _ _ _ Hk) in Hj'.
    destruct Hj as [(-> & -> & -> & ->)|[Hjk Hj]], Hj' as [(-> & -> & -> & ->)|[Hjk' Hj']]; [done| | |].
    + intros Heq. by eapply (Hd j').
    + by eapply Hd.
    + by eapply (inv_distinct _ _ HI j j').
  - intros j w c q Hj Hq. by eapply effect_committed.
  - intros j w c Hj. by eapply effect_returned.
  - intros i n. by eapply effect_old.
  - intros q Hq. by eapply effect_entries.
  - intros q Hq. by eapply effect_temps.
Qed.

(** ** Every call has such an effect *)

(** A call that changes no more than where its worker stands. *)
Lemma effect_none v d p p' s : active p = active p' → alive p = false → alive p' = false → committed p = committed p' →
  p' ≠ PReturned None → (data_ok v p s → data_ok v p' s) → data_ok v p s → effect v d p p' s s.
Proof. intros Ha Hp Hp' Hc Hr Hd Hd'. split; try done; rewrite ?Ha, ?Hc, ?Hp'; auto; intros; try congruence. Qed.

Lemma effect_create v d s : partial (w_tmp v) = true → partial d = false → names s !! w_tmp v = None → inodes s !! w_inode v = None →
  effect v d PStart (PFill 0) s (create (w_tmp v) (w_inode v) s).
Proof.
  intros Hp Hd Hn Hi. split; cbn; auto; try done.
  - intros i Hne. by rewrite lookup_insert_ne.
  - intros q Hne _. by rewrite lookup_insert_ne.
  - intros q Hq. left. rewrite lookup_insert_ne; congruence.
  - exists false. by rewrite lookup_insert_eq.
  - intros _. rewrite lookup_insert_eq. auto.
Qed.

(** A call on the open temp. *)
Lemma effect_write v d p p' f s : alive p = true → alive p' = true → names s !! w_tmp v = Some (w_inode v) →
  data_ok v p' (MkFs (alter f (w_inode v) (inodes s)) (names s) (disk s)) →
  effect v d p p' s (MkFs (alter f (w_inode v) (inodes s)) (names s) (disk s)).
Proof.
  intros Hp Hp' Hn Hd. assert (active p = true) as Ha by (unfold active; by rewrite Hp).
  assert (committed p = false ∧ committed p' = false) as [Hc Hc'] by (by destruct p, p').
  split; cbn [inodes names disk]; auto; try congruence; try (intros ->; done).
  intros i Hne. by rewrite lookup_alter_ne.
Qed.

Lemma effect_drop v d p e s : partial (w_tmp v) = true → alive p = true →
  effect v d p (PFailed e) s (remove (w_tmp v) s).
Proof.
  intros Hpt Hp. assert (active p = true) as Ha by (unfold active; by rewrite Hp).
  assert (committed p = false) as Hc by (by destruct p).
  split; cbn [remove inodes names disk active alive committed data_ok orb]; auto; try congruence.
  - intros q Hne _. by rewrite lookup_delete_ne.
  - intros q Hq. left. rewrite lookup_delete_ne; congruence.
  - intros _ _. by rewrite lookup_delete_eq.
Qed.

Lemma effect_rename v d s : partial (w_tmp v) = true → partial d = false → names s !! w_tmp v = Some (w_inode v) →
  data_ok v PSynced s → effect v d PSynced PRenamed s (rename (w_tmp v) d s).
Proof.
  intros Hp Hd Hn Hdata. unfold rename. rewrite Hn. split; cbn; auto; try done.
  - intros q Hne Hq. rewrite lookup_insert_ne by congruence. by rewrite lookup_delete_ne.
  - intros q Hq. destruct (decide (q = d)) as [->|Hne]; [right; by rewrite lookup_insert_eq|left].
    rewrite lookup_insert_ne by done. rewrite lookup_delete_ne; congruence.
  - intros _ _. rewrite lookup_insert_ne by congruence. by rewrite lookup_delete_eq.
  - intros _. right. by rewrite lookup_insert_eq.
Qed.

Lemma effect_sync v d s : data_ok v PRenamed s → effect v d PRenamed (PReturned None) s (syncDir (dirOf d) s).
Proof.
  intros Hdata. split; cbn [inodes names syncDir active alive committed]; auto; try done.
  - intros q _. rewrite syncDir_disk. case_decide; auto.
  - intros _. rewrite syncDir_disk. by rewrite decide_True.
Qed.

Lemma wstep_effect pcs s k v d p p' s' : Inv pcs s → at_ pcs k v d p → wstep v d p s = Some (p', s') → effect v d p p' s s'.
Proof.
  intros HI Hk. destruct (at_partial _ _ _ _ _ Hk) as [Hpt Hpd]. pose proof (inv_data _ _ HI _ _ _ _ Hk) as Hdata.
  pose proof (inv_temp _ _ HI _ _ _ _ Hk) as Ht. destruct p as [|n| | |e|e]; cbn [wstep]; try done.
  - destruct (w_mkdir v); [intros [= <- <-]; by apply effect_none|]. destruct (w_create v); [intros [= <- <-]; by apply effect_none|].
    destruct (names s !! w_tmp v) eqn:Hn; [done|]. destruct (inodes s !! w_inode v) eqn:Hi; [done|]. intros [= <- <-]. by apply effect_create.
  - destruct (Ht eq_refl) as [Hn _]. destruct ((w_fill v).1 !! n) as [op|] eqn:Hop.
    + intros [= <- <-]. apply effect_write; [done..|]. destruct Hdata as [b Hb]. exists false. cbn [inodes].
      rewrite lookup_alter_eq, Hb. cbn. by rewrite (take_S_r _ _ _ Hop), written_snoc.
    + destruct (w_fill v).2 eqn:Hf; [intros [= <- <-]; by apply effect_drop|]. destruct (w_sync v); [intros [= <- <-]; by apply effect_drop|].
      intros [= <- <-]. apply effect_write; [done..|]. destruct Hdata as [b Hb]. cbn. split; [|done].
      rewrite lookup_alter_eq, Hb. cbn. by rewrite take_ge by (by apply lookup_ge_None).
  - destruct (Ht eq_refl) as [Hn _].
    destruct (w_close v); [intros [= <- <-]; by apply effect_drop|]. destruct (w_ctx v); [intros [= <- <-]; by apply effect_drop|].
    destruct (w_chmod v); [intros [= <- <-]; by apply effect_drop|]. destruct (w_rename v); [intros [= <- <-]; by apply effect_drop|].
    intros [= <- <-]. by apply effect_rename.
  - destruct (w_syncdir v); intros [= <- <-]; [by apply effect_none|by apply effect_sync].
Qed.

(** Nothing has begun in the first state. *)
Lemma Inv_start : (∀ q, partial q = false → disk s0 !! q = names s0 !! q) → Inv (start s0).1 s0.
Proof.
  intros Hs. assert (∀ k v d p, at_ (start s0).1 k v d p → p = PStart) as Hp.
  { intros k v d p [_ Hk]. by apply lookup_replicate in Hk as [-> _]. }
  split; try done; try (intros k v d p Hk; rewrite (Hp _ _ _ _ Hk); done).
  - intros k k' v v' d d' p p' Hk _ _. by rewrite (Hp _ _ _ _ Hk).
  - intros k v d Hk. by specialize (Hp _ _ _ _ Hk).
  - intros q Hq. split; left; [done|by apply Hs].
  - intros q _. by left.
Qed.

Lemma Inv_reach w : (∀ q, partial q = false → disk s0 !! q = names s0 !! q) → rtc step (start s0) w → Inv w.1 w.2.
Proof.
  intros Hs Hr. refine (rtc_ind_r (R := step) (λ w, Inv w.1 w.2) (start s0) _ _ w Hr); [by apply Inv_start|].
  intros [pcs s] w' _ [k Hk] HI. unfold wturn in Hk. cbn [fst snd] in *.
  destruct (jobs !! k) as [[v d]|] eqn:Hj; [|done]. cbn in Hk. destruct (pcs !! k) as [p|] eqn:Hp; [|done]. cbn in Hk.
  destruct (wstep v d p s) as [[p' s']|] eqn:E; [|done]. injection Hk as <-. cbn.
  eapply Inv_effect; [done|split; done|]. by eapply wstep_effect.
Qed.

(** What a reader finds at a path, now or after a power loss, when the entry it
    follows is one of the two of the invariant. *)
Lemma entry_contents pcs s c q : Inv pcs s → settled s0 q → crash s c → entry_ok pcs q (names c !! q) →
  contents c q = contents s0 q ∨
  ∃ k v p, at_ pcs k v q p ∧ committed p = true ∧ (w_fill v).2 = None ∧ names c !! q = Some (w_inode v) ∧
    contents c q = Some (written (w_fill v).1).
Proof.
  intros HI [_ Hold] [_ Hi] [Hn|(k & v & p & Hk & Hc & Hn)]; unfold contents; rewrite Hn.
  - left. destruct (names s0 !! q) as [i|] eqn:Eq; [|done]. destruct (Hold i eq_refl) as (n & Hin & Hsy). cbn. rewrite Hin.
    destruct (Hi i n (inv_old _ _ HI _ _ Hin) Hsy) as (n' & -> & Hd). cbn. by rewrite Hd.
  - right. exists k, v, p. pose proof (inv_data _ _ HI _ _ _ _ Hk) as Hd.
    assert (inodes s !! w_inode v = Some (MkInode (written (w_fill v).1) true) ∧ (w_fill v).2 = None) as [Hin Hf] by (by destruct p).
    split_and!; try done. cbn. destruct (Hi _ _ Hin eq_refl) as (n' & -> & Hd'). cbn. by rewrite Hd'.
Qed.

Lemma crash_entry pcs s c q : Inv pcs s → crash s c → partial q = false → entry_ok pcs q (names c !! q).
Proof. intros HI [Hn _] Hq. destruct (inv_entries _ _ HI q Hq). by destruct (Hn q) as [-> | ->]. Qed.

Lemma crash_renamed pcs s c k v d : Inv pcs s → crash s c → at_ pcs k v d (PReturned None) → renamed pcs d (names c !! d).
Proof.
  intros HI [Hn _] Hk. destruct (Hn d) as [-> | ->]; [by eapply inv_committed|by eapply inv_returned].
Qed.
End invariant.

Lemma crash_refl s : crash s s.
Proof. split; [by left|]. eauto. Qed.


(** ** Every worker returns *)

Definition calls_left (j : wenv * string) (p : pc) : nat :=
  let n := length (w_fill j.1).1 in
  match p with PStart => n + 4 | PFill k => (n - k) + 3 | PSynced => 2 | PRenamed => 1 | PFailed _ | PReturned _ => 0 end.

Lemma wstep_calls v d p s p' s' : wstep v d p s = Some (p', s') → calls_left (v, d) p' < calls_left (v, d) p.
Proof.
  destruct p; cbn [wstep]; intros H; repeat case_match; simplify_eq; cbn; try lia.
  apply lookup_lt_Some in H0. lia.
Qed.

Definition total (pcs : list pc) : nat := sum_list (zip_with calls_left jobs pcs).

Lemma step_total w w' : step w w' → total w'.1 < total w.1.
Proof.
  intros [k Hk]. destruct w as [pcs s]. unfold wturn in Hk. cbn [fst snd] in *.
  destruct (jobs !! k) as [[v d]|] eqn:Hj; [|done]. cbn in Hk. destruct (pcs !! k) as [p|] eqn:Hp; [|done]. cbn in Hk.
  destruct (wstep v d p s) as [[p' s']|] eqn:E; [|done]. injection Hk as <-. cbn [fst]. unfold total.
  pose proof (wstep_calls _ _ _ _ _ _ E) as Hc.
  assert (zip_with calls_left jobs pcs !! k = Some (calls_left (v, d) p)) as Hz by (rewrite lookup_zip_with, Hj; cbn; by rewrite Hp).
  assert (zip_with calls_left jobs (<[k := p']> pcs) = <[k := calls_left (v, d) p']> (zip_with calls_left jobs pcs)) as ->.
  { rewrite <- (list_insert_id jobs k (v, d)) at 1 by done. by rewrite <- insert_zip_with. }
  pose proof (sum_insert id _ _ _ (calls_left (v, d) p') Hz) as Hs.
  rewrite !list_fmap_id in Hs. cbn beta delta [id] in Hs. clear - Hs Hc. lia.
Qed.

(** The workers make a bounded number of calls, whatever the schedule, and one that
    has not returned can always make its next call, save for a temp name that is
    taken, where [os.CreateTemp] tries another. *)
Theorem workers_terminate n s w : nsteps step n (start s) w → n + total w.1 ≤ total (start s).1.
Proof.
  intros Hn. revert Hn. generalize (start s). intros w0 Hn. induction Hn as [w0|n w0 w1 w2 H1 _ IH]; [done|].
  pose proof (step_total _ _ H1). lia.
Qed.

Lemma worker_goes_on v d p s : returned p = None → (p = PStart → names s !! w_tmp v = None ∧ inodes s !! w_inode v = None) →
  is_Some (wstep v d p s).
Proof.
  intros Hp Hs. destruct p; cbn [wstep] in *; try done.
  - destruct (Hs eq_refl) as [-> ->]. repeat case_match; eauto.
  - repeat case_match; eauto.
  - repeat case_match; eauto.
  - repeat case_match; eauto.
Qed.
End workers.

(** ** A worker alone *)

Fixpoint solo (fuel : nat) (v : wenv) (dest : string) (p : pc) (s : fs) : pc * fs :=
  match fuel with
  | O => (p, s)
  | S fuel => match wstep v dest p s with Some (p', s') => solo fuel v dest p' s' | None => (p, s) end
  end.

Lemma solo_step fuel v dest p s :
  solo (S fuel) v dest p s = match wstep v dest p s with Some (p', s') => solo fuel v dest p' s' | None => (p, s) end.
Proof. done. Qed.

Lemma solo_failed fuel v dest e s : solo fuel v dest (PFailed e) s = (PFailed e, s).
Proof. by destruct fuel. Qed.

Lemma solo_fill v dest n fuel s : n ≤ length (w_fill v).1 → 
  solo (length (w_fill v).1 - n + fuel) v dest (PFill n) s =
  solo fuel v dest (PFill (length (w_fill v).1)) (foldl (fill_step (w_inode v)) s (drop n (w_fill v).1)).
Proof.
  intros Hn. remember (length (w_fill v).1 - n) as m eqn:Hm. revert n s Hn Hm. induction m as [|m IH]; intros n s Hn Hm.
  - assert (n = length (w_fill v).1) as -> by lia. by rewrite drop_ge.
  - destruct (lookup_lt_is_Some_2 (w_fill v).1 n) as [op Hop]; [lia|]. rewrite (drop_S _ _ _ Hop). cbn [Nat.add solo wstep foldl].
    rewrite Hop. apply IH; lia.
Qed.

(** Run by itself, a worker is [CommitWrite] of Files.v: the same answer, the same
    files under the same names, and the directory of the destination equally on disk. *)
Theorem alone_is_CommitWrite v dest s : fresh v dest s → ∃ p s',
  solo (length (w_fill v).1 + 4) v dest PStart s = (p, s') ∧ returned p = Some (CommitWrite v dest s).2 ∧
  let s1 := last_state s (CommitWrite v dest s) in
  inodes s' = inodes s1 ∧ names s' = names s1 ∧ ∀ q, dirOf q = dirOf dest → disk s' !! q = disk s1 !! q.
Proof.
  intros (Hn & _ & _ & Hi & _). replace (length (w_fill v).1 + 4) with (S (length (w_fill v).1 - 0 + 3)) by lia.
  rewrite solo_step. unfold CommitWrite. cbn [wstep].
  destruct (w_mkdir v); [rewrite solo_failed; by eexists _, _|]. destruct (w_create v); [rewrite solo_failed; by eexists _, _|].
  rewrite Hn, Hi. rewrite solo_fill, drop_0 by lia. generalize (foldl (fill_step (w_inode v)) (create (w_tmp v) (w_inode v) s) (w_fill v).1).
  intros s1. cbn [solo wstep]. rewrite lookup_ge_None_2 by done.
  destruct (w_fill v).2; [eexists _, _; unfold abandon; rewrite last_state_app; done|].
  destruct (w_sync v); [eexists _, _; unfold abandon; rewrite last_state_app; done|]. cbn [solo wstep].
  destruct (w_close v); [eexists _, _; unfold abandon; rewrite last_state_app; done|].
  destruct (w_ctx v); [eexists _, _; unfold abandon; rewrite last_state_app; done|]. unfold commitFile.
  destruct (w_chmod v); [eexists _, _; cbn [fst snd]; rewrite last_state_app; done|].
  destruct (w_rename v); [eexists _, _; cbn [fst snd]; rewrite last_state_app; done|]. cbn [solo wstep].
  destruct (w_syncdir v); [eexists _, _; cbn [fst snd]; rewrite last_state_app; done|].
  eexists _, _. cbn [fst snd]. split; [done|]. split; [done|].
  match goal with |- context [?l ++ [?a; ?b]] => change (l ++ [a; b]) with (l ++ [a] ++ [b]) end.
  rewrite app_assoc, last_state_app. cbv zeta. split_and!; [done..|]. intros q Hq. rewrite syncDir_disk. by rewrite decide_True.
Qed.

(** ** Example *)

Fixpoint turns (jobs : list (wenv * string)) (ks : list nat) (w : world) : option world :=
  match ks with [] => Some w | k :: ks => w ← wturn jobs k w; turns jobs ks w end.

Lemma turns_rtc jobs ks w w' : turns jobs ks w = Some w' → rtc (step jobs) w w'.
Proof.
  revert w. induction ks as [|k ks IH]; intros w; cbn; [by intros [= <-]|].
  destruct (wturn jobs k w) as [w1|] eqn:E; [|done]. intros Hr. eapply rtc_l; [by apply (step_intro _ _ _ k)|by apply IH].
Qed.

(** One worker replaces ["d/a"], the other writes ["d/b"]; the first returns while the
    second is in its fill. *)
Definition ex_jobs : list (wenv * string) :=
  [(ex_wenv None, "d/a");
   (MkW "d/b.2.partial" 3 None None ([FWrite [Byte.x44]; FWrite [Byte.x45]], None) None None None None None None, "d/b")].

Definition ex_schedule : list nat := [0; 1; 0; 1; 0; 0; 0; 0].

Definition ex_world : world := default (start ex_jobs ex_fs) (turns ex_jobs ex_schedule (start ex_jobs ex_fs)).

Lemma ex_settled_all q : partial q = false → settled ex_fs q.
Proof.
  intros _. split; [done|]. intros i Hi. unfold ex_fs in *. cbn [names inodes] in *.
  apply lookup_singleton_Some in Hi as [_ <-]. by eexists.
Qed.

End Workers.
