(* ===== verification/Restore.v ===== *)
(** * Restore: the hash-arbitrated decode

    [src/internal/domain/restore.go]: [decodeStream] peeks four bytes of the
    stored object, decodes it as zstd when they are the frame magic and falls
    back to the raw bytes when that does not produce the wanted hash;
    [copyVerify] is the one bounded, hashing copy; [restoreObjectTo] commits
    the plaintext through the durable-write spine of Files.v and
    [VerifyObject] discards it.

    The readers are modelled layer by layer, as the code stacks them: the
    source's script (Stream.v), [ctxReader], [bufio.Reader] with its deferred
    error, [errTrackingReader] and the two [io.LimitReader]s. The zstd decoder
    is a parameter: a machine that asks for source bytes and emits plaintext
    ([Decoder]). What the round trip needs of it is stated with [feeds]: given
    a frame in any chunking, it emits the plaintext and ends. *)

From S2P Require Import Prelude GoRuntime Stream Fanout Files.
From Stdlib Require Import ZArith Lia.
From stdpp Require Import base gmap strings list numbers.

Module Restore.
Import Stream Files.
Import Fanout(Zstd, zenc, encode, Codec, CodecNone, CodecZstd, maxObjectBytes).

#[global] Instance byte_eq_dec : EqDecision Byte.byte := Byte.byte_eq_dec.

Definition maxCompressedBytes : Z := maxObjectBytes + Z.shiftr maxObjectBytes 6 + Z.shiftl 1 20.

Definition zstdMagic : bytes := [Byte.x28; Byte.xb5; Byte.x2f; Byte.xfd].

Definition bufSize : nat := N.to_nat 8192.
Definition copyBuf : nat := N.to_nat 32768.

(** [min k n] without building the number [n]. *)
Definition clamp (k : nat) (n : Z) : nat := if (Z.of_nat k <=? n)%Z then k else Z.to_nat n.

(** ** Reader objects

    One [Read] into a buffer of the given length; [None]: it does not return. *)
Definition rdr (St : Type) : Type := nat → St → option (St * attempt (bytes * goerr)).

(** *** ctxReader *)

Record csrc := MkC { c_n : nat; c_r : reader }.

Section ctx.
Context (ctx : nat → ctxState).

Definition ctxReadP (k : nat) (s : csrc) : csrc * attempt (bytes * goerr) :=
  match ctx (c_n s) with
  | Some c => (MkC (S (c_n s)) (c_r s), Returns ([], Some (ctx_error c)))
  | None => let '(r, a) := read k (c_r s) in (MkC (S (c_n s)) r, a)
  end.

Definition ctxRead : rdr csrc := λ k s, Some (ctxReadP k s).

(** *** bufio.Reader *)

Record bufio := MkB { b_buf : bytes; b_err : goerr; b_src : csrc }.

Definition errNoProgress : err := Msg "multiple Read calls return no data or error".

Fixpoint fill (tries : nat) (b : bufio) : bufio * attempt unit :=
  match tries with
  | O => (MkB (b_buf b) (Some errNoProgress) (b_src b), Returns tt)
  | S tries =>
      match ctxReadP (bufSize - length (b_buf b)) (b_src b) with
      | (s, Panics x) => (MkB (b_buf b) (b_err b) s, Panics x)
      | (s, Returns (p, e)) =>
          let b := MkB (b_buf b ++ p) e s in
          match e with
          | Some _ => (b, Returns tt)
          | None => if 0 <? length p then (b, Returns tt) else fill tries b
          end
      end
  end.

(** The loop of [Peek n]: every round adds a byte or sets the error, so [n]
    rounds suffice. *)
Fixpoint peek_loop (rounds n : nat) (b : bufio) : bufio * attempt unit :=
  match rounds with
  | O => (b, Returns tt)
  | S rounds =>
      if (length (b_buf b) <? n) && bool_decide (b_err b = None) then
        match fill 100 b with
        | (b, Panics x) => (b, Panics x)
        | (b, Returns _) => peek_loop rounds n b
        end
      else (b, Returns tt)
  end.

(** [readErr] clears the pending error as it reports it. *)
Definition Peek (n : nat) (b : bufio) : bufio * attempt (bytes * goerr) :=
  match peek_loop (S n) n b with
  | (b, Panics x) => (b, Panics x)
  | (b, Returns _) =>
      if length (b_buf b) <? n
      then (MkB (b_buf b) None (b_src b), Returns (b_buf b, Some (default (Msg "bufio: buffer full") (b_err b))))
      else (b, Returns (take n (b_buf b), None))
  end.

Definition bufReadP (k : nat) (b : bufio) : bufio * attempt (bytes * goerr) :=
  match b_buf b with
  | _ :: _ => (MkB (drop k (b_buf b)) (b_err b) (b_src b), Returns (take k (b_buf b), None))
  | [] =>
      match b_err b with
      | Some e => (MkB [] None (b_src b), Returns ([], Some e))
      | None =>
          if bufSize <=? k then
            let '(s, a) := ctxReadP k (b_src b) in (MkB [] None s, a)
          else
            match ctxReadP bufSize (b_src b) with
            | (s, Panics x) => (MkB [] None s, Panics x)
            | (s, Returns (p, e)) =>
                if 0 <? length p then (MkB (drop k p) e s, Returns (take k p, None))
                else (MkB [] None s, Returns ([], e))
            end
      end
  end.

Definition bufRead : rdr bufio := λ k b, Some (bufReadP k b).

(** *** LimitReader over errTrackingReader *)

Record tracked := MkT { t_b : bufio; t_err : goerr; t_n : Z }.

Definition trackRead (k : nat) (t : tracked) : tracked * attempt (bytes * goerr) :=
  match bufReadP k (t_b t) with
  | (b, Panics x) => (MkT b (t_err t) (t_n t), Panics x)
  | (b, Returns (p, e)) => (MkT b (match e with Some _ => e | None => t_err t end) (t_n t), Returns (p, e))
  end.

Definition capRead (k : nat) (t : tracked) : tracked * attempt (bytes * goerr) :=
  if (t_n t <=? 0)%Z then (t, Returns ([], Some (Sent EOF)))
  else
    match trackRead (clamp k (t_n t)) t with
    | (t, Panics x) => (t, Panics x)
    | (t, Returns (p, e)) => (MkT (t_b t) (t_err t) (t_n t - Z.of_nat (length p)), Returns (p, e))
    end.
End ctx.

(** ** The zstd decoder

    What it does next: read the source, report that [Reset] is done, emit
    plaintext, end (nil is a clean end of the frames), or panic. *)
Inductive daction (D : Type) :=
  | ARead (size : nat) (k : bytes → goerr → D)
  | AReady (s : D)
  | AOut (bs : bytes) (s : D)
  | AEnd (e : goerr)
  | APanic (r : string).
Arguments ARead {D} size k.
Arguments AReady {D} s.
Arguments AOut {D} bs s.
Arguments AEnd {D} e.
Arguments APanic {D} r.

Class Decoder := { dstate : Type; dinit : dstate; dstep : dstate → daction dstate }.

Section decode.
Context `{Decoder} (sum : bytes → string).

(** [getZstdDecoder]: [Reset] may already read the source. *)
Fixpoint getZstdDecoder (ctx : nat → ctxState) (fuel : nat) (s : dstate) (t : tracked)
    : option (tracked * attempt (dstate + err)) :=
  match fuel with
  | O => None
  | S fuel =>
      match dstep s with
      | ARead size k =>
          match capRead ctx size t with
          | (t, Panics x) => Some (t, Panics x)
          | (t, Returns (p, e)) => getZstdDecoder ctx fuel (k p e) t
          end
      | AReady s => Some (t, Returns (inl s))
      | AEnd (Some e) => Some (t, Returns (inr e))
      | AEnd None | AOut _ _ => Some (t, Returns (inl s))
      | APanic x => Some (t, Panics x)
      end
  end.

Record zdec := MkZ { z_s : dstate; z_out : bytes; z_t : tracked }.

(** The decoder's [Read]. *)
Fixpoint zstdRead (ctx : nat → ctxState) (fuel k : nat) (z : zdec) : option (zdec * attempt (bytes * goerr)) :=
  match z_out z with
  | _ :: _ => Some (MkZ (z_s z) (drop k (z_out z)) (z_t z), Returns (take k (z_out z), None))
  | [] =>
      match fuel with
      | O => None
      | S fuel =>
          match dstep (z_s z) with
          | ARead size f =>
              match capRead ctx size (z_t z) with
              | (t, Panics x) => Some (MkZ (z_s z) [] t, Panics x)
              | (t, Returns (p, e)) => zstdRead ctx fuel k (MkZ (f p e) [] t)
              end
          | AReady s => zstdRead ctx fuel k (MkZ s [] (z_t z))
          | AOut bs s => zstdRead ctx fuel k (MkZ s bs (z_t z))
          | AEnd e => Some (z, Returns ([], Some (default (Sent EOF) e)))
          | APanic x => Some (z, Panics x)
          end
      end
  end.

(** ** copyVerify *)

(** [w_fault n]: the [n]-th write to dst stops after some bytes with an error. *)
Section copy.
Context {St : Type} (rd : rdr St) (w_fault : nat → option (nat * err)).

Definition dstWrite (w : list fillop) (p : bytes) : list fillop * goerr :=
  match w_fault (length w) with
  | None => (w ++ [FWrite p], None)
  | Some (k, e) => (w ++ [FWrite (take k p)], Some e)
  end.

(** [io.Copy(io.MultiWriter(dst, h), io.LimitReader(src, lim))]; [acc] is what
    the hash has been fed. *)
Fixpoint copyLoop (fuel : nat) (st : St) (w : list fillop) (acc : bytes) (lim : Z)
    : option (St * list fillop * attempt (bytes * goerr)) :=
  match fuel with
  | O => None
  | S fuel =>
      if (lim <=? 0)%Z then Some (st, w, Returns (acc, None))
      else
        r ← rd (clamp copyBuf lim) st;
        match r with
        | (st, Panics x) => Some (st, w, Panics x)
        | (st, Returns (p, e)) =>
            match (if 0 <? length p then dstWrite w p else (w, None)) with
            | (w, Some we) => Some (st, w, Returns (acc, Some we))
            | (w, None) =>
                match e with
                | None => copyLoop fuel st w (acc ++ p) (lim - Z.of_nat (length p))
                | Some e => Some (st, w, Returns (acc ++ p, if is_EOF (Some e) then None else Some e))
                end
            end
        end
  end.

(** (overCap, err). *)
Definition copyVerify (fuel : nat) (st : St) (w : list fillop) (want : string)
    : option (St * list fillop * attempt (bool * goerr)) :=
  r ← copyLoop fuel st w [] (maxObjectBytes + 1);
  let '(st, w, a) := r in
  Some (st, w,
    match a with
    | Panics x => Panics x
    | Returns (_, Some e) => Returns (false, Some e)
    | Returns (acc, None) =>
        if (maxObjectBytes <? Z.of_nat (length acc))%Z then Returns (true, None)
        else if bool_decide (sum acc = want) then Returns (false, None)
        else Returns (false, Some (Sent errHashMismatch))
    end).

Definition errOverCap : err := Msg "integrity: stored bytes exceed the restore cap".
Definition errNeither : err := Msg "integrity: stored bytes are neither valid zstd nor the plaintext".

Definition decodeRaw (fuel : nat) (st : St) (w : list fillop) (hash : string) : option (list fillop * attempt goerr) :=
  r ← copyVerify fuel st w hash;
  let '(_, w, a) := r in
  Some (w,
    match a with
    | Panics x => Panics x
    | Returns (overCap, e) =>
        match e, overCap with
        | Some e', _ =>
            if negb (Is e' errHashMismatch) then Returns (Some (Wrap "read" [e']))
            else if overCap : bool then Returns (Some errOverCap) else Returns (Some errNeither)
        | None, true => Returns (Some errOverCap)
        | None, false => Returns None
        end
    end).
End copy.

(** ** decodeStream *)

(** The source's answers ([Fetch] may be called twice), the context at each
    read of each fetched stream, dst's write faults, and the reset callback's
    result ([None] when there is no callback). *)
Record denv := MkD {
  d_fetch : nat → attempt (reader + err);
  d_ctx : nat → nat → ctxState;
  d_fault : nat → option (nat * err);
  d_reset : option goerr;
}.

Definition sourceFault (t : tracked) : option err :=
  match t_err t with
  | Some e => if negb (Is e EOF) then Some (Wrap "zstd source read" [e]) else None
  | None => None
  end.

Definition decodeZstd (v : denv) (fuel : nat) (b : bufio) (hash : string)
    : option (list fillop * attempt goerr) :=
  g ← getZstdDecoder (d_ctx v 0) fuel dinit (MkT b None maxCompressedBytes);
  match g with
  | (_, Panics x) => Some ([], Panics x)
  | (t, Returns (inr e)) => Some ([], Returns (Some (default (Sent errTryRaw) (sourceFault t))))
  | (t, Returns (inl s)) =>
      r ← copyVerify (zstdRead (d_ctx v 0) fuel) (d_fault v) fuel (MkZ s [] t) [] hash;
      let '(z, w, a) := r in
      Some (w,
        match a with
        | Panics x => Panics x
        | Returns (overCap, verr) =>
            match sourceFault (z_t z) with
            | Some e => Returns (Some e)
            | None => if overCap || bool_decide (verr ≠ None) then Returns (Some (Sent errTryRaw)) else Returns None
            end
        end)
  end.

(** What was written to dst, and the result. *)
Definition decodeStreamInner (v : denv) (fuel : nat) (hash : string) : option (list fillop * attempt goerr) :=
  match d_fetch v 0 with
  | Panics x => Some ([], Panics x)
  | Returns (inr e) => Some ([], Returns (Some e))
  | Returns (inl rc) =>
      match Peek (d_ctx v 0) 4 (MkB [] None (MkC 0 rc)) with
      | (_, Panics x) => Some ([], Panics x)
      | (br, Returns (magic, perr)) =>
          if bool_decide (perr ≠ None) && negb (errors_Is perr EOF)
          then Some ([], Returns (Some (Wrap "peek magic" (omap id [perr]))))
          else if bool_decide (magic = zstdMagic) then
            r ← decodeZstd v fuel br hash;
            match r with
            | (w, Panics x) => Some (w, Panics x)
            | (w, Returns None) => Some (w, Returns None)
            | (w, Returns (Some derr)) =>
                if negb (Is derr errTryRaw) then Some (w, Returns (Some derr))
                else
                  match (match d_reset v with Some (Some e) => Some e | _ => None end) with
                  | Some e => Some (w, Returns (Some e))
                  | None =>
                      let w := match d_reset v with Some None => w ++ [FTruncate] | _ => w end in
                      match d_fetch v 1 with
                      | Panics x => Some (w, Panics x)
                      | Returns (inr e) => Some (w, Returns (Some e))
                      | Returns (inl rc2) => decodeRaw (ctxRead (d_ctx v 1)) (d_fault v) fuel (MkC 0 rc2) w hash
                      end
                  end
            end
          else decodeRaw (bufRead (d_ctx v 0)) (d_fault v) fuel br [] hash
      end
  end.

(** [decodeStream]: the abandonable call around it. *)
Definition decodeStream (arm : select_arm) (ctx : ctxState) (v : denv) (fuel : nat) (hash : string)
    : option (list fillop * goerr) :=
  r ← decodeStreamInner v fuel hash;
  Some (r.1, callWithCtx arm ctx r.2).

Definition VerifyObject (arm : select_arm) (ctx : ctxState) (v : denv) (fuel : nat) (hash : string) : option goerr :=
  match ValidateContentHash hash with
  | Some e => Some (Some e)
  | None => snd <$> decodeStream arm ctx v fuel hash
  end.

(** ** restoreObjectTo *)

(** [ro_open]: the reader of an existing file at the destination. *)
Record renv := MkR {
  ro_open : option reader; ro_ctx : nat → ctxState;
  ro_ctx_after : ctxState;                      (* ctx.Err() after the check *)
  ro_decode : denv; ro_arm : select_arm; ro_arm_ctx : ctxState;
  ro_commit : wenv;                             (* its [w_fill] is not used *)
}.

Definition with_fill (v : wenv) (f : list fillop * goerr) : wenv :=
  MkW (w_tmp v) (w_inode v) (w_mkdir v) (w_create v) f (w_sync v) (w_close v) (w_ctx v)
      (w_chmod v) (w_rename v) (w_syncdir v).

(** The check of a file already at the destination. *)
Definition intact (v : renv) (fuel : nat) (hash : string) : option (attempt bool) :=
  match ro_open v with
  | None => Some (Returns false)
  | Some r =>
      x ← copyVerify (ctxRead (ro_ctx v)) (λ _, None) fuel (MkC 0 r) [] hash;
      Some (match x.2 with
            | Panics p => Panics p
            | Returns (overCap, verr) => Returns (bool_decide (verr = None) && negb overCap)
            end)
  end.

(** (states gone through, (skipped, err)). *)
Definition restoreObjectTo (v : renv) (fuel : nat) (hash dest : string) (s : fs)
    : option (list fs * attempt (bool * goerr)) :=
  match ValidateContentHash hash with
  | Some e => Some ([], Returns (false, Some e))
  | None =>
      ok ← intact v fuel hash;
      match ok with
      | Panics x => Some ([], Panics x)
      | Returns true => Some ([], Returns (true, None))
      | Returns false =>
          match (match ro_open v with Some _ => ctxErr (ro_ctx_after v) | None => None end) with
          | Some e => Some ([], Returns (false, Some e))
          | None =>
              f ← decodeStream (ro_arm v) (ro_arm_ctx v) (ro_decode v) fuel hash;
              let r := CommitWrite (with_fill (ro_commit v) f) dest s in
              Some (r.1, Returns (false, r.2))
          end
      end
  end.

Definition RestoreObject (v : renv) (fuel : nat) (hash dest : string) (s : fs) : option (list fs * attempt goerr) :=
  r ← restoreObjectTo v fuel hash dest s;
  Some (r.1, match r.2 with Returns (_, e) => Returns e | Panics x => Panics x end).
End decode.
(** ** Lemmas: the copy *)

Lemma written_app ops ops' : written (ops ++ ops') = foldl fill_data (written ops) ops'.
Proof. unfold written. by rewrite foldl_app. Qed.

Lemma written_truncate ops : written (ops ++ [FTruncate]) = [].
Proof. by rewrite written_app. Qed.

Section copy_lemmas.
Context (sum : bytes → string) {St : Type} (rd : rdr St) (w_fault : nat → option (nat * err)).

(** A copy that ends without an error fed the hash what it wrote. *)
Lemma copyLoop_written fuel st w acc lim st' w' acc' :
  copyLoop rd w_fault fuel st w acc lim = Some (st', w', Returns (acc', None)) →
  ∃ d, acc' = acc ++ d ∧ written w' = written w ++ d.
Proof.
  revert st w acc lim. induction fuel as [|fuel IH]; intros st w acc lim Hc; [done|]. cbn [copyLoop] in Hc.
  destruct (lim <=? 0)%Z; [simplify_eq; exists []; by rewrite !app_nil_r|].
  destruct (rd _ st) as [[st1 [[p e]|x]]|]; cbn [mbind option_bind] in Hc; try done.
  assert (∃ w1 we, (if 0 <? length p then dstWrite w_fault w p else (w, None)) = (w1, we) ∧
    (we = None → written w1 = written w ++ p)) as (w1 & we & Ew & Hw).
  { destruct p as [|c p]; cbn; [eexists _, _; split; [done|]; by rewrite app_nil_r|].
    unfold dstWrite. destruct (w_fault (length w)) as [[k x]|]; eexists _, _; (split; [done|]); [done|].
    intros _. by rewrite written_app. }
  rewrite Ew in Hc. destruct we as [we|]; [done|]. specialize (Hw eq_refl).
  destruct e as [e|].
  - simplify_eq. exists p. by rewrite Hw.
  - destruct (IH _ _ _ _ Hc) as (d & -> & Hd). exists (p ++ d). by rewrite Hd, Hw, !app_assoc.
Qed.

Lemma copyVerify_ok fuel st w want st' w' :
  copyVerify sum rd w_fault fuel st w want = Some (st', w', Returns (false, None)) →
  ∃ d, written w' = written w ++ d ∧ sum d = want ∧ (Z.of_nat (length d) ≤ maxObjectBytes)%Z.
Proof.
  unfold copyVerify. destruct (copyLoop _ _ _ _ _ _ _) as [[[st1 w1] [[acc [e|]]|x]]|] eqn:Ec; cbn; try done.
  destruct (maxObjectBytes <? _)%Z eqn:El; [done|]. case_bool_decide as Hs; [|done]. intros [= <- <-].
  apply copyLoop_written in Ec as (d & -> & Hd). cbn in *. to_prop. eauto.
Qed.

Lemma decodeRaw_ok fuel st w want w' :
  decodeRaw sum rd w_fault fuel st w want = Some (w', Returns None) →
  ∃ d, written w' = written w ++ d ∧ sum d = want ∧ (Z.of_nat (length d) ≤ maxObjectBytes)%Z.
Proof.
  unfold decodeRaw. destruct (copyVerify _ _ _ _ _ _ _) as [[[st1 w1] [[[] [e|]]|x]]|] eqn:Ec; cbn; try done.
  - by destruct (negb _).
  - by destruct (negb _).
  - intros [= <-]. by eapply copyVerify_ok.
Qed.

(** The reader still delivers [i], then the error [e], in reads of any size;
    [Q] holds of every state it goes through. *)
Context (Q : St → Prop).

Fixpoint delivers (n : nat) (st : St) (i : bytes) (e : err) : Prop :=
  match n with
  | O => False
  | S n =>
      Q st ∧ ∀ k, 1 ≤ k →
        (∃ st' p q, rd k st = Some (st', Returns (p, None)) ∧ p ≠ [] ∧ length p ≤ k ∧ i = p ++ q ∧ delivers n st' q e) ∨
        (∃ st', rd k st = Some (st', Returns ([], Some e)) ∧ i = [] ∧ Q st')
  end.

Lemma delivers_Q n st i e : delivers n st i e → Q st.
Proof. destruct n; [done|]. by intros [? _]. Qed.

Lemma clamp_pos k n : 1 ≤ k → (0 < n)%Z → 1 ≤ clamp k n.
Proof. unfold clamp. intros. case_match; to_prop; lia. Qed.

Lemma copyBuf_pos : 1 ≤ copyBuf.
Proof. unfold copyBuf. lia. Qed.

(** Copying a stream that fits under the cap, into a dst that takes it. *)
Lemma copy_delivers n st i e fuel w acc lim : (∀ k, length w ≤ k → w_fault k = None) →
  delivers n st i e → n ≤ fuel → (Z.of_nat (length i) < lim)%Z →
  ∃ st' w', copyLoop rd w_fault fuel st w acc lim =
    Some (st', w', Returns (acc ++ i, if is_EOF (Some e) then None else Some e)) ∧
    written w' = written w ++ i ∧ Q st'.
Proof.
  revert st i fuel w acc lim.
  induction n as [|n IH]; intros st i fuel w acc lim Hf Hd Hn Hlim; [done|].
  destruct fuel as [|fuel]; [lia|]. cbn [delivers] in Hd. destruct Hd as [HQ Hd]. cbn [copyLoop].
  rewrite (proj2 (Z.leb_gt lim 0)) by lia.
  destruct (Hd (clamp copyBuf lim)) as [(st1 & p & q & -> & Hp & Hk & -> & Hq)|(st1 & -> & -> & HQ1)].
  { apply clamp_pos; [apply copyBuf_pos|lia]. }
  - cbn [mbind option_bind]. rewrite (proj2 (Nat.ltb_lt 0 (length p))) by (destruct p; [done|simpl; lia]).
    unfold dstWrite. rewrite Hf by done.
    edestruct (IH st1 q fuel (w ++ [FWrite p]) (acc ++ p) (lim - Z.of_nat (length p))%Z) as (st' & w' & -> & Hw & HQ');
      [intros j Hj; apply Hf; rewrite length_app in Hj; lia|done|lia|rewrite length_app in Hlim; lia|].
    exists st', w'. rewrite <- app_assoc. split_and!; [done| |done].
    rewrite Hw, written_app. cbn. by rewrite <- app_assoc.
  - cbn. eexists _, _. split_and!; [done|by rewrite app_nil_r|done].
Qed.

(** Whatever the cap and dst's faults, the copy returns. *)
Lemma copy_returns n st i e fuel w acc lim : delivers n st i e → n ≤ fuel →
  ∃ st' w' r, copyLoop rd w_fault fuel st w acc lim = Some (st', w', Returns r) ∧ Q st'.
Proof.
  revert st i fuel w acc lim. induction n as [|n IH]; intros st i fuel w acc lim Hd Hn; [done|].
  destruct fuel as [|fuel]; [lia|]. cbn [delivers] in Hd. destruct Hd as [HQ Hd]. cbn [copyLoop].
  destruct (lim <=? 0)%Z eqn:El; [by eauto 6|]. to_prop.
  destruct (Hd (clamp copyBuf lim)) as [(st1 & p & q & -> & Hp & Hk & -> & Hq)|(st1 & -> & -> & HQ1)].
  { apply clamp_pos; [apply copyBuf_pos|lia]. }
  - cbn [mbind option_bind]. destruct (if 0 <? length p then _ else _) as [w1 [we|]].
    + eexists _, _, _. split; [done|]. by apply delivers_Q in Hq.
    + eapply IH; [done|lia].
  - cbn. by eauto 6.
Qed.

(** A clean stream verifies; a broken one is a read error, never a mismatch. *)
Lemma decodeRaw_delivers n st i fuel w want : (∀ k, length w ≤ k → w_fault k = None) →
  delivers n st i (Sent EOF) → n ≤ fuel → (Z.of_nat (length i) ≤ maxObjectBytes)%Z → sum i = want →
  ∃ w', decodeRaw sum rd w_fault fuel st w want = Some (w', Returns None) ∧ written w' = written w ++ i.
Proof.
  intros Hf Hd Hn Hlen Hsum. unfold decodeRaw, copyVerify.
  destruct (copy_delivers n st i (Sent EOF) fuel w [] (maxObjectBytes + 1) Hf Hd Hn) as (st' & w' & -> & Hw & _); [lia|].
  cbn. rewrite (proj2 (Z.ltb_ge _ _)) by done. rewrite (bool_decide_eq_true_2 (sum i = want)) by done.
  eexists. split; [reflexivity|done].
Qed.

Lemma decodeRaw_mismatch n st i fuel w want : (∀ k, length w ≤ k → w_fault k = None) →
  delivers n st i (Sent EOF) → n ≤ fuel → (Z.of_nat (length i) ≤ maxObjectBytes)%Z → sum i ≠ want →
  ∃ w', decodeRaw sum rd w_fault fuel st w want = Some (w', Returns (Some errNeither)).
Proof.
  intros Hf Hd Hn Hlen Hsum. unfold decodeRaw, copyVerify.
  destruct (copy_delivers n st i (Sent EOF) fuel w [] (maxObjectBytes + 1) Hf Hd Hn) as (st' & w' & -> & Hw & _); [lia|].
  cbn. rewrite (proj2 (Z.ltb_ge _ _)) by done. rewrite (bool_decide_eq_false_2 (sum i = want)) by done.
  eexists. reflexivity.
Qed.

(** A first write that fails ends the copy with its error. *)
Lemma copy_fault n st i e fuel lim k x : w_fault 0 = Some (k, x) → delivers n st i e → n ≤ fuel → i ≠ [] → (0 < lim)%Z →
  ∃ st' w' r, copyLoop rd w_fault fuel st [] [] lim = Some (st', w', Returns (r, Some x)) ∧ Q st' ∧ length w' = 1.
Proof.
  intros Hf Hd Hn Hi Hlim. destruct n as [|n]; [done|]. destruct fuel as [|fuel]; [lia|].
  cbn [delivers] in Hd. destruct Hd as [_ Hd]. cbn [copyLoop]. rewrite (proj2 (Z.leb_gt lim 0)) by done.
  destruct (Hd (clamp copyBuf lim)) as [(st1 & p & q & -> & Hp & Hk & -> & Hq)|(st1 & _ & -> & _)]; [|..|done].
  { apply clamp_pos; [apply copyBuf_pos|lia]. }
  cbn [mbind option_bind]. rewrite (proj2 (Nat.ltb_lt 0 (length p))) by (destruct p; [done|simpl; lia]).
  unfold dstWrite. cbn [length]. rewrite Hf. eexists _, _, _. split_and!; [done|by apply delivers_Q in Hq|done].
Qed.

Lemma decodeRaw_broken n st i e fuel w want :
  delivers n st i e → n ≤ fuel → (Z.of_nat (length i) ≤ maxObjectBytes)%Z → is_EOF (Some e) = false →
  Is e errHashMismatch = false → (∀ k, length w ≤ k → w_fault k = None) →
  ∃ w', decodeRaw sum rd w_fault fuel st w want = Some (w', Returns (Some (Wrap "read" [e]))).
Proof.
  intros Hd Hn Hlen He Hm Hf. unfold decodeRaw, copyVerify.
  destruct (copy_delivers n st i e fuel w [] (maxObjectBytes + 1) Hf Hd Hn) as (st' & w' & -> & _ & _); [lia|].
  rewrite He. cbn. rewrite Hm. eexists. reflexivity.
Qed.
End copy_lemmas.

(** ** Lemmas: the reader layers *)

(** A stored object read back: non-empty chunks, then EOF or a lasting error. *)
Definition script (cs : list bytes) (e : err) : reader := ((λ c, RData c None) <$> cs) ++ [RSticky e].
Definition nonempty (cs : list bytes) : Prop := Forall (λ c, c ≠ []) cs.

Lemma bufSize_big : 4 < bufSize.
Proof. unfold bufSize. lia. Qed.

Lemma take_nonempty {A} k (l : list A) : 1 ≤ k → l ≠ [] → take k l ≠ [].
Proof. intros ??. destruct k; [lia|]. by destruct l. Qed.

Section layers.
Context (ctx : nat → ctxState) (live : ∀ n, ctx n = None) (e : err).

(** One read of the source through [ctxReader]. *)
Lemma ctxRead_step k s cs : 1 ≤ k → c_r s = script cs e → nonempty cs →
  ∃ s', (∃ p q cs', ctxReadP ctx k s = (s', Returns (p, None)) ∧ p ≠ [] ∧ length p ≤ k ∧
           concat cs = p ++ q ∧ q = concat cs' ∧ c_r s' = script cs' e ∧ nonempty cs') ∨
        (ctxReadP ctx k s = (s', Returns ([], Some e)) ∧ cs = [] ∧ c_r s' = script [] e).
Proof.
  intros Hk Hs Hne. unfold ctxReadP. rewrite live, Hs. destruct cs as [|c cs]; cbn [script fmap list_fmap app].
  { eexists. right. split_and!; [done|done|done]. }
  apply list.Forall_cons in Hne as [Hc Hne]. cbn [read].
  destruct (length c <=? k) eqn:El; to_prop; eexists; left.
  - exists c, (concat cs), cs. split_and!; try done.
  - exists (take k c), (drop k c ++ concat cs), (drop k c :: cs). split_and!; try done.
    + by apply take_nonempty.
    + rewrite length_take. lia.
    + cbn. by rewrite app_assoc, take_drop.
    + apply list.Forall_cons. split; [|done]. intros Hd. apply (f_equal length) in Hd. rewrite length_drop in Hd. simpl in Hd. lia.
Qed.

Lemma ctxRead_delivers n s cs : c_r s = script cs e → nonempty cs → length (concat cs) < n →
  delivers (ctxRead ctx) (λ _, True) n s (concat cs) e.
Proof.
  revert s cs. induction n as [|n IH]; intros s cs Hs Hne Hn; [lia|]. cbn [delivers]. split; [done|].
  intros k Hk. unfold ctxRead.
  destruct (ctxRead_step k s cs Hk Hs Hne) as (s' & [(p & q & cs' & -> & Hp & Hpk & Hc & -> & Hs' & Hne')|(-> & -> & Hs')]).
  - left. exists s', p, (concat cs'). split_and!; try done. apply IH; [done|done|].
    rewrite Hc, length_app in Hn. destruct p; [done|simpl in Hn; lia].
  - right. by exists s'.
Qed.

(** What a [bufio.Reader] over such a source still has to deliver. *)
Definition buffered (b : bufio) (i : bytes) : Prop :=
  ∃ cs, c_r (b_src b) = script cs e ∧ nonempty cs ∧
    ((b_err b = None ∧ i = b_buf b ++ concat cs) ∨ (b_err b = Some e ∧ cs = [] ∧ i = b_buf b)).

Lemma bufRead_step k b i : 1 ≤ k → buffered b i →
  ∃ b', (∃ p q, bufReadP ctx k b = (b', Returns (p, None)) ∧ p ≠ [] ∧ length p ≤ k ∧ i = p ++ q ∧ buffered b' q) ∨
        (bufReadP ctx k b = (b', Returns ([], Some e)) ∧ i = [] ∧ buffered b' []).
Proof.
  intros Hk (cs & Hs & Hne & Hb). unfold bufReadP. destruct (b_buf b) as [|c buf] eqn:Ebuf.
  2:{ eexists. left. exists (take k (c :: buf)), (drop k (c :: buf) ++ (if b_err b then [] else concat cs)).
      split_and!; [done| |rewrite length_take; lia| |].
      - by apply take_nonempty.
      - rewrite app_assoc, take_drop. destruct Hb as [[-> ->]|(-> & -> & ->)]; [done|by rewrite app_nil_r].
      - exists cs. split_and!; [done|done|]. cbn. destruct Hb as [[-> _]|(-> & -> & _)]; [by left|right; by rewrite app_nil_r]. }
  destruct Hb as [[-> ->]|(-> & -> & ->)].
  2:{ eexists. right. split_and!; [done|done|]. exists []. split_and!; [done|constructor|by left]. }
  assert (∀ s cs', c_r s = script cs' e → nonempty cs' → buffered (MkB [] None s) (concat cs')) as Hbuf.
  { intros s cs' ??. exists cs'. split_and!; [done|done|by left]. }
  pose proof bufSize_big as Hbig. cbn [app]. destruct (bufSize <=? k) eqn:Ek.
  - destruct (ctxRead_step k (b_src b) cs Hk Hs Hne) as (s' & [(p & q & cs' & -> & Hp & Hpk & -> & -> & Hs' & Hne')|(-> & -> & Hs')]).
    + eexists. left. exists p, (concat cs'). split_and!; try done. by apply Hbuf.
    + eexists. right. split_and!; [done|done|]. by apply (Hbuf s' []).
  - destruct (ctxRead_step bufSize (b_src b) cs ltac:(lia) Hs Hne) as (s' & [(p & q & cs' & -> & Hp & Hpk & -> & -> & Hs' & Hne')|(-> & -> & Hs')]).
    + destruct p as [|x p]; [done|]. eexists. left. exists (take k (x :: p)), (drop k (x :: p) ++ concat cs').
      split_and!; [done|by apply take_nonempty|rewrite length_take; lia|by rewrite app_assoc, take_drop|].
      exists cs'. split_and!; [done|done|by left].
    + eexists. right. split_and!; [done|done|]. by apply (Hbuf s' []).
Qed.

Lemma bufRead_delivers n b i : buffered b i → length i < n → delivers (bufRead ctx) (λ _, True) n b i e.
Proof.
  revert b i. induction n as [|n IH]; intros b i Hb Hn; [lia|]. cbn [delivers]. split; [done|].
  intros k Hk. unfold bufRead.
  destruct (bufRead_step k b i Hk Hb) as (b' & [(p & q & -> & Hp & Hpk & -> & Hb')|(-> & -> & Hb')]).
  - left. exists b', p, q. split_and!; try done. apply IH; [done|].
    rewrite length_app in Hn. destruct p; [done|simpl in Hn; lia].
  - right. by exists b'.
Qed.

(** [Peek] shows the first bytes and loses none. *)
Lemma fill_step_ b i : buffered b i → b_err b = None → length (b_buf b) < 4 →
  ∃ b', fill ctx 100 b = (b', Returns tt) ∧ buffered b' i ∧
    (length (b_buf b) < length (b_buf b') ∨ b_err b' = Some e).
Proof.
  intros (cs & Hs & Hne & Hb) He Hl. destruct Hb as [[_ ->]|(He' & _)]; [|congruence].
  pose proof bufSize_big as Hbig. cbn [fill].
  destruct (ctxRead_step (bufSize - length (b_buf b)) (b_src b) cs ltac:(lia) Hs Hne)
    as (s' & [(p & q & cs' & -> & Hp & Hpk & Hc & -> & Hs' & Hne')|(-> & -> & Hs')]).
  - destruct p as [|x p]; [done|]. change (0 <? length (x :: p)) with true. cbv iota beta zeta.
    eexists. split_and!; [done| |left; cbn [b_buf]; rewrite length_app; simpl; lia].
    exists cs'. split_and!; [done|done|]. left. split; [done|]. cbn [b_buf]. by rewrite Hc, <- app_assoc.
  - cbn. eexists. split_and!; [done| |by right]. exists []. split_and!; [done|constructor|].
    right. by rewrite !app_nil_r.
Qed.

Lemma peek_loop_spec rounds b i : buffered b i → 4 < rounds + length (b_buf b) →
  ∃ b', peek_loop ctx rounds 4 b = (b', Returns tt) ∧ buffered b' i ∧
    (4 ≤ length (b_buf b') ∨ b_err b' = Some e ∨ (rounds = 0 ∧ b' = b)).
Proof.
  revert b. induction rounds as [|rounds IH]; intros b Hb Hr.
  { exists b. split_and!; [done|done|]. by right; right. }
  cbn [peek_loop].
  destruct (length (b_buf b) <? 4) eqn:El; to_prop.
  2:{ exists b. split_and!; [done|done|by left]. }
  cbn [andb].
  case_bool_decide as He.
  2:{ exists b. split_and!; [done|done|]. right; left. destruct Hb as (cs & _ & _ & [[? _]|(? & _)]); congruence. }
  destruct (fill_step_ b i Hb He El) as (b1 & -> & Hb1 & [Hgrow|Herr]).
  - destruct (IH b1 Hb1) as (b2 & -> & Hb2 & H2); [lia|]. exists b2. split_and!; [done|done|].
    destruct H2 as [?|[?|[-> ->]]]; [by left|by right; left|]. left. lia.
  - exists b1. split_and!; [|done|by right; left]. destruct rounds as [|rounds]; [done|]. cbn [peek_loop].
    rewrite Herr, (bool_decide_eq_false_2 (Some e = None)), andb_false_r by done. done.
Qed.

Lemma Peek_spec b i : buffered b i →
  ∃ b', buffered b' i ∧
    Peek ctx 4 b = (b', Returns (take 4 i, if length i <? 4 then Some e else None)).
Proof.
  intros Hb. destruct (peek_loop_spec 5 b i Hb) as (b1 & Hp & Hb1 & H1); [lia|]. unfold Peek. rewrite Hp.
  destruct Hb1 as (cs & Hs & Hne & Hcase). destruct (length (b_buf b1) <? 4) eqn:El; to_prop.
  - destruct H1 as [?|[He|[? _]]]; [lia| |done]. destruct Hcase as [[? _]|(_ & -> & ->)]; [congruence|].
    eexists. split; [|rewrite He, take_ge by lia; by rewrite (proj2 (Nat.ltb_lt _ _))].
    exists []. split_and!; [done|constructor|]. left. by rewrite app_nil_r.
  - exists b1. split; [by exists cs|]. f_equal. f_equal. f_equal.
    + destruct Hcase as [[_ ->]|(_ & _ & ->)]; [by rewrite take_app_le|done].
    + rewrite (proj2 (Nat.ltb_ge _ _)); [done|].
      destruct Hcase as [[_ ->]|(_ & _ & ->)]; [rewrite length_app; lia|done].
Qed.
End layers.

(** ** Lemmas: the decoder *)

Section decoder.
Context `{Decoder}.

(** Within [n] steps, given the input [i] in any chunking and then EOF, the
    decoder emits [o] and ends with [e]. *)
Inductive feeds : nat → dstate → bytes → bytes → goerr → Prop :=
  | fe_end n s i e : dstep s = AEnd e → feeds (S n) s i [] e
  | fe_out n s i bs s' o e : dstep s = AOut bs s' → feeds n s' i o e → feeds (S n) s i (bs ++ o) e
  | fe_ready n s i s' o e : dstep s = AReady s' → feeds n s' i o e → feeds (S n) s i o e
  | fe_read n s i size k o e : dstep s = ARead size k → 1 ≤ size →
      (∀ p q, p ≠ [] → length p ≤ size → i = p ++ q → feeds n (k p None) q o e) →
      (i = [] → feeds n (k [] (Some (Sent EOF))) [] o e) →
      feeds (S n) s i o e.

Context (ctx : nat → ctxState) (live : ∀ n, ctx n = None).

Definition quiet (t : tracked) : Prop := t_err t = None ∨ t_err t = Some (Sent EOF).

(** The capped, tracked source still has [i] to deliver and has seen no error. *)
Definition tracking (t : tracked) (i : bytes) : Prop :=
  buffered (Sent EOF) (t_b t) i ∧ quiet t ∧ (Z.of_nat (length i) ≤ t_n t)%Z.

Lemma capRead_step k t i : 1 ≤ k → tracking t i →
  ∃ t', (∃ p q, capRead ctx k t = (t', Returns (p, None)) ∧ p ≠ [] ∧ length p ≤ k ∧ i = p ++ q ∧ tracking t' q) ∨
        (capRead ctx k t = (t', Returns ([], Some (Sent EOF))) ∧ i = [] ∧ tracking t' []).
Proof.
  intros Hk (Hb & Hq & Hn). unfold capRead. destruct (t_n t <=? 0)%Z eqn:En; to_prop.
  { exists t. right. destruct i; [|simpl in Hn; lia]. by split_and!. }
  unfold trackRead. assert (clamp k (t_n t) ≤ k) as Hc by (unfold clamp; case_match; to_prop; lia).
  destruct (bufRead_step ctx live (Sent EOF) (clamp k (t_n t)) (t_b t) i) as (b' & [(p & q & -> & Hp & Hpk & -> & Hb')|(-> & -> & Hb')]);
    [by apply clamp_pos|done| |].
  - eexists. left. exists p, q. split_and!; [done|done|lia|done|]. rewrite length_app in Hn.
    split_and!; [done|done|cbn; lia].
  - eexists. right. split_and!; [done|done|]. split_and!; [done|by right|cbn; lia].
Qed.

Definition zquiet (z : zdec) : Prop := quiet (z_t z).

(** One decoder Read with an empty output buffer. *)
Lemma zstdRead_step F k s i o e t n : feeds n s i o e → n ≤ F → 1 ≤ k → tracking t i →
  ∃ z', zquiet z' ∧
  ((∃ bs o' i' n', bs ≠ [] ∧ o = bs ++ o' ∧ feeds n' (z_s z') i' o' e ∧ n' ≤ n ∧ tracking (z_t z') i' ∧
      z_out z' = drop k bs ∧ zstdRead ctx F k (MkZ s [] t) = Some (z', Returns (take k bs, None))) ∨
   (o = [] ∧ zstdRead ctx F k (MkZ s [] t) = Some (z', Returns ([], Some (default (Sent EOF) e))))).
Proof.
  intros Hfe. revert F t. induction Hfe as [n s i e He|n s i bs s' o e Hs Hfe IH|n s i s' o e Hs Hfe IH|
    n s i size f o e Hs Hsz Hfe IH Hfe0 IH0]; intros F t Hn Hk Ht.
  all: destruct F as [|F]; [lia|]; cbn [zstdRead z_out z_s z_t]; rewrite ?He, ?Hs.
  - eexists. split; [|by right]. by destruct Ht as (_ & Hq & _).
  - destruct bs as [|b bs].
    { destruct (IH F t ltac:(lia) Hk Ht) as (z' & Hz & [(bs & o' & i' & n' & Hbs & -> & Hf' & Hle & Ht' & Ho & Hr)|[-> Hr]]);
        exists z'; (split; [done|]).
      - left. exists bs, o', i', n'. split_and!; try done. lia.
      - by right. }
    exists (MkZ s' (drop k (b :: bs)) t). split; [by destruct Ht as (_ & Hq & _)|].
    left. exists (b :: bs), o, i, n. split_and!; try done; [cbn; lia|by destruct F].
  - destruct (IH F t ltac:(lia) Hk Ht) as (z' & Hz & [(bs & o' & i' & n' & Hbs & -> & Hf' & Hle & Ht' & Ho & Hr)|[-> Hr]]);
      exists z'; (split; [done|]); [left|by right].
    exists bs, o', i', n'. split_and!; try done. lia.
  - destruct (capRead_step size t i Hsz Ht) as (t' & [(p & q & -> & Hp & Hpk & -> & Ht')|(-> & -> & Ht')]).
    + destruct (IH p q Hp Hpk eq_refl F t' ltac:(lia) Hk Ht') as (z' & Hz & [(bs & o' & i' & n' & Hbs & -> & Hf' & Hle & Ht'' & Ho & Hr)|[-> Hr]]);
        exists z'; (split; [done|]); [left|by right].
      exists bs, o', i', n'. split_and!; try done. lia.
    + destruct (IH0 eq_refl F t' ltac:(lia) Hk Ht') as (z' & Hz & [(bs & o' & i' & n' & Hbs & -> & Hf' & Hle & Ht'' & Ho & Hr)|[-> Hr]]);
        exists z'; (split; [done|]); [left|by right].
      exists bs, o', i', n'. split_and!; try done. lia.
Qed.

(** The decoder, as a reader object, delivers its plaintext. *)
Lemma zstdRead_delivers m F s pend i o e t n : feeds n s i o e → n ≤ F → tracking t i → length (pend ++ o) < m →
  delivers (zstdRead ctx F) zquiet m (MkZ s pend t) (pend ++ o) (default (Sent EOF) e).
Proof.
  revert s pend i o t n. induction m as [|m IH]; intros s pend i o t n Hfe Hn Ht Hm; [lia|]. cbn [delivers].
  assert (zquiet (MkZ s pend t)) as Hz by (by destruct Ht as (_ & Hq & _)). split; [done|]. intros k Hk.
  destruct pend as [|c pend].
  - destruct (zstdRead_step F k s i o e t n Hfe Hn Hk Ht) as (z' & Hz' & [(bs & o' & i' & n' & Hbs & -> & Hf' & Hle & Ht' & Ho & Hr)|[-> Hr]]).
    + left. exists z', (take k bs), (drop k bs ++ o'). split_and!.
      * done.
      * by apply take_nonempty.
      * rewrite length_take. lia.
      * cbn. by rewrite app_assoc, take_drop.
      * destruct z' as [s' out' t']. cbn in Hf', Ht', Ho. subst out'. eapply IH; [done|lia|done|].
        cbn in Hm. rewrite length_app, length_drop in *. destruct bs; [done|simpl in *; lia].
    + right. by exists z'.
  - left. exists (MkZ s (drop k (c :: pend)) t), (take k (c :: pend)), (drop k (c :: pend) ++ o). split_and!.
    + by destruct F.
    + by apply take_nonempty.
    + rewrite length_take. lia.
    + by rewrite app_assoc, take_drop.
    + eapply IH; [done|done|done|]. rewrite length_app in Hm. rewrite length_app, length_drop. simpl in *. lia.
Qed.

(** [Reset] on such a source: it is done, or it failed before any output. *)
Lemma getZstdDecoder_feeds F s i o e t n : feeds n s i o e → n ≤ F → tracking t i →
  ∃ t', quiet t' ∧
  ((∃ s' i' n', getZstdDecoder ctx F s t = Some (t', Returns (inl s')) ∧ feeds n' s' i' o e ∧ n' ≤ n ∧ tracking t' i') ∨
   (∃ x, getZstdDecoder ctx F s t = Some (t', Returns (inr x)) ∧ e = Some x)).
Proof.
  intros Hfe. revert F t. induction Hfe as [n s i e He|n s i bs s' o e Hs Hfe IH|n s i s' o e Hs Hfe IH|
    n s i size f o e Hs Hsz Hfe IH Hfe0 IH0]; intros F t Hn Ht.
  all: pose proof Ht as (_ & Hq & _); destruct F as [|F]; [lia|]; cbn [getZstdDecoder]; rewrite ?He, ?Hs.
  - exists t. split; [done|]. destruct e as [x|]; [right; eauto|]. left. exists s, i, (S n).
    split_and!; try done. by apply fe_end.
  - exists t. split; [done|]. left. exists s, i, (S n). split_and!; try done. by eapply fe_out.
  - exists t. split; [done|]. left. exists s', i, n. split_and!; try done. lia.
  - destruct (capRead_step size t i Hsz Ht) as (t' & [(p & q & -> & Hp & Hpk & -> & Ht')|(-> & -> & Ht')]).
    + destruct (IH p q Hp Hpk eq_refl F t' ltac:(lia) Ht') as (t2 & Hq2 & [(s' & i' & n' & Hr & Hf & Hle & Ht2)|Hx]);
        exists t2; (split; [done|]); [left|by right]. exists s', i', n'. split_and!; try done. lia.
    + destruct (IH0 eq_refl F t' ltac:(lia) Ht') as (t2 & Hq2 & [(s' & i' & n' & Hr & Hf & Hle & Ht2)|Hx]);
        exists t2; (split; [done|]); [left|by right]. exists s', i', n'. split_and!; try done. lia.
Qed.

Lemma quiet_sourceFault t : quiet t → sourceFault t = None.
Proof. unfold sourceFault. by intros [-> | ->]. Qed.
End decoder.

(** ** Lemmas: decodeStream *)

Section decoding.
Context `{Decoder} (sum : bytes → string).

Lemma decodeZstd_cases v fuel b hash w a : decodeZstd sum v fuel b hash = Some (w, a) →
  match a with
  | Panics _ => True
  | Returns None => ∃ d, written w = d ∧ sum d = hash ∧ (Z.of_nat (length d) ≤ maxObjectBytes)%Z
  | Returns (Some e) => e = Sent errTryRaw ∨ ∃ x, e = Wrap "zstd source read" [x] ∧ Is x EOF = false
  end.
Proof.
  assert (∀ t e, sourceFault t = Some e → ∃ x, e = Wrap "zstd source read" [x] ∧ Is x EOF = false) as Hsf.
  { intros t e. unfold sourceFault. destruct (t_err t) as [x|]; [|done].
    destruct (Is x EOF) eqn:Ex; [done|]. intros [= <-]. eauto. }
  unfold decodeZstd. destruct (getZstdDecoder _ _ _ _) as [[t [[s|x]|x]]|]; cbn; try done.
  - destruct (copyVerify _ _ _ _ _ _ _) as [[[z w1] [[oc verr]|x]]|] eqn:Ec; cbn; try done; intros [= <- <-]; [|done].
    destruct (sourceFault (z_t z)) eqn:Ez; [right; eauto|].
    destruct (oc || bool_decide (verr ≠ None)) eqn:Eo; [by left|]. to_prop. subst oc.
    destruct verr as [e|]; [by match goal with Hv : ¬ _ |- _ => destruct Hv end|].
    apply copyVerify_ok in Ec as (d & Hd & Hs & Hl). eauto.
  - intros [= <- <-]. destruct (sourceFault t) eqn:Ez; cbn; [right; eauto|by left].
  - by intros [= <- <-].
Qed.

(** A decode that succeeds wrote, last, bytes with the wanted digest. *)
Lemma decode_ok v fuel hash ops : decodeStreamInner sum v fuel hash = Some (ops, Returns None) →
  ∃ pre d, written ops = pre ++ d ∧ sum d = hash ∧ (Z.of_nat (length d) ≤ maxObjectBytes)%Z ∧
    (d_reset v ≠ None → pre = []).
Proof.
  unfold decodeStreamInner. destruct (d_fetch v 0) as [[rc|e]|x]; [|done..].
  destruct (Peek _ _ _) as [br [[magic perr]|x]]; [|done]. destruct (_ && _); [done|].
  case_bool_decide as Hm.
  2:{ intros Hr. apply decodeRaw_ok in Hr as (d & Hd & ? & ?). exists [], d. by rewrite Hd. }
  destruct (decodeZstd sum v fuel br hash) as [[w [[derr|]|x]]|] eqn:Ez; cbn; try done;
    pose proof (decodeZstd_cases _ _ _ _ _ _ Ez) as Hc; cbn in Hc.
  2:{ intros [= <-]. destruct Hc as (d & Hd & ? & ?). exists [], d. by rewrite Hd. }
  destruct (negb (Is derr errTryRaw)); [done|].
  destruct (d_reset v) as [[e|]|] eqn:Er; [done| |].
  all: destruct (d_fetch v 1) as [[rc2|e]|x]; [|done..]; intros Hr;
    apply decodeRaw_ok in Hr as (d & Hd & ? & ?).
  - exists [], d. by rewrite Hd, written_truncate.
  - exists (written w), d. split_and!; done.
Qed.

(** The result of [decodeZstd] on a clean source the decoder can process. *)
Lemma decodeZstd_clean v F br hash i n o e : (∀ k, d_ctx v 0 k = None) → buffered (Sent EOF) br i →
  (Z.of_nat (length i) ≤ maxCompressedBytes)%Z → feeds n dinit i o e → n + length o < F →
  ∃ w a, decodeZstd sum v F br hash = Some (w, Returns a) ∧
    (a = None ∨ a = Some (Sent errTryRaw)) ∧
    ((∀ k, d_fault v k = None) → e = None → (Z.of_nat (length o) ≤ maxObjectBytes)%Z → sum o = hash →
      a = None ∧ written w = o) ∧
    (∀ k x, d_fault v 0 = Some (k, x) → o ≠ [] → e = None → a = Some (Sent errTryRaw) ∧ length w = 1).
Proof.
  intros Hlive Hb Hlen Hfe HF. unfold decodeZstd.
  destruct (getZstdDecoder_feeds (d_ctx v 0) Hlive F dinit i o e (MkT br None maxCompressedBytes) n Hfe)
    as (t' & Hq & [(s' & i' & n' & -> & Hfe' & Hle & Ht')|(x & -> & ->)]); [lia| | |].
  { split_and!; [done|by left|done]. }
  2:{ cbn. rewrite quiet_sourceFault by done. eexists _, _. split_and!; [done|by right|done|done]. }
  cbn [mbind option_bind]. unfold copyVerify.
  pose proof (zstdRead_delivers (d_ctx v 0) Hlive (S (length o)) F s' [] i' o e t' n' Hfe' ltac:(lia) Ht' ltac:(simpl; lia)) as Hd.
  cbn [app] in Hd.
  destruct (copy_returns _ (d_fault v) zquiet _ _ _ _ F [] [] (maxObjectBytes + 1) Hd ltac:(lia)) as (z & w & [acc verr] & Hc & Hz).
  rewrite Hc. cbn [mbind option_bind].
  assert (∃ oc ve, match verr with
    | Some e => Returns (false, Some e)
    | None => if (maxObjectBytes <? Z.of_nat (length acc))%Z then Returns (true, None)
              else if bool_decide (sum acc = hash) then Returns (false, None)
              else Returns (false, Some (Sent errHashMismatch)) end = Returns (oc, ve)) as (oc & ve & Hm).
  { destruct verr; [by eexists _, _|]. destruct (_ <? _)%Z; [by eexists _, _|]. by case_bool_decide; eexists _, _. }
  rewrite Hm. rewrite quiet_sourceFault by done.
  exists w, (if oc || bool_decide (ve ≠ None) then Some (Sent errTryRaw) else None).
  split; [by destruct (oc || _)|]. split_and!.
  - destruct (_ || _); eauto.
  - intros Hf -> Ho Hs.
    edestruct (copy_delivers (zstdRead (d_ctx v 0) F) (d_fault v) zquiet (S (length o)) (MkZ s' [] t') o (Sent EOF) F [] [] (maxObjectBytes + 1))
      as (z2 & w2 & Hc2 & Hw2 & _); [done|exact Hd|lia|lia|]. cbn [default app] in Hc2.
    rewrite Hc in Hc2. change (is_EOF (Some (Sent EOF))) with true in Hc2. simplify_eq. cbn in Hw2.
    rewrite (proj2 (Z.ltb_ge _ _)), (bool_decide_eq_true_2 (sum o = sum o)) in Hm by done. by simplify_eq.
  - intros k x Hf Ho ->.
    edestruct (copy_fault (zstdRead (d_ctx v 0) F) (d_fault v) zquiet (S (length o)) (MkZ s' [] t') o (Sent EOF) F (maxObjectBytes + 1) k x)
      as (z2 & w2 & r2 & Hc2 & _ & Hw2); [exact Hf|exact Hd|lia|done|done|].
    rewrite Hc in Hc2. simplify_eq. by rewrite orb_true_r.
Qed.
End decoding.

Lemma maxCompressedBytes_ge : (maxObjectBytes ≤ maxCompressedBytes)%Z.
Proof. by vm_compute. Qed.

(** ** Properties *)

Section properties.
Context `{Decoder} `{Zstd} (sum : bytes → string).

(** What the backup and the restore rely on of the zstd pair: a frame begins with the
    magic, decodes to its plaintext and expands it by less than the read cap
    allows; the decoder ends on every input. *)
Class ZstdLaws : Prop := {
  zl_magic : ∀ d, take 4 (zenc d) = zstdMagic;
  zl_inverse : ∀ d, ∃ n, feeds n dinit (zenc d) d None;
  zl_bound : ∀ d, (Z.of_nat (length d) ≤ maxObjectBytes)%Z → (Z.of_nat (length (zenc d)) ≤ maxCompressedBytes)%Z;
  zl_total : ∀ i, ∃ n o e, feeds n dinit i o e;
}.

(** Every fetch of the object reads its bytes [i] in non-empty chunks, then [e]. *)
Definition serves (v : denv) (i : bytes) (e : err) : Prop :=
  ∀ n, ∃ cs, d_fetch v n = Returns (inl (script cs e)) ∧ nonempty cs ∧ concat cs = i.

Definition undisturbed (v : denv) : Prop :=
  (∀ n k, d_ctx v n k = None) ∧ d_reset v = Some None.

(** The peek of a served object. *)
Lemma decodeStreamInner_peek v F hash i e : serves v i e → (∀ n k, d_ctx v n k = None) →
  ∃ br, buffered e br i ∧
  decodeStreamInner sum v F hash =
    (if (length i <? 4) && negb (Is e EOF) then Some ([], Returns (Some (Wrap "peek magic" [e])))
     else if bool_decide (take 4 i = zstdMagic) then
            r ← decodeZstd sum v F br hash;
            match r with
            | (w, Panics x) => Some (w, Panics x)
            | (w, Returns None) => Some (w, Returns None)
            | (w, Returns (Some derr)) =>
                if negb (Is derr errTryRaw) then Some (w, Returns (Some derr))
                else
                  match (match d_reset v with Some (Some e) => Some e | _ => None end) with
                  | Some e => Some (w, Returns (Some e))
                  | None =>
                      let w := match d_reset v with Some None => w ++ [FTruncate] | _ => w end in
                      match d_fetch v 1 with
                      | Panics x => Some (w, Panics x)
                      | Returns (inr e) => Some (w, Returns (Some e))
                      | Returns (inl rc2) => decodeRaw sum (ctxRead (d_ctx v 1)) (d_fault v) F (MkC 0 rc2) w hash
                      end
                  end
            end
          else decodeRaw sum (bufRead (d_ctx v 0)) (d_fault v) F br [] hash).
Proof.
  intros Hsv Hlive. destruct (Hsv 0) as (cs & Hf & Hne & Hcs).
  destruct (Peek_spec (d_ctx v 0) (Hlive 0) e (MkB [] None (MkC 0 (script cs e))) i) as (br & Hb & Hp).
  { exists cs. split_and!; [done|done|]. left. by rewrite Hcs. }
  exists br. split; [done|]. unfold decodeStreamInner. rewrite Hf, Hp.
  destruct (length i <? 4); [|done]. destruct (Is e EOF) eqn:Ee; cbn [errors_Is]; rewrite Ee; done.
Qed.

(** What the backup stored restores. For an object stored raw or through
    zstd (raw bytes that happen to begin with the zstd magic included), read
    back in any chunking, decoding succeeds with enough fuel and leaves a
    plaintext of the wanted digest: the stored one, unless the object is raw,
    looks like a frame and its decoding collides with it under the digest; a
    zstd object always restores to exactly its plaintext. *)
Lemma decode_roundtrip `{!ZstdLaws} v hash d c :
  sum d = hash → (Z.of_nat (length d) ≤ maxObjectBytes)%Z →
  undisturbed v → (∀ k, d_fault v k = None) → serves v (encode c d) (Sent EOF) →
  ∃ F0, ∀ F, F0 ≤ F → ∃ ops, decodeStreamInner sum v F hash = Some (ops, Returns None) ∧
    sum (written ops) = hash ∧
    (written ops = d ∨ (c = CodecNone ∧ take 4 d = zstdMagic ∧ written ops ≠ d)).
Proof.
  intros Hsum Hlen. pose proof (zl_magic d) as Hmagic. pose proof (zl_bound d Hlen) as Hzlen.
  destruct (zl_inverse d) as [n1 Hz], (zl_total d) as (n2 & o & e & Hr). intros [Hlive Hreset] Hfault Hsv.
  exists (S (length d + n1 + n2 + length o)). intros F HF.
  destruct (decodeStreamInner_peek v F hash (encode c d) (Sent EOF) Hsv Hlive) as (br & Hb & ->).
  change (Is (Sent EOF) EOF) with true. rewrite andb_false_r. destruct c; cbn [encode] in *.
  - case_bool_decide as Hm.
    + destruct (decodeZstd_clean sum v F br hash d n2 o e (Hlive 0) Hb) as (w & a & Ez & Ha & _);
        [pose proof maxCompressedBytes_ge; lia|done|lia|].
      rewrite Ez. cbn [mbind option_bind]. destruct Ha as [-> | ->].
      * exists w. apply decodeZstd_cases in Ez as (x & Hx & Hs & _). split_and!; [done|by rewrite Hx|].
        destruct (decide (written w = d)); [by left|by right].
      * change (Is (Sent errTryRaw) errTryRaw) with true. rewrite Hreset. cbn [negb].
        destruct (Hsv 1) as (cs & -> & Hne & Hcs).
        edestruct (decodeRaw_delivers sum (ctxRead (d_ctx v 1)) (d_fault v) (λ _, True) (S (length d)) (MkC 0 (script cs (Sent EOF))) d F)
          as (w' & -> & Hw'); [by intros|rewrite <- Hcs; apply ctxRead_delivers; [done|done|done|lia]|lia|done|exact Hsum|].
        exists w'. rewrite written_truncate in Hw'. cbn in Hw'. rewrite Hw'. by split_and!; [| |left].
    + edestruct (decodeRaw_delivers sum (bufRead (d_ctx v 0)) (d_fault v) (λ _, True) (S (length d)) br d F [])
        as (w' & -> & Hw'); [by intros|apply bufRead_delivers; [done|done|lia]|lia|done|exact Hsum|].
      exists w'. cbn in Hw'. rewrite Hw'. by split_and!; [| |left].
  - rewrite bool_decide_eq_true_2 by done.
    destruct (decodeZstd_clean sum v F br hash (zenc d) n1 d None (Hlive 0) Hb Hzlen Hz) as (w & a & -> & _ & Hok & _); [lia|].
    destruct (Hok Hfault eq_refl Hlen Hsum) as [-> Hw]. exists w. rewrite Hw. by split_and!; [| |left].
Qed.


(** C40: a write error of the restore temp is reported as corruption. A good
    zstd object whose decode hits one failing write of dst (a full disk) is
    not failed with that error: it is re-read as raw bytes and declared
    "neither valid zstd nor the plaintext". *)
Theorem temp_write_error_reads_as_corruption `{!ZstdLaws} v hash d k x :
  (Z.of_nat (length (zenc d)) ≤ maxObjectBytes)%Z → d ≠ [] →
  sum d = hash → sum (zenc d) ≠ hash →
  undisturbed v → serves v (zenc d) (Sent EOF) →
  d_fault v 0 = Some (k, x) → (∀ n, 1 ≤ n → d_fault v n = None) →
  ∃ F0, ∀ F, F0 ≤ F → ∃ ops, decodeStreamInner sum v F hash = Some (ops, Returns (Some errNeither)).
Proof.
  pose proof (zl_magic d) as Hmagic. destruct (zl_inverse d) as [n Hz]. intros Hzlen Hne _ Hraw [Hlive Hreset] Hsv Hf0 Hf.
  exists (S (length (zenc d) + n + length d)). intros F HF.
  destruct (decodeStreamInner_peek v F hash (zenc d) (Sent EOF) Hsv Hlive) as (br & Hb & ->).
  change (Is (Sent EOF) EOF) with true. rewrite andb_false_r, bool_decide_eq_true_2 by done.
  destruct (decodeZstd_clean sum v F br hash (zenc d) n d None (Hlive 0) Hb) as (w & a & -> & _ & _ & Hbad);
    [pose proof maxCompressedBytes_ge; lia|done|lia|].
  destruct (Hbad k x Hf0 Hne eq_refl) as [-> Hw]. cbn [mbind option_bind].
  change (Is (Sent errTryRaw) errTryRaw) with true. rewrite Hreset. cbn [negb].
  destruct (Hsv 1) as (cs & -> & Hcne & Hcs).
  edestruct (decodeRaw_mismatch sum (ctxRead (d_ctx v 1)) (d_fault v) (λ _, True) (S (length (zenc d)))
    (MkC 0 (script cs (Sent EOF))) (zenc d) F) as (w' & ->);
    [intros j Hj; apply Hf; rewrite length_app, Hw in Hj; simpl in Hj; lia
    |rewrite <- Hcs; apply ctxRead_delivers; [done|done|done|lia]|lia|done|done|]. eauto.
Qed.

(** A clean copy of a file read through [ctxReader] read all of it. *)
Lemma copy_all ctx fuel s cs e w acc lim st' w' acc' :
  c_r s = script cs e → nonempty cs →
  copyLoop (ctxRead ctx) (λ _, None) fuel s w acc lim = Some (st', w', Returns (acc', None)) →
  (Z.of_nat (length acc') < Z.of_nat (length acc) + lim)%Z → acc' = acc ++ concat cs.
Proof.
  revert s cs w acc lim. induction fuel as [|fuel IH]; intros s cs w acc lim Hs Hne Hc Hl; [done|].
  cbn [copyLoop] in Hc. destruct (lim <=? 0)%Z eqn:El; to_prop; [simplify_eq; lia|].
  change (ctxRead ctx (clamp copyBuf lim) s) with (Some (ctxReadP ctx (clamp copyBuf lim) s)) in Hc.
  destruct (ctx (c_n s)) as [c|] eqn:Ec.
  { unfold ctxReadP in Hc. rewrite Ec in Hc. cbn in Hc. by destruct c. }
  destruct (ctxRead_step (λ _, None) ltac:(done) e (clamp copyBuf lim) s cs) as (s' & Hstep); [|done|done|].
  { apply clamp_pos; [apply copyBuf_pos|lia]. }
  assert (ctxReadP ctx (clamp copyBuf lim) s = ctxReadP (λ _, None) (clamp copyBuf lim) s) as Heq.
  { unfold ctxReadP. by rewrite Ec. }
  rewrite Heq in Hc. destruct Hstep as [(p & q & cs' & Hr & Hp & _ & Hcc & -> & Hs' & Hne')|(Hr & -> & _)];
    rewrite Hr in Hc; cbn [mbind option_bind] in Hc.
  - destruct (if 0 <? length p then _ else _) as [w1 we] eqn:Ew.
    assert (we = None) as ->.
    { unfold dstWrite in Ew. destruct (0 <? length p); congruence. }
    apply IH with (cs := cs') in Hc; [|done|done|rewrite length_app in *; lia].
    by rewrite Hc, Hcc, app_assoc.
  - cbn in Hc. destruct (match e with Sent s => _ | _ => _ end); by simplify_eq.
Qed.

(** A restore that returns nil: the verified file is at the destination, on disk;
    nothing was written, or the durable-write spine ran to its end. *)
Lemma restoreObjectTo_ok v fuel hash dest s states skipped :
  fresh (ro_commit v) dest s → settled s dest → d_reset (ro_decode v) = Some None →
  (∀ r, ro_open v = Some r → ∃ cs x, r = script cs x ∧ nonempty cs ∧ contents s dest = Some (concat cs)) →
  (ro_arm v = ArmDone → ro_arm_ctx v ≠ None) →
  restoreObjectTo sum v fuel hash dest s = Some (states, Returns (skipped, None)) →
  ValidateContentHash hash = None ∧
  (∃ d, contents (last_state s (states, None)) dest = Some d ∧ sum d = hash ∧ (Z.of_nat (length d) ≤ maxObjectBytes)%Z ∧
     settled (last_state s (states, None)) dest) ∧
  ((skipped = true ∧ states = []) ∨
   (skipped = false ∧ ∃ w, fresh w dest s ∧ CommitWrite w dest s = (states, None))).
Proof.
  intros Hfresh Hset Hreset Hopen Harm Hr. unfold restoreObjectTo in Hr.
  destruct (ValidateContentHash hash) as [x|]; [done|]. split; [done|].
  destruct (intact sum v fuel hash) as [[[]|x]|] eqn:Ei; cbn [mbind option_bind] in Hr; try done.
  { injection Hr as <- <-. split; [|by left]. unfold intact in Ei. destruct (ro_open v) as [r|] eqn:Eo; [|done].
    destruct (Hopen r eq_refl) as (cs & x & -> & Hne & Hcont).
    destruct (copyVerify _ _ _ _ _ _ _) as [[[st w] [[oc [y|]]|y]]|] eqn:Ec; cbn in Ei; try done.
    destruct oc; [done|]. unfold copyVerify in Ec.
    destruct (copyLoop _ _ _ _ _ _ _) as [[[st1 w1] [[acc [y|]]|y]]|] eqn:El; cbn in Ec; try done.
    destruct (maxObjectBytes <? _)%Z eqn:Em; [done|]. case_bool_decide as Hs; [|done]. to_prop.
    eapply copy_all in El; [|done|done|simpl; lia]. cbn in El. subst acc. by exists (concat cs). }
  destruct (match ro_open v with Some _ => _ | None => _ end) as [x|]; [done|].
  destruct (decodeStream sum _ _ _ _ _) as [f|] eqn:Ed; cbn [mbind option_bind] in Hr; [|done].
  set (w := with_fill (ro_commit v) f) in *. assert (fresh w dest s) as Hf by exact Hfresh.
  pose proof (CommitWrite_durable w dest s Hf) as Hok.
  destruct (CommitWrite w dest s) as [sts e'] eqn:Ecw. cbn in Hr. injection Hr as <- <- ->.
  destruct (Hok eq_refl) as (Hfill & Hcont & _ & Hset' & _). split; [|right; split; [done|by exists w]].
  unfold decodeStream in Ed. destruct (decodeStreamInner sum _ _ _) as [[ops a]|] eqn:Edi; cbn in Ed; [|done].
  injection Ed as <-. unfold w in Hfill, Hcont. cbn [with_fill w_fill snd fst] in *.
  unfold callWithCtx, RunAbandonable, RunAbandonableClose in Hfill. cbn in Hfill.
  destruct (ro_arm v); [|by destruct (ro_arm_ctx v); [|destruct Harm]]. destruct a as [[y|]|y]; [done| |done].
  apply decode_ok in Edi as (pre & d & Hw & Hs & Hl & Hpre). rewrite Hpre in Hw by (by rewrite Hreset).
  exists d. rewrite Hw in Hcont. by split_and!.
Qed.

End properties.

(** ** Concrete instances

    A toy frame format: the magic, then the plaintext. Its decoder buffers the
    source to EOF and then checks the magic. *)

Inductive ex_d := XRead (acc : bytes) | XFin (acc : bytes) | XEnd (e : goerr).

Definition ex_fin (l : bytes) : bytes * goerr :=
  if bool_decide (take 4 l = zstdMagic) then (drop 4 l, None) else ([], Some (Msg "magic number mismatch")).

Definition ex_step (s : ex_d) : daction ex_d :=
  match s with
  | XRead acc => ARead 16 (λ p e, match e with
                            | None => XRead (acc ++ p)
                            | Some x => if is_EOF (Some x) then XFin (acc ++ p) else XEnd (Some x)
                            end)
  | XFin acc => AOut (ex_fin acc).1 (XEnd (ex_fin acc).2)
  | XEnd e => AEnd e
  end.

#[local] Instance ex_decoder : Decoder := {| dstate := ex_d; dinit := XRead []; dstep := ex_step |}.
#[local] Instance ex_zstd : Zstd := {| zenc := λ d, zstdMagic ++ d; Fanout.zpart := λ _, [] |}.

Lemma ex_feeds n acc i : length i < n → feeds (n + 2) (XRead acc) i (ex_fin (acc ++ i)).1 (ex_fin (acc ++ i)).2.
Proof.
  revert acc i. induction n as [|n IH]; intros acc i Hn; [lia|]. cbn [Nat.add]. eapply fe_read; [reflexivity|lia| |].
  - intros p q Hp _ ->. rewrite app_assoc. apply IH. rewrite length_app in Hn. destruct p; [done|simpl in Hn; lia].
  - intros ->. cbn. rewrite !app_nil_r. rewrite <- (app_nil_r (ex_fin acc).1). replace (n + 2) with (S (S n)) by lia.
    eapply fe_out; [reflexivity|]. by apply fe_end.
Qed.

Definition ex_hash : string := "0123456789abcdef0123456789abcdef0123456789abcdef0123456789abcdef".
Definition ex_plain : bytes := [Byte.x41; Byte.x42].
Definition ex_sum (d : bytes) : string := if bool_decide (d = ex_plain) then ex_hash else "other".
Definition ex_denv (e : err) (fault : nat → option (nat * err)) : denv :=
  MkD (λ _, Returns (inl (script [[Byte.x28; Byte.xb5; Byte.x2f]; [Byte.xfd; Byte.x41]; [Byte.x42]] e)))
    (λ _ _, None) fault (Some None).

Lemma ex_serves e fault : serves (ex_denv e fault) (zstdMagic ++ ex_plain) e.
Proof. intros n. eexists. split; [done|]. split; [|done]. by repeat constructor. Qed.

Lemma ex_laws : ZstdLaws.
Proof.
  split.
  - done.
  - intros d. exists (S (length (zstdMagic ++ d)) + 2). apply (ex_feeds _ [] (zstdMagic ++ d)). lia.
  - intros d Hd. change (zenc d) with (zstdMagic ++ d). rewrite length_app, Nat2Z.inj_add.
    assert (maxObjectBytes + 4 ≤ maxCompressedBytes)%Z by (by vm_compute). simpl. lia.
  - intros i. exists (S (length i) + 2). eexists _, _. apply (ex_feeds _ [] i). lia.
Qed.
#[local] Existing Instance ex_laws.

Lemma decode_roundtrip_witness : ∃ F0, ∀ F, F0 ≤ F → ∃ ops,
  decodeStreamInner ex_sum (ex_denv (Sent EOF) (λ _, None)) F ex_hash = Some (ops, Returns None) ∧
  ex_sum (written ops) = ex_hash ∧
  (written ops = ex_plain ∨ (CodecZstd = CodecNone ∧ take 4 ex_plain = zstdMagic ∧ written ops ≠ ex_plain)).
Proof.
  apply (decode_roundtrip ex_sum (ex_denv (Sent EOF) (λ _, None)) ex_hash ex_plain CodecZstd);
    [done|by vm_compute|done|done|apply ex_serves].
Defined.


Definition ex_full (n : nat) : option (nat * err) := if n =? 0 then Some (0, Msg "no space left on device") else None.

Lemma temp_write_error_reads_as_corruption_witness : ∃ F0, ∀ F, F0 ≤ F → ∃ ops,
  decodeStreamInner ex_sum (ex_denv (Sent EOF) ex_full) F ex_hash = Some (ops, Returns (Some errNeither)).
Proof.
  apply (temp_write_error_reads_as_corruption ex_sum (ex_denv (Sent EOF) ex_full) ex_hash ex_plain 0 (Msg "no space left on device"));
    [by vm_compute|done|done|done|done|apply ex_serves|done|].
  intros [|n] Hn; [lia|done].
Defined.

Definition ex_renv : renv :=
  MkR (Some (script [[Byte.x41]] (Sent EOF))) (λ _, None) None (ex_denv (Sent EOF) (λ _, None)) ArmResult None (ex_wenv None).


End Restore.
