(* ===== verification/Sweep.v ===== *)
(** * The batch and disaster-recovery sweeps

    [src/internal/domain/backfill.go] ([newPacer], [runBoundedPaced],
    [Backfiller]), [drill.go] ([Drill]) and [RestoreAll] of [restore.go].

    A sweep dispatches the items its enumerator yields; the environment says,
    per item, which arm each select takes and what [ctx.Err()] reads. The
    workers run concurrently and touch the shared counters under one lock, so
    the counters a sweep returns are the workers' increments in the order they
    complete: any permutation of the dispatched items. *)

From S2P Require Import Prelude GoRuntime Ports Circuit Keyset Ledger Stream Fanout Pipeline Files Restore.
From Stdlib Require Import ZArith Lia.
From stdpp Require Import base gmap strings list sorting numbers.

Module Sweep.
Import Ports Stream.

(** ** The pacer *)

Definition second : Z := 1000000000.

(** The ticker's interval; [None] when there is no ticker. *)
Definition newPacer (ratePerSec : Z) : option Z :=
  if (ratePerSec <=? 0)%Z then None
  else Some (let interval := Z.quot second ratePerSec in if (interval <=? 0)%Z then 1 else interval)%Z.

(** [wait]: the select between the tick and ctx.Done(), or just ctx.Err(). *)
Definition wait (pacer : option Z) (arm : select_arm) (ctx : ctxState) : goerr :=
  match pacer with
  | None => ctxErr ctx
  | Some _ => match arm with ArmResult => None | ArmDone => ctxErr ctx end
  end.

(** ** runBoundedPaced *)

(** One yield: the pacer's arm, the semaphore's arm, and [ctx.Err()] as the
    pacer, the semaphore and the return see it. *)
Record yenv := MkY {
  y_tick : select_arm; y_tick_ctx : ctxState;
  y_sem : select_arm; y_sem_ctx : ctxState; y_ret_ctx : ctxState;
}.

(** Whether the item was handed to a worker, and what yield returns. *)
Definition yield (pacer : option Z) (y : yenv) : bool * goerr :=
  match wait pacer (y_tick y) (y_tick_ctx y) with
  | Some e => (false, Some e)
  | None =>
      match y_sem y with
      | ArmDone => (false, ctxErr (y_sem_ctx y))
      | ArmResult => (true, ctxErr (y_ret_ctx y))
      end
  end.

(** The enumeration of [items] (whose own end is [final]): the dispatched
    items, how many yields returned nil, and the enumerator's result. *)
Fixpoint enumerate {T} (pacer : option Z) (env : nat → yenv) (k : nat) (items : list T) (final : goerr)
    : list T * nat * goerr :=
  match items with
  | [] => ([], 0, final)
  | x :: items =>
      match yield pacer (env k) with
      | (d, Some e) => (if d : bool then [x] else [], 0, Some e)
      | (d, None) =>
          let '(ds, n, e) := enumerate pacer env (S k) items final in
          ((if d : bool then [x] else []) ++ ds, S n, e)
      end
  end.

(** The backstop: the first panic a worker let escape, in completion order. *)
Definition escapedPanic {T} (work : T → attempt unit) (completed : list T) : goerr :=
  head (omap (λ x, match work x with Returns _ => None | Panics r => Some (PanicErr "bounded-paced worker" r) end) completed).

(** Every dispatched worker has finished when it returns; [completed] is the
    order in which they did. *)
Definition runBoundedPaced {T} (ratePerSec : Z) (env : nat → yenv) (items : list T) (final : goerr)
    (work : T → attempt unit) (completed : list T) : goerr :=
  match (enumerate (newPacer ratePerSec) env 0 items final).2 with
  | Some e => Some e
  | None => escapedPanic work completed
  end.

Definition dispatched {T} (ratePerSec : Z) (env : nat → yenv) (items : list T) (final : goerr) : list T :=
  (enumerate (newPacer ratePerSec) env 0 items final).1.1.

Definition DefaultPerObjectTimeout : Z := 30 * 60 * second.

Definition NormalizePerObjectTimeout (d : Z) : Z := if (d <=? 0)%Z then DefaultPerObjectTimeout else d.

(** ** Backfill *)

Record BackfillStats := MkBF { bf_Backed : Z; bf_Skipped : Z; bf_Deferred : Z; bf_Failed : Z; bf_Cancelled : Z }.

Definition zeroBackfill : BackfillStats := MkBF 0 0 0 0 0.

Inductive bf_class := BBacked | BSkipped | BDeferred | BFailed | BCancelled.
#[global] Instance bf_class_eq_dec : EqDecision bf_class.
Proof. solve_decision. Defined.

(** The switch of [backupOne], after BackupOne returned; a panic is recovered
    by [recoverFailed]. [ctx] is the parent context. *)
Definition backupOne_class (ctx : ctxState) (r : attempt (bool * bool * goerr)) : bf_class :=
  match r with
  | Panics _ => BFailed
  | Returns (done, deferred, e) =>
      if bool_decide (e = None) && done then BBacked
      else if bool_decide (e = None) && deferred then BDeferred
      else if errors_Is e ErrSourceGone then BSkipped
      else if cancelledInFlight ctx e then BCancelled
      else BFailed
  end.

Definition backupOne (ctx : ctxState) (r : attempt (bool * bool * goerr)) (st : BackfillStats) : BackfillStats :=
  match backupOne_class ctx r with
  | BBacked => MkBF (bf_Backed st + 1) (bf_Skipped st) (bf_Deferred st) (bf_Failed st) (bf_Cancelled st)
  | BSkipped => MkBF (bf_Backed st) (bf_Skipped st + 1) (bf_Deferred st) (bf_Failed st) (bf_Cancelled st)
  | BDeferred => MkBF (bf_Backed st) (bf_Skipped st) (bf_Deferred st + 1) (bf_Failed st) (bf_Cancelled st)
  | BFailed => MkBF (bf_Backed st) (bf_Skipped st) (bf_Deferred st) (bf_Failed st + 1) (bf_Cancelled st)
  | BCancelled => MkBF (bf_Backed st) (bf_Skipped st) (bf_Deferred st) (bf_Failed st) (bf_Cancelled st + 1)
  end.

(** [Backfiller.Run]: [result] is what the pipeline returned for each item and
    [ctx] the parent context when that worker classified it. *)
Definition Backfill {T} (ratePerSec : Z) (env : nat → yenv) (items : list T) (final : goerr)
    (result : T → attempt (bool * bool * goerr)) (ctx : T → ctxState) (completed : list T) : BackfillStats * goerr :=
  (foldl (λ st x, backupOne (ctx x) (result x) st) zeroBackfill completed,
   runBoundedPaced ratePerSec env items final (λ _, Returns tt) completed).

(** ** RestoreAll *)

Record RestoreAllStats := MkRA { ra_Restored : Z; ra_Skipped : Z; ra_Failed : Z; ra_Cancelled : Z }.

Definition zeroRestore : RestoreAllStats := MkRA 0 0 0 0.

Definition restoreAllOne (ctx : ctxState) (r : attempt (bool * goerr)) (st : RestoreAllStats) : RestoreAllStats :=
  match r with
  | Panics _ => MkRA (ra_Restored st) (ra_Skipped st) (ra_Failed st + 1) (ra_Cancelled st)
  | Returns (skipped, e) =>
      if cancelledInFlight ctx e then MkRA (ra_Restored st) (ra_Skipped st) (ra_Failed st) (ra_Cancelled st + 1)
      else match e, skipped with
           | Some _, _ => MkRA (ra_Restored st) (ra_Skipped st) (ra_Failed st + 1) (ra_Cancelled st)
           | None, true => MkRA (ra_Restored st) (ra_Skipped st + 1) (ra_Failed st) (ra_Cancelled st)
           | None, false => MkRA (ra_Restored st + 1) (ra_Skipped st) (ra_Failed st) (ra_Cancelled st)
           end
  end.

Definition RestoreAll (env : nat → yenv) (hashes : list string) (final : goerr)
    (result : string → attempt (bool * goerr)) (ctx : string → ctxState) (completed : list string)
    : RestoreAllStats * goerr :=
  (foldl (λ st h, restoreAllOne (ctx h) (result h) st) zeroRestore completed,
   runBoundedPaced 0 env hashes final (λ _, Returns tt) completed).

(** ** Drill *)

Record DrillOutcome := MkDO { do_Passed : Z; do_Failed : Z; do_Failures : list (string * err) }.

Definition zeroDrill : DrillOutcome := MkDO 0 0 [].

Definition Checked (o : DrillOutcome) : Z := do_Passed o + do_Failed o.
Definition Pass (o : DrillOutcome) : bool := (0 <? Checked o)%Z && (do_Failed o =? 0)%Z.

Definition recordDrillFailure (o : DrillOutcome) (hash : string) (e : err) : DrillOutcome :=
  MkDO (do_Passed o) (do_Failed o + 1) (do_Failures o ++ [(hash, e)]).

(** [drillOne] on RestoreObject's result; a stray panic goes to
    [recoverDrillFailure]. *)
Definition drillOne (ctx : ctxState) (hash : string) (r : attempt goerr) (o : DrillOutcome) : DrillOutcome :=
  match r with
  | Panics x => recordDrillFailure o hash (PanicErr ("drill " +:+ hash) x)
  | Returns e =>
      if cancelledInFlight ctx e then o
      else match e with
           | Some x => recordDrillFailure o hash x
           | None => MkDO (do_Passed o + 1) (do_Failed o) (do_Failures o)
           end
  end.

Definition drillInterruptErr (ctx : ctxState) (sweepErr : goerr) (checked dispatched : Z) : goerr :=
  match sweepErr with
  | Some e => Some e
  | None => if (checked <? dispatched)%Z then ctxErr ctx else None
  end.

(** [Drill] over the sampled hashes; [final_ctx] is [ctx.Err()] at the end. *)
Definition Drill (env : nat → yenv) (hashes : list string) (final : goerr)
    (result : string → attempt goerr) (ctx : string → ctxState) (completed : list string) (final_ctx : ctxState)
    : DrillOutcome * goerr :=
  let out := foldl (λ o h, drillOne (ctx h) h (result h) o) zeroDrill completed in
  let n := Z.of_nat (enumerate (newPacer 0) env 0 hashes final).1.2 in
  (out, drillInterruptErr final_ctx (runBoundedPaced 0 env hashes final (λ _, Returns tt) completed) (Checked out) n).

(** ** Lemmas *)

Lemma enumerate_prefix {T} pacer env k (items : list T) final ds n e :
  enumerate pacer env k items final = (ds, n, e) →
  ds `sublist_of` items ∧ n ≤ length items ∧
  (e = None → (∀ j, y_sem (env j) = ArmDone → y_sem_ctx (env j) ≠ None) → ds = items ∧ n = length items ∧ final = None).
Proof.
  revert k ds n e. induction items as [|x items IH]; intros k ds n e; cbn [enumerate].
  { intros [= <- <- <-]. by split_and!. }
  destruct (yield pacer (env k)) as [d [y|]] eqn:Ey.
  { intros [= <- <- <-]. split_and!; [|cbn; lia|done]. destruct d; [apply sublist_skip|]; apply sublist_nil_l. }
  destruct (enumerate pacer env (S k) items final) as [[ds' n'] e'] eqn:Ee. intros [= <- <- <-].
  destruct (IH _ _ _ _ Ee) as (Hs & Hn & Hok). split_and!.
  - destruct d; cbn; [by apply sublist_skip|by apply sublist_cons].
  - cbn. lia.
  - intros He Hsem. destruct (Hok He Hsem) as (-> & -> & ->). split_and!; [|done|done].
    unfold yield in Ey. destruct (wait _ _ _); [done|]. destruct (y_sem (env k)) eqn:Ea; [by simplify_eq|].
    injection Ey as <- Hc. specialize (Hsem k Ea). by destruct (y_sem_ctx (env k)).
Qed.

(** A worker only gets items of the sweep. *)
Lemma dispatched_elem {T} rate env (items : list T) final x : x ∈ dispatched rate env items final → x ∈ items.
Proof.
  unfold dispatched. destruct (enumerate _ _ _ _ _) as [[ds n] e] eqn:Ee. apply enumerate_prefix in Ee as (Hsub & _).
  intros Hin. eapply elem_of_submseteq; [exact Hin|by apply sublist_submseteq].
Qed.

(** Select arms are only taken when they can be: Done needs an error. *)
Definition sound (env : nat → yenv) : Prop := ∀ j, y_sem (env j) = ArmDone → y_sem_ctx (env j) ≠ None.

Lemma runBoundedPaced_nil {T} rate env (items : list T) final work completed : sound env →
  runBoundedPaced rate env items final work completed = None →
  dispatched rate env items final = items ∧ final = None ∧
  (enumerate (newPacer rate) env 0 items final).1.2 = length items.
Proof.
  intros Hs. unfold runBoundedPaced, dispatched.
  destruct (enumerate _ _ _ _ _) as [[ds n] [e|]] eqn:Ee; cbn; [done|]. intros _.
  apply enumerate_prefix in Ee as (_ & _ & H). by destruct (H eq_refl Hs) as (-> & -> & ->).
Qed.

(** Closes a sum of counters after the item's class is known. *)
Ltac close_count := cbn; f_equal; repeat (case_bool_decide; simplify_eq); lia.

Definition countZ {A} (f : A → bool) (l : list A) : Z := Z.of_nat (length (List.filter f l)).

Lemma countZ_cons {A} (f : A → bool) x l : countZ f (x :: l) = ((if f x then 1 else 0) + countZ f l)%Z.
Proof. unfold countZ. cbn. destruct (f x); cbn [length]; lia. Qed.

Lemma countZ_perm {A} (f : A → bool) l l' : l ≡ₚ l' → countZ f l = countZ f l'.
Proof.
  induction 1 as [|x l l' _ IH|x y l|l1 l2 l3 _ IH1 _ IH2]; rewrite ?countZ_cons; [done|lia|lia|congruence].
Qed.

Lemma countZ_nonneg {A} (f : A → bool) l : (0 ≤ countZ f l)%Z.
Proof. unfold countZ. lia. Qed.

Lemma countZ_all {A} (f : A → bool) l : countZ f l = 0%Z ↔ ∀ x, x ∈ l → f x = false.
Proof.
  induction l as [|y l IH]; [split; [|done]; intros _ x Hx; by apply not_elem_of_nil in Hx|].
  rewrite countZ_cons. pose proof (countZ_nonneg f l). split.
  - intros Hc x [->|Hx]%elem_of_cons; [destruct (f y); [lia|done]|]. apply IH; [|done]. destruct (f y); lia.
  - intros Hall. rewrite (Hall y) by by left. apply IH. intros x Hx. apply Hall. by right.
Qed.

Lemma backfill_fold {T} (result : T → attempt (bool * bool * goerr)) ctx l st :
  let c k := countZ (λ x, bool_decide (backupOne_class (ctx x) (result x) = k)) l in
  foldl (λ st x, backupOne (ctx x) (result x) st) st l =
    MkBF (bf_Backed st + c BBacked) (bf_Skipped st + c BSkipped) (bf_Deferred st + c BDeferred)
         (bf_Failed st + c BFailed) (bf_Cancelled st + c BCancelled).
Proof.
  cbv zeta. revert st. induction l as [|x l IH]; intros st.
  { destruct st. unfold countZ; cbn. f_equal; lia. }
  cbn [foldl]. rewrite IH, !countZ_cons. cbv beta. unfold backupOne.
  destruct (backupOne_class (ctx x) (result x)); close_count.
Qed.

(** The classes partition the items. *)
Lemma countZ_bf {T} (g : T → bf_class) l :
  (countZ (λ x, bool_decide (g x = BBacked)) l + countZ (λ x, bool_decide (g x = BSkipped)) l +
   countZ (λ x, bool_decide (g x = BDeferred)) l + countZ (λ x, bool_decide (g x = BFailed)) l +
   countZ (λ x, bool_decide (g x = BCancelled)) l = Z.of_nat (length l))%Z.
Proof. induction l as [|x l IH]; [done|]. rewrite !countZ_cons. cbv beta. cbn [length]. destruct (g x); close_count. Qed.

(** A drilled object either passed or is in the failure list, or was cancelled. *)
Definition drill_class (ctx : ctxState) (r : attempt goerr) : option bool :=
  match r with
  | Panics _ => Some false
  | Returns e => if cancelledInFlight ctx e then None else Some (bool_decide (e = None))
  end.

Lemma drillOne_class ctx h r o : ∃ e, drillOne ctx h r o =
  match drill_class ctx r with
  | None => o
  | Some true => MkDO (do_Passed o + 1) (do_Failed o) (do_Failures o)
  | Some false => recordDrillFailure o h e
  end.
Proof.
  unfold drillOne, drill_class. destruct r as [[x|]|x]; [|by exists (Msg "")|by eexists].
  destruct (cancelledInFlight ctx (Some x)); [by exists (Msg "")|by eexists].
Qed.

Lemma drill_fold result ctx l o :
  let failed h := bool_decide (drill_class (ctx h) (result h) = Some false) in
  let o' := foldl (λ o h, drillOne (ctx h) h (result h) o) o l in
  do_Passed o' = (do_Passed o + countZ (λ h, bool_decide (drill_class (ctx h) (result h) = Some true)) l)%Z ∧
  do_Failed o' = (do_Failed o + countZ failed l)%Z ∧
  (do_Failures o').*1 = (do_Failures o).*1 ++ List.filter failed l.
Proof.
  cbv zeta. revert o. induction l as [|h l IH]; intros o.
  { unfold countZ; cbn. rewrite app_nil_r. split_and!; [lia|lia|done]. }
  cbn [foldl]. destruct (IH (drillOne (ctx h) h (result h) o)) as (-> & -> & ->). rewrite !countZ_cons.
  cbn [List.filter]. cbv beta. destruct (drillOne_class (ctx h) h (result h) o) as [e ->].
  destruct (drill_class (ctx h) (result h)) as [[]|]; cbn [recordDrillFailure do_Passed do_Failed do_Failures];
    repeat (case_bool_decide; simplify_eq); (split_and!; [lia|lia|]); [done| |done].
  rewrite fmap_app. cbn. by rewrite <- app_assoc.
Qed.

Lemma countZ_drill (g : string → option bool) l :
  (countZ (λ h, bool_decide (g h = Some true)) l + countZ (λ h, bool_decide (g h = Some false)) l +
   countZ (λ h, bool_decide (g h = None)) l = Z.of_nat (length l))%Z.
Proof. induction l as [|x l IH]; [done|]. rewrite !countZ_cons. cbv beta. cbn [length]. destruct (g x) as [[]|]; close_count. Qed.

Lemma newPacer_positive rate i : newPacer rate = Some i → (1 ≤ i)%Z.
Proof. unfold newPacer. destruct (rate <=? 0)%Z; [done|]. intros [= <-]. case_match; to_prop; lia. Qed.

(** ** Properties *)

(** A backfill pass accounts for every object exactly once. Whatever the
    order in which its workers complete, each counter is the number of
    dispatched objects of its class and together they are all of them; a pass
    that returns nil dispatched the whole corpus; and one that also counts no
    failure and no cancellation left every object backed up, deferred to a down
    target, or gone at the source. *)
Theorem backfill_accounts_for_every_object {T} rate env (items : list T) final result ctx completed st e :
  sound env → completed ≡ₚ dispatched rate env items final →
  Backfill rate env items final result ctx completed = (st, e) →
  let n k := countZ (λ x, bool_decide (backupOne_class (ctx x) (result x) = k)) (dispatched rate env items final) in
  st = MkBF (n BBacked) (n BSkipped) (n BDeferred) (n BFailed) (n BCancelled) ∧
  (bf_Backed st + bf_Skipped st + bf_Deferred st + bf_Failed st + bf_Cancelled st =
     Z.of_nat (length (dispatched rate env items final)))%Z ∧
  (e = None → dispatched rate env items final = items ∧ final = None ∧
     (bf_Failed st = 0%Z → bf_Cancelled st = 0%Z → ∀ x, x ∈ items →
        (∃ d, result x = Returns (true, d, None)) ∨ (∃ d, result x = Returns (d, true, None)) ∨
        (∃ a b y, result x = Returns (a, b, Some y) ∧ Is y ErrSourceGone = true))).
Proof.
  intros Hs Hp. unfold Backfill. rewrite backfill_fold. intros [= <- He']. subst e. cbv zeta beta.
  cbn [bf_Backed bf_Skipped bf_Deferred bf_Failed bf_Cancelled zeroBackfill]. rewrite !Z.add_0_l, !(countZ_perm _ _ _ Hp).
  split_and!; [done|apply countZ_bf|]. intros He. destruct (runBoundedPaced_nil _ _ _ _ _ _ Hs He) as (Hd & Hf & _).
  rewrite Hd. split_and!; [done|done|]. intros Hfail Hcan x Hx.
  rewrite Hd in *. rewrite countZ_all in Hfail, Hcan.
  specialize (Hfail x Hx). specialize (Hcan x Hx). unfold backupOne_class in *.
  destruct (result x) as [[[dn df] [y|]]|y]; [| |done].
  - cbn in *. destruct (Is y ErrSourceGone) eqn:Eg; [right; right; eauto 6|].
    by destruct (cancelledInFlight (ctx x) (Some y)).
  - destruct dn; [left; eauto|]. destruct df; [right; left; eauto|]. cbn in *. by destruct (cancelledInFlight (ctx x) None).
Qed.

(** A passing drill proves a restore. A drill that returns nil passes
    exactly when it sampled at least one object and every sampled object
    restored; the failure list names exactly the objects that failed. *)
Theorem drill_pass_exact env hashes final result ctx completed final_ctx out :
  sound env → completed ≡ₚ dispatched 0 env hashes final → (∀ h, ctx h ≠ None → final_ctx ≠ None) →
  Drill env hashes final result ctx completed final_ctx = (out, None) →
  (Pass out = true ↔ hashes ≠ [] ∧ ∀ h, h ∈ hashes → result h = Returns None) ∧
  (∀ h, h ∈ (do_Failures out).*1 ↔ h ∈ hashes ∧ result h ≠ Returns None).
Proof.
  intros Hs Hp Hctx. unfold Drill.
  destruct (runBoundedPaced 0 env hashes final _ completed) eqn:Er; [done|].
  destruct (runBoundedPaced_nil _ _ _ _ _ _ Hs Er) as (Hd & _ & ->). rewrite Hd in Hp. cbn [drillInterruptErr].
  set (g h := drill_class (ctx h) (result h)).
  destruct (drill_fold result ctx completed zeroDrill) as (Hpass & Hfail & Hlist).
  set (o := foldl _ zeroDrill completed) in *. cbn [do_Passed do_Failed do_Failures zeroDrill fmap list_fmap app] in *. rewrite Z.add_0_l in Hpass, Hfail.
  pose proof (countZ_drill g completed) as Hsum. rewrite (Permutation_length Hp) in Hsum. fold g in Hpass, Hfail, Hlist.
  intros [= <- He].
  assert (∀ h, h ∈ completed → g h ≠ None) as Hnone.
  { intros h Hh Hg. destruct (Checked o <? Z.of_nat (length hashes))%Z eqn:Ec.
    - assert (ctx h ≠ None) as Hc.
      { unfold g, drill_class in Hg. destruct (result h) as [x|x]; [|done].
        destruct (cancelledInFlight (ctx h) x) eqn:Ei; [|done]. intros Hn. rewrite Hn in Ei.
        unfold cancelledInFlight in Ei. by rewrite andb_false_r in Ei. }
      apply Hctx in Hc. by destruct final_ctx.
    - to_prop. unfold Checked in Ec. rewrite Hpass, Hfail in Ec.
      assert (countZ (λ h, bool_decide (g h = None)) completed = 0)%Z as H0.
      { pose proof (countZ_nonneg (λ h, bool_decide (g h = None)) completed). unfold g in *. lia. }
      rewrite countZ_all in H0. specialize (H0 h Hh). cbv beta in H0. by rewrite bool_decide_eq_true_2 in H0. }
  assert (∀ h, h ∈ completed → (g h = Some false ↔ result h ≠ Returns None)) as Hcls.
  { intros h Hh. specialize (Hnone h Hh). unfold g, drill_class in *. destruct (result h) as [[x|]|x]; [|done|done].
    destruct (cancelledInFlight (ctx h) (Some x)); [done|]. by rewrite bool_decide_eq_false_2. }
  split.
  - unfold Pass, Checked. split.
    + intros [Hpos%Z.ltb_lt Hz%Z.eqb_eq]%andb_true_iff. rewrite Hfail in Hz. split.
      * intros ->. apply Permutation_nil_r in Hp as ->. rewrite Hpass, Hfail in Hpos. unfold countZ in Hpos. cbn in Hpos. lia.
      * intros h Hh. rewrite <- Hp in Hh. rewrite countZ_all in Hz. specialize (Hz h Hh). cbv beta in Hz. to_prop.
        destruct (decide (g h = Some false)) as [Hg|Hg]; [done|].
        destruct (result h) as [[x|]|x] eqn:Ex; [|done|]; destruct Hg; apply (proj2 (Hcls h Hh)); by rewrite Ex.
    + intros [Hne Hall]. assert (countZ (λ h, bool_decide (g h = Some false)) completed = 0)%Z as H0.
      { apply countZ_all. intros h Hh. apply bool_decide_eq_false_2. rewrite Hcls by done.
        intros Hn. apply Hn, Hall. by rewrite <- Hp. }
      assert (countZ (λ h, bool_decide (g h = None)) completed = 0)%Z as H1.
      { apply countZ_all. intros h Hh. apply bool_decide_eq_false_2. by apply Hnone. }
      assert (0 < length hashes) by (destruct hashes; [done|cbn; lia]).
      apply andb_true_iff. rewrite Hpass, Hfail. unfold g in *. split; [apply Z.ltb_lt; lia|apply Z.eqb_eq; lia].
  - intros h. rewrite Hlist, list_elem_of_In, filter_In, <- list_elem_of_In. rewrite <- Hp. split.
    + intros [Hh Hg]. split; [done|]. to_prop. by apply Hcls.
    + intros [Hh Hr]. split; [done|]. apply bool_decide_eq_true_2. by apply Hcls.
Qed.

(** ** Concrete sweeps *)

Definition ex_live (n : nat) : yenv := MkY ArmResult None ArmResult None None.
Definition ex_result (n : nat) : attempt (bool * bool * goerr) :=
  match n with
  | 1 => Returns (true, false, None)
  | 2 => Panics "poison"
  | _ => Returns (false, false, Some (Wrap "fetch" [Sent ErrSourceGone]))
  end.

Lemma ex_sound : sound ex_live.
Proof. by intros j. Qed.

Lemma backfill_accounts_for_every_object_witness :
  Backfill 10 ex_live [1; 2; 3] None ex_result (λ _, None) [3; 1; 2] = (MkBF 1 1 0 1 0, None) ∧
  (bf_Backed (MkBF 1 1 0 1 0) + bf_Skipped (MkBF 1 1 0 1 0) + bf_Deferred (MkBF 1 1 0 1 0) +
   bf_Failed (MkBF 1 1 0 1 0) + bf_Cancelled (MkBF 1 1 0 1 0) = 3)%Z.
Proof.
  assert (Backfill 10 ex_live [1; 2; 3] None ex_result (λ _, None) [3; 1; 2] = (MkBF 1 1 0 1 0, None)) as Hb
    by (vm_compute; reflexivity).
  split; [exact Hb|].
  apply (backfill_accounts_for_every_object 10 ex_live [1; 2; 3] None ex_result (λ _, None) [3; 1; 2] (MkBF 1 1 0 1 0) None ex_sound); [|exact Hb].
  change (dispatched 10 ex_live [1; 2; 3] None) with [1; 2; 3]. change ([3] ++ [1; 2] ≡ₚ [1; 2] ++ [3]). apply Permutation_app_comm.
Defined.

Lemma drill_pass_exact_witness :
  Drill ex_live ["aa"; "bb"] None (λ _, Returns None) (λ _, None) ["bb"; "aa"] None = (MkDO 2 0 [], None) ∧
  (Pass (MkDO 2 0 []) = true ↔ ["aa"; "bb"] ≠ [] ∧ ∀ h, h ∈ ["aa"; "bb"] → (λ _ : string, Returns None) h = Returns (T := goerr) None).
Proof.
  assert (Drill ex_live ["aa"; "bb"] None (λ _, Returns None) (λ _, None) ["bb"; "aa"] None = (MkDO 2 0 [], None)) as Hd
    by (vm_compute; reflexivity).
  split; [exact Hd|].
  destruct (drill_pass_exact ex_live ["aa"; "bb"] None (λ _, Returns None) (λ _, None) ["bb"; "aa"] None (MkDO 2 0 []) ex_sound)
    as [Hp _]; [|done|exact Hd|exact Hp].
  change (dispatched 0 ex_live ["aa"; "bb"] None) with ["aa"; "bb"]. constructor.
Defined.

End Sweep.
