(* ===== verification/Reconcile.v ===== *)
(** * Reconcile: repairing under-replicated objects from one target to the others

    [src/internal/domain/reconcile.go]: [Reconciler] with its constructor, its work-list
    loop, [repair] and the order of its sources, and [decodingSource], which stages
    the decoded object in a scratch file and serves it to the backup pipeline. The
    scratch directory is the file system of Files.v, the decode is Restore.v's and
    the re-fan-out Pipeline.v's. *)

From S2P Require Import Prelude GoRuntime Ports Circuit Keyset Ledger Stream Fanout Outbox Pipeline Consumer Progress Files Restore Sweep.
From Stdlib Require Import ZArith Lia.
From stdpp Require Import base gmap strings list sorting numbers.

Module Reconcile.
Import Ports Stream Files Restore Pipeline.
Import Fanout(Target, t_name).

(** ** The reconciler *)

(** The ledger and the breaker are in the pipeline's state; [onError]: a callback is
    registered. *)
Record Reconciler := MkReconciler {
  rc_targets : list Target; byName : gmap string Target; perObjectT : Z; scratchDir : string;
  rc_stall : Z; concurrency : Z; onError : bool;
}.

Definition NewReconciler (targets : list Target) (perObjectTimeout : Z) (scratchDir : string) (stall concurrency : Z)
    : Reconciler :=
  MkReconciler targets (foldl (λ m t, <[t_name t := t]> m) ∅ targets)
    (Sweep.NormalizePerObjectTimeout perObjectTimeout) scratchDir stall concurrency false.

Definition OnError (rc : Reconciler) : Reconciler :=
  MkReconciler (rc_targets rc) (byName rc) (perObjectT rc) (scratchDir rc) (rc_stall rc) (concurrency rc) true.

(** The calls the callback receives. *)
Definition reportErr (rc : Reconciler) (externalID : string) (e : goerr) : list (string * err) :=
  match e with Some e => if onError rc then [(externalID, e)] else [] | None => [] end.

(** The pipeline of a pass: no source of its own. *)
Definition pipeline (rc : Reconciler) : Pipeline := MkPipeline (rc_targets rc) (rc_stall rc).

Definition orderSources (cb : option Circuit.CircuitBreaker) (iteration : list string) : list string :=
  let down := List.filter (Pipeline.isDown cb) iteration in
  let healthy := List.filter (λ n, negb (Pipeline.isDown cb n)) iteration in
  Ledger.sort_ids healthy ++ Ledger.sort_ids down.

(** ** The staged source *)

(** What the system does in one fetch: the temp [os.CreateTemp] picked, the
    answers of the source and of the reads, the temp's write faults, the seek and the
    truncate of the reset, the arm of the abandonable decode, the rewind, and the
    close and remove (with [os.IsNotExist] of its error). *)
Record stage := MkStage {
  sg_tmp : string; sg_inode : N; sg_create : goerr;
  sg_fetch : nat → attempt (reader + err); sg_reads : nat → nat → ctxState; sg_fault : nat → option (nat * err);
  sg_reset : goerr * goerr; sg_arm : select_arm; sg_ctx : ctxState;
  sg_seek : goerr; sg_close : goerr; sg_remove : option (err * bool);
}.

Definition rewindTruncate (seek truncate : goerr) : goerr :=
  match seek with Some e => Some e | None => truncate end.

Definition decode_env (v : stage) : denv :=
  MkD (sg_fetch v) (sg_reads v) (sg_fault v) (Some (rewindTruncate (sg_reset v).1 (sg_reset v).2)).

(** [os.Remove] of the temp. *)
Definition osRemove (v : stage) (s : fs) : fs :=
  match sg_remove v with Some (_, false) => s | _ => remove (sg_tmp v) s end.

(** [tempReadCloser.Close]. *)
Definition Close (v : stage) (s : fs) : fs * goerr :=
  (osRemove v s,
   match sg_remove v with
   | Some (e, false) => errors_Join [sg_close v; Some e]
   | _ => sg_close v
   end).

Section staging.
Context `{Decoder} (sum : bytes → string) (F : nat).

(** [decodingSource.FetchContent]; [None]: the decode does not return. The deferred
    cleanup ignores its errors. *)
Definition FetchContent (v : stage) (externalID : string) (s : fs) : option (fs * (reader + err)) :=
  match sg_create v with
  | Some e => Some (s, inr (Wrap "reconcile temp" [e]))
  | None =>
      r ← decodeStream sum (sg_arm v) (sg_ctx v) (decode_env v) F externalID;
      let s := foldl (fill_step (sg_inode v)) (create (sg_tmp v) (sg_inode v) s) r.1 in
      Some (match r.2 with
            | Some e => (osRemove v s, inr e)
            | None =>
                match sg_seek v with
                | Some e => (osRemove v s, inr (Wrap "reconcile temp rewind" [e]))
                | None => (s, inl [RData (default [] (contents s (sg_tmp v))) None])
                end
            end)
  end.
End staging.

(** ** repair *)

Record ReconcileStats := MkRC { rc_Repaired : Z; rc_Skipped : Z; rc_Failed : Z; rc_Cancelled : Z }.

Definition zeroReconcile : ReconcileStats := MkRC 0 0 0 0.

Inductive rc_class := RRepaired | RSkipped | RFailed | RCancelled.
#[global] Instance rc_class_eq_dec : EqDecision rc_class.
Proof. solve_decision. Defined.

(** Trying one source: the pipeline's environment, and the two contexts read when
    the attempt failed. *)
Record senv := MkS { s_env : env; s_ctx : ctxState; s_octx : ctxState }.

Definition with_fetch (v : env) (a : attempt (reader + err)) : env :=
  MkPEnv (read_err v) (open_clock v) (rec_clock v) a (digest v) (bufsize v) (sched v) (goroutine v)
    (ctx_fanout v) (ctx_abort v) (ctx_circuit v) (db_now v) (record_fault v).

Definition repair_entry (externalID : string) : BackupItem := MkItem 0 externalID 0 None None.

Definition errUnwritable : err := Msg "repaired source but a destination target is still unwritable".
Definition errNoHolder : err := Msg "on NO current target: needs a primary-store backfill (not reconcilable)".

Section repair.
Context {L : Type} `{Ledger.LedgerIface L} `{Fanout.Zstd} `{Decoder} (sum : bytes → string) (F : nat).
Context (rc : Reconciler) (stg : string → stage) (env : string → senv).

(** Whether the backup gets as far as its source. *)
Definition fetches (v : Pipeline.env) (s : pstate (L := L)) (externalID : string) (stored : gset string) : bool :=
  match precheck (pipeline rc) (repair_entry externalID), (pendingTargets v stored (rc_targets rc) s).1.1 with
  | None, _ :: _ => true
  | _, _ => false
  end.

(** The backup from one staged source; the fan-out closes the source it was given
    and ignores the error. *)
Definition backupVia (name externalID : string) (stored : gset string) (s : pstate (L := L)) (d : fs)
    : option (outcome (L := L) * fs) :=
  let v := s_env (env name) in
  if fetches v s externalID stored then
    r ← FetchContent sum F (stg name) externalID d;
    o ← backupFrom (pipeline rc) (with_fetch v (Returns r.2)) s (repair_entry externalID) (Some stored);
    Some (o, match r.2 with inl _ => (Close (stg name) r.1).1 | inr _ => r.1 end)
  else
    o ← backupFrom (pipeline rc) v s (repair_entry externalID) (Some stored);
    Some (o, d).

(** How a repair ended, and the error it reports. *)
Record repaired := MkRepaired { rp_state : pstate (L := L); rp_scratch : fs; rp_class : rc_class; rp_report : goerr }.

(** The loop over the ordered sources. *)
Fixpoint repair_loop (externalID : string) (stored : gset string) (lastErr : goerr) (sources : list string)
    (s : pstate (L := L)) (d : fs) : option repaired :=
  match sources with
  | [] =>
      Some (match lastErr with
            | None => MkRepaired s d RSkipped (Some errNoHolder)
            | Some e => MkRepaired s d RFailed (Some (Wrap "every source failed to fetch/decode" [e]))
            end)
  | name :: sources =>
      match byName rc !! name with
      | None => repair_loop externalID stored lastErr sources s d
      | Some _ =>
          r ← backupVia name externalID stored s d;
          let '(o, d) := r in
          match o_ret o with
          | Panics _ => Some (MkRepaired (o_state o) d RFailed None)
          | Returns (done, _, None) =>
              Some (if done : bool then MkRepaired (o_state o) d RRepaired None
                    else MkRepaired (o_state o) d RFailed (Some errUnwritable))
          | Returns (_, _, Some e) =>
              if cancelledInFlight (s_ctx (env name)) (Some e) then Some (MkRepaired (o_state o) d RCancelled None)
              else if bool_decide (s_octx (env name) ≠ None) then Some (MkRepaired (o_state o) d RFailed None)
              else repair_loop externalID stored (Some e) sources (o_state o) d
          end
      end
  end.

(** [iteration] is the order in which the map of holders is ranged over. *)
Definition repair (externalID : string) (stored : gset string) (iteration : list string) (s : pstate (L := L)) (d : fs)
    : option repaired :=
  repair_loop externalID stored None (orderSources (circuit s) iteration) s d.
End repair.

Definition bump_rc (c : rc_class) (st : ReconcileStats) : ReconcileStats :=
  match c with
  | RRepaired => MkRC (rc_Repaired st + 1) (rc_Skipped st) (rc_Failed st) (rc_Cancelled st)
  | RSkipped => MkRC (rc_Repaired st) (rc_Skipped st + 1) (rc_Failed st) (rc_Cancelled st)
  | RFailed => MkRC (rc_Repaired st) (rc_Skipped st) (rc_Failed st + 1) (rc_Cancelled st)
  | RCancelled => MkRC (rc_Repaired st) (rc_Skipped st) (rc_Failed st) (rc_Cancelled st + 1)
  end.

(** [Reconciler.Run] over the gaps, by the order in which the repairs complete;
    [result] is how each ended. *)
Definition Run (rc : Reconciler) (ratePerSec : Z) (env : nat → Sweep.yenv) (gaps : list (string * gset string)) (final : goerr)
    (result : string → rc_class * goerr) (completed : list (string * gset string))
    : ReconcileStats * list (string * err) * goerr :=
  (foldl (λ st g, bump_rc (result g.1).1 st) zeroReconcile completed,
   completed ≫= (λ g, reportErr rc g.1 (result g.1).2),
   Sweep.runBoundedPaced ratePerSec env gaps final (λ _, Returns tt) completed).

(** ** Lemmas *)

Lemma reconcile_fold {T} (class : T → rc_class) l st :
  let c k := Sweep.countZ (λ x, bool_decide (class x = k)) l in
  foldl (λ st g, bump_rc (class g) st) st l =
    MkRC (rc_Repaired st + c RRepaired) (rc_Skipped st + c RSkipped) (rc_Failed st + c RFailed)
         (rc_Cancelled st + c RCancelled).
Proof.
  cbv zeta. revert st. induction l as [|x l IH]; intros st.
  { destruct st. unfold Sweep.countZ; cbn. f_equal; lia. }
  cbn [foldl]. rewrite IH, !Sweep.countZ_cons. cbv beta. destruct (class x); Sweep.close_count.
Qed.

(** *** The staged source *)

Section staging_lemmas.
Context `{Decoder} (sum : bytes → string) (F : nat).

(** The abandoned arm of a select is taken only when the context has ended. *)
Definition sound (v : stage) : Prop := sg_arm v = ArmDone → sg_ctx v ≠ None.

(** The temp is its maker's alone ([os.CreateTemp] opens with O_EXCL). *)
Definition unused (v : stage) (s : fs) : Prop := names s !! sg_tmp v = None ∧ ∀ p, names s !! p ≠ Some (sg_inode v).

(** What is served is a plaintext of the object, within the cap. *)
Lemma FetchContent_verified v id s s' r : sound v → FetchContent sum F v id s = Some (s', inl r) →
  ∃ d, r = [RData d None] ∧ sum d = id ∧ (Z.of_nat (length d) ≤ Fanout.maxObjectBytes)%Z ∧ contents s' (sg_tmp v) = Some d.
Proof.
  intros Hs. unfold FetchContent. destruct (sg_create v); [done|].
  unfold decodeStream. destruct (decodeStreamInner sum (decode_env v) F id) as [[ops a]|] eqn:Ed; [|done].
  cbn [mbind option_bind fst snd]. unfold callWithCtx, RunAbandonable, RunAbandonableClose.
  destruct (sg_arm v) eqn:Ea; cbn [fst].
  2:{ specialize (Hs Ea). by destruct (sg_ctx v). }
  destruct a as [[e|]|x]; cbn [sent]; [done| |done]. destruct (sg_seek v); [done|]. intros [= <- <-].
  set (s0 := create (sg_tmp v) (sg_inode v) s).
  destruct (fills_temp (sg_inode v) s0 ops) as [b Hb]; [by unfold s0; cbn; rewrite lookup_insert_eq|].
  assert (contents (foldl (fill_step (sg_inode v)) s0 ops) (sg_tmp v) = Some (written ops)) as Hc.
  { unfold contents. rewrite fills_names. change (names s0) with (<[sg_tmp v := sg_inode v]> (names s)).
    rewrite lookup_insert_eq. cbn [mbind option_bind]. by rewrite Hb. }
  destruct (decode_ok sum _ _ _ _ Ed) as (pre & d & Hw & Hsum & Hlen & Hpre). rewrite (Hpre ltac:(done)) in Hw.
  exists d. rewrite Hc. cbn. rewrite Hw. by split_and!.
Qed.

(** The scratch directory: a temp that is handed out is the only change, and one
    that is not, or has been closed, is gone. *)
Lemma FetchContent_scratch v id s s' a : unused v s → sg_remove v = None ∨ (∃ e, sg_remove v = Some (e, true)) →
  FetchContent sum F v id s = Some (s', a) →
  match a with inr _ => unwritten s s' | inl _ => unwritten s (Close v s').1 end.
Proof.
  intros [Hn Hi] Hrm. unfold FetchContent. destruct (sg_create v); [by intros [= <- <-]|].
  destruct (decodeStream _ _ _ _ _ _) as [[ops e]|]; [|done]. cbn [mbind option_bind fst snd].
  assert (unwritten s (osRemove v (foldl (fill_step (sg_inode v)) (create (sg_tmp v) (sg_inode v) s) ops))) as Hu.
  { assert (osRemove v = remove (sg_tmp v)) as -> by (unfold osRemove; destruct Hrm as [->|[x ->]]; done).
    apply (remove_restores _ (sg_inode v)); [done..| |].
    - intros j Hj. enough (∀ s0, inodes (foldl (fill_step (sg_inode v)) s0 ops) !! j = inodes s0 !! j) as Hf.
      { rewrite Hf. cbn. by rewrite lookup_insert_ne. }
      clear -Hj. induction ops as [|op ops IH]; intros s0; cbn; [done|]. rewrite IH. cbn. by rewrite lookup_alter_ne.
    - intros p Hp. rewrite fills_names. cbn. by rewrite lookup_insert_ne. }
  destruct e as [e|]; [by intros [= <- <-]|]. destruct (sg_seek v); [by intros [= <- <-]|]. by intros [= <- <-].
Qed.

(** A holder whose bytes restore is served. *)
Lemma FetchContent_serves `{Fanout.Zstd} `{!ZstdLaws} v id data c : sum data = id → (Z.of_nat (length data) ≤ Fanout.maxObjectBytes)%Z →
  sg_create v = None → sg_seek v = None → sg_arm v = ArmResult → Restore.undisturbed (decode_env v) →
  (∀ k, sg_fault v k = None) → serves (decode_env v) (Fanout.encode c data) (Sent EOF) →
  ∃ F0, ∀ F, F0 ≤ F → ∀ s, ∃ s' r, FetchContent sum F v id s = Some (s', inl r).
Proof.
  intros Hs Hlen Hcr Hsk Ha Hu Hf Hsv. destruct (decode_roundtrip sum (decode_env v) id data c Hs Hlen Hu Hf Hsv) as [F0 HF].
  exists F0. intros F' HF' s. destruct (HF F' HF') as (ops & Hd & _). unfold FetchContent, decodeStream.
  rewrite Hcr, Hd, Ha, Hsk. cbn. eauto.
Qed.
End staging_lemmas.

(** *** Repairs *)

Section repair_lemmas.
Context {L : Type} `{Ledger.LedgerIface L} `{Fanout.Zstd} `{Decoder} (sum : bytes → string) (F : nat).
Context (rc : Reconciler) (stg : string → stage) (env : string → senv).
Implicit Types (s : pstate (L := L)).

(** The backup of one source, whichever way it went. *)
Lemma backupVia_backup name id stored s d o d' : backupVia sum F rc stg env name id stored s d = Some (o, d') →
  ∃ v, backupFrom (pipeline rc) v s (repair_entry id) (Some stored) = Some o.
Proof.
  unfold backupVia. destruct (fetches _ _ _ _ _).
  - destruct (FetchContent _ _ _ _ _) as [[d1 a]|]; [|done]. cbn [mbind option_bind].
    destruct (backupFrom _ _ _ _ _) as [o'|] eqn:E; [|done]. cbn [mbind option_bind]. intros [= <- <-]. eauto.
  - destruct (backupFrom _ _ _ _ _) as [o'|] eqn:E; [|done]. cbn [mbind option_bind]. intros [= <- <-]. eauto.
Qed.

(** The removes work, or find the temp gone. *)
Definition removable (v : stage) : Prop := sg_remove v = None ∨ ∃ e, sg_remove v = Some (e, true).

Lemma backupVia_scratch name id stored s d o d' : unused (stg name) d → removable (stg name) →
  backupVia sum F rc stg env name id stored s d = Some (o, d') → unwritten d d'.
Proof.
  intros Hu Hrm. unfold backupVia. destruct (fetches _ _ _ _ _).
  - destruct (FetchContent _ _ _ _ _) as [[d1 a]|] eqn:Ef; [|done]. cbn [mbind option_bind].
    destruct (backupFrom _ _ _ _ _) as [o'|]; [|done]. cbn [mbind option_bind fst snd]. intros [= <- <-].
    pose proof (FetchContent_scratch sum F _ _ _ _ _ Hu Hrm Ef) as Hs. by destruct a.
  - destruct (backupFrom _ _ _ _ _) as [o'|]; [|done]. cbn [mbind option_bind]. by intros [= <- <-].
Qed.

(** How the loop goes on: what every backup of it preserves holds at its end, and
    a repair reported as such ends with a backup that was done. *)
Lemma repair_loop_ind (P : pstate (L := L) → fs → Prop) id stored lastErr sources s d r :
  (∀ name s d o d', P s d → backupVia sum F rc stg env name id stored s d = Some (o, d') → P (o_state o) d') →
  P s d → repair_loop sum F rc stg env id stored lastErr sources s d = Some r →
  P (rp_state r) (rp_scratch r) ∧
  (rp_class r = RRepaired → ∃ name s' d' o df, P s' d' ∧ backupVia sum F rc stg env name id stored s' d' = Some (o, rp_scratch r) ∧
     o_ret o = Returns (true, df, None) ∧ o_state o = rp_state r).
Proof.
  intros Hstep. revert lastErr s d. induction sources as [|name sources IH]; intros lastErr s d HP; cbn [repair_loop].
  { intros [= <-]. by destruct lastErr. }
  destruct (byName rc !! name); [|by apply IH].
  destruct (backupVia _ _ _ _ _ _ _ _ _ _) as [[o d']|] eqn:Ev; [|done]. cbn [mbind option_bind].
  pose proof (Hstep _ _ _ _ _ HP Ev) as HP'.
  destruct (o_ret o) as [[[dn df] [x|]]|x] eqn:Er; [| |by intros [= <-]].
  - destruct (cancelledInFlight _ _); [by intros [= <-]|]. destruct (bool_decide _); [by intros [= <-]|]. by apply IH.
  - intros [= <-]. destruct dn; [|done]. split; [done|]. intros _. by exists name, s, d, o, df.
Qed.
End repair_lemmas.

Lemma unused_unwritten v s s' : unwritten s s' → unused v s → unused v s'.
Proof.
  intros Hu [Hn Hi]. split; [by rewrite (proj1 (Hu _))|]. intros p. rewrite (proj1 (Hu p)). apply Hi.
Qed.

Lemma pendingTargets_with_fetch {L} `{Ledger.LedgerIface L} v a st ts (s : pstate (L := L)) :
  pendingTargets (with_fetch v a) st ts s = pendingTargets v st ts s.
Proof.
  revert s. induction ts as [|t ts IH]; intros s; cbn [pendingTargets]; [done|]. destruct (bool_decide _); [apply IH|].
  change (circuitOpen (with_fetch v a) s (t_name t)) with (circuitOpen v s (t_name t)).
  destruct (circuitOpen v s (t_name t)) as [o s']. by rewrite IH.
Qed.

(** *** One good holder *)

Section good_holder.
Context `{Decoder} `{Fanout.Zstd} `{!ZstdLaws} (sum : bytes → string).
Context (rc : Reconciler) (stg : string → stage) (env : string → senv) (id : string) (stored : gset string).
Implicit Types (s : pstate (L := Ledger.db)).

(** The destinations and the database are in order while [name] is the source. *)
Record calm (name : string) : Prop := MkCalm {
  ca_sound : sound (stg name);
  ca_digest : digest (s_env (env name)) = sum;
  ca_buf : 1 ≤ bufsize (s_env (env name));
  ca_record : record_fault (s_env (env name)) = None;
  ca_fan : ctx_fanout (s_env (env name)) = None;
  ca_ctx : s_ctx (env name) = None;
  ca_octx : s_octx (env name) = None;
  ca_fair n : n ≤ length (rc_targets rc) → Fanout.fair (sched (s_env (env name))) n;
  ca_dest i t d : t ∈ rc_targets rc → i < length (rc_targets rc) → sum d = id →
    Progress.healthy (pipeline rc) (s_env (env name)) (repair_entry id) [RData d None] i t;
}.

(** The pipeline's state, as the repair finds it and as a failed source leaves it. *)
Record ready s : Prop := MkReady {
  re_breaker : Progress.breaker_ok s;
  re_up t : t ∈ rc_targets rc → isDown (circuit s) (t_name t) = false;
  re_stored : stored ⊆ Ledger.StoredTargets (ledger s) id;
}.

Context (names_ok : Progress.names_ok (rc_targets rc)) (pre : precheck (pipeline rc) (repair_entry id) = None).

(** A source either delivers, and the object is done, or fails, and nothing changed. *)
Lemma backupVia_calm F name s d : calm name → ready s →
  is_Some (decodeStreamInner sum (decode_env (stg name)) F id) →
  ∃ o d', backupVia sum F rc stg env name id stored s d = Some (o, d') ∧
    (o_ret o = Returns (true, false, None) ∨
     (∃ e, o_ret o = Returns (false, false, Some e)) ∧ ready (o_state o) ∧
     ∃ d1 e, FetchContent sum F (stg name) id d = Some (d1, inr e)).
Proof.
  intros [Hso Hdg Hbuf Hrf Hcf _ _ Hfair Hdest] [Hb Hup Hst] [[ops a] Hdec]. unfold backupVia.
  set (v := s_env (env name)) in *.
  pose proof (Progress.pendingTargets_none_skipped v stored (rc_targets rc) s Hup) as Hsk.
  pose proof (Progress.pendingTargets_wf v stored (rc_targets rc) s Hb) as Hb1. unfold fetches. rewrite pre.
  destruct (pendingTargets v stored (rc_targets rc) s) as [[pending skipped] s1] eqn:Hp. cbn [fst snd] in *. subst skipped.
  pose proof (pendingTargets_spec _ _ _ _ _ _ _ Hp) as (Hl1 & _ & Hd1 & _).
  destruct pending as [|t0 ts].
  { unfold backupFrom. rewrite pre. cbn [resolveStored pipeline Targets]. rewrite Hp. cbn [mbind option_bind].
    eexists _, _. split; [reflexivity|]. by left. }
  assert (∃ x, FetchContent sum F (stg name) id d = Some x) as [[d1 src] Hf].
  { unfold FetchContent, decodeStream. rewrite Hdec. cbn [mbind option_bind]. destruct (sg_create (stg name)); eauto. }
  rewrite Hf. cbn [mbind option_bind fst snd]. destruct src as [r|e].
  - destruct (FetchContent_verified sum F (stg name) id d d1 r Hso Hf) as (dt & -> & Hsum & Hlen & _).
    destruct (Progress.backup_completes (pipeline rc) (with_fetch v (Returns (inl [RData dt None]))) s (repair_entry id)
      (Some stored) stored [RData dt None] Hb names_ok) as (o & Ho & Hret); [|done..| |].
    + split; [done|done| |]; cbn; rewrite app_nil_r; [by rewrite Hdg|done].
    + intros i t Ht Hi. destruct (Hdest i t dt Ht Hi Hsum) as [Hpump Hrun Hacc]. by split.
    + rewrite Ho. cbn [mbind option_bind]. eexists _, _. split; [done|]. by left.
  - unfold backupFrom. rewrite pre. cbn [resolveStored pipeline Targets with_fetch fetch].
    rewrite pendingTargets_with_fetch, Hp. cbn [Fanout.fanOut mbind option_bind]. unfold settleFanout. cbn. eexists _, _. split; [done|].
    right. split; [eauto|]. split; [|eauto]. split; [done| |cbn; by rewrite Hl1].
    intros t Ht. cbn. rewrite Hd1. by apply Hup.
Qed.

Lemma repair_loop_completes F sources lastErr s d : ready s →
  (∀ name, name ∈ sources → is_Some (byName rc !! name) →
     calm name ∧ is_Some (decodeStreamInner sum (decode_env (stg name)) F id)) →
  (∃ name, name ∈ sources ∧ is_Some (byName rc !! name) ∧
     ∀ d, ∃ d' r, FetchContent sum F (stg name) id d = Some (d', inl r)) →
  ∃ r, repair_loop sum F rc stg env id stored lastErr sources s d = Some r ∧ rp_class r = RRepaired.
Proof.
  revert lastErr s d. induction sources as [|name sources IH]; intros lastErr s d Hr Hall (g & Hg & Hgn & Hgood).
  { by apply not_elem_of_nil in Hg. }
  assert (∀ n, n ∈ sources → is_Some (byName rc !! n) →
    calm n ∧ is_Some (decodeStreamInner sum (decode_env (stg n)) F id)) as Hall' by (intros; apply Hall; [by right|done]).
  cbn [repair_loop]. destruct (byName rc !! name) as [t|] eqn:Et.
  2:{ apply IH; [done|done|]. exists g. split_and!; [|done|done].
      apply elem_of_cons in Hg as [->|?]; [by rewrite Et in Hgn; destruct Hgn|done]. }
  destruct (Hall name ltac:(by left) ltac:(by rewrite Et)) as [Hca Hdec].
  destruct (backupVia_calm F name s d Hca Hr Hdec) as (o & d' & -> & Hor). cbn [mbind option_bind].
  destruct Hor as [->|([e ->] & Hr' & d1 & e1 & Hf)]; [by eexists|].
  rewrite (ca_ctx _ Hca), cancelledInFlight_live, (ca_octx _ Hca). rewrite bool_decide_eq_false_2 by (by intros Hn; apply Hn).
  apply IH; [done|done|]. exists g. split_and!; [|done|done].
  apply elem_of_cons in Hg as [->|?]; [|done]. destruct (Hgood d) as (? & ? & Hf'). congruence.
Qed.
End good_holder.

Lemma orderSources_elem cb it n : n ∈ orderSources cb it ↔ n ∈ it.
Proof.
  unfold orderSources. rewrite elem_of_app, !Ledger.sort_ids_Permutation, !list_elem_of_In, !filter_In.
  destruct (isDown cb n); naive_solver.
Qed.

(** ** Properties *)

(** Sources are tried healthy first, and the order does not depend on the
    map's iteration: it is a permutation of the holders, the same for every
    iteration order, in which no holder with a closed circuit comes after one
    whose circuit is open. *)
Theorem orderSources_healthy_first cb holders it it' : NoDup holders → it ≡ₚ holders → it' ≡ₚ holders →
  orderSources cb it ≡ₚ holders ∧ orderSources cb it = orderSources cb it' ∧
  ∃ healthy down, orderSources cb it = healthy ++ down ∧
    Forall (λ n, isDown cb n = false) healthy ∧ Forall (λ n, isDown cb n = true) down.
Proof.
  intros Hnd Hi Hi'. unfold orderSources.
  assert (∀ (f : string → bool) (l l' : list string), l ≡ₚ l' → List.filter f l ≡ₚ List.filter f l') as Hfp.
  { intros f l l'. induction 1; cbn; repeat case_match; eauto using Permutation. }
  assert (∀ f, Ledger.sort_ids (List.filter f it) = Ledger.sort_ids (List.filter f it')) as Hsame.
  { intros f. apply ascending_ext.
    1,2: apply Ledger.sort_ids_ascending, NoDup_ListNoDup, NoDup_filter, NoDup_ListNoDup; by rewrite ?Hi, ?Hi'.
    intros k. rewrite !Ledger.sort_ids_Permutation. by rewrite (Hfp f it it') by (by rewrite Hi, Hi'). }
  split_and!.
  - rewrite !Ledger.sort_ids_Permutation, <- Hi. clear. induction it as [|x it IH]; [done|]. cbn.
    destruct (isDown cb x); cbn; [|by constructor]. rewrite <- Permutation_middle. by constructor.
  - by rewrite !Hsame.
  - eexists _, _. split; [done|]. split; apply list.Forall_forall; intros n;
      rewrite Ledger.sort_ids_Permutation, list_elem_of_In, filter_In; intros [_ ?]; by to_prop.
Qed.

(** A pass accounts for every gap exactly once, in whatever order its repairs
    complete, and its callback hears exactly of the repairs that report an error; a
    pass that returns nil saw the whole work-list. *)
Theorem reconcile_accounts_for_every_gap rc rate env gaps final result completed st reps e :
  Sweep.sound env → completed ≡ₚ Sweep.dispatched rate env gaps final →
  Run rc rate env gaps final result completed = (st, reps, e) →
  let n k := Sweep.countZ (λ g, bool_decide ((result g.1).1 = k)) (Sweep.dispatched rate env gaps final) in
  st = MkRC (n RRepaired) (n RSkipped) (n RFailed) (n RCancelled) ∧
  (∀ id x, (id, x) ∈ reps ↔ onError rc = true ∧ id ∈ (Sweep.dispatched rate env gaps final).*1 ∧ (result id).2 = Some x) ∧
  (e = None → Sweep.dispatched rate env gaps final = gaps ∧ final = None).
Proof.
  intros Hs Hp. unfold Run. rewrite (reconcile_fold (λ g, (result g.1).1)). intros [= <- <- He]. cbv zeta.
  cbn [rc_Repaired rc_Skipped rc_Failed rc_Cancelled zeroReconcile]. rewrite !Z.add_0_l, !(Sweep.countZ_perm _ _ _ Hp).
  split_and!; [done| |].
  - intros id x. rewrite <- Hp, list_elem_of_bind, list_elem_of_fmap. unfold reportErr. split.
    + intros ([id' st'] & Hin & Hg). cbn in Hin. destruct (result id').2 as [y|] eqn:Ey; [|by apply not_elem_of_nil in Hin].
      destruct (onError rc); [|by apply not_elem_of_nil in Hin]. apply list_elem_of_singleton in Hin. simplify_eq.
      split_and!; [done| |done]. by exists (id', st').
    + intros (-> & ([id' st'] & -> & Hg) & Hx). exists (id', st'). cbn in *. rewrite Hx. split; [|done].
      by apply list_elem_of_singleton.
  - subst e. intros He. destruct (Sweep.runBoundedPaced_nil _ _ _ _ _ _ Hs He) as (Hd & Hf & _). done.
Qed.



(** A repair that runs into its per-object deadline is counted as failed and not
    reported: the callback hears of a failure only when every source answered. *)
Theorem timeout_is_not_reported {L} `{Ledger.LedgerIface L} `{Fanout.Zstd} `{Decoder} sum F rc stg env id stored lastErr
    name sources (s : pstate (L := L)) d o d' e :
  is_Some (byName rc !! name) → backupVia sum F rc stg env name id stored s d = Some (o, d') →
  o_ret o = Returns (false, false, Some e) → s_ctx (env name) = None → s_octx (env name) = Some CtxDeadline →
  repair_loop sum F rc stg env id stored lastErr (name :: sources) s d = Some (MkRepaired (o_state o) d' RFailed None).
Proof.
  intros [t Ht] Hv Hr Hc Ho. cbn [repair_loop]. rewrite Ht, Hv. cbn [mbind option_bind]. by rewrite Hr, Hc, cancelledInFlight_live, Ho.
Qed.

(** ** A repair *)

Definition ex_breaker : option Circuit.CircuitBreaker :=
  Some (Circuit.MkCB 3 5 100 ∅ {["a" := 50%Z]}).

Lemma orderSources_healthy_first_witness :
  orderSources ex_breaker ["c"; "a"; "b"] = ["b"; "c"; "a"] ∧
  orderSources ex_breaker ["c"; "a"; "b"] = orderSources ex_breaker ["a"; "b"; "c"].
Proof.
  split; [vm_compute; reflexivity|].
  apply (orderSources_healthy_first ex_breaker ["a"; "b"; "c"] ["c"; "a"; "b"] ["a"; "b"; "c"]); [|change (["c"] ++ ["a"; "b"] ≡ₚ ["a"; "b"] ++ ["c"]); apply Permutation_app_comm|reflexivity].
  repeat constructor; rewrite ?elem_of_cons, ?elem_of_nil; intros Hn; repeat destruct Hn as [Hn|Hn]; done.
Defined.

(** [a] holds garbage, [b] the compressed object, and [c] lacks it. *)
#[local] Existing Instance Restore.ex_zstd.
#[local] Existing Instance Restore.ex_decoder.
#[local] Existing Instance Restore.ex_laws.

Definition ex_targets : list Target :=
  (λ n, Fanout.MkTarget n Fanout.CodecZstd (λ _, Fanout.copy_sink 9 4 [])) <$> ["a"; "b"; "c"].
Definition ex_rc : Reconciler := OnError (NewReconciler ex_targets 0 "scratch" 60 4).
Definition ex_stage (name : string) : stage :=
  MkStage ("scratch/reconcile-" +:+ name) (if bool_decide (name = "a") then 11 else 12) None
    (λ _, Returns (inl (if bool_decide (name = "a") then script [[Byte.x01; Byte.x02; Byte.x03; Byte.x04]] (Sent EOF)
                        else script [zstdMagic; [Byte.x41]; [Byte.x42]] (Sent EOF))))
    (λ _ _, None) (λ _, None) (None, None) ArmResult None None None None.
Definition ex_senv (name : string) : senv :=
  MkS (MkPEnv None (λ _, (1, 1)%Z) (λ _, 1%Z) (Panics "unused") ex_sum 8 (λ _, [Fanout.CDone 0 false; Fanout.CDone 1 false; Fanout.CDone 2 false])
         (λ _, Fanout.MkEnv None ArmResult CtxCanceled) None None None 7 None) None None.
Definition ex_held : Ledger.db :=
  match Ledger.RecordBackup 5 (MkMeta ex_hash 2 true None None) [MkStatus "a" StateStored 3; MkStatus "b" StateStored 6] Ledger.empty_db with
  | Keyset.Ok d => d | Keyset.Er _ => Ledger.empty_db
  end.
Definition ex_start : pstate (L := Ledger.db) := MkP ex_held None [].
Definition ex_stored : gset string := {["a"; "b"]}.
Definition ex_repair : option (repaired (L := Ledger.db)) :=
  repair ex_sum 20 ex_rc ex_stage ex_senv ex_hash ex_stored ["b"; "a"] ex_start ex_fs.

Lemma ex_stored_sub : ex_stored ⊆ Ledger.StoredTargets (ledger ex_start) ex_hash.
Proof. apply (bool_decide_eq_true_1 (ex_stored ⊆ Ledger.StoredTargets ex_held ex_hash)). vm_compute. reflexivity. Qed.

Lemma ex_unused name : unused (ex_stage name) ex_fs ∧ removable (ex_stage name).
Proof.
  split; [|by left]. unfold ex_fs. split; cbn.
  - rewrite lookup_singleton_ne; [done|]. by destruct name.
  - intros p. destruct (decide (p = "d/a")) as [->|Hp]; [|by rewrite lookup_singleton_ne].
    rewrite lookup_singleton_eq. by case_bool_decide.
Qed.


Lemma ex_calm name : calm ex_sum ex_rc ex_stage ex_senv ex_hash name.
Proof.
  split; try done.
  - cbn. lia.
  - intros n Hn k i Hi. cbn in Hn. exists false. destruct i as [|[|[|i]]]; [..|lia]; cbn; rewrite !elem_of_cons; auto.
  - intros i t d Ht Hi Hd. assert (d = ex_plain) as ->. { unfold ex_sum in Hd. by case_bool_decide. }
    split; [|done|].
    + intros k. cbn in Hi. destruct i as [|[|[|i]]]; [done..|lia].
    + cbn in Ht. rewrite !elem_of_cons, elem_of_nil in Ht. destruct Ht as [->|[->|[->|[]]]]; eexists; vm_compute; reflexivity.
Qed.


End Reconcile.
