(* ===== verification/Manifest.v ===== *)
(** * Ledger-snapshot manifests

    The naming contract and the selection of the newest manifest of
    [src/internal/fsutil/fsutil.go] ([FormatManifestName],
    [IsTimestampedManifest], [latestFirst], [OpenLatestManifest],
    [WriteManifestWithPointer]), and the snapshot writer of
    [src/internal/domain/manifest.go] ([eachStoredObject], [writeManifest]).

    A time is its UTC civil fields, with a four-digit year; [time.Parse] for
    the manifest layout is written out as Go's parser reads it (it takes a
    comma for the period of the fraction, and a sign in it). *)

From S2P Require Import Prelude GoText GoRuntime Ports Keyset Ledger Verdict Inventory.
From Stdlib Require Import ZArith Lia.
From Stdlib Require Import Strings.Ascii Strings.String.
From stdpp Require Import base gmap strings list sorting numbers.

Module Manifest.
Import Ports.
Import GoText(length_append, append_assoc, append_nil_r).

(** ** Names *)

Record civil := MkTime { year : Z; month : Z; day : Z; hour : Z; minute : Z; sec : Z; nano : Z }.

Definition leap (y : Z) : bool := (y mod 4 =? 0)%Z && (negb (y mod 100 =? 0)%Z || (y mod 400 =? 0)%Z).

Definition daysIn (m y : Z) : Z :=
  if (m =? 2)%Z then (if leap y then 29 else 28)%Z
  else if (m =? 4)%Z || (m =? 6)%Z || (m =? 9)%Z || (m =? 11)%Z then 30%Z else 31%Z.

Definition valid_time (t : civil) : Prop :=
  (0 ≤ year t < 10000 ∧ 1 ≤ month t ≤ 12 ∧ 1 ≤ day t ≤ daysIn (month t) (year t) ∧
   0 ≤ hour t < 24 ∧ 0 ≤ minute t < 60 ∧ 0 ≤ sec t < 60 ∧ 0 ≤ nano t < 1000000000)%Z.

Definition digit (n : Z) : ascii := ascii_of_N (48 + Z.to_N n).

(** [n] in decimal, zero-padded to [w] digits. *)
Fixpoint pad (w : nat) (n : Z) : string :=
  match w with
  | O => ""
  | S w => pad w (n / 10) +:+ String (digit (n mod 10)) ""
  end.

Definition manifestSuffix : string := ".jsonl".

(** [t.UTC().Format("2006-01-02T150405.000000000Z") + ".jsonl"]. *)
Definition FormatManifestName (t : civil) : string :=
  pad 4 (year t) +:+ "-" +:+ pad 2 (month t) +:+ "-" +:+ pad 2 (day t) +:+ "T" +:+
  pad 2 (hour t) +:+ pad 2 (minute t) +:+ pad 2 (sec t) +:+ "." +:+ pad 9 (nano t) +:+ "Z" +:+ manifestSuffix.

(** ** time.Parse for the layout *)

Definition digit_of (c : ascii) : option Z :=
  let n := Z.of_N (N_of_ascii c) in if (48 <=? n)%Z && (n <=? 57)%Z then Some (n - 48)%Z else None.

Definition skip (c : ascii) (s : string) : option string :=
  match s with String c' s => if bool_decide (c' = c) then Some s else None | EmptyString => None end.

(** [getnum]: two digits, or one when the layout does not pad. *)
Definition getnum (fixed : bool) (s : string) : option (Z * string) :=
  match s with
  | String c s1 =>
      a ← digit_of c;
      match s1 with
      | String c2 s2 =>
          match digit_of c2 with
          | Some b => Some (a * 10 + b, s2)%Z
          | None => if fixed then None else Some (a, s1)
          end
      | EmptyString => if fixed then None else Some (a, s1)
      end
  | EmptyString => None
  end.

(** All the characters are digits. *)
Fixpoint leadingInt (acc : Z) (s : string) : option Z :=
  match s with
  | EmptyString => Some acc
  | String c s => d ← digit_of c; leadingInt (acc * 10 + d) s
  end.

Definition atoi (s : string) : option Z :=
  match s with
  | String "-" s => Z.opp <$> leadingInt 0 s
  | String "+" s => leadingInt 0 s
  | s => leadingInt 0 s
  end.

Definition cut (n : nat) (s : string) : option (string * string) :=
  if n <=? String.length s
  then Some (String.substring 0 n s, String.substring n (String.length s - n) s) else None.

Definition in_range (lo hi n : Z) : option unit := if (lo <=? n)%Z && (n <=? hi)%Z then Some tt else None.

Definition parse_year (s : string) : option (Z * string) :=
  match s with
  | String c _ => _ ← digit_of c; '(p, s) ← cut 4 s; y ← atoi p; Some (y, s)
  | EmptyString => None
  end.

Definition parse_frac (s : string) : option (Z * string) :=
  '(p, s) ← cut 10 s;
  match p with
  | String c p =>
      if bool_decide (c = "."%char) || bool_decide (c = ","%char)
      then n ← atoi p; _ ← in_range 0 999999999 n; Some (n, s) else None
  | EmptyString => None
  end.

Definition time_Parse (s : string) : option civil :=
  '(y, s) ← parse_year s;
  s ← skip "-" s; '(mo, s) ← getnum true s; _ ← in_range 1 12 mo;
  s ← skip "-" s; '(d, s) ← getnum true s;
  s ← skip "T" s; '(h, s) ← getnum false s; _ ← in_range 0 23 h;
  '(mi, s) ← getnum true s; _ ← in_range 0 59 mi;
  '(se, s) ← getnum true s; _ ← in_range 0 59 se;
  '(ns, s) ← parse_frac s;
  s ← skip "Z" s;
  match s with
  | EmptyString => _ ← in_range 1 (daysIn mo y) d; Some (MkTime y mo d h mi se ns)
  | _ => None
  end.

Definition CutSuffix (s suffix : string) : option string :=
  let n := String.length s - String.length suffix in
  if (String.length suffix <=? String.length s) && bool_decide (String.substring n (String.length suffix) s = suffix)
  then Some (String.substring 0 n s) else None.

Definition IsTimestampedManifest (base : string) : bool :=
  match CutSuffix base manifestSuffix with
  | None => false
  | Some ts => match time_Parse ts with Some _ => true | None => false end
  end.

(** ** Selection *)

Definition latestFirst (names : list string) : list string :=
  rev (Ledger.sort_ids (List.filter IsTimestampedManifest names)).

Section select.
Context {A : Type}.
Context (readPointer : option string) (listFrom : string → list string + err) (open : string → A + err).

(** Newest surviving first: a manifest that is gone is passed over. *)
Fixpoint first_open (names : list string) : A + err :=
  match names with
  | [] => inr (Wrap "no manifest" [Sent ErrNotExist])
  | n :: names =>
      match open n with
      | inl rc => inl rc
      | inr e => if Is e ErrNotExist then first_open names else inr e
      end
  end.

Definition full_scan : A + err :=
  match listFrom "" with inr e => inr e | inl names => first_open (latestFirst names) end.

Definition newer (newest n : string) : string :=
  if IsTimestampedManifest n && str_ltb newest n then n else newest.

Definition OpenLatestManifest : A + err :=
  match readPointer with
  | Some pointer =>
      if IsTimestampedManifest pointer then
        match listFrom pointer with
        | inr e => inr e
        | inl names =>
            match open (foldl newer pointer names) with
            | inl rc => inl rc
            | inr e => if Is e ErrNotExist then full_scan else inr e
            end
        end
      else full_scan
  | None => full_scan
  end.
End select.

(** [WriteManifestWithPointer]: the pointer's write error is dropped. *)
Definition WriteManifestWithPointer (writeManifest writePointer : goerr) : goerr * bool :=
  match writeManifest with
  | Some e => (Some e, false)
  | None => (None, bool_decide (writePointer = None))
  end.

(** ** The snapshot *)

Record manifestLine := MkLine { l_externalID : string; l_size : Z; l_createdBy : option N; l_created : option Z }.

Definition encodeLine (m : ObjectMeta) : manifestLine :=
  MkLine (m_ExternalID m) (m_Size m) (m_CreatedBy m) (m_SourceCreatedDate m).

(** [eachStoredObject] with the encoder as its callback: the lines written. *)
Definition eachStoredObject (pages : nat → string → nat → Keyset.res (list ObjectMeta)) (fuel : nat)
    : option (list manifestLine * goerr) :=
  Keyset.KeysetLoop m_ExternalID pages Keyset.KeysetPageSize fuel ""
    (λ acc m, (acc ++ [encodeLine m], None)) [].

(** What [manifestScanner] decodes of the lines. *)
Definition decodeLines (ls : list manifestLine) : list Inventory.mline := (λ l, Inventory.MLine (l_externalID l)) <$> ls.

(** ** Lemmas: strings *)

Lemma str_ltb_cons a x b y : str_ltb (String a x) (String b y) =
  match Ascii.compare a b with Lt => true | Eq => str_ltb x y | Gt => false end.
Proof. unfold str_ltb, String.ltb. cbn. by destruct (Ascii.compare a b). Qed.

Lemma str_ltb_irrefl x : str_ltb x x = false.
Proof. exact (klt_irrefl x). Qed.

Lemma ascii_compare_refl a : Ascii.compare a a = Eq.
Proof. unfold Ascii.compare. apply N.compare_refl. Qed.

Lemma str_ltb_app a b x y : String.length a = String.length b →
  str_ltb (a +:+ x) (b +:+ y) = str_ltb a b || (bool_decide (a = b) && str_ltb x y).
Proof.
  revert b. induction a as [|c a IH]; intros [|c' b] Hl; try done.
  change (String c a +:+ x) with (String c (a +:+ x)). change (String c' b +:+ y) with (String c' (b +:+ y)).
  rewrite !str_ltb_cons. destruct (Ascii.compare c c') eqn:Ec.
  - apply Ascii.compare_eq_iff in Ec as ->. rewrite IH by (by injection Hl). f_equal. f_equal.
    apply bool_decide_ext. split; [by intros ->|by intros [= ->]].
  - done.
  - rewrite bool_decide_eq_false_2; [done|]. intros [= -> ->]. by rewrite ascii_compare_refl in Ec.
Qed.

Lemma substring_all s : String.substring 0 (String.length s) s = s.
Proof. induction s as [|c s IH]; [done|]. exact (f_equal (String c) IH). Qed.

Lemma substring_prefix a b : String.substring 0 (String.length a) (a +:+ b) = a.
Proof. induction a as [|c a IH]; [by destruct b|]. exact (f_equal (String c) IH). Qed.

Lemma substring_suffix a b : String.substring (String.length a) (String.length b) (a +:+ b) = b.
Proof. induction a as [|c a IH]; [apply substring_all|exact IH]. Qed.

Lemma cut_app n a b : String.length a = n → cut n (a +:+ b) = Some (a, b).
Proof.
  intros <-. unfold cut. rewrite length_append, (proj2 (Nat.leb_le _ _)) by lia.
  rewrite substring_prefix. replace (String.length a + String.length b - String.length a) with (String.length b) by lia.
  by rewrite substring_suffix.
Qed.

Lemma CutSuffix_app a suffix : CutSuffix (a +:+ suffix) suffix = Some a.
Proof.
  unfold CutSuffix. rewrite length_append, (proj2 (Nat.leb_le _ _)) by lia.
  replace (String.length a + String.length suffix - String.length suffix) with (String.length a) by lia.
  by rewrite substring_suffix, bool_decide_eq_true_2, substring_prefix.
Qed.

(** ** Lemmas: decimal fields *)

Lemma digit_N n : (0 ≤ n < 10)%Z → N_of_ascii (digit n) = (48 + Z.to_N n)%N.
Proof. intros ?. unfold digit. apply N_ascii_embedding. lia. Qed.

Lemma digit_compare a b : (0 ≤ a < 10)%Z → (0 ≤ b < 10)%Z → Ascii.compare (digit a) (digit b) = (a ?= b)%Z.
Proof.
  intros Ha Hb. unfold Ascii.compare. rewrite !digit_N by done.
  destruct (Z.compare_spec a b) as [->|Hl|Hl]; [apply N.compare_refl|apply N.compare_lt_iff; lia|apply N.compare_gt_iff; lia].
Qed.

Lemma digit_of_digit n : (0 ≤ n < 10)%Z → digit_of (digit n) = Some n.
Proof.
  intros Hn. unfold digit_of. rewrite digit_N by done.
  replace (Z.of_N (48 + Z.to_N n)) with (48 + n)%Z by lia.
  rewrite (proj2 (Z.leb_le _ _)), (proj2 (Z.leb_le _ _)) by lia. cbn. f_equal. lia.
Qed.

Lemma pad_length w n : String.length (pad w n) = w.
Proof. revert n. induction w as [|w IH]; intros n; cbn [pad]; [done|]. rewrite length_append, IH. cbn. lia. Qed.

Lemma pow10 w : (10 ^ Z.of_nat (S w) = 10 * 10 ^ Z.of_nat w)%Z.
Proof. rewrite Nat2Z.inj_succ, Z.pow_succ_r; lia. Qed.

Lemma div10_range w n : (0 ≤ n < 10 ^ Z.of_nat (S w))%Z → (0 ≤ n / 10 < 10 ^ Z.of_nat w)%Z ∧ (0 ≤ n mod 10 < 10)%Z.
Proof.
  rewrite pow10. intros Hn. pose proof (Z.mod_pos_bound n 10). pose proof (Z.div_mod n 10). lia.
Qed.

(** Zero-padded numbers compare as strings the way they compare as numbers. *)
Lemma pad_order w m n : (0 ≤ m < 10 ^ Z.of_nat w)%Z → (0 ≤ n < 10 ^ Z.of_nat w)%Z →
  str_ltb (pad w m) (pad w n) = (m <? n)%Z ∧ (pad w m = pad w n → m = n).
Proof.
  revert m n. induction w as [|w IH]; intros m n Hm Hn.
  { cbn in *. split; [|lia]. assert (m = n) as -> by lia. by rewrite Z.ltb_irrefl. }
  apply div10_range in Hm as [Hm1 Hm2], Hn as [Hn1 Hn2]. destruct (IH _ _ Hm1 Hn1) as [Hlt Heq].
  pose proof (Z.div_mod m 10) as Em. pose proof (Z.div_mod n 10) as En. cbn [pad].
  rewrite str_ltb_app by (by rewrite !pad_length). rewrite str_ltb_cons, digit_compare, Hlt by done.
  assert (str_ltb (pad w (m / 10)) (pad w (n / 10)) || (bool_decide (pad w (m / 10) = pad w (n / 10)) &&
    match (m mod 10 ?= n mod 10)%Z with Eq => str_ltb "" "" | Lt => true | Gt => false end) = (m <? n)%Z) as Hmain.
  { rewrite Hlt. destruct (m / 10 <? n / 10)%Z eqn:E; to_prop; cbn.
    - symmetry. apply Z.ltb_lt. lia.
    - case_bool_decide as Hp; cbn.
      + apply Heq in Hp. destruct (Z.compare_spec (m mod 10) (n mod 10)); symmetry;
          [apply Z.ltb_ge|apply Z.ltb_lt|apply Z.ltb_ge]; lia.
      + symmetry. apply Z.ltb_ge. assert (m / 10 ≠ n / 10)%Z by (intros Hx; apply Hp; by rewrite Hx). lia. }
  rewrite Hlt in Hmain. split; [done|]. intros He. apply (f_equal (cut w)) in He.
  rewrite !cut_app in He by apply pad_length. injection He as Hp Hd. apply Heq in Hp.
  assert (m mod 10 = n mod 10)%Z; [|lia]. apply (f_equal digit_of) in Hd. rewrite !digit_of_digit in Hd by done. congruence.
Qed.

Lemma pad_app w m n x y : (0 ≤ m < 10 ^ Z.of_nat w)%Z → (0 ≤ n < 10 ^ Z.of_nat w)%Z →
  str_ltb (pad w m +:+ x) (pad w n +:+ y) = (m <? n)%Z || ((m =? n)%Z && str_ltb x y).
Proof.
  intros Hm Hn. destruct (pad_order w m n Hm Hn) as [Hlt Heq].
  rewrite str_ltb_app by (by rewrite !pad_length). rewrite Hlt. f_equal. f_equal.
  destruct (m =? n)%Z eqn:E; to_prop; [subst; by rewrite bool_decide_eq_true_2|].
  apply bool_decide_eq_false_2. intros Hp. by apply Heq in Hp.
Qed.

Lemma sep_app c x y : str_ltb (String c "" +:+ x) (String c "" +:+ y) = str_ltb x y.
Proof.
  change (String c "" +:+ x) with (String c x). change (String c "" +:+ y) with (String c y).
  by rewrite str_ltb_cons, ascii_compare_refl.
Qed.

Lemma leadingInt_pad w acc n s : (0 ≤ n < 10 ^ Z.of_nat w)%Z →
  leadingInt acc (pad w n +:+ s) = leadingInt (acc * 10 ^ Z.of_nat w + n) s.
Proof.
  revert acc n s. induction w as [|w IH]; intros acc n s Hn.
  { cbn in *. f_equal. lia. }
  rewrite pow10. apply div10_range in Hn as [H1 H2]. cbn [pad]. rewrite append_assoc, IH by done.
  change (String (digit (n mod 10)) "" +:+ s) with (String (digit (n mod 10)) s). cbn [leadingInt].
  rewrite digit_of_digit by done. cbn [mbind option_bind]. f_equal. pose proof (Z.div_mod n 10). lia.
Qed.

Lemma digit_not_sign c s d : digit_of c = Some d → atoi (String c s) = leadingInt 0 (String c s).
Proof. destruct c as [[] [] [] [] [] [] [] []]; try done; cbn; done. Qed.

Lemma pad_head w n : ∃ c s d, pad (S w) n = String c s ∧ digit_of c = Some d.
Proof.
  revert n. induction w as [|w IH]; intros n.
  - cbn. eexists _, _, _. split; [done|]. apply digit_of_digit. apply Z.mod_pos_bound. lia.
  - destruct (IH (n / 10)%Z) as (c & s & d & Hp & Hd). cbn [pad] in *. rewrite Hp. cbn. eauto 6.
Qed.

Lemma atoi_pad w n : (0 ≤ n < 10 ^ Z.of_nat (S w))%Z → atoi (pad (S w) n) = Some n.
Proof.
  intros Hn. destruct (pad_head w n) as (c & s & d & Hp & Hd). rewrite Hp, (digit_not_sign _ _ d), <- Hp by done.
  rewrite <- (append_nil_r (pad (S w) n)), leadingInt_pad by done. cbn. f_equal.
Qed.

Lemma getnum_pad fixed n s : (0 ≤ n < 100)%Z → getnum fixed (pad 2 n +:+ s) = Some (n, s).
Proof.
  intros Hn. change 100%Z with (10 ^ Z.of_nat 2)%Z in Hn. apply div10_range in Hn as [Hn1 Hn2].
  change (10 ^ Z.of_nat 1)%Z with 10%Z in Hn1. pose proof (Z.mod_pos_bound (n / 10) 10) as Hn3.
  change (pad 2 n +:+ s) with (String (digit ((n / 10) mod 10)) (String (digit (n mod 10)) s)). cbn [getnum].
  rewrite !digit_of_digit by lia. cbn [mbind option_bind]. f_equal. f_equal.
  pose proof (Z.div_mod n 10). rewrite (Z.mod_small (n / 10)); lia.
Qed.
(** ** Lemmas: selection *)

Lemma latestFirst_elem names n : n ∈ latestFirst names ↔ n ∈ names ∧ IsTimestampedManifest n = true.
Proof.
  unfold latestFirst. rewrite list_elem_of_In, <- in_rev, <- list_elem_of_In, Ledger.sort_ids_Permutation.
  by rewrite list_elem_of_In, filter_In, <- list_elem_of_In.
Qed.

Lemma sort_ids_sorted l : StronglySorted String.le (Ledger.sort_ids l).
Proof. apply (StronglySorted_merge_sort String.le). Qed.

(** The head of a reversed sorted list is its maximum. *)
Lemma latestFirst_head names n rest : latestFirst names = n :: rest →
  ∀ m, m ∈ names → IsTimestampedManifest m = true → str_ltb n m = false.
Proof.
  intros Hl m Hm Hts. assert (m ∈ latestFirst names) as Hin by (by apply latestFirst_elem).
  unfold latestFirst in *. set (l := Ledger.sort_ids _) in *.
  assert (l = rev rest ++ [n]) as Hrev by (rewrite <- (rev_involutive l), Hl; done).
  assert (m = n ∨ m ∈ rev rest) as [->|Hr].
  { rewrite list_elem_of_In, <- in_rev, Hrev, in_app_iff in Hin. destruct Hin as [Hin|[->|[]]]; [right|by left].
    by apply list_elem_of_In. }
  { apply str_ltb_irrefl. }
  pose proof (sort_ids_sorted (List.filter IsTimestampedManifest names)) as Hs. fold l in Hs. rewrite Hrev in Hs.
  assert (String.le m n) as Hle.
  { clear -Hs Hr. induction (rev rest) as [|x xs IH]; [by apply not_elem_of_nil in Hr|].
    cbn in Hs. inversion Hs as [|? ? Hs' Hall]; subst. apply elem_of_cons in Hr as [->|Hr]; [|by apply IH].
    rewrite list.Forall_forall in Hall. apply Hall. apply elem_of_app. right. by left. }
  rewrite str_ltb_leb. unfold String.le in Hle. by destruct (String.leb m n).
Qed.

Lemma newer_spec names p : IsTimestampedManifest p = true →
  let r := foldl newer p names in
  IsTimestampedManifest r = true ∧ (r = p ∨ r ∈ names) ∧ str_ltb r p = false ∧
  ∀ m, m ∈ names → IsTimestampedManifest m = true → str_ltb r m = false.
Proof.
  cbv zeta. revert p. induction names as [|x names IH]; intros p Hp; cbn [foldl].
  { split_and!; [done|by left|apply str_ltb_irrefl|]. intros m Hm. by apply not_elem_of_nil in Hm. }
  assert (IsTimestampedManifest (newer p x) = true) as Hn.
  { unfold newer. by destruct (IsTimestampedManifest x) eqn:Ex; [destruct (str_ltb p x)|]. }
  destruct (IH _ Hn) as (H1 & H2 & H3 & H4).
  assert (∀ y, str_ltb (newer p x) y = false → str_ltb (foldl newer (newer p x) names) y = false) as Htr.
  { intros y Hy. destruct (str_ltb (foldl newer (newer p x) names) y) eqn:E; [|done].
    destruct (klt_total (newer p x) y) as [Hc|[Hc|Hc]]; [cbn in Hc; congruence|congruence|].
    pose proof (klt_trans (foldl newer (newer p x) names) y (newer p x) E Hc) as Hx. cbn in Hx. congruence. }
  split_and!; [done| | |].
  - destruct H2 as [-> |H2]; [|right; by right]. unfold newer. case_match; [right; by left|by left].
  - apply Htr. unfold newer. destruct (IsTimestampedManifest x && str_ltb p x) eqn:E; [|apply str_ltb_irrefl].
    to_prop. match goal with Hpx : str_ltb p x = true |- _ => exact (klt_asym p x Hpx) end.
  - intros m [->|Hm]%elem_of_cons Hts; [|by apply H4]. apply Htr. unfold newer. rewrite Hts. cbn [andb].
    destruct (str_ltb p x) eqn:E; [apply str_ltb_irrefl|done].
Qed.

Section store.
Context {A : Type} (ns : list string) (content : string → A) (gone : err) (Hgone : Is gone ErrNotExist = true).
Context (listFrom : string → list string + err).
Context (Hlist : ∀ after, after = "" ∨ IsTimestampedManifest after = true → ∃ l, listFrom after = inl l ∧ l ≡ₚ List.filter (λ n, str_ltb after n) ns).

Definition open_ (n : string) : A + err := if bool_decide (n ∈ ns) then inl (content n) else inr gone.

(** [n] is the newest manifest of the store. *)
Definition newest_of (n : string) : Prop :=
  n ∈ ns ∧ IsTimestampedManifest n = true ∧ ∀ m, m ∈ ns → IsTimestampedManifest m = true → str_ltb n m = false.

Lemma listed after l n : l ≡ₚ List.filter (λ n, str_ltb after n) ns → n ∈ l ↔ n ∈ ns ∧ str_ltb after n = true.
Proof. intros ->. by rewrite list_elem_of_In, filter_In, <- list_elem_of_In. Qed.

Lemma timestamped_nonempty n : IsTimestampedManifest n = true → str_ltb "" n = true.
Proof. intros Hn. apply Keyset.str_ltb_empty. by intros ->. Qed.

Lemma full_scan_spec :
  (∃ n, newest_of n ∧ full_scan listFrom open_ = inl (content n)) ∨
  ((∀ n, n ∈ ns → IsTimestampedManifest n = false) ∧ ∃ e, full_scan listFrom open_ = inr e ∧ Is e ErrNotExist = true).
Proof.
  unfold full_scan. destruct (Hlist "" (or_introl eq_refl)) as (l & -> & Hl). destruct (latestFirst l) as [|n rest] eqn:El.
  - right. split; [|eexists; split; [done|done]]. intros n Hn. destruct (IsTimestampedManifest n) eqn:En; [|done].
    assert (n ∈ latestFirst l) as Hin.
    { apply latestFirst_elem. split; [|done]. apply (listed "" l n Hl). split; [done|by apply timestamped_nonempty]. }
    rewrite El in Hin. by apply not_elem_of_nil in Hin.
  - left. exists n. assert (n ∈ latestFirst l) as Hin by (rewrite El; by left).
    apply latestFirst_elem in Hin as [Hin Hts]. apply (listed "" l n Hl) in Hin as [Hin _]. split.
    + split_and!; [done|done|]. intros m Hm Hmts. eapply latestFirst_head; [done| |done].
      apply (listed "" l m Hl). split; [done|by apply timestamped_nonempty].
    + cbn. unfold open_. by rewrite bool_decide_eq_true_2.
Qed.
End store.

(** A lookup join that keeps its key commutes with a filter on the key. *)
Section join.
Context {A B : Type} (f : A → option B) (key : B → A) (Hkey : ∀ a b, f a = Some b → key b = a).

Lemma omap_cons_eq a (l : list A) : omap f (a :: l) = match f a with Some b => b :: omap f l | None => omap f l end.
Proof. done. Qed.

Lemma join_filter (P : A → bool) (l : list A) : omap f (List.filter P l) = List.filter (λ b, P (key b)) (omap f l).
Proof.
  induction l as [|a l IH]; [done|]. rewrite omap_cons_eq. cbn [List.filter].
  destruct (f a) as [b|] eqn:Ef; destruct (P a) eqn:Ea; rewrite ?omap_cons_eq, ?Ef, ?IH; cbn [List.filter];
    rewrite ?(Hkey a b Ef), ?Ea; done.
Qed.

Lemma join_keys (l : list A) : (∀ a, a ∈ l → is_Some (f a)) → key <$> omap f l = l.
Proof.
  induction l as [|a l IH]; intros Hl; [done|]. destruct (Hl a) as [b Hb]; [by left|].
  rewrite omap_cons_eq, Hb. cbn. rewrite (Hkey a b Hb). f_equal. apply IH. intros x Hx. apply Hl. by right.
Qed.
End join.

Definition obj_of (d : Ledger.db) (id : string) : option ObjectMeta :=
  match Ledger.objects d !! id with
  | Some o => Some (MkMeta id (Ledger.o_size o) false (Ledger.o_createdBy o) (Ledger.o_sourceCreatedDate o))
  | None => None
  end.

Lemma obj_of_key d id m : obj_of d id = Some m → m_ExternalID m = id.
Proof. unfold obj_of. destruct (_ !! id); [|done]. by intros [= <-]. Qed.

Lemma stored_has_object d target id : Ledger.wf d → id ∈ Ledger.stored_ids d target → is_Some (obj_of d id).
Proof.
  intros Hwf Hid%Ledger.elem_of_stored_ids. unfold Ledger.is_stored in Hid.
  destruct (Ledger.statuses d !! (id, target)) as [r|] eqn:E; [|done].
  destruct (Ledger.wf_fk d Hwf _ _ _ E) as [o Ho]. unfold obj_of. rewrite Ho. by eexists.
Qed.

(** The snapshot sweep over a ledger writes one line per stored object. *)
Lemma KeysetLoop_snapshot d target fuel : Ledger.wf d → length (Ledger.stored_ids d target) < fuel →
  ∃ ls, eachStoredObject (λ _ a n, Keyset.Ok (Ledger.StoredObjectsPage d target a n)) fuel = Some (ls, None) ∧
    l_externalID <$> ls = (Inventory.ledgerStored d target).1.
Proof.
  intros Hwf Hf. set (rows := omap (obj_of d) (Ledger.stored_ids d target)).
  pose proof (join_keys (obj_of d) m_ExternalID (obj_of_key d)) as Hids.
  assert (m_ExternalID <$> rows = Ledger.stored_ids d target) as Hrows.
  { apply Hids. intros id Hid. by eapply stored_has_object. }
  unfold eachStoredObject, Keyset.KeysetLoop. rewrite (Keyset.loop_spec m_ExternalID _ _ rows).
  - rewrite (Keyset.for_each_map encodeLine). eexists. split; [reflexivity|].
    cbn [app]. rewrite <- list_fmap_compose. change (l_externalID ∘ encodeLine) with m_ExternalID.
    change (m_ExternalID <$> List.filter (λ m, str_ltb "" (m_ExternalID m)) rows = (Inventory.ledgerStored d target).1).
    unfold rows. rewrite <- (join_filter (obj_of d) m_ExternalID (obj_of_key d) (str_ltb "")).
    apply Hids. intros id Hid. unfold Inventory.ledgerStored in Hid. cbn [fst] in Hid.
    apply list_elem_of_In, filter_In in Hid as [Hid _]. apply list_elem_of_In in Hid. by eapply stored_has_object.
  - intros k a. f_equal. unfold Ledger.StoredObjectsPage, Keyset.table_page, Keyset.above. f_equal.
    apply (join_filter (obj_of d) m_ExternalID (obj_of_key d) (str_ltb a)).
  - unfold Keyset.keyed_ascending. rewrite Hrows. apply Ledger.stored_ids_ascending.
  - apply Keyset.KeysetPageSize_pos.
  - unfold Keyset.sweeping; simpl. lia.
  - pose proof (List.filter_length_le (λ m, str_ltb "" (m_ExternalID m)) rows) as Hle.
    rewrite <- Hrows, length_fmap in Hf. unfold Keyset.remaining; simpl. unfold Keyset.above. simpl. lia.
Qed.
(** A scan of a snapshot's lines, and the verdict of the diff that follows. *)
Lemma scan_ascending ids prev : "" ∉ ids → ascending ids → (prev ≠ "" → ascending (prev :: ids)) →
  Inventory.manifestScanner true prev (Inventory.MLine <$> ids) None = (ids, None).
Proof.
  revert prev. induction ids as [|x ids IH]; intros prev Hne Hasc Hprev; [done|].
  rewrite not_elem_of_cons in Hne. destruct Hne as [Hx Hne]. cbn [fmap list_fmap Inventory.manifestScanner].
  rewrite bool_decide_eq_false_2 by done.
  replace (true && bool_decide (prev ≠ "") && negb (str_ltb prev x)) with false.
  2:{ cbn [andb]. case_bool_decide as Hp; [|done]. specialize (Hprev Hp).
      apply ascending_cons in Hprev as [_ Hall]. apply list.Forall_cons in Hall as [Hlt _]. cbn in Hlt. by rewrite Hlt. }
  assert (ascending ids) as Hasc' by (by apply ascending_cons in Hasc as [? _]).
  by rewrite (IH x Hne Hasc' (λ _, Hasc)).
Qed.

Lemma empty_not_stored d target : "" ∉ (Inventory.ledgerStored d target).1.
Proof.
  unfold Inventory.ledgerStored. cbn [fst]. intros Hin. apply list_elem_of_In, filter_In in Hin as [_ Hlt].
  by rewrite str_ltb_irrefl in Hlt.
Qed.

Lemma skip_sep c s : skip c (String c "" +:+ s) = Some s.
Proof. change (String c "" +:+ s) with (String c s). cbn [skip]. by rewrite bool_decide_eq_true_2. Qed.

Lemma parse_year_pad y s : (0 ≤ y < 10000)%Z → parse_year (pad 4 y +:+ s) = Some (y, s).
Proof.
  intros Hy. destruct (pad_head 3 y) as (c & s' & dg & Hp & Hdg).
  assert (cut 4 (pad 4 y +:+ s) = Some (pad 4 y, s)) as Hc by apply cut_app, pad_length.
  pose proof (atoi_pad 3 y ltac:(cbn; lia)) as Ha. rewrite Hp in *.
  change (String c s' +:+ s) with (String c (s' +:+ s)) in *. unfold parse_year. rewrite Hdg. cbn [mbind option_bind].
  rewrite Hc. cbn [mbind option_bind]. by rewrite Ha.
Qed.

Lemma in_range_ok lo hi n : (lo ≤ n ≤ hi)%Z → in_range lo hi n = Some tt.
Proof. intros Hn. unfold in_range. by rewrite (proj2 (Z.leb_le lo n)), (proj2 (Z.leb_le n hi)) by lia. Qed.

Lemma parse_frac_pad n s : (0 ≤ n < 1000000000)%Z → parse_frac ("." +:+ pad 9 n +:+ s) = Some (n, s).
Proof.
  intros Hn. unfold parse_frac. rewrite <- append_assoc, (cut_app 10) by (rewrite length_append, pad_length; done).
  cbn [mbind option_bind]. change ("." +:+ pad 9 n) with (String "." (pad 9 n)).
  cbv beta iota. rewrite bool_decide_eq_true_2 by done. cbn [orb]. rewrite atoi_pad by (cbn; lia). cbn [mbind option_bind].
  by rewrite in_range_ok by lia.
Qed.

Lemma time_Parse_Format a : valid_time a → time_Parse <$> CutSuffix (FormatManifestName a) manifestSuffix = Some (Some a).
Proof.
  intros Ha. destruct a as [y mo d h mi se ns]. destruct Ha as (Hy & Hmo & Hd & Hh & Hmi & Hse & Hns).
  unfold FormatManifestName. rewrite <- !append_assoc, CutSuffix_app, !append_assoc.
  cbn [fmap option_fmap option_map year month day hour minute sec nano] in *. f_equal.
  assert (daysIn mo y ≤ 31)%Z by (unfold daysIn; repeat case_match; lia).
  unfold time_Parse. rewrite parse_year_pad by done.
  repeat (cbn [mbind option_bind]; first
    [rewrite skip_sep|rewrite getnum_pad by lia|rewrite in_range_ok by lia|rewrite parse_frac_pad by done]).
  done.
Qed.

Lemma first_open_ErrNotExist {A} (open : string → A + err) names e : first_open open names = inr e →
  Is e ErrNotExist = true → ∀ n, n ∈ names → ∃ x, open n = inr x ∧ Is x ErrNotExist = true.
Proof.
  induction names as [|m names IH]; intros Hf He n Hn; [by apply not_elem_of_nil in Hn|]. cbn in Hf.
  destruct (open m) as [a|x] eqn:Eo; [done|]. destruct (Is x ErrNotExist) eqn:Ex; [|by simplify_eq; congruence].
  apply elem_of_cons in Hn as [->|Hn]; [eauto|by apply IH].
Qed.

(** The caller sees a not-exist error only after a listing of everything, each
    manifest of which is gone, when listing errors are real errors. *)
Lemma OpenLatestManifest_ErrNotExist {A} pointer listFrom (open : string → A + err) e :
  OpenLatestManifest pointer listFrom open = inr e → Is e ErrNotExist = true →
  (∀ after x, listFrom after = inr x → Is x ErrNotExist = false) →
  ∃ names, listFrom "" = inl names ∧
    ∀ n, n ∈ names → IsTimestampedManifest n = true → ∃ x, open n = inr x ∧ Is x ErrNotExist = true.
Proof.
  intros Hl He Hlist. assert (full_scan listFrom open = inr e) as Hscan.
  { unfold OpenLatestManifest in Hl. destruct pointer as [p|]; [|done]. destruct (IsTimestampedManifest p); [|done].
    destruct (listFrom p) eqn:Ep; [|simplify_eq; apply Hlist in Ep; congruence].
    destruct (open (foldl newer p l)) as [?|x] eqn:Eo; [done|]. destruct (Is x ErrNotExist) eqn:Ex; [done|].
    simplify_eq. congruence. }
  unfold full_scan in Hscan. destruct (listFrom "") as [names|x] eqn:En; [|simplify_eq; apply Hlist in En; congruence].
  exists names. split; [done|]. intros n Hn Hts. eapply first_open_ErrNotExist; [done|done|]. by apply latestFirst_elem.
Qed.

(** The resolution opens timestamped names only. *)
Lemma OpenLatestManifest_ext {A} pointer listFrom (open open' : string → A + err) :
  (∀ n, IsTimestampedManifest n = true → open n = open' n) →
  OpenLatestManifest pointer listFrom open = OpenLatestManifest pointer listFrom open'.
Proof.
  intros Ho. assert (full_scan listFrom open = full_scan listFrom open') as Hs.
  { unfold full_scan. destruct (listFrom "") as [names|x]; [|done].
    assert (Forall (λ n, IsTimestampedManifest n = true) (latestFirst names)) as Hall
      by (apply list.Forall_forall; intros n Hn; by apply latestFirst_elem in Hn as [_ ?]).
    induction Hall as [|n l Hn Hl IH]; [done|]. cbn. rewrite (Ho n Hn), IH. done. }
  unfold OpenLatestManifest. rewrite Hs. destruct pointer as [p|]; [|done]. destruct (IsTimestampedManifest p) eqn:Ep; [|done].
  destruct (listFrom p) as [l|]; [|done]. by rewrite Ho by apply (newer_spec l p Ep).
Qed.

(** ** Properties *)

(** Chronological order on civil times, field by field. *)
Definition before (a b : civil) : bool :=
  (year a <? year b)%Z || ((year a =? year b)%Z && ((month a <? month b)%Z || ((month a =? month b)%Z &&
  ((day a <? day b)%Z || ((day a =? day b)%Z && ((hour a <? hour b)%Z || ((hour a =? hour b)%Z &&
  ((minute a <? minute b)%Z || ((minute a =? minute b)%Z && ((sec a <? sec b)%Z || ((sec a =? sec b)%Z &&
  ((nano a <? nano b)%Z || ((nano a =? nano b)%Z && false))))))))))))).

(** The manifest naming contract. Every name the writer produces is
    recognised by the reader and parses back to the time it was made from, and
    the byte order of two names is the chronological order of their times: the
    lexically greatest manifest is the newest. *)
Theorem manifest_names_are_chronological a b : valid_time a → valid_time b →
  time_Parse <$> CutSuffix (FormatManifestName a) manifestSuffix = Some (Some a) ∧
  IsTimestampedManifest (FormatManifestName a) = true ∧
  str_ltb (FormatManifestName a) (FormatManifestName b) = before a b.
Proof.
  intros Ha Hb. pose proof (time_Parse_Format a Ha) as Hparse. split_and!; [done| |].
  - unfold IsTimestampedManifest. destruct (CutSuffix _ _) as [ts|]; [|done]. cbn in Hparse. injection Hparse as ->. done.
  - destruct Ha as (Hy & Hmo & Hd & Hh & Hmi & Hse & Hns), Hb as (Hy' & Hmo' & Hd' & Hh' & Hmi' & Hse' & Hns').
    assert (∀ m y, daysIn m y ≤ 31)%Z as Hdays by (intros; unfold daysIn; repeat case_match; lia).
    pose proof (Hdays (month a) (year a)). pose proof (Hdays (month b) (year b)).
    unfold FormatManifestName, before. repeat first [rewrite sep_app|rewrite pad_app by (cbn; lia)].
    by rewrite str_ltb_irrefl.
Qed.
Lemma manifest_names_are_chronological_witness :
  FormatManifestName (MkTime 2026 1 2 3 4 5 6) = "2026-01-02T030405.000000006Z.jsonl" ∧
  IsTimestampedManifest "2026-01-02T030405.000000006Z.jsonl" = true ∧
  str_ltb (FormatManifestName (MkTime 2026 1 2 3 4 5 6)) (FormatManifestName (MkTime 2026 10 2 3 4 5 6)) = true.
Proof.
  assert (valid_time (MkTime 2026 1 2 3 4 5 6)) as Ha by (unfold valid_time; vm_compute; intuition congruence).
  assert (valid_time (MkTime 2026 10 2 3 4 5 6)) as Hb by (unfold valid_time; vm_compute; intuition congruence).
  destruct (manifest_names_are_chronological _ _ Ha Hb) as (_ & Hts & Hlt).
  assert (FormatManifestName (MkTime 2026 1 2 3 4 5 6) = "2026-01-02T030405.000000006Z.jsonl") as Hn by (vm_compute; reflexivity).
  split; [exact Hn|]. split; [by rewrite <- Hn|]. by rewrite Hlt.
Defined.

(** The newest surviving manifest is opened. On a store that answers its
    listings and opens consistently, whatever the pointer says (nothing, a
    stray name, a stale one, or one whose manifest is gone), the manifest
    returned is the lexically greatest timestamped one; only when there is none
    does the caller see a not-exist error. *)
Theorem OpenLatestManifest_newest {A} (ns : list string) (content : string → A) gone pointer listFrom :
  Is gone ErrNotExist = true →
  (∀ after, after = "" ∨ IsTimestampedManifest after = true →
     ∃ l, listFrom after = inl l ∧ l ≡ₚ List.filter (λ n, str_ltb after n) ns) →
  (∃ n, newest_of ns n ∧ OpenLatestManifest pointer listFrom (open_ ns content gone) = inl (content n)) ∨
  ((∀ n, n ∈ ns → IsTimestampedManifest n = false) ∧
   ∃ e, OpenLatestManifest pointer listFrom (open_ ns content gone) = inr e ∧ Is e ErrNotExist = true).
Proof.
  intros Hgone Hlist. pose proof (full_scan_spec ns content gone listFrom Hlist) as Hscan.
  unfold OpenLatestManifest. destruct pointer as [p|]; [|done]. destruct (IsTimestampedManifest p) eqn:Ep; [|done].
  destruct (Hlist p (or_intror Ep)) as (l & -> & Hl). destruct (newer_spec l p Ep) as (H1 & H2 & H3 & H4).
  set (r := foldl newer p l) in *. unfold open_ at 1 3. case_bool_decide as Hr.
  - left. exists r. split; [|done]. split_and!; [done|done|]. intros m Hm Hts.
    destruct (str_ltb p m) eqn:Epm.
    + apply H4; [|done]. by apply (listed ns p l m Hl).
    + destruct (str_ltb r m) eqn:Erm; [|done]. destruct (klt_total p r) as [Hc|[Hc|Hc]].
      * pose proof (klt_trans p r m Hc Erm) as Hx. cbn in Hx. congruence.
      * rewrite Hc in Epm. cbn in Epm. congruence.
      * cbn in Hc. congruence.
  - rewrite Hgone. exact Hscan.
Qed.

Definition ex_old : string := "2026-01-02T030405.000000006Z.jsonl".
Definition ex_new : string := "2026-02-02T030405.000000006Z.jsonl".

Lemma OpenLatestManifest_newest_witness :
  OpenLatestManifest (Some "2026-03-01T000000.000000000Z.jsonl")
    (λ after, inl (List.filter (λ n, str_ltb after n) [ex_new; "stray.jsonl"; ex_old]))
    (open_ [ex_new; "stray.jsonl"; ex_old] (λ n, n) (Sent ErrNotExist)) = inl ex_new ∧
  ∃ n, newest_of [ex_new; "stray.jsonl"; ex_old] n.
Proof.
  split; [vm_compute; reflexivity|].
  destruct (OpenLatestManifest_newest [ex_new; "stray.jsonl"; ex_old] (λ n, n) (Sent ErrNotExist)
    (Some "2026-03-01T000000.000000000Z.jsonl") (λ after, inl (List.filter (λ n, str_ltb after n) [ex_new; "stray.jsonl"; ex_old])))
    as [(n & Hn & _)|[Hnone _]]; [done|by intros; eexists|by exists n|].
  specialize (Hnone ex_new ltac:(by left)). vm_compute in Hnone. done.
Defined.

(** A snapshot verifies against the ledger it was taken from, and against
    any ledger that has grown since. The lines written for a target are its
    stored objects, each once, in ascending order; read back by the inventory
    audit after any number of further recorded backups, they produce a
    Verified verdict, never a drift. *)
Theorem snapshot_verifies d target rs fuel v :
  Ledger.wf d → length (Ledger.stored_ids d target) < fuel →
  ∃ ls, eachStoredObject (λ _ a n, Keyset.Ok (Ledger.StoredObjectsPage d target a n)) fuel = Some (ls, None) ∧
    ascending (l_externalID <$> ls) ∧
    (∀ id, id ≠ "" → id ∈ l_externalID <$> ls ↔ Ledger.is_stored d id target = true) ∧
    (Inventory.i_arm1 v = ArmResult → Inventory.i_open1 v = Returns (inl (decodeLines ls, None)) →
     Inventory.i_ledger v = Inventory.ledgerStored (Ledger.apply_records rs d) target →
     ∃ w, Inventory.inventoryProbe target v = Some w ∧ Verdict.v_Status w = Verdict.StatusVerified).
Proof.
  intros Hwf Hf. destruct (KeysetLoop_snapshot d target fuel Hwf Hf) as (ls & Hls & Hids).
  exists ls. rewrite Hids. set (ids := (Inventory.ledgerStored d target).1) in *.
  assert (ascending ids) as Hasc by apply Ledger.ascending_filter, Ledger.stored_ids_ascending.
  assert (∀ id, id ≠ "" → id ∈ ids ↔ Ledger.is_stored d id target = true) as Hmem.
  { intros id Hid. subst ids. cbn. rewrite list_elem_of_In, filter_In, <- list_elem_of_In, Ledger.elem_of_stored_ids.
    split; [by intros [? _]|]. intros ?. split; [done|]. by apply Keyset.str_ltb_empty. }
  split_and!; [done|done|done|]. intros Ha Ho Hl.
  assert (∀ id, Ledger.is_stored d id target = true → Ledger.is_stored (Ledger.apply_records rs d) id target = true) as Hmono.
  { intros id. unfold Ledger.apply_records. clear. revert d. induction rs as [|r rs IH]; intros d Hid; [done|].
    cbn. apply IH. by apply Ledger.apply_record_stored. }
  unfold Inventory.inventoryProbe, Inventory.abandonableFetch, RunAbandonable. rewrite Ha, Ho, Hl. cbn [RunAbandonableClose sent fst].
  unfold Inventory.manifestIterator, decodeLines.
  replace ((λ l, Inventory.MLine (l_externalID l)) <$> ls) with (Inventory.MLine <$> ids) by (rewrite <- Hids, <- list_fmap_compose; done).
  rewrite (scan_ascending ids "") by (first [apply empty_not_stored|done]).
  pose proof (Inventory.minus_stored (Ledger.apply_records rs d) target ids (empty_not_stored d target)) as Hminus.
  change (Inventory.ledgerStored (Ledger.apply_records rs d) target) with
    ((Inventory.ledgerStored (Ledger.apply_records rs d) target).1, @None err).
  destruct (Inventory.mergeInventory_spec ids None (Inventory.ledgerStored (Ledger.apply_records rs d) target).1 Hasc) as (mi & -> & _);
    [apply Ledger.ascending_filter, Ledger.stored_ids_ascending|done|].
  rewrite (proj2 Hminus); [cbn; eauto|]. intros id Hid. apply Hmono, Hmem; [|done].
  intros ->. by apply (empty_not_stored d target).
Qed.

Definition ex_ledger : Ledger.db :=
  Ledger.apply_records [(1%Z, MkMeta "bb" 3 true None None, [MkStatus "a" StateStored 3]);
                        (2%Z, MkMeta "aa" 2 true None None, [MkStatus "a" StateStored 2])] Ledger.empty_db.
Definition ex_lines : list manifestLine := [MkLine "aa" 2 None None; MkLine "bb" 3 None None].
Definition ex_later : list (Z * ObjectMeta * list TargetStatus) :=
  [(3%Z, MkMeta "cc" 1 true None None, [MkStatus "a" StateStored 1])].
Definition ex_probe : Inventory.ienv :=
  Inventory.MkI ArmResult (Returns (inl (decodeLines ex_lines, None))) ArmResult (Panics "") None None
    (Inventory.ledgerStored (Ledger.apply_records ex_later ex_ledger) "a").

Lemma snapshot_verifies_witness :
  eachStoredObject (λ _ a n, Keyset.Ok (Ledger.StoredObjectsPage ex_ledger "a" a n)) 5 = Some (ex_lines, None) ∧
  ∃ w, Inventory.inventoryProbe "a" ex_probe = Some w ∧ Verdict.v_Status w = Verdict.StatusVerified.
Proof.
  assert (eachStoredObject (λ _ a n, Keyset.Ok (Ledger.StoredObjectsPage ex_ledger "a" a n)) 5 = Some (ex_lines, None)) as Hls
    by (vm_compute; reflexivity).
  split; [exact Hls|].
  destruct (snapshot_verifies ex_ledger "a" ex_later 5 ex_probe) as (ls & Hls' & _ & _ & Hv).
  - do 2 apply Ledger.apply_record_wf. apply Ledger.empty_db_wf.
  - vm_compute. lia.
  - rewrite Hls in Hls'. injection Hls' as <-. by apply Hv.
Defined.

End Manifest.
