(* ===== verification/Layout.v ===== *)
(** * The layout of a target

    The keys of [src/internal/fsutil/fsutil.go] ([ShardKey], [ManifestKey],
    [ManifestDir], [ManifestLatestKey], [PreflightKey]) and the encoding of the
    [_manifest/LATEST] pointer ([ParseManifestPointer], the bounded read). Both
    sinks place these keys below their root or prefix with [path.Join], so the
    facts here hold for both: what is written below a prefix stays below it, and
    objects, manifests, the pointer and the probes never share a key. *)

From S2P Require Import Prelude GoText GoRuntime Stream Manifest.
From Stdlib Require Import ZArith Lia.
From Stdlib Require Import Strings.Byte Strings.Ascii Strings.String.
From Stdlib Require Import Numbers.DecimalString.
From stdpp Require Import base strings list numbers.

Module Layout.
Import GoText Stream.

Definition manifestPrefix : string := "_manifest".
Definition manifestLatestName : string := "LATEST".
Definition preflightPrefix : string := "_preflight".

Definition ManifestKey (name : string) : string := Join [manifestPrefix; Base name].
Definition ManifestDir : string := manifestPrefix.
Definition ManifestLatestKey : string := Join [manifestPrefix; manifestLatestName].

(** [hex.EncodeToString]. *)
Definition hex_lower (n : N) : ascii := ascii_of_N (if (n <? 10)%N then 48 + n else 87 + n).

Fixpoint hex_EncodeToString (bs : bytes) : string :=
  match bs with
  | [] => ""
  | b :: bs => String (hex_lower (Byte.to_N b / 16)) (String (hex_lower (Byte.to_N b mod 16)) (hex_EncodeToString bs))
  end.

(** [PreflightKey] at the time [nanos], with the random bytes read. *)
Definition PreflightKey (nanos : Z) (rand : bytes) : string :=
  Join [preflightPrefix; Itoa nanos +:+ "-" +:+ hex_EncodeToString rand].

(** ** The pointer *)

Definition ManifestPointerMax : nat := 4096.

Definition string_of_bytes (bs : bytes) : string := string_of_list_ascii (ascii_of_byte <$> bs).
Definition bytes_of_string (s : string) : bytes := byte_of_ascii <$> list_ascii_of_string s.

Definition ParseManifestPointer (b : bytes) : option string :=
  let name := TrimSpace (string_of_bytes b) in if bool_decide (name = "") then None else Some name.

(** What an opened object delivers: its bytes, then EOF ([None]) or an error. *)
Abbreviation body := (bytes * goerr)%type.

(** [io.ReadAll(io.LimitReader(r, n))]: an error past the limit is not seen. *)
Definition readAllLimited (n : nat) (b : body) : bytes + err :=
  if n <=? length b.1 then inl (take n b.1)
  else match b.2 with None => inl b.1 | Some e => inr e end.

(** The tail both sinks' [readManifestPointer] share. *)
Definition readPointer {E} (opened : body + E) : option string :=
  match opened with
  | inr _ => None
  | inl b => match readAllLimited ManifestPointerMax b with inr _ => None | inl bs => ParseManifestPointer bs end
  end.

(** ** Plain names *)

Lemma Base_plain n : plain n = true → Base n = n.
Proof.
  intros (Hne & _ & _ & Hs)%plain_spec. assert (TrimRight "/" n = n) as Ht.
  { clear Hne. induction n as [|c n IH]; [done|]. cbn [all_chars TrimRight] in *. apply andb_true_iff in Hs as [Hc Hs].
    apply isnt_true in Hc. rewrite IH by done. destruct n; [by rewrite bool_decide_eq_false_2|done]. }
  unfold Base. rewrite Ht, Split_none by done. by destruct n.
Qed.

Lemma ManifestKey_plain n : plain n = true → ManifestKey n = join "/" [manifestPrefix; n].
Proof. intros Hn. unfold ManifestKey. rewrite Base_plain by done. apply Join_plain; [done|]. by repeat constructor. Qed.

Lemma ManifestLatestKey_join : ManifestLatestKey = join "/" [manifestPrefix; manifestLatestName].
Proof. reflexivity. Qed.

(** A character that may occur in a plain name of more than two characters. *)
Definition tame (c : ascii) : bool := isnt "/" c && isnt "." c.

Lemma hex_lower_tame n : (n < 16)%N → tame (hex_lower n) = true.
Proof.
  intros Hn. assert (n ∈ [0; 1; 2; 3; 4; 5; 6; 7; 8; 9; 10; 11; 12; 13; 14; 15]%N) as Hin.
  { rewrite !elem_of_cons. lia. }
  repeat (apply elem_of_cons in Hin as [->|Hin]; [reflexivity|]). by apply not_elem_of_nil in Hin.
Qed.

Lemma hex_tame bs : all_chars tame (hex_EncodeToString bs) = true.
Proof.
  induction bs as [|b bs IH]; [done|]. cbn [hex_EncodeToString all_chars]. pose proof (Byte.to_N_bounded b) as Hb.
  rewrite !hex_lower_tame, IH; [done|apply N.mod_lt; lia|].
  apply N.Div0.div_lt_upper_bound; lia.
Qed.

Lemma tame_plain s : s ≠ "" → all_chars tame s = true → plain s = true.
Proof.
  intros Hne Hs. apply plain_spec. split_and!; [done|by intros ->|by intros ->|].
  eapply all_chars_impl; [|exact Hs]. unfold tame. intros c [? _]%andb_true_iff. done.
Qed.

Lemma Itoa_tame z : all_chars tame (Itoa z) = true.
Proof.
  assert (∀ u, all_chars tame (NilZero.string_of_uint u) = true) as Hu.
  { intros u. assert (all_chars tame (NilEmpty.string_of_uint u) = true) as He
      by (induction u; cbn [NilEmpty.string_of_uint all_chars]; rewrite ?IHu; done). by destruct u. }
  unfold Itoa, NilZero.string_of_int. destruct (Z.to_int z) as [u|u]; [apply Hu|]. cbn [all_chars]. by rewrite Hu.
Qed.

Definition probe_name (nanos : Z) (rand : bytes) : string := Itoa nanos +:+ "-" +:+ hex_EncodeToString rand.

Lemma probe_name_plain nanos rand : plain (probe_name nanos rand) = true.
Proof.
  unfold probe_name. apply tame_plain; [by destruct (Itoa nanos)|]. rewrite !all_chars_app, Itoa_tame, hex_tame. done.
Qed.

Lemma PreflightKey_join nanos rand : PreflightKey nanos rand = join "/" [preflightPrefix; probe_name nanos rand].
Proof. unfold PreflightKey. apply Join_plain; [done|]. repeat constructor. apply probe_name_plain. Qed.

(** ** Manifest names are plain *)

Definition noslash (s : string) : bool := all_chars (isnt "/") s.

Lemma noslash_cons c s : noslash (String c s) = isnt "/" c && noslash s.
Proof. done. Qed.

Lemma digit_noslash c d : Manifest.digit_of c = Some d → isnt "/" c = true.
Proof. intros Hd. apply isnt_true. intros ->. done. Qed.

Lemma skip_noslash c s s' : c ≠ "/"%char → Manifest.skip c s = Some s' → noslash s' = true → noslash s = true.
Proof.
  intros Hc. destruct s as [|x s]; [done|]. unfold Manifest.skip. case_bool_decide as Hx; [|done]. intros [= <-] Hs.
  rewrite noslash_cons. by rewrite (proj2 (isnt_true _ _)), Hs by congruence.
Qed.

Lemma leadingInt_noslash s acc n : Manifest.leadingInt acc s = Some n → noslash s = true.
Proof.
  revert acc. induction s as [|c s IH]; intros acc; [done|]. cbn [Manifest.leadingInt].
  destruct (Manifest.digit_of c) as [d|] eqn:Ed; [|done]. cbn [mbind option_bind]. intros Hs.
  rewrite noslash_cons, (digit_noslash _ _ Ed). by eapply IH.
Qed.

Lemma atoi_noslash s n : Manifest.atoi s = Some n → noslash s = true.
Proof.
  intros Ha. destruct s as [|c s]; [done|]. rewrite noslash_cons.
  destruct (decide (c = "-"%char)) as [->|H1].
  { cbn [Manifest.atoi] in Ha. destruct (Manifest.leadingInt 0 s) eqn:E; [|done]. by rewrite (leadingInt_noslash _ _ _ E). }
  destruct (decide (c = "+"%char)) as [->|H2]; [cbn [Manifest.atoi] in Ha; by rewrite (leadingInt_noslash _ _ _ Ha)|].
  assert (Manifest.atoi (String c s) = Manifest.leadingInt 0 (String c s)) as Heq.
  { unfold Manifest.atoi. by destruct c as [[] [] [] [] [] [] [] []]. }
  rewrite Heq in Ha. by apply leadingInt_noslash in Ha.
Qed.

Lemma substring_split s n : n ≤ String.length s →
  s = String.substring 0 n s +:+ String.substring n (String.length s - n) s.
Proof.
  revert n. induction s as [|c s IH]; intros [|n] Hn; cbn [String.length String.substring] in *; try lia; [done| |].
  - symmetry. exact (Manifest.substring_all (String c s)).
  - rewrite append_cons. f_equal. apply IH. lia.
Qed.

Lemma cut_noslash n s p r : Manifest.cut n s = Some (p, r) → noslash p = true → noslash r = true → noslash s = true.
Proof.
  unfold Manifest.cut. destruct (n <=? String.length s) eqn:E; [|done]. to_prop. intros [= <- <-] Hp Hr.
  unfold noslash in *. rewrite (substring_split s n) by done. by rewrite all_chars_app, Hp, Hr.
Qed.

Lemma getnum_noslash fixed s n r : Manifest.getnum fixed s = Some (n, r) → noslash r = true → noslash s = true.
Proof.
  destruct s as [|c s]; [done|]. cbn [Manifest.getnum]. destruct (Manifest.digit_of c) as [a|] eqn:Ea; [|done].
  cbn [mbind option_bind]. rewrite noslash_cons, (digit_noslash _ _ Ea). destruct s as [|c2 s]; [done|].
  destruct (Manifest.digit_of c2) as [b|] eqn:Eb.
  - intros [= <- <-]. by rewrite noslash_cons, (digit_noslash _ _ Eb).
  - destruct fixed; [done|]. by intros [= <- <-].
Qed.

Lemma parse_year_noslash s n r : Manifest.parse_year s = Some (n, r) → noslash r = true → noslash s = true.
Proof.
  destruct s as [|c s]; [done|]. unfold Manifest.parse_year. destruct (Manifest.digit_of c); [|done]. cbn [mbind option_bind].
  destruct (Manifest.cut 4 (String c s)) as [[p q]|] eqn:Ec; [|done]. cbn [mbind option_bind].
  destruct (Manifest.atoi p) eqn:Ea; [|done]. cbn [mbind option_bind]. intros [= <- <-]. eapply cut_noslash; [exact Ec|].
  by eapply atoi_noslash.
Qed.

Lemma parse_frac_noslash s n r : Manifest.parse_frac s = Some (n, r) → noslash r = true → noslash s = true.
Proof.
  unfold Manifest.parse_frac. destruct (Manifest.cut 10 s) as [[p q]|] eqn:Ec; [|done]. cbn [mbind option_bind].
  destruct p as [|c p]; [done|]. destruct (bool_decide (c = "."%char) || _) eqn:Ed; [|done].
  destruct (Manifest.atoi p) eqn:Ea; [|done]. cbn [mbind option_bind]. destruct (Manifest.in_range _ _ _); [|done].
  cbn [mbind option_bind]. intros [= <- <-] Hr. eapply cut_noslash; [exact Ec| |done].
  rewrite noslash_cons, (atoi_noslash _ _ Ea), andb_true_r. apply isnt_true. intros ->. done.
Qed.

Lemma time_Parse_noslash s t : Manifest.time_Parse s = Some t → noslash s = true.
Proof.
  unfold Manifest.time_Parse. intros H.
  repeat match type of H with
  | mbind _ ?x = Some _ => let E := fresh "E" in destruct x as [?|] eqn:E; [cbn [mbind option_bind] in H|done]
  | (let '(_, _) := ?p in _) = Some _ => destruct p
  | match ?s with EmptyString => _ | String _ _ => _ end = Some _ => destruct s; [|done]
  end.
  repeat match goal with
  | E : Manifest.skip ?c ?s = Some _ |- _ => apply skip_noslash in E; [|done|done]
  | E : Manifest.parse_frac _ = Some _ |- _ => apply parse_frac_noslash in E; [|done]
  | E : Manifest.getnum _ _ = Some _ |- _ => apply getnum_noslash in E; [|done]
  | E : Manifest.parse_year _ = Some _ |- _ => apply parse_year_noslash in E; [|done]
  end. done.
Qed.

(** A timestamped manifest name is one plain component. *)
Lemma timestamped_plain n : Manifest.IsTimestampedManifest n = true → plain n = true.
Proof.
  unfold Manifest.IsTimestampedManifest, Manifest.CutSuffix. intros H. set (k := String.length n - String.length Manifest.manifestSuffix) in *.
  destruct ((String.length Manifest.manifestSuffix <=? String.length n) && _) eqn:E; [|done].
  apply andb_true_iff in E as [Hl Hs]. to_prop. destruct (Manifest.time_Parse _) as [t|] eqn:Et; [|done].
  apply time_Parse_noslash in Et. assert (n = String.substring 0 k n +:+ Manifest.manifestSuffix) as Hn.
  { rewrite (substring_split n k) at 1 by lia. f_equal.
    by replace (String.length n - k) with (String.length Manifest.manifestSuffix) by lia. }
  assert (6 ≤ String.length n) as H6 by exact Hl.
  apply plain_spec. split_and!; [by intros ->; cbn in H6; lia..|].
  rewrite Hn, all_chars_app. unfold noslash in Et. fold k. by rewrite Et.
Qed.

(** ** The pointer round trip *)

Lemma string_of_bytes_of_string s : string_of_bytes (bytes_of_string s) = s.
Proof.
  unfold string_of_bytes, bytes_of_string. induction s as [|c s IH]; [done|]. cbn. rewrite ascii_of_byte_of_ascii.
  f_equal. exact IH.
Qed.

Lemma length_bytes_of_string s : length (bytes_of_string s) = String.length s.
Proof. unfold bytes_of_string. rewrite length_fmap. induction s as [|c s IH]; [done|]. cbn. by rewrite IH. Qed.

Lemma digit_solid c d : Manifest.digit_of c = Some d → solid c = true.
Proof.
  unfold Manifest.digit_of, solid. destruct (_ && _) eqn:E; [|done]. intros _.
  rewrite andb_true_iff in E |- *. to_prop. split; apply N.leb_le; lia.
Qed.

Lemma FormatManifestName_shape t : ∃ c s, Manifest.FormatManifestName t = String c (s +:+ "l") ∧ solid c = true ∧
  String.length s = 32.
Proof.
  destruct (Manifest.pad_head 3 (Manifest.year t)) as (c & s & d & Hp & Hd). unfold Manifest.FormatManifestName, Manifest.manifestSuffix.
  rewrite Hp, append_cons. change ".jsonl" with (".json" +:+ "l"). rewrite <- !append_assoc. eexists c, _. split; [reflexivity|].
  split; [by eapply digit_solid|]. rewrite !length_append, !Manifest.pad_length.
  pose proof (Manifest.pad_length 4 (Manifest.year t)) as Hl. rewrite Hp in Hl. cbn in Hl |- *. lia.
Qed.

Lemma readPointer_written {E} t :
  readPointer (E := E) (inl (bytes_of_string (Manifest.FormatManifestName t), None)) = Some (Manifest.FormatManifestName t).
Proof.
  destruct (FormatManifestName_shape t) as (c & s & Hn & Hc & Hl).
  assert (TrimSpace (Manifest.FormatManifestName t) = Manifest.FormatManifestName t) as Ht
    by (rewrite Hn; by apply TrimSpace_solid).
  unfold readPointer, readAllLimited. cbn [fst snd]. rewrite length_bytes_of_string.
  replace (ManifestPointerMax <=? String.length (Manifest.FormatManifestName t)) with false.
  - unfold ParseManifestPointer. rewrite string_of_bytes_of_string, Ht. by rewrite bool_decide_eq_false_2 by (by rewrite Hn).
  - symmetry. apply Nat.leb_gt. rewrite Hn. cbn [String.length]. rewrite length_append, Hl. unfold ManifestPointerMax. cbn. lia.
Qed.

(** ** Below a prefix *)

(** The components of everything a target holds. *)
Inductive item := IObject (hash : string) | IManifest (name : string) | ILatest | IProbe (nanos : Z) (rand : bytes).

Definition parts (i : item) : list string :=
  match i with
  | IObject hash => shards hash
  | IManifest name => [manifestPrefix; name]
  | ILatest => [manifestPrefix; manifestLatestName]
  | IProbe nanos rand => [preflightPrefix; probe_name nanos rand]
  end.

Definition well_named (i : item) : Prop :=
  match i with
  | IObject hash => ValidateContentHash hash = None
  | IManifest name => Manifest.IsTimestampedManifest name = true
  | ILatest | IProbe _ _ => True
  end.

Definition itemKey (i : item) : string :=
  match i with
  | IObject hash => ShardKey hash
  | IManifest name => ManifestKey name
  | ILatest => ManifestLatestKey
  | IProbe nanos rand => PreflightKey nanos rand
  end.

Lemma parts_plain i : well_named i → Forall (λ c, plain c = true) (parts i).
Proof.
  destruct i as [hash|name| |nanos rand]; cbn [parts well_named]; intros Hi.
  - by apply shards_plain.
  - repeat constructor. by apply timestamped_plain.
  - by repeat constructor.
  - repeat constructor. apply probe_name_plain.
Qed.

Lemma parts_ne i : parts i ≠ [].
Proof. by destruct i. Qed.

Lemma itemKey_join i : well_named i → itemKey i = join "/" (parts i).
Proof.
  destruct i as [hash|name| |nanos rand]; cbn [itemKey parts well_named]; intros Hi.
  - by apply ShardKey_shards.
  - by apply ManifestKey_plain, timestamped_plain.
  - done.
  - apply PreflightKey_join.
Qed.

Lemma well_named_latest name : well_named (IManifest name) → name ≠ manifestLatestName.
Proof. intros Hn ->. done. Qed.

(** The keys of two items below one prefix are equal only when the items'
    components are. *)
Lemma itemKey_parts p i j : well_named i → well_named j → Join [p; itemKey i] = Join [p; itemKey j] → parts i = parts j.
Proof.
  intros Hi Hj. rewrite !itemKey_join by done. apply Join_under_inj; first [apply parts_ne|by apply parts_plain].
Qed.

Lemma parts_object i hash : well_named i → parts i = shards hash → i = IObject hash.
Proof. destruct i as [h|name| |nanos rand]; cbn; intros Hi Hp; by simplify_eq. Qed.

Lemma parts_manifest i name : well_named i → well_named (IManifest name) → parts i = [manifestPrefix; name] → i = IManifest name.
Proof.
  destruct i as [h|n| |nanos rand]; cbn [parts]; intros Hi Hn Hp; simplify_eq; [|done].
  by apply well_named_latest in Hn.
Qed.

(** ** Properties *)

(** Nothing a target is asked to hold can land outside its prefix, or on top of
    something else. The key of an object, a manifest, the pointer or a
    probe is the target's own cleaned prefix followed by that item's two or three
    plain components; and two objects, two manifests or an object and a manifest
    have the same key only when they are the same item. *)
Theorem target_layout_is_contained prefix i j : well_named i → well_named j →
  Join [prefix; itemKey i] = render (is_rooted prefix) (rev (kept prefix) ++ parts i) ∧
  Forall (λ c, plain c = true) (parts i) ∧
  (Join [prefix; itemKey i] = Join [prefix; itemKey j] →
     (∀ hash, j = IObject hash → i = j) ∧ (∀ name, j = IManifest name → i = j) ∧ (j = ILatest → i = j)).
Proof.
  intros Hi Hj. rewrite (itemKey_join i Hi). split_and!.
  - apply Join_under; [apply parts_ne|by apply parts_plain].
  - by apply parts_plain.
  - rewrite <- itemKey_join by done. intros Hk. apply itemKey_parts in Hk; [|done..]. split_and!.
    + intros hash ->. by apply parts_object.
    + intros name ->. by apply parts_manifest.
    + intros ->. destruct i as [h|n| |nanos rand]; cbn [parts] in Hk; simplify_eq; [|done].
      by apply well_named_latest in Hi.
Qed.

Definition ex_hash : string := "00000000000000000000000000000000000000000000000000000000000000ff".

Lemma target_layout_is_contained_witness :
  ValidateContentHash ex_hash = None ∧ Join ["/data/../backup/"; itemKey (IObject ex_hash)] = "/backup/00/00/" +:+ ex_hash.
Proof.
  split; [vm_compute; reflexivity|].
  destruct (target_layout_is_contained "/data/../backup/" (IObject ex_hash) ILatest) as (-> & _); [vm_compute; reflexivity|done|].
  vm_compute. reflexivity.
Defined.

End Layout.
