(* ===== verification/RestoreDrill.v ===== *)
(** * The restore drill

    [Drill] of [src/internal/domain/drill.go] put together from its parts: the
    sampled sweep of the ledger ([streamSampledStored], with [randKeysetStart] of
    audit.go), the hand-over to the workers, and [drillOne], which restores an
    object into the scratch directory through the operator's own path and removes
    the file again. Sweep.v has the counting; here every object is really
    restored, and the scratch directory is a file system.

    The workers of a drill share nothing but the counters, which are behind a
    mutex, and a directory in which each writes names of its own; they are run in
    the order in which they finish. *)

From S2P Require Import Prelude GoText GoRuntime Ports Keyset Ledger Stream Fanout Files Restore Sweep Layout.
From Stdlib Require Import ZArith Lia.
From stdpp Require Import base gmap strings list numbers.

Module RestoreDrill.
Import Stream Fanout Files Restore Keyset Sweep.

(** ** The sample *)

(** [rand.Read] of 32 bytes; [None]: it failed. *)
Definition randKeysetStart (rand : option bytes) : string :=
  match rand with Some b => Layout.hex_EncodeToString b | None => "" end.

Definition streamSampledStored {S} (fuel : nat) (rand : option bytes) (pages : nat → string → nat → res (list string))
    (ctxs : nat → ctxState) (target : string) (sample : Z) (yield : S → string → S * goerr) (s : S) : option (S * goerr) :=
  keysetSample sample (sampledStart sample (randKeysetStart rand))
    (λ k after limit, match pages k after limit with
                      | Ok page => Ok page
                      | Er e => Er (Wrap ("drill sample " +:+ target) [e])
                      end)
    (for_each yield) ctxs fuel s.

(** ** Handing over

    The enumeration callback of an unpaced sweep: yields made so far, and the
    objects handed to a worker. *)
Definition handOver (env : nat → yenv) (st : nat * list string) (h : string) : nat * list string * goerr :=
  let '(d, yerr) := Sweep.yield (newPacer 0) (env st.1) in
  ((S st.1, if d : bool then st.2 ++ [h] else st.2), yerr).

(** It enumerates as [Sweep.enumerate] does. *)
Lemma handOver_enumerate env l k handed :
  ∃ k', for_each (handOver env) (k, handed) l =
    ((k', handed ++ (enumerate (newPacer 0) env k l None).1.1), (enumerate (newPacer 0) env k l None).2).
Proof.
  revert k handed. induction l as [|h l IH]; intros k handed; cbn [for_each enumerate].
  { exists k. cbn. by rewrite app_nil_r. }
  unfold handOver at 1. cbn [fst snd]. destruct (Sweep.yield _ _) as [d [e|]].
  { exists (S k). by destruct d; cbn; rewrite ?app_nil_r. }
  destruct (IH (S k) (if d then handed ++ [h] else handed)) as [k' ->].
  destruct (enumerate _ _ (S k) l None) as [[ds m] e]. exists k'. cbn [fst snd].
  destruct d; [by rewrite <- app_assoc|done].
Qed.

(** ** The drill *)

Section drill.
Context `{Decoder} (sum : bytes → string).

(** The random bytes, the ledger's pages, the context at the top of each page and
    at each yield, the order in which the workers finish, what each restore and the
    removal after it meet, the parent context when the result is classified, and at
    the end. *)
Record env := MkEnv {
  dv_rand : option bytes;
  dv_pages : nat → string → nat → res (list string);
  dv_ctxs : nat → ctxState; dv_yield : nat → yenv;
  dv_order : list string → list string;
  dv_object : string → renv; dv_remove : string → goerr;
  dv_ctx : string → ctxState; dv_final : ctxState;
}.

(** Yields made, objects handed to a worker, yields that returned nil ([dispatched++]). *)
Definition dispatch (v : env) (st : nat * list string * Z) (h : string) : nat * list string * Z * goerr :=
  let '(it, dispatched) := st in
  match handOver (dv_yield v) it h with
  | (it, Some yerr) => ((it, dispatched), Some yerr)
  | (it, None) => ((it, (dispatched + 1)%Z), None)
  end.

Definition dest (scratchDir hash : string) : string := GoText.Join [scratchDir; hash].

(** The counters and the scratch directory after one worker. *)
Definition drillOne (v : env) (fuel : nat) (scratchDir : string) (st : DrillOutcome * fs) (hash : string)
    : option (DrillOutcome * fs) :=
  let '(out, s) := st in
  r ← RestoreObject sum (dv_object v hash) fuel hash (dest scratchDir hash) s;
  let s1 := default s (list.last r.1) in
  let s2 := match r.2, dv_remove v hash with Returns None, None => remove (dest scratchDir hash) s1 | _, _ => s1 end in
  Some (Sweep.drillOne (dv_ctx v hash) hash r.2 out, s2).

Fixpoint work (v : env) (fuel : nat) (scratchDir : string) (st : DrillOutcome * fs) (hashes : list string)
    : option (DrillOutcome * fs) :=
  match hashes with
  | [] => Some st
  | h :: hashes => st ← drillOne v fuel scratchDir st h; work v fuel scratchDir st hashes
  end.

(** [kfuel] bounds the pages, [fuel] each decode. *)
Definition Drill (v : env) (kfuel fuel : nat) (targetName scratchDir : string) (sample : Z) (s : fs)
    : option (DrillOutcome * goerr * fs) :=
  r ← streamSampledStored kfuel (dv_rand v) (dv_pages v) (dv_ctxs v) targetName sample (dispatch v) (0, [], 0%Z);
  let '((_, handed, dispatched), e) := r in
  w ← work v fuel scratchDir (zeroDrill, s) (dv_order v handed);
  Some (w.1, drillInterruptErr (dv_final v) e (Checked w.1) dispatched, w.2).

(** ** Lemmas *)

(** The dispatching callback enumerates as [Sweep.enumerate] does. *)
Lemma dispatch_enumerate v l k handed n :
  ∃ k', for_each (dispatch v) (k, handed, n) l =
    ((k', handed ++ (enumerate (newPacer 0) (dv_yield v) k l None).1.1,
      (n + Z.of_nat (enumerate (newPacer 0) (dv_yield v) k l None).1.2)%Z),
     (enumerate (newPacer 0) (dv_yield v) k l None).2).
Proof.
  revert k handed n. induction l as [|h l IH]; intros k handed n; cbn [for_each enumerate].
  { exists k. cbn. by rewrite app_nil_r, Z.add_0_r. }
  unfold dispatch at 1, handOver at 1. cbn [fst snd]. destruct (Sweep.yield _ _) as [d [e|]].
  { exists (S k). destruct d; cbn; by rewrite ?app_nil_r, Z.add_0_r. }
  destruct (IH (S k) (if d then handed ++ [h] else handed) (n + 1)%Z) as [k' ->].
  destruct (enumerate _ _ (S k) l None) as [[ds m] e]. exists k'. cbn [fst snd].
  replace (n + 1 + Z.of_nat m)%Z with (n + Z.of_nat (S m))%Z by lia. destruct d; [by rewrite <- app_assoc|done].
Qed.

(** Whether a commit succeeds does not depend on what else is in the directory. *)
Lemma CommitWrite_result w d d' s s' : (CommitWrite w d s).2 = (CommitWrite w d' s').2.
Proof. unfold CommitWrite, commitFile, abandon. repeat case_match; done. Qed.

(** What the restore of one object returns. *)
Definition restored (v : env) (fuel : nat) (hash : string) : attempt goerr :=
  default (Panics "") (snd <$> RestoreObject sum (dv_object v hash) fuel hash "" (MkFs ∅ ∅ ∅)).

Lemma RestoreObject_result v fuel hash d d' s s' :
  snd <$> RestoreObject sum v fuel hash d s = snd <$> RestoreObject sum v fuel hash d' s'.
Proof.
  unfold RestoreObject, restoreObjectTo. destruct (ValidateContentHash hash); [done|].
  destruct (intact sum v fuel hash) as [[[]|x]|]; cbn [mbind option_bind]; try done.
  destruct (match ro_open v with Some _ => _ | None => _ end); [done|].
  destruct (decodeStream sum _ _ _ _ _) as [f|]; cbn [mbind option_bind]; [|done]. cbn.
  by rewrite (CommitWrite_result (with_fill (ro_commit v) f) d d' s s').
Qed.

Definition returns (v : env) (fuel : nat) (hash : string) : Prop :=
  is_Some (RestoreObject sum (dv_object v hash) fuel hash "" (MkFs ∅ ∅ ∅)).

Lemma RestoreObject_returns v fuel hash d s : returns v fuel hash →
  ∃ states, RestoreObject sum (dv_object v hash) fuel hash d s = Some (states, restored v fuel hash).
Proof.
  intros [[st0 a] Hr]. unfold restored. rewrite Hr. cbn.
  pose proof (RestoreObject_result (dv_object v hash) fuel hash d "" s (MkFs ∅ ∅ ∅)) as He. rewrite Hr in He. cbn in He.
  destruct (RestoreObject sum (dv_object v hash) fuel hash d s) as [[sts b]|]; [|done]. cbn in He. injection He as ->. by exists sts.
Qed.

(** The workers' counters are those of the sweep. *)
Lemma work_counts v fuel scratchDir hashes out s : (∀ h, h ∈ hashes → returns v fuel h) →
  ∃ s', work v fuel scratchDir (out, s) hashes =
    Some (foldl (λ o h, Sweep.drillOne (dv_ctx v h) h (restored v fuel h) o) out hashes, s').
Proof.
  revert out s. induction hashes as [|h hashes IH]; intros out s Hret; [by exists s|]. cbn [work drillOne].
  destruct (RestoreObject_returns v fuel h (dest scratchDir h) s) as [sts Hr]; [apply Hret; by left|].
  rewrite Hr. cbn [mbind option_bind fst snd]. apply IH. intros x Hx. apply Hret. by right.
Qed.

(** *** The scratch directory *)

(** What a drill's restore meets in a directory of its own: no file at the
    destination, a destination that can be rewound, and an abandoned call only at a
    deadline. *)
Record own_dir (r : renv) : Prop := MkOwn {
  own_open : ro_open r = None;
  own_reset : d_reset (ro_decode r) = Some None;
  own_arm : ro_arm r = ArmDone → ro_arm_ctx r ≠ None;
}.

(** A restore that returns nil decoded a plaintext of the object's digest from what
    the target sent. *)
Lemma RestoreObject_decodes r fuel hash d s states : own_dir r →
  RestoreObject sum r fuel hash d s = Some (states, Returns None) →
  ∃ ops, decodeStreamInner sum (ro_decode r) fuel hash = Some (ops, Returns None) ∧ sum (written ops) = hash ∧
    (Z.of_nat (length (written ops)) ≤ maxObjectBytes)%Z.
Proof.
  intros [Ho Hreset Harm]. unfold RestoreObject, restoreObjectTo, intact. rewrite Ho.
  destruct (ValidateContentHash hash); [done|]. cbn [mbind option_bind]. unfold decodeStream.
  destruct (decodeStreamInner sum (ro_decode r) fuel hash) as [[ops a]|] eqn:Ed; cbn [mbind option_bind]; [|done].
  cbn [fst snd]. set (w := with_fill _ _). intros [= _ He].
  assert ((w_fill w).2 = None) as Hfill.
  { revert He. unfold CommitWrite, abandon. by destruct (w_mkdir w), (w_create w), (w_fill w).2. }
  unfold w, callWithCtx, RunAbandonable, RunAbandonableClose in Hfill. cbn in Hfill.
  destruct (ro_arm r); [|by destruct (ro_arm_ctx r); [|destruct Harm]]. destruct a as [[y|]|y]; [done| |done].
  exists ops. split; [done|]. apply decode_ok in Ed as (pre & dd & Hw & Hs & Hl & Hpre).
  rewrite Hw, Hpre by (by rewrite Hreset). done.
Qed.

(** After one worker the directory is as it was. *)
Lemma drillOne_cleans v fuel scratchDir out s h out' s' : own_dir (dv_object v h) →
  fresh (ro_commit (dv_object v h)) (dest scratchDir h) s → names s !! dest scratchDir h = None →
  w_syncdir (ro_commit (dv_object v h)) = None → dv_remove v h = None →
  drillOne v fuel scratchDir (out, s) h = Some (out', s') → unwritten s s'.
Proof.
  intros [Ho _ _] Hf Hn Hsd Hrm. unfold drillOne, RestoreObject, restoreObjectTo, intact. rewrite Ho, Hrm.
  destruct (ValidateContentHash h); [by intros [= _ <-]|]. cbn [mbind option_bind].
  destruct (decodeStream sum _ _ _ _ _) as [f|]; cbn [mbind option_bind]; [|done]. set (w := with_fill _ f).
  assert (fresh w (dest scratchDir h) s) as Hfw by exact Hf. cbn [fst snd].
  pose proof (CommitWrite_cases w (dest scratchDir h) s Hfw) as Hc. cbv zeta in Hc.
  pose proof (CommitWrite_failure w (dest scratchDir h) s Hfw Hsd) as Hfail. cbv zeta in Hfail.
  fold (last_state s (CommitWrite w (dest scratchDir h) s)). intros [= _ <-].
  destruct Hc as [[Hu He]|[_ (Hd & Hp & Hs)]].
  { by destruct (CommitWrite w (dest scratchDir h) s).2. }
  destruct (CommitWrite w (dest scratchDir h) s).2 as [e|].
  { destruct (Hfail ltac:(done)) as (Hnm & _). rewrite Hnm, Hn in Hs. by destruct Hs. }
  intros p. unfold remove, contents. cbn [names inodes]. destruct (decide (p = dest scratchDir h)) as [->|Hne].
  - by rewrite lookup_delete_eq, Hn.
  - rewrite lookup_delete_ne by done. by apply Hp.
Qed.

(** Every temp file is new when it is created (O_EXCL). *)
Fixpoint fresh_run (v : env) (fuel : nat) (scratchDir : string) (st : DrillOutcome * fs) (hashes : list string) : Prop :=
  match hashes with
  | [] => True
  | h :: hashes =>
      fresh (ro_commit (dv_object v h)) (dest scratchDir h) st.2 ∧
      ∀ st', drillOne v fuel scratchDir st h = Some st' → fresh_run v fuel scratchDir st' hashes
  end.

Lemma work_cleans v fuel scratchDir hashes : (∀ h, own_dir (dv_object v h)) →
  (∀ h, w_syncdir (ro_commit (dv_object v h)) = None) → (∀ h, dv_remove v h = None) →
  ∀ st st', (∀ h, h ∈ hashes → names st.2 !! dest scratchDir h = None) → fresh_run v fuel scratchDir st hashes →
    work v fuel scratchDir st hashes = Some st' → unwritten st.2 st'.2.
Proof.
  intros Hown Hsd Hrm. induction hashes as [|h hashes IH]; intros st st' Hn Hf; cbn [work].
  { by intros [= <-] p. }
  destruct Hf as [Hf0 Hf]. destruct (drillOne v fuel scratchDir st h) as [st1|] eqn:E1; cbn [mbind option_bind]; [|done].
  destruct st as [o s], st1 as [o1 s1]. cbn [snd] in *.
  pose proof (drillOne_cleans _ _ _ _ _ _ _ _ (Hown h) Hf0 (Hn h ltac:(by left)) (Hsd h) (Hrm h) E1) as Hu.
  intros Hw. eapply unwritten_trans; [exact Hu|]. apply (IH (o1, s1) st'); [|by apply Hf|exact Hw].
  intros x Hx. cbn [snd]. destruct (Hu (dest scratchDir x)) as [-> _]. apply Hn. by right.
Qed.

(** *** The drill is the sweep *)

Lemma no_escaped_panic {T} (l : list T) : escapedPanic (λ _, Returns tt) l = None.
Proof. unfold escapedPanic. by induction l. Qed.

(** The objects a drill of this ledger samples. *)
Definition sampled (v : env) (d : Ledger.db) (targetName : string) (sample : Z) : list string :=
  sample_spec sample (sampledStart sample (randKeysetStart (dv_rand v))) (Ledger.stored_ids d targetName).

(** The ledger does not change under the sweep, and nothing interrupts it. *)
Record steady (v : env) (d : Ledger.db) (targetName : string) : Prop := MkSteady {
  st_pages k a n : dv_pages v k a n = Ok (Ledger.StoredExternalIDsPage d targetName a n);
  st_live k : dv_ctxs v k = None;
}.

(** The sweep of a steady ledger hands over the sampled objects. *)
Lemma stream_steady v d targetName sample kfuel :
  steady v d targetName → 2 * length (Ledger.stored_ids d targetName) + 4 < kfuel →
  let en := enumerate (newPacer 0) (dv_yield v) 0 (sampled v d targetName sample) None in
  ∃ k, streamSampledStored kfuel (dv_rand v) (dv_pages v) (dv_ctxs v) targetName sample (dispatch v) (0, [], 0%Z) =
    Some ((k, en.1.1, Z.of_nat en.1.2), en.2).
Proof.
  intros [Hp Hl] Hk en. unfold streamSampledStored, keysetSample. set (start := sampledStart _ _).
  set (pageFn := λ (k : nat) (after : string) (limit : nat), _).
  assert (∀ k a n, pageFn k a n = Ok (table_page (λ x, x) (Ledger.stored_ids d targetName) a n)) as Hpg
    by (intros k a n; unfold pageFn; by rewrite Hp).
  destruct (sample_loop_spec sample start _ pageFn (for_each (dispatch v)) (dv_ctxs v)
    Hpg (Ledger.stored_ids_ascending d targetName) Hl kfuel (0, [], 0%Z) false start 0%Z 0)
    as (pages & Hc & Hr).
  { pose proof (fuel_for_le sample start (Ledger.stored_ids d targetName)). lia. }
  rewrite Hr, for_each_concat, Hc.
  assert (rest_spec sample start (Ledger.stored_ids d targetName) false start 0 = sampled v d targetName sample) as ->.
  { unfold rest_spec, sampled, sample_spec, budget_take, next_seg, wraps. fold start. simpl. by rewrite andb_true_r, Z.sub_0_r. }
  destruct (dispatch_enumerate v (sampled v d targetName sample) 0 [] 0%Z) as [k ->]. by exists k.
Qed.

(** A worker only gets objects of the sample. *)
Lemma handed_sampled v ids h : (∀ l, dv_order v l ≡ₚ l) →
  h ∈ dv_order v (dispatched 0 (dv_yield v) ids None) → h ∈ ids.
Proof. intros Hord. rewrite Hord. apply dispatched_elem. Qed.

(** On a steady ledger [Drill] is the sweep of Sweep.v over the sampled objects,
    with each object's real restore. *)
Lemma Drill_sweeps v d kfuel fuel targetName scratchDir sample s :
  steady v d targetName → 2 * length (Ledger.stored_ids d targetName) + 4 < kfuel →
  let ids := sampled v d targetName sample in
  (∀ l, dv_order v l ≡ₚ l) → (∀ h, h ∈ ids → returns v fuel h) →
  let completed := dv_order v (dispatched 0 (dv_yield v) ids None) in
  ∃ s', work v fuel scratchDir (zeroDrill, s) completed =
      Some ((Sweep.Drill (dv_yield v) ids None (restored v fuel) (dv_ctx v) completed (dv_final v)).1, s') ∧
    Drill v kfuel fuel targetName scratchDir sample s =
      Some (Sweep.Drill (dv_yield v) ids None (restored v fuel) (dv_ctx v) completed (dv_final v), s').
Proof.
  intros Hst Hk ids Hord Hret completed. destruct (stream_steady v d targetName sample kfuel Hst Hk) as [k Hstr].
  unfold Drill. rewrite Hstr. cbn [mbind option_bind]. fold ids.
  change (enumerate (newPacer 0) (dv_yield v) 0 ids None).1.1 with (dispatched 0 (dv_yield v) ids None).
  fold completed. destruct (work_counts v fuel scratchDir completed zeroDrill s) as [s' Hw].
  { intros h Hh. by eapply Hret, handed_sampled. }
 
  exists s'. rewrite Hw. split; [done|]. cbn [mbind option_bind fst snd]. unfold Sweep.Drill, runBoundedPaced.
  rewrite no_escaped_panic. by destruct (enumerate (newPacer 0) (dv_yield v) 0 ids None).2.
Qed.

(** A full drill samples everything that is recorded. *)
Lemma sampled_full v d targetName sample id : (sample ≤ 0)%Z → id ≠ "" →
  Ledger.is_stored d id targetName = true → id ∈ sampled v d targetName sample.
Proof.
  intros Hs Hid Hst. unfold sampled, sample_spec, budget_take, sampledStart.
  rewrite (proj2 (Z.ltb_ge 0 sample) Hs). cbn. rewrite app_nil_r. unfold above.
  apply list_elem_of_In, List.filter_In. split; [by apply list_elem_of_In, Ledger.elem_of_stored_ids|by apply str_ltb_empty].
Qed.

(** C7: a green drill has restored everything it sampled. A drill of a target
    returns; when it returns nil, it passes exactly when it sampled something and
    every sampled object was restored, and its failure list names exactly the
    objects that were not. For each object of a drill that passed, the bytes the
    target sent decoded to a plaintext whose digest is the object's name. A full
    drill ([sample <= 0]) samples every object the ledger records on the target,
    and the scratch directory is left as it was found, unless an fsync of the
    directory or a removal fails. *)
Theorem green_drill_restored_its_sample v d kfuel fuel targetName scratchDir sample s :
  let ids := sampled v d targetName sample in
  steady v d targetName → 2 * length (Ledger.stored_ids d targetName) + 4 < kfuel →
  sound (dv_yield v) → (∀ l, dv_order v l ≡ₚ l) → (∀ h, dv_ctx v h ≠ None → dv_final v ≠ None) →
  (∀ h, h ∈ ids → returns v fuel h) → (∀ h, own_dir (dv_object v h)) →
  ∃ out e s', Drill v kfuel fuel targetName scratchDir sample s = Some (out, e, s') ∧
    (e = None →
       (Pass out = true ↔ ids ≠ [] ∧ ∀ id, id ∈ ids → restored v fuel id = Returns None) ∧
       (∀ id, id ∈ (do_Failures out).*1 ↔ id ∈ ids ∧ restored v fuel id ≠ Returns None) ∧
       (Pass out = true → ∀ id, id ∈ ids → ∃ ops,
          decodeStreamInner sum (ro_decode (dv_object v id)) fuel id = Some (ops, Returns None) ∧ sum (written ops) = id)) ∧
    ((sample ≤ 0)%Z → ∀ id, id ≠ "" → Ledger.is_stored d id targetName = true → id ∈ ids) ∧
    ((∀ h, w_syncdir (ro_commit (dv_object v h)) = None) → (∀ h, dv_remove v h = None) →
     (∀ h, h ∈ ids → names s !! dest scratchDir h = None) →
     fresh_run v fuel scratchDir (zeroDrill, s) (dv_order v (dispatched 0 (dv_yield v) ids None)) → unwritten s s').
Proof.
  intros ids Hst Hk Hs Hord Hctx Hret Hown.
  destruct (Drill_sweeps v d kfuel fuel targetName scratchDir sample s Hst Hk Hord Hret) as (s' & Hw & Hd).
  fold ids in Hw, Hd. destruct (Sweep.Drill _ _ _ _ _ _ _) as [out e] eqn:Esw. exists out, e, s'. split; [done|].
  split; [|split; [by intros; apply sampled_full|]].
  2:{ intros Hsd Hrm Hn Hf. refine (work_cleans v fuel scratchDir _ Hown Hsd Hrm (zeroDrill, s) (out, s') _ Hf Hw).
    intros h Hh. by eapply Hn, handed_sampled. }
  intros ->. destruct (drill_pass_exact _ _ _ _ _ _ _ _ Hs (Hord _) Hctx Esw) as [Hpass Hfail].
  split; [done|]. split; [done|]. intros Hp id Hin. apply Hpass in Hp as [_ Hall]. specialize (Hall id Hin).
  destruct (RestoreObject_returns v fuel id "" (MkFs ∅ ∅ ∅) (Hret id Hin)) as [sts Hr]. rewrite Hall in Hr.
  destruct (RestoreObject_decodes _ _ _ _ _ _ (Hown id) Hr) as (ops & ? & ? & _). by exists ops.
Qed.
End drill.

(** A full drill of a target that holds one recorded object, into an empty
    directory. *)
#[local] Existing Instance Restore.ex_decoder.

Definition ex_db : Ledger.db :=
  Ledger.apply_records [(1%Z, Ports.MkMeta ex_hash 2 true None None, [Ports.MkStatus "t1" Ports.StateStored 6])] Ledger.empty_db.
Definition ex_env : env := MkEnv None
  (λ _ a n, Ok (Ledger.StoredExternalIDsPage ex_db "t1" a n)) (λ _, None) Sweep.ex_live id
  (λ _, MkR None (λ _, None) None (ex_denv (Sent EOF) (λ _, None)) ArmResult None (ex_wenv None)) (λ _, None) (λ _, None) None.

Lemma green_drill_restored_its_sample_witness :
  ∃ s', Drill ex_sum ex_env 10 20 "t1" "d" 0 (MkFs ∅ ∅ ∅) = Some (MkDO 1 0 [], None, s') ∧
    (∃ ops, decodeStreamInner ex_sum (ex_denv (Sent EOF) (λ _, None)) 20 ex_hash = Some (ops, Returns None) ∧
       ex_sum (written ops) = ex_hash) ∧
    unwritten (MkFs ∅ ∅ ∅) s'.
Proof.
  assert (sampled ex_env ex_db "t1" 0 = [ex_hash]) as Hids by (vm_compute; reflexivity).
  assert (fst <$> Drill ex_sum ex_env 10 20 "t1" "d" 0 (MkFs ∅ ∅ ∅) = Some (MkDO 1 0 [], None)) as Hd by (vm_compute; reflexivity).
  destruct (green_drill_restored_its_sample ex_sum ex_env ex_db 10 20 "t1" "d" 0 (MkFs ∅ ∅ ∅))
    as (out & e & s' & Hr & Hok & _ & Hclean).
  - split; done.
  - vm_compute. lia.
  - apply Sweep.ex_sound.
  - done.
  - done.
  - intros h Hh. rewrite Hids in Hh. apply list_elem_of_singleton in Hh as ->. eexists. vm_compute. reflexivity.
  - by split.
  - rewrite Hr in Hd. cbn in Hd. injection Hd as -> ->. exists s'. split; [done|]. rewrite Hids in Hok. split.
    + destruct (Hok eq_refl) as (_ & _ & Hp). by apply (Hp eq_refl), list_elem_of_here.
    + apply Hclean; [done..|]. rewrite Hids.
      change (dv_order ex_env (dispatched 0 (dv_yield ex_env) [ex_hash] None)) with [ex_hash]. cbn [fresh_run].
      split; [|done]. by split_and!.
Defined.

End RestoreDrill.
