(* ===== verification/Target.v ===== *)
(** * The target both sinks implement

    What a backup target promises the rest of the service, without keys, paths or
    uploads: it keeps objects by content hash, manifests by name and the pointer to
    the newest one. A write that reports success has happened; one that reports a
    failure has happened or not, but only whole. FsTarget.v and Bucket.v prove that
    the filesystem sink and the S3 sink implement it. *)

From S2P Require Import Prelude GoText GoRuntime Stream Fanout Manifest Layout.
From Stdlib Require Import ZArith Lia.
From Stdlib Require Import Strings.Ascii Strings.String.
From stdpp Require Import base gmap strings list numbers.

Module Target.
Import GoText(Join, join, plain, append_assoc, render, is_rooted, kept) Stream Fanout Layout.

(** ** Writes *)

(** A stream of [d] that ends, or breaks off with an error. *)
Definition stream (d : bytes) (broken : goerr) : reader :=
  RData d None :: match broken with None => [] | Some e => [RSticky e] end.

Inductive op :=
  | OStore (hash : string) (d : bytes) (broken : goerr)
  | OManifest (t : Manifest.civil) (d : bytes) (broken : goerr)
  | OProbe (nanos : Z) (rand : bytes).

Definition wf_op (o : op) : Prop :=
  match o with
  | OStore hash _ broken => ValidateContentHash hash = None ∧ errors_Is broken EOF = false
  | OManifest t _ broken => Manifest.valid_time t ∧ errors_Is broken EOF = false
  | OProbe _ _ => True
  end.

(** ** The abstract target *)

Record target := MkTgt { objects : gmap string bytes; manifests : gmap string bytes; latest : option bytes }.

Definition empty_target : target := MkTgt ∅ ∅ None.

Inductive astep (a : target) : op → bool → target → Prop :=
  | as_none o : astep a o false a
  | as_store hash d ok : astep a (OStore hash d None) ok (MkTgt (<[hash := d]> (objects a)) (manifests a) (latest a))
  | as_manifest t d ok l : l = latest a ∨ l = Some (bytes_of_string (Manifest.FormatManifestName t)) →
      astep a (OManifest t d None) ok (MkTgt (objects a) (<[Manifest.FormatManifestName t := d]> (manifests a)) l)
  | as_probe nanos rand : astep a (OProbe nanos rand) true a.

Inductive arun : target → list op → list bool → target → Prop :=
  | ar_nil a : arun a [] [] a
  | ar_cons a o ok a1 ops oks a2 : astep a o ok a1 → arun a1 ops oks a2 → arun a (o :: ops) (ok :: oks) a2.

(** What the abstract target holds for an item (a probe is not kept track of). *)
Definition held (a : target) (i : item) : option bytes :=
  match i with
  | IObject hash => objects a !! hash
  | IManifest name => manifests a !! name
  | ILatest => latest a
  | IProbe _ _ => None
  end.

Definition tracked (i : item) : bool := match i with IProbe _ _ => false | _ => true end.

(** ** Where an item lies *)

(** An item below a root or prefix. *)
Definition placed (p : string) (i : item) : string := Join [p; itemKey i].

Lemma placed_inj p i j : well_named i → well_named j → tracked j = true → placed p i = placed p j → i = j.
Proof.
  intros Hi Hj Ht Hk. unfold placed in Hk. apply itemKey_parts in Hk; [|done..].
  destruct j as [hash|name| |nanos rand]; [by apply parts_object|by apply parts_manifest| |done].
  destruct i as [h|n| |nanos rand]; cbn [parts] in Hk; simplify_eq; [|done]. by apply well_named_latest in Hi.
Qed.

Lemma FormatManifestName_well_named t : Manifest.valid_time t → well_named (IManifest (Manifest.FormatManifestName t)).
Proof.
  intros Ht. cbn. pose proof (Manifest.time_Parse_Format t Ht) as Hp. unfold Manifest.IsTimestampedManifest.
  destruct (Manifest.CutSuffix _ _) as [ts|]; [|done]. cbn in Hp. injection Hp as ->. done.
Qed.

(** The name of an item below the manifest directory. *)
Definition manifest_name (i : item) : option string :=
  match i with IManifest n => Some n | ILatest => Some manifestLatestName | _ => None end.

Lemma manifest_name_plain i n : well_named i → manifest_name i = Some n → plain n = true.
Proof. destruct i; cbn; intros Hi [= <-]; [by apply timestamped_plain|done]. Qed.

(** Everything under a prefix begins with the same directory. *)
Lemma Join_dir p : ∃ D, ∀ cs, cs ≠ [] → Forall (λ c, plain c = true) cs → Join [p; join "/" cs] = D +:+ join "/" cs.
Proof.
  set (l := rev (kept p)). exists ((if is_rooted p then "/" else "") +:+ match l with [] => "" | _ => join "/" l +:+ "/" end).
  intros cs Hne Hcs. rewrite GoText.Join_under by done. fold l. unfold render.
  assert (l ≠ [] → join "/" (l ++ cs) = (join "/" l +:+ "/") +:+ join "/" cs) as Hj.
  { intros Hl. rewrite GoText.join_app by done. by rewrite append_assoc. }
  destruct (is_rooted p), l as [|x l']; cbn [app].
  - done.
  - rewrite <- app_comm_cons in Hj. rewrite Hj by done. reflexivity.
  - by destruct cs.
  - rewrite <- app_comm_cons in Hj. by rewrite Hj.
Qed.

Lemma prefix_app D x y : String.prefix (D +:+ x) (D +:+ y) = String.prefix x y.
Proof.
  induction D as [|c D IH]; [done|]. rewrite !GoText.append_cons. cbn [String.prefix].
  destruct (Ascii.ascii_dec c c); [apply IH|done].
Qed.

Lemma str_ltb_prefix D x y : str_ltb (D +:+ x) (D +:+ y) = str_ltb x y.
Proof. rewrite Manifest.str_ltb_app by done. rewrite Manifest.str_ltb_irrefl, bool_decide_eq_true_2 by done. done. Qed.

Lemma prefix_hex c x : is_lower_hex c = true → String.prefix "_manifest/" (String c x) = false.
Proof. intros Hc. by destruct c as [[] [] [] [] [] [] [] []]. Qed.

(** The keys of a target, and which of them the manifest prefix selects. *)
Lemma placed_manifests p : ∃ M, Join [p; ManifestDir] +:+ "/" = M ∧
  (∀ n, plain n = true → Join [p; ManifestKey n] = M +:+ n) ∧
  Join [p; ManifestLatestKey] = M +:+ manifestLatestName ∧
  (∀ i, well_named i → String.prefix M (placed p i) = bool_decide (is_Some (manifest_name i))).
Proof.
  destruct (Join_dir p) as (D & HD). exists (D +:+ "_manifest/").
  assert (∀ n, plain n = true → Join [p; ManifestKey n] = (D +:+ "_manifest/") +:+ n) as Hm.
  { intros n Hn. rewrite ManifestKey_plain by done. rewrite HD by (first [done|by repeat constructor]). by rewrite append_assoc. }
  split_and!.
  - change ManifestDir with (join "/" [manifestPrefix]). rewrite HD by (first [done|by repeat constructor]). by rewrite append_assoc.
  - done.
  - apply (Hm manifestLatestName eq_refl).
  - intros i Hi. unfold placed. rewrite itemKey_join, HD by (first [done|apply parts_ne|by apply parts_plain]).
    rewrite prefix_app. destruct i as [hash|name| |nanos rand]; cbn [parts].
    + pose proof (shards_plain hash Hi) as Hp. apply ValidateContentHash_None in Hi as [Hl Hh].
      destruct hash as [|c [|c2 hash]]; [done|cbn in Hl; lia|]. cbn in Hh. apply andb_true_iff in Hh as [Hc _].
      unfold shards. cbn [String.substring join]. rewrite GoText.append_cons. by apply prefix_hex.
    + change (join "/" [manifestPrefix; name]) with ("_manifest/" +:+ name). change "_manifest/" with ("_manifest/" +:+ "") at 1.
      rewrite prefix_app. by destruct name.
    + reflexivity.
    + reflexivity.
Qed.

Lemma Base_app d n : plain n = true → GoText.Base (d +:+ "/" +:+ n) = n.
Proof.
  intros Hn. pose proof Hn as (Hne & _ & _ & Hs)%GoText.plain_spec.
  assert (∀ x, GoText.TrimRight "/" (x +:+ n) = x +:+ n) as Ht.
  { assert (GoText.TrimRight "/" n = n) as Htn.
    { clear Hn. revert Hne Hs. induction n as [|c n IH]; [done|]. intros _. cbn [GoText.all_chars GoText.TrimRight].
      intros [Hc Hs]%andb_true_iff. apply GoText.isnt_true in Hc. destruct n as [|c' n]; [by rewrite bool_decide_eq_false_2|].
      by rewrite IH. }
    intros x. induction x as [|c x IH]; [done|]. rewrite GoText.append_cons. cbn [GoText.TrimRight]. rewrite IH.
    destruct (x +:+ n) eqn:E; [|done]. destruct x; [by rewrite <- E in Hne|done]. }
  unfold GoText.Base. rewrite <- append_assoc, Ht, append_assoc. change ("/" +:+ n) with (String "/" n).
  rewrite GoText.Split_append, (GoText.Split_none _ n) by done.
  rewrite last_last. destruct (d +:+ String "/" n) eqn:E; [by destruct d|]. by destruct n.
Qed.


(** ** Uploads of a stream *)

(** What an upload of a stream leaves, and what its success means. *)
Lemma upload_cases p d broken : obeys [] p → errors_Is broken EOF = false →
  let out := run_sink p (stream d broken) false in
  (so_blob out = None ∨ (broken = None ∧ so_blob out = Some d)) ∧
  (∀ r, so_result out = Returns r → r_err r = None → broken = None ∧ so_blob out = Some d).
Proof.
  intros Ho Hb out. subst out. destruct broken as [e|]; unfold stream.
  - destruct (obeys_failing p [] d e false Ho Hb) as [-> _]. destruct (obeys_failing_err p [] d e false Ho Hb) as [Herr _].
    split; [by left|]. intros r Hr Hn. by apply Herr in Hr.
  - destruct (obeys_ending p [] d false Ho) as (H1 & H2 & _). split.
    + destruct (so_blob _) as [b|] eqn:Eb; [|by left]. right. split; [done|]. by rewrite (H1 b eq_refl).
    + intros r Hr Hn. split; [done|]. by destruct (H2 r Hr Hn).
Qed.

Definition returned_ok (r : attempt goerr) : bool := match r with Returns None => true | _ => false end.

(** ** Reads *)

(** The read side of a sink at one moment: [Exists], [Fetch] and
    [LatestManifest]. *)
Record reads := MkReads {
  rd_exists : string → bool * goerr;
  rd_fetch : string → body + err;
  rd_latest : body + err;
}.

(** The reads answer from the abstract target. *)
Definition answers (rd : reads) (a : target) : Prop :=
  (∀ hash, ValidateContentHash hash = None →
     rd_exists rd hash = (bool_decide (is_Some (objects a !! hash)), None) ∧
     (∀ d, objects a !! hash = Some d → rd_fetch rd hash = inl (d, None))) ∧
  ((∃ n d, manifests a !! n = Some d ∧ (∀ m, is_Some (manifests a !! m) → str_ltb n m = false) ∧
      rd_latest rd = inl (d, None)) ∨
   (manifests a = ∅ ∧ ∃ e, rd_latest rd = inr e ∧ Is e ErrNotExist = true)).

(** Listings and opens that answer from the target make [OpenLatestManifest]
    open its newest manifest. *)
Lemma latest_answers a ns gone pointer (listFrom : string → list string + err) (open : string → body + err) :
  (∀ n, is_Some (manifests a !! n) → Manifest.IsTimestampedManifest n = true) →
  (∀ n, Manifest.IsTimestampedManifest n = true → n ∈ ns ↔ is_Some (manifests a !! n)) →
  Is gone ErrNotExist = true →
  (∀ after, after = "" ∨ Manifest.IsTimestampedManifest after = true →
     listFrom after = inl (List.filter (λ n, str_ltb after n) ns)) →
  (∀ n, Manifest.IsTimestampedManifest n = true →
     open n = match manifests a !! n with Some d => inl (d, None) | None => inr gone end) →
  let r := Manifest.OpenLatestManifest pointer listFrom open in
  (∃ n d, manifests a !! n = Some d ∧ (∀ m, is_Some (manifests a !! m) → str_ltb n m = false) ∧ r = inl (d, None)) ∨
  (manifests a = ∅ ∧ ∃ e, r = inr e ∧ Is e ErrNotExist = true).
Proof.
  intros Hnames Hns Hgone Hlist Hopen. cbv zeta. set (content := λ n, (default [] (manifests a !! n), @None err)).
  rewrite (Manifest.OpenLatestManifest_ext _ _ _ (Manifest.open_ ns content gone)).
  2:{ intros n Hn. rewrite (Hopen n Hn). unfold Manifest.open_. rewrite (bool_decide_ext _ _ (Hns n Hn)). unfold content.
      destruct (manifests a !! n); [by rewrite bool_decide_eq_true_2|]. rewrite bool_decide_eq_false_2; [done|by intros [? ?]]. }
  destruct (Manifest.OpenLatestManifest_newest ns content gone pointer listFrom) as [(n & (Hin & Hts & Hmax) & ->)|[Hnone He]].
  - done.
  - intros after Hafter. eexists. split; [by apply Hlist|done].
  - left. apply (Hns n Hts) in Hin as [d Hd]. exists n, d. split_and!; [done| |by unfold content; rewrite Hd].
    intros m Hm. pose proof (Hnames m Hm) as Hmt. apply Hmax; [|done]. by apply Hns.
  - right. split; [|done]. apply map_empty. intros n. apply eq_None_not_Some. intros Hn.
    pose proof (Hnames n Hn) as Hts. rewrite (Hnone n) in Hts; [done|]. by apply Hns.
Qed.

End Target.
