(* ===== verification/FsSink.v ===== *)
(** * The filesystem sink

    [src/internal/adapter/outbound/sink/filesystem/filesystem.go]: [Store]
    through [writeAtomic] (an [io.Copy] into the durable-write spine of
    Files.v), the path gate, [Exists], and the manifest half ([LatestManifest]
    with its callbacks). [Store] is given as the reading program the fan-out
    runs, so the sink contract the fan-out's theorems assume ([Fanout.obeys])
    is discharged here by the implementation.

    An operating-system answer is a value or an error; [os.IsNotExist] is
    [Is _ ErrNotExist]. *)

From S2P Require Import Prelude GoText GoRuntime Keyset Ledger Stream Fanout Files Restore Inventory Manifest Layout.
From Stdlib Require Import ZArith Lia.
From stdpp Require Import base gmap strings list numbers.

Module FsSink.
Import Stream Files Fanout.

(** ** Store *)

(** [pathFor]: the path of a content hash under the root. *)
Definition osPath (root key : string) : string := GoText.Join [root; key].

Definition pathFor (root hash : string) : string + err :=
  match ValidateContentHash hash with
  | Some e => inr (Wrap "filesystem" [e])
  | None => inl (osPath root (ShardKey hash))
  end.

(** The end of [writeAtomic]: the copy wrote [ops] and ended with [e]; what the
    commit returns, and the blob it left at [dest]. *)
Definition commit (v : wenv) (dest : string) (s : fs) (ops : list fillop) (e : goerr) : sinkprog :=
  let r := CommitWrite (Restore.with_fill v (ops, e)) dest s in
  SRet (Z.of_nat (length (written ops))) r.2
    (if bool_decide (names (last_state s r) !! dest = Some (w_inode v)) then Some (written ops) else None).

(** [io.Copy(f, r)] into the temp: 32 KiB reads until an error, EOF (exactly)
    being the clean end. The fuel bounds the number of reads. *)
Fixpoint copyInto (fuel : nat) (ops : list fillop) (finish : list fillop → goerr → sinkprog) : sinkprog :=
  match fuel with
  | O => finish ops (Some (Msg "read budget exhausted"))
  | S fuel =>
      SRead Restore.copyBuf (λ bs e,
        let ops := if (0 <? length bs)%nat then ops ++ [FWrite bs] else ops in
        match e with
        | None => copyInto fuel ops finish
        | Some x => finish ops (if is_EOF (Some x) then None else Some x)
        end)
  end.

Definition writeAtomic (fuel : nat) (v : wenv) (dest : string) (s : fs) : sinkprog :=
  match w_mkdir v, w_create v with
  | None, None => copyInto fuel [] (commit v dest s)
  | _, _ => commit v dest s [] None
  end.

Definition Store (fuel : nat) (root : string) (v : wenv) (s : fs) (hash : string) : sinkprog :=
  match pathFor root hash with
  | inr e => SRet 0 (Some e) None
  | inl dest => writeAtomic fuel v dest s
  end.

(** ** The same write, on the file system

    [writeAtomic] and [Store] again, this time as what they do to the file
    system when their stream is [r]: what they return, and the state they
    leave. *)
Fixpoint copy_run (fuel : nat) (r : reader) (ops : list fillop) : attempt (list fillop * goerr) :=
  match fuel with
  | O => Returns (ops, Some (Msg "read budget exhausted"))
  | S fuel =>
      match read Restore.copyBuf r with
      | (_, Panics x) => Panics x
      | (r', Returns (bs, e)) =>
          let ops := if (0 <? length bs)%nat then ops ++ [FWrite bs] else ops in
          match e with
          | None => copy_run fuel r' ops
          | Some x => Returns (ops, if is_EOF (Some x) then None else Some x)
          end
      end
  end.

(** A panic of the copy runs the deferred cleanup and goes on. *)
Definition writeAtomic_run (fuel : nat) (v : wenv) (dest : string) (s : fs) (r : reader) : attempt goerr * fs :=
  let commit f := let w := CommitWrite (Restore.with_fill v f) dest s in (w.2, last_state s w) in
  match w_mkdir v, w_create v with
  | None, None =>
      match copy_run fuel r [] with
      | Panics x => (Panics x, (commit ([], Some (Msg x))).2)
      | Returns f => (Returns (commit f).1, (commit f).2)
      end
  | _, _ => (Returns (commit ([], None)).1, (commit ([], None)).2)
  end.

Definition Store_run (fuel : nat) (root : string) (v : wenv) (s : fs) (hash : string) (r : reader) : attempt goerr * fs :=
  match pathFor root hash with
  | inr e => (Returns (Some e), s)
  | inl dest => writeAtomic_run fuel v dest s r
  end.

(** ** Fetch, manifests, preflight *)

(** What [os.Open] answers, and the file behind it. *)
Definition os_Open (s : fs) (fault : goerr) (p : string) : Layout.body + err :=
  match fault, contents s p with
  | Some e, _ => inr e
  | None, Some d => inl (d, None)
  | None, None => inr (Sent ErrNotExist)
  end.

Definition Fetch (root : string) (s : fs) (fault : goerr) (hash : string) : Layout.body + err :=
  match pathFor root hash with
  | inr e => inr e
  | inl p => match os_Open s fault p with inr e => inr (Wrap "open" [e]) | inl b => inl b end
  end.

Definition readManifestPointer (root : string) (s : fs) (fault : goerr) : option string :=
  Layout.readPointer (os_Open s fault (osPath root Layout.ManifestLatestKey)).

(** [PutManifest] with the stream [r] of the snapshot: [v] and [vp] are the
    system calls of the two writes. *)
Definition PutManifest (fuel : nat) (root : string) (v vp : wenv) (s : fs) (name : string) (r : reader) : attempt goerr * fs :=
  match writeAtomic_run fuel v (osPath root (Layout.ManifestKey name)) s r with
  | (Panics x, s1) => (Panics x, s1)
  | (Returns (Some e), s1) => (Returns (Some e), s1)
  | (Returns None, s1) =>
      match writeAtomic_run fuel vp (osPath root Layout.ManifestLatestKey) s1 [RData (Layout.bytes_of_string name) None] with
      | (Panics x, s2) => (Panics x, s2)
      | (Returns perr, s2) => (Returns (Manifest.WriteManifestWithPointer None perr).1, s2)
      end
  end.

(** [fsutil.ProbeWritable]: a temp created and removed again; [rm] is whether
    the removal, whose error is ignored, worked. *)
Definition ProbeWritable (cr : goerr) (rm : bool) (tmp : string) (i : N) (s : fs) : fs * goerr :=
  match cr with
  | Some e => (s, Some (Wrap "create temp" [e]))
  | None => let s1 := create tmp i s in (if rm then remove tmp s1 else s1, None)
  end.

(** [Preflight]. *)
Definition Preflight (ctx : ctxState) (mkdir cr : goerr) (rm : bool) (tmp : string) (i : N) (s : fs) : fs * goerr :=
  match ctxErr ctx, mkdir with
  | Some e, _ => (s, Some e)
  | None, Some e => (s, Some (Wrap "filesystem preflight: mkdir" [e]))
  | None, None =>
      match ProbeWritable cr rm tmp i s with
      | (s', Some e) => (s', Some (Wrap "filesystem preflight: not writable" [e]))
      | (s', None) => (s', None)
      end
  end.

(** ** Existence and the root *)

(** What [os.Stat] answers: whether the entry is a directory, or an error. *)
Abbreviation stat := (bool + err)%type.

Definition confirmRoot (root : stat) : goerr :=
  match root with
  | inl true => None
  | inl false => Some (Msg "filesystem root is not a directory (misconfigured mount?)")
  | inr e => if Is e ErrNotExist then Some (Msg "filesystem root is gone (detached mount?)")
             else Some (Wrap "stat filesystem root" [e])
  end.

Definition Exists_ (root : string) (obj rootStat : stat) (hash : string) : bool * goerr :=
  match pathFor root hash with
  | inr e => (false, Some e)
  | inl _ =>
      match obj with
      | inl _ => (true, None)
      | inr e =>
          if Is e ErrNotExist then
            match confirmRoot rootStat with Some r => (false, Some r) | None => (false, None) end
          else (false, Some (Wrap "stat" [e]))
      end
  end.

(** ** The newest manifest *)

(** [os.ReadDir]: entries with whether each is a directory. *)
Definition listManifestNamesAfter (dir : list (string * bool) + err) (rootStat : stat) (after : string)
    : list string + err :=
  match dir with
  | inr e =>
      if Is e ErrNotExist then match confirmRoot rootStat with Some r => inr r | None => inl [] end
      else inr (Wrap "read manifest dir" [e])
  | inl entries =>
      inl (omap (λ '(base, isdir), if negb isdir && str_ltb after base then Some base else None) entries)
  end.

Definition openManifestFile {A} (file : A + err) (rootStat : stat) : A + err :=
  match file with
  | inl f => inl f
  | inr e =>
      if Is e ErrNotExist then
        match confirmRoot rootStat with Some r => inr r | None => inr (Wrap "manifest vanished" [Sent ErrNotExist]) end
      else inr (Wrap "open manifest" [e])
  end.

(** [LatestManifest]: the root, the pointer, and per call what the directory,
    the file and a re-check of the root answer. *)
Definition LatestManifest {A} (root0 : stat) (pointer : option string)
    (dir : string → list (string * bool) + err) (dirRoot : string → stat)
    (file : string → A + err) (fileRoot : string → stat) : A + err :=
  match confirmRoot root0 with
  | Some e => inr e
  | None =>
      Manifest.OpenLatestManifest pointer (λ after, listManifestNamesAfter (dir after) (dirRoot after) after)
        (λ n, openManifestFile (file n) (fileRoot n))
  end.

(** ** Lemmas *)

Lemma commit_error v dest s ops e : fresh v dest s → e ≠ None →
  ∃ n x, commit v dest s ops e = SRet n (Some x) None.
Proof.
  intros Hf He. unfold commit. set (v' := Restore.with_fill v (ops, e)).
  assert (fresh v' dest s) as Hf' by exact Hf.
  assert (names s !! dest ≠ Some (w_inode v)) as Hne by (destruct Hf as (_ & _ & _ & _ & Hn & _); apply Hn).
  assert ((CommitWrite v' dest s).2 ≠ None ∧ names (last_state s (CommitWrite v' dest s)) !! dest = names s !! dest) as [Her Hnm].
  { unfold CommitWrite. destruct (w_mkdir v'); [done|]. destruct (w_create v'); [done|].
    change (w_fill v').2 with e. destruct e as [x|]; [|done]. split; [done|]. unfold abandon. rewrite last_state_app.
    pose proof (untouched_create v' dest s Hf') as Hu. destruct Hf' as (_ & _ & Hne' & _).
    apply (untouched_fills _ _ _ _ _ (w_fill v').1) in Hu. apply untouched_remove in Hu; [|done]. by destruct Hu as (-> & _). }
  rewrite Hnm, bool_decide_eq_false_2 by done. destruct (CommitWrite v' dest s).2 as [x|]; [eauto|done].
Qed.

(** A copy that reached EOF: the commit succeeds with the blob, or fails with
    the old contents or the whole new blob at the destination. *)
Lemma commit_commits v dest s ops acc : fresh v dest s → written ops = acc → commits acc (commit v dest s ops None).
Proof.
  intros Hf <-. unfold commit. set (v' := Restore.with_fill v (ops, None)).
  assert (fresh v' dest s) as Hf' by exact Hf. destruct (CommitWrite v' dest s).2 as [x|] eqn:Er.
  - apply co_fail. case_bool_decide; [by right|by left].
  - destruct (CommitWrite_success v' dest s Hf' Er) as (Hfill & Hctx & ->).
    destruct (renamed_spec v' dest s Hf' Hfill Hctx) as (_ & _ & Hd & _).
    rewrite bool_decide_eq_true_2; [apply co_ok|exact Hd].
Qed.

Lemma copyInto_obeys fuel v dest s ops : fresh v dest s → obeys (written ops) (copyInto fuel ops (commit v dest s)).
Proof.
  intros Hf. revert ops. induction fuel as [|fuel IH]; intros ops; cbn [copyInto].
  { destruct (commit_error v dest s ops (Some (Msg "read budget exhausted")) Hf) as (n & x & ->); [done|]. apply ob_fail. }
  assert (∀ bs, written (if (0 <? length bs)%nat then ops ++ [FWrite bs] else ops) = written ops ++ bs) as Hw.
  { intros [|b bs]; cbn; [by rewrite app_nil_r|]. by rewrite Restore.written_app. }
  apply ob_read; intros bs e He.
  - destruct e as [x|]; [|rewrite <- Hw; apply IH].
    assert (is_EOF (Some x) = false) as Hx by (by destruct x as [s'| |]).
    cbn zeta. rewrite Hx. destruct (commit_error v dest s (if (0 <? length bs)%nat then ops ++ [FWrite bs] else ops) (Some x) Hf)
      as (n & y & ->); [done|]. apply ob_fail.
  - destruct e as [x|]; [|done]. cbn zeta. destruct (is_EOF (Some x)).
    + by apply commit_commits.
    + destruct (commit_error v dest s (if (0 <? length bs)%nat then ops ++ [FWrite bs] else ops) (Some x) Hf)
        as (n & y & ->); [done|]. apply co_fail. by left.
Qed.

Lemma confirmRoot_None r : confirmRoot r = None ↔ r = inl true.
Proof. destruct r as [[]|e]; cbn; [done|done|]. by destruct (Is e ErrNotExist). Qed.

Lemma confirmRoot_real r e : confirmRoot r = Some e → Is e ErrNotExist = false.
Proof.
  destruct r as [[]|x]; cbn; [done|by intros [= <-]|]. destruct (Is x ErrNotExist) eqn:Ex; intros [= <-]; [done|].
  cbn. by rewrite Ex.
Qed.

(** ** Properties *)

(** The filesystem sink keeps the sink contract. For every way its system
    calls can fail, [Store] reports success only after reading its stream to
    EOF, what it commits is exactly what it read, and a stream that ends in an
    error commits nothing: the obligation the verified fan-out puts on a sink. *)
Theorem filesystem_store_obeys fuel root v s hash :
  (∀ dest, pathFor root hash = inl dest → fresh v dest s) → obeys [] (Store fuel root v s hash).
Proof.
  intros Hf. unfold Store. destruct (pathFor root hash) as [dest|e]; [|apply ob_fail]. specialize (Hf dest eq_refl).
  unfold writeAtomic. destruct (w_mkdir v) as [x|] eqn:Em; [|destruct (w_create v) as [x|] eqn:Ec].
  3:{ exact (copyInto_obeys fuel v dest s [] Hf). }
  all: unfold commit, CommitWrite, Restore.with_fill; cbn [w_mkdir w_create w_inode]; rewrite ?Em, ?Ec;
    unfold last_state; cbn [fst snd list.last default];
    (rewrite bool_decide_eq_false_2; [apply ob_fail|]); destruct Hf as (_ & _ & _ & _ & Hn & _); apply Hn.
Qed.

Lemma filesystem_store_obeys_witness :
  obeys [] (Store 10 "d" (ex_wenv None) ex_fs Restore.ex_hash) ∧
  ∃ n, run_sink (Store 10 "d" (ex_wenv None) ex_fs Restore.ex_hash) [RData [Byte.x41; Byte.x42] None] false =
    MkOut (Returns (MkRes n None true)) (Some [Byte.x41; Byte.x42]).
Proof.
  split.
  - apply filesystem_store_obeys. intros dest Hd. assert (dest = osPath "d" (ShardKey Restore.ex_hash)) as -> by (vm_compute in Hd |- *; congruence).
    destruct (ex_fresh None) as (H1 & H2 & _ & H4 & H5 & H6). unfold fresh. by split_and!.
  - eexists. vm_compute. reflexivity.
Defined.

(** A vanished root is an error, not an absence. [Exists] reports an object
    absent only after confirming that the root is a directory; the newest
    manifest is reported not-existing only when the root was confirmed and its
    manifest directory was listed, or confirmed missing under a present root,
    and every listed manifest is gone under a present root. *)
Theorem vanished_root_is_an_error {A} root obj rootStat hash root0 pointer dir dirRoot (file : string → A + err) fileRoot :
  (Exists_ root obj rootStat hash = (false, None) → rootStat = inl true ∧ ∃ e, obj = inr e ∧ Is e ErrNotExist = true) ∧
  (∀ e, LatestManifest root0 pointer dir dirRoot file fileRoot = inr e → Is e ErrNotExist = true →
     root0 = inl true ∧
     ((∃ x, dir "" = inr x ∧ Is x ErrNotExist = true ∧ dirRoot "" = inl true) ∨
      (∃ entries, dir "" = inl entries ∧
        ∀ n, (n, false) ∈ entries → Manifest.IsTimestampedManifest n = true →
          fileRoot n = inl true ∧ ∃ x, file n = inr x ∧ Is x ErrNotExist = true))).
Proof.
  split.
  - unfold Exists_. destruct (pathFor root hash); [|done]. destruct obj as [b|e]; [done|].
    destruct (Is e ErrNotExist) eqn:Ee; [|done]. destruct (confirmRoot rootStat) eqn:Er; [done|].
    intros _. split; [by apply confirmRoot_None|eauto].
  - intros e Hl He. unfold LatestManifest in Hl. destruct (confirmRoot root0) as [x|] eqn:E0.
    { simplify_eq. apply confirmRoot_real in E0. congruence. }
    split; [by apply confirmRoot_None|].
    assert (∀ after x, listManifestNamesAfter (dir after) (dirRoot after) after = inr x → Is x ErrNotExist = false) as Hlist.
    { intros after x. unfold listManifestNamesAfter. destruct (dir after) as [en|y]; [done|]. destruct (Is y ErrNotExist) eqn:Ey.
      - destruct (confirmRoot (dirRoot after)) as [r|] eqn:Er; [|congruence]. intros [= <-]. by eapply confirmRoot_real.
      - intros [= <-]. cbn. by rewrite Ey. }
    destruct (Manifest.OpenLatestManifest_ErrNotExist _ _ _ _ Hl He Hlist) as (names & En & Hall).
    unfold listManifestNamesAfter in En. destruct (dir "") as [entries|x] eqn:Ed.
    + right. exists entries. split; [done|]. intros n Hn Hts. injection En as <-.
      destruct (Hall n) as (x & Ho & Hx); [|done|].
      { apply list_elem_of_omap. exists (n, false). split; [done|]. cbn. by rewrite Manifest.timestamped_nonempty. }
      unfold openManifestFile in Ho. destruct (file n) as [?|y] eqn:Ef; [done|]. destruct (Is y ErrNotExist) eqn:Ey.
      * destruct (confirmRoot (fileRoot n)) eqn:Er; [|split; [by apply confirmRoot_None|eauto]].
        simplify_eq. apply confirmRoot_real in Er. congruence.
      * simplify_eq. cbn in Hx. rewrite Ey in Hx. done.
    + left. destruct (Is x ErrNotExist) eqn:Ex; [|done]. destruct (confirmRoot (dirRoot "")) eqn:Er; [done|].
      exists x. split_and!; [done|done|by apply confirmRoot_None].
Qed.

Lemma vanished_root_is_an_error_witness :
  Exists_ "d" (inr (Sent ErrNotExist)) (inl true) Restore.ex_hash = (false, None) ∧
  Exists_ "d" (inr (Sent ErrNotExist)) (inr (Sent ErrNotExist)) Restore.ex_hash ≠ (false, None).
Proof.
  split; [vm_compute; reflexivity|].
  intros Hx. destruct (vanished_root_is_an_error (A := unit) "d" (inr (Sent ErrNotExist)) (inr (Sent ErrNotExist)) Restore.ex_hash
    (inl true) None (λ _, inl []) (λ _, inl true) (λ _, inl tt) (λ _, inl true)) as [He _].
  destruct (He Hx) as [Hr _]. discriminate Hr.
Defined.

End FsSink.
