(* ===== verification/FsTarget.v ===== *)
(** * The filesystem sink implements a target

    The simulation between the file system below a root, written by the
    operations of [filesystem.go] (FsSink.v) through the durable-write spine, and
    the abstract target of Target.v; and what a stored object is after a crash. *)

From S2P Require Import Prelude GoText GoRuntime Keyset Ledger Stream Fanout Files Restore Inventory Manifest Layout Target FsSink.
From Stdlib Require Import ZArith Lia.
From Stdlib Require Import Strings.Ascii Strings.String.
From stdpp Require Import base gmap strings list numbers.

Module FsTarget.
Import GoText(plain) Stream Fanout Files Layout Target FsSink.

(** ** The two readings of a write agree *)

Lemma copy_run_sink fuel r ops finish saw :
  match copy_run fuel r ops with
  | Panics x => run_sink (copyInto fuel ops finish) r saw = MkOut (Panics x) None
  | Returns (ops', e) => ∃ r' saw', run_sink (copyInto fuel ops finish) r saw = run_sink (finish ops' e) r' saw'
  end.
Proof.
  revert r ops saw. induction fuel as [|fuel IH]; intros r ops saw; cbn [copy_run copyInto run_sink]; [eauto|].
  destruct (read Restore.copyBuf r) as [r' [[bs e]|x]]; [|done].
  destruct e as [x|]; [eauto|]. apply IH.
Qed.

(** A store that returns has done to the file system what [Store_run] says. *)
Lemma Store_coherent fuel root v s hash r saw res :
  so_result (run_sink (Store fuel root v s hash) r saw) = Returns res →
  (Store_run fuel root v s hash r).1 = Returns (r_err res).
Proof.
  unfold Store, Store_run. destruct (pathFor root hash) as [dest|e]; [|by intros [= <-]]. unfold writeAtomic, writeAtomic_run.
  destruct (w_mkdir v), (w_create v); try (by intros [= <-]).
  pose proof (copy_run_sink fuel r [] (commit v dest s) saw) as Hc. destruct (copy_run fuel r []) as [[ops e]|x].
  - destruct Hc as (r' & saw' & ->). by intros [= <-].
  - by rewrite Hc.
Qed.

(** ** What a write does *)

(** The copy of a stream that ends writes all of it; of one that breaks off,
    it returns an error. *)
Lemma copy_run_stream fuel d broken ops : errors_Is broken EOF = false →
  match copy_run fuel (stream d broken) ops with
  | Panics _ => False
  | Returns (ops', e) => e = None → broken = None ∧ written ops' = written ops ++ d
  end.
Proof.
  intros Hb. assert (∀ fuel' ops0, match copy_run fuel' (match broken with None => [] | Some e => [RSticky e] end) ops0 with
    | Panics _ => False
    | Returns (ops', e) => e = None → broken = None ∧ written ops' = written ops0 end) as Hend.
  { intros [|fuel'] ops0; [done|]. destruct broken as [e|]; cbn; [|done]. cbn in Hb.
    assert (is_EOF (Some e) = false) as Hx by (by destruct e). destruct e as [x| |]; cbn in *; [|done|done]. by rewrite Hx. }
  assert (∀ bs ops0, written (if (0 <? length bs)%nat then ops0 ++ [FWrite bs] else ops0) = written ops0 ++ bs) as Hw.
  { intros [|b bs] ops0; cbn; [by rewrite app_nil_r|]. by rewrite Restore.written_app. }
  revert d ops. induction fuel as [|fuel IH]; intros d ops; [done|]. unfold stream. cbn [copy_run read].
  destruct (length d <=? Restore.copyBuf).
  - specialize (Hend fuel (if (0 <? length d)%nat then ops ++ [FWrite d] else ops)). rewrite Hw in Hend.
    exact Hend.
  - specialize (IH (drop Restore.copyBuf d) (if (0 <? length (take Restore.copyBuf d))%nat then ops ++ [FWrite (take Restore.copyBuf d)] else ops)).
    unfold stream in IH. rewrite Hw, <- app_assoc, take_drop in IH. exact IH.
Qed.

(** One atomic write of a stream. *)
Lemma writeAtomic_cases fuel v dest s d broken : fresh v dest s → errors_Is broken EOF = false →
  let '(r, s') := writeAtomic_run fuel v dest s (stream d broken) in
  (unwritten s s' ∧ r ≠ Returns None) ∨ (broken = None ∧ written_whole dest d s s').
Proof.
  intros Hf Hb. unfold writeAtomic_run.
  assert (∀ f, fresh (Restore.with_fill v f) dest s) as Hf' by (intros f; exact Hf).
  pose proof (copy_run_stream fuel d broken [] Hb) as Hc. destruct (w_mkdir v) eqn:Em; [|destruct (w_create v) eqn:Ec].
  1,2: left; unfold CommitWrite, Restore.with_fill; cbn [w_mkdir w_create]; rewrite ?Em, ?Ec; by split.
  destruct (copy_run fuel (stream d broken) []) as [[ops e]|x]; [|done]. cbn [fst snd].
  destruct (CommitWrite_cases (Restore.with_fill v (ops, e)) dest s (Hf' _)) as [[Hu He]|[He Hw]].
  - left. split; [done|]. congruence.
  - right. cbn [Restore.with_fill w_fill fst snd] in He, Hw. destruct (Hc He) as [-> Hops]. split; [done|]. by rewrite Hops in Hw.
Qed.

(** ** Steps *)

(** The manifest directory, with its slash. *)
Definition mdir (root : string) : string := osPath root ManifestDir +:+ "/".

Section steps.
Context (fuel : nat) (root : string).

(** One write of the sink: the calls of the operating system are arbitrary, the
    names of the temps fresh. A probe whose removal fails leaves a temp in the
    root directory. *)
Inductive fstep (s : fs) : op → bool → fs → Prop :=
  | fs_store hash d broken v r s' :
      (∀ dest, pathFor root hash = inl dest → fresh v dest s) →
      Store_run fuel root v s hash (stream d broken) = (r, s') →
      fstep s (OStore hash d broken) (returned_ok r) s'
  | fs_manifest t d broken v vp r s' :
      let n := Manifest.FormatManifestName t in
      fresh v (osPath root (ManifestKey n)) s →
      fresh vp (osPath root ManifestLatestKey) (writeAtomic_run fuel v (osPath root (ManifestKey n)) s (stream d broken)).2 →
      PutManifest fuel root v vp s n (stream d broken) = (r, s') →
      fstep s (OManifest t d broken) (returned_ok r) s'
  | fs_probe nanos rand cr rm tmp i s' e :
      names s !! tmp = None → (∀ p, names s !! p ≠ Some i) → String.prefix (mdir root) tmp = false →
      (∀ it, well_named it → tracked it = true → placed root it ≠ tmp) →
      Preflight None None cr rm tmp i s = (s', e) →
      fstep s (OProbe nanos rand) (bool_decide (e = None)) s'.

Inductive fsteps (s : fs) : list op → list bool → fs → Prop :=
  | fss_nil : fsteps s [] [] s
  | fss_cons o ok s1 ops oks s2 : fstep s o ok s1 → fsteps s1 ops oks s2 → fsteps s (o :: ops) (ok :: oks) s2.

(** ** The simulation *)

Record R (s : fs) (a : target) : Prop := {
  R_held : ∀ i, well_named i → tracked i = true → contents s (placed root i) = held a i;
  R_keys : ∀ p, is_Some (names s !! p) → String.prefix (mdir root) p = true →
             is_Some (contents s p) ∧ ∃ i, well_named i ∧ p = placed root i;
  R_names : ∀ n, is_Some (manifests a !! n) → Manifest.IsTimestampedManifest n = true;
}.

Lemma R_unwritten s s' a : R s a → unwritten s s' → R s' a.
Proof.
  intros [Hh Hk Hn] Hu. split; [| |done].
  - intros i Hi Ht. destruct (Hu (placed root i)) as [_ ->]. by apply Hh.
  - intros p Hp Hpre. destruct (Hu p) as [Hnm ->]. rewrite Hnm in Hp. by apply Hk.
Qed.

Lemma R_written s s' a a' i d : R s a → well_named i → tracked i = true → written_whole (placed root i) d s s' →
  (∀ j, j ≠ i → held a' j = held a j) → held a' i = Some d →
  (∀ n, is_Some (manifests a' !! n) → Manifest.IsTimestampedManifest n = true) → R s' a'.
Proof.
  intros [Hh Hk _] Hi Hti (Hd & Hrest & Hnd) Hother Hself Hn. split; [| |done].
  - intros j Hj Htj. destruct (decide (placed root j = placed root i)) as [He|He].
    + rewrite He, Hd. apply placed_inj in He as ->; [done|done..].
    + destruct (Hrest _ He) as [_ ->]. rewrite Hh by done. symmetry. apply Hother. by intros ->.
  - intros p Hp Hpre. destruct (decide (p = placed root i)) as [->|He]; [split; [by rewrite Hd; eexists|eauto]|].
    destruct (Hrest p He) as [Hnm ->]. rewrite Hnm in Hp. by apply Hk.
Qed.

Lemma R_object s s' a hash d : R s a → ValidateContentHash hash = None → written_whole (osPath root (ShardKey hash)) d s s' →
  R s' (MkTgt (<[hash := d]> (objects a)) (manifests a) (latest a)).
Proof.
  intros HR Hv Hw. apply (R_written s s' a _ (IObject hash) d); [done|done|done|done| | |apply HR].
  - intros [h| | |] Hne; cbn; try done. rewrite lookup_insert_ne; [done|]. by intros ->.
  - cbn. by rewrite lookup_insert_eq.
Qed.

Lemma R_manifest s s' a n d : R s a → well_named (IManifest n) → written_whole (osPath root (ManifestKey n)) d s s' →
  R s' (MkTgt (objects a) (<[n := d]> (manifests a)) (latest a)).
Proof.
  intros HR Hv Hw. apply (R_written s s' a _ (IManifest n) d); [done|done|done|done| | |].
  - intros [|m| |] Hne; cbn; try done. rewrite lookup_insert_ne; [done|]. by intros ->.
  - cbn. by rewrite lookup_insert_eq.
  - intros m [b Hm]. cbn in Hm. destruct (decide (n = m)) as [<-|Hne]; [done|]. rewrite lookup_insert_ne in Hm by done.
    apply (R_names s a HR). by eexists.
Qed.

Lemma R_pointer s s' a d : R s a → written_whole (osPath root ManifestLatestKey) d s s' → R s' (MkTgt (objects a) (manifests a) (Some d)).
Proof. intros HR Hw. apply (R_written s s' a _ ILatest d); [done|done|done|done| |done|apply HR]. by intros [| | |] Hne. Qed.

Lemma probe_unwritten s tmp i : names s !! tmp = None → (∀ p, names s !! p ≠ Some i) → unwritten s (remove tmp (create tmp i s)).
Proof.
  intros Ht Hi p. unfold remove, create, contents. cbn [names inodes]. destruct (decide (p = tmp)) as [->|Hp].
  - by rewrite lookup_delete_eq, Ht.
  - rewrite lookup_delete_ne, lookup_insert_ne by done. split; [done|]. destruct (names s !! p) as [j|] eqn:Ej; [|done].
    cbn. rewrite lookup_insert_ne; [done|]. intros ->. by apply (Hi p).
Qed.

Lemma R_stray s a tmp i : R s a → (∀ p, names s !! p ≠ Some i) → String.prefix (mdir root) tmp = false →
  (∀ it, well_named it → tracked it = true → placed root it ≠ tmp) → R (create tmp i s) a.
Proof.
  intros [Hh Hk Hn] Hi Hpre Hit.
  assert (∀ p, p ≠ tmp → names (create tmp i s) !! p = names s !! p ∧ contents (create tmp i s) p = contents s p) as Hrest.
  { intros p Hp. unfold create, contents. cbn [names inodes]. rewrite lookup_insert_ne by done. split; [done|].
    destruct (names s !! p) as [j|] eqn:Ej; [|done]. cbn. rewrite lookup_insert_ne; [done|]. intros ->. by apply (Hi p). }
  split; [| |done].
  - intros it Hw Ht. destruct (Hrest (placed root it)) as [_ ->]; [by apply Hit|by apply Hh].
  - intros p Hp Hpp. destruct (Hrest p) as [Hnm ->]; [by intros ->; rewrite Hpre in Hpp|]. rewrite Hnm in Hp. by apply Hk.
Qed.

Lemma manifest_sim s a t d broken v vp r s' : let n := Manifest.FormatManifestName t in
  R s a → wf_op (OManifest t d broken) → fresh v (osPath root (ManifestKey n)) s →
  fresh vp (osPath root ManifestLatestKey) (writeAtomic_run fuel v (osPath root (ManifestKey n)) s (stream d broken)).2 →
  PutManifest fuel root v vp s n (stream d broken) = (r, s') →
  ∃ a', astep a (OManifest t d broken) (returned_ok r) a' ∧ R s' a'.
Proof.
  intros n HR [Ht Hb] Hf Hfp Hp. pose proof (FormatManifestName_well_named t Ht) as Hn. fold n in Hn. unfold PutManifest in Hp.
  pose proof (writeAtomic_cases fuel v (osPath root (ManifestKey n)) s d broken Hf Hb) as Hc.
  destruct (writeAtomic_run fuel v (osPath root (ManifestKey n)) s (stream d broken)) as [r1 s1]. cbn [snd] in Hfp.
  assert (r1 ≠ Returns None → s' = s1 → returned_ok r = false → ∃ a', astep a (OManifest t d broken) (returned_ok r) a' ∧ R s' a') as Hfail.
  { intros Hne -> ->. destruct Hc as [[Hu _]|[-> Hw]].
    - exists a. split; [constructor|by eapply R_unwritten].
    - eexists. split; [|by eapply R_manifest]. apply as_manifest. by left. }
  destruct r1 as [[e|]|x]; [injection Hp as <- <-; by apply Hfail| |injection Hp as <- <-; by apply Hfail].
  destruct Hc as [[_ ?]|[-> Hw]]; [done|]. clear Hfail. pose proof (R_manifest s s1 a n d HR Hn Hw) as HR1.
  pose proof (writeAtomic_cases fuel vp (osPath root ManifestLatestKey) s1 (bytes_of_string n) None Hfp eq_refl) as Hc.
  change (stream (bytes_of_string n) None) with [RData (bytes_of_string n) None] in Hc.
  destruct (writeAtomic_run fuel vp _ s1 _) as [r2 s2].
  assert (s' = s2) as -> by (destruct r2; by injection Hp).
  destruct Hc as [[Hu _]|[_ Hwp]].
  - eexists. split; [|by eapply R_unwritten]. apply as_manifest. by left.
  - eexists. split; [|by eapply (R_pointer s1)]. cbn [objects manifests]. apply as_manifest. by right.
Qed.

Lemma fstep_sim s a o ok s' : R s a → wf_op o → fstep s o ok s' → ∃ a', astep a o ok a' ∧ R s' a'.
Proof.
  intros HR Ho Hs. destruct Hs as [hash d broken v r s' Hf Hr|t d broken v vp r s' n Hf Hfp Hp|nanos rand cr rm tmp i s' e Ht Hi Hpre Hit Hp].
  - destruct Ho as [Hv Hb]. unfold Store_run, pathFor in *. rewrite Hv in *. specialize (Hf _ eq_refl).
    pose proof (writeAtomic_cases fuel v _ s d broken Hf Hb) as Hc. rewrite Hr in Hc. destruct Hc as [[Hu Hne]|[-> Hw]].
    + exists a. split; [|by eapply R_unwritten]. destruct r as [[e|]|x]; [constructor|done|constructor].
    + eexists. split; [apply as_store|by eapply R_object].
  - by eapply manifest_sim.
  - cbn in Hp. unfold ProbeWritable in Hp. destruct cr as [x|]; injection Hp as <- <-.
    + exists a. split; [constructor|done].
    + exists a. split; [constructor|]. destruct rm; [eapply R_unwritten; [done|by apply probe_unwritten]|by apply R_stray].
Qed.

Lemma fsteps_sim s a ops oks s' : R s a → Forall wf_op ops → fsteps s ops oks s' → ∃ a', arun a ops oks a' ∧ R s' a'.
Proof.
  intros HR Hw Hs. revert a HR Hw. induction Hs as [s|s o ok s1 ops oks s2 Hst Hs IH]; intros a HR Hw; [exists a; split; [constructor|done]|].
  apply list.Forall_cons in Hw as [Ho Hw]. destruct (fstep_sim s a o ok s1 HR Ho Hst) as (a1 & Ha & HR1).
  destruct (IH a1 HR1 Hw) as (a2 & Ha2 & HR2). exists a2. split; [by econstructor|done].
Qed.

Lemma R_empty disk0 inodes0 : R (MkFs inodes0 ∅ disk0) empty_target.
Proof.
  split; cbn.
  - intros [| | |] _ _; unfold contents; cbn; by rewrite ?lookup_empty.
  - intros p [? Hp]. by rewrite lookup_empty in Hp.
  - intros n [? Hn]. by rewrite lookup_empty in Hn.
Qed.
End steps.

(** ** Reads *)

Definition fs_stat (s : fs) (p : string) : stat :=
  match contents s p with Some _ => inl false | None => inr (Sent ErrNotExist) end.

(** [os.ReadDir] of the manifest directory: a name with a slash below it is a
    directory entry. *)
Definition fs_dir (root : string) (s : fs) : list (string * bool) :=
  omap (λ p, n ← GoText.strip (mdir root) p;
             Some (match GoText.Cut "/" n with Some (d, _) => (d, true) | None => (n, false) end))
    (Ledger.sort_ids (map_to_list (names s)).*1).

(** The sink's reads under a root that is there, with no call failing. *)
Definition fs_reads (root : string) (s : fs) : reads :=
  MkReads
    (λ hash, Exists_ root (match pathFor root hash with inl p => fs_stat s p | inr _ => inl false end) (inl true) hash)
    (Fetch root s None)
    (LatestManifest (inl true) (readManifestPointer root s None) (λ _, inl (fs_dir root s)) (λ _, inl true)
       (λ n, os_Open s None (osPath root (ManifestKey n))) (λ _, inl true)).

Lemma strip_Some p s r : GoText.strip p s = Some r ↔ s = p +:+ r.
Proof.
  revert s. induction p as [|c p IH]; intros s; cbn [GoText.strip]; [split; [by intros [= <-]|by intros ->]|].
  rewrite GoText.append_cons. destruct s as [|c' s]; [done|]. case_bool_decide as Hc.
  - subst c'. rewrite IH. split; [by intros ->|by intros [= ->]].
  - split; [done|]. by intros [= ->].
Qed.

Definition file_names (entries : list (string * bool)) : list string :=
  omap (λ e : string * bool, if e.2 then None else Some e.1) entries.

Lemma listing entries after : listManifestNamesAfter (inl entries) (inl true) after =
  inl (List.filter (λ n, str_ltb after n) (file_names entries)).
Proof.
  unfold listManifestNamesAfter, file_names. f_equal. induction entries as [|[b []] entries IH]; cbn; [done|done|].
  destruct (str_ltb after b); cbn; by rewrite <- IH.
Qed.

Lemma manifest_path root n : plain n = true → osPath root (ManifestKey n) = mdir root +:+ n ∧ String.prefix (mdir root) (mdir root +:+ n) = true.
Proof.
  intros Hn. destruct (placed_manifests root) as (M & HM & Hk & _). unfold mdir, osPath. rewrite HM, Hk by done. split; [done|].
  clear. induction M as [|c M IH]; [by destruct n|]. rewrite GoText.append_cons. cbn. by destruct (Ascii.ascii_dec c c).
Qed.

Lemma dir_elem root s a n : R root s a → Manifest.IsTimestampedManifest n = true →
  n ∈ file_names (fs_dir root s) ↔ is_Some (manifests a !! n).
Proof.
  intros HR Hn. pose proof (timestamped_plain n Hn) as Hpl. destruct (manifest_path root n Hpl) as [Hpath Hpre].
  pose proof (R_held root s a HR (IManifest n) Hn eq_refl) as Hh. change (contents s (osPath root (ManifestKey n)) = manifests a !! n) in Hh.
  rewrite Hpath in Hh. unfold file_names, fs_dir. rewrite list_elem_of_omap. split.
  - intros ([b isdir] & Hin & Hb). destruct isdir; [done|]. injection Hb as ->. apply list_elem_of_omap in Hin as (p & Hp & Hq).
    destruct (GoText.strip (mdir root) p) as [m|] eqn:Em; [|done]. cbn [mbind option_bind] in Hq.
    assert (m = n) as -> by (destruct (GoText.Cut "/" m) as [[? ?]|]; by simplify_eq).
    apply strip_Some in Em as ->. assert (is_Some (names s !! (mdir root +:+ n))) as Hnm.
    { rewrite Ledger.sort_ids_Permutation, list_elem_of_fmap in Hp. destruct Hp as ([k j] & Hk & Hj). cbn in Hk. subst k.
      apply elem_of_map_to_list in Hj. by eexists. }
    destruct (R_keys root s a HR _ Hnm Hpre) as [Hc _]. by rewrite <- Hh.
  - intros Hm. exists (n, false). split; [|done]. apply list_elem_of_omap. exists (mdir root +:+ n). split.
    + rewrite <- Hh in Hm. rewrite Ledger.sort_ids_Permutation, list_elem_of_fmap. unfold contents in Hm.
      destruct (names s !! (mdir root +:+ n)) as [j|] eqn:Ej; [|by destruct Hm]. exists (mdir root +:+ n, j).
      split; [done|by apply elem_of_map_to_list].
    + assert (GoText.strip (mdir root) (mdir root +:+ n) = Some n) as -> by (by apply strip_Some). cbn [mbind option_bind].
      apply GoText.plain_spec in Hpl as (_ & _ & _ & Hs). by rewrite GoText.Cut_none.
Qed.

Lemma R_reads root s a : R root s a → answers (fs_reads root s) a.
Proof.
  intros HR. split.
  - intros hash Hv. pose proof (R_held root s a HR (IObject hash) Hv eq_refl) as Hh.
    change (contents s (osPath root (ShardKey hash)) = objects a !! hash) in Hh.
    cbn [fs_reads rd_exists rd_fetch]. unfold Exists_, Fetch, pathFor, fs_stat, os_Open. rewrite Hv, Hh.
    split; [by destruct (objects a !! hash)|]. by intros d ->.
  - cbn [fs_reads rd_latest]. unfold LatestManifest. cbn [confirmRoot].
    apply (latest_answers a (file_names (fs_dir root s)) (Wrap "manifest vanished" [Sent ErrNotExist])); [apply HR| |done| |].
    + intros n Hn. by apply dir_elem.
    + intros after _. apply listing.
    + intros n Hn. pose proof (R_held root s a HR (IManifest n) Hn eq_refl) as Hh.
      change (contents s (osPath root (ManifestKey n)) = manifests a !! n) in Hh.
      unfold openManifestFile, os_Open. rewrite Hh. by destruct (manifests a !! n).
Qed.

(** ** Properties *)


Definition ex_v (tmp : string) (i : N) : wenv := MkW tmp i None None ([], None) None None None None None None.
Definition ex_t : Manifest.civil := Manifest.MkTime 2026 1 2 3 4 5 6.
Definition ex_ops : list op := [OStore ex_hash [Byte.x41] None; OManifest ex_t [Byte.x01] None; OStore ex_hash [Byte.x42] (Some (Msg "reset"))].
Definition ex_s0 : fs := MkFs ∅ ∅ ∅.
Definition ex_s1 : fs := (Store_run 9 "/b" (ex_v "/b/t1" 1) ex_s0 ex_hash (stream [Byte.x41] None)).2.
Definition ex_s2 : fs := (PutManifest 9 "/b" (ex_v "/b/t2" 2) (ex_v "/b/t3" 3) ex_s1 (Manifest.FormatManifestName ex_t) (stream [Byte.x01] None)).2.
Definition ex_s3 : fs := (Store_run 9 "/b" (ex_v "/b/t4" 4) ex_s2 ex_hash (stream [Byte.x42] (Some (Msg "reset")))).2.

Lemma ex_steps : fsteps 9 "/b" ex_s0 ex_ops [true; true; false] ex_s3.
Proof.
  apply (fss_cons _ _ _ _ true ex_s1).
  { apply (fs_store _ _ _ _ _ _ (ex_v "/b/t1" 1) (Returns None) ex_s1); [|vm_compute; reflexivity].
    intros dest Hd. vm_compute in Hd. injection Hd as <-. apply freshb_fresh. vm_compute. reflexivity. }
  apply (fss_cons _ _ _ _ true ex_s2).
  { apply (fs_manifest _ _ _ _ _ _ (ex_v "/b/t2" 2) (ex_v "/b/t3" 3) (Returns None) ex_s2); [| |vm_compute; reflexivity];
      apply freshb_fresh; vm_compute; reflexivity. }
  apply (fss_cons _ _ _ _ false ex_s3); [|apply fss_nil].
  apply (fs_store _ _ _ _ _ _ (ex_v "/b/t4" 4) (Store_run 9 "/b" (ex_v "/b/t4" 4) ex_s2 ex_hash (stream [Byte.x42] (Some (Msg "reset")))).1 ex_s3);
    [|vm_compute; reflexivity].
  intros dest Hd. vm_compute in Hd. injection Hd as <-. apply freshb_fresh. vm_compute. reflexivity.
Qed.


(** A stored object is there after a crash. When [Store] returns nil, its stream
    ended, and in every state a power loss can leave the object is fetched as
    exactly the stream's bytes; no other path of the target has changed. *)
Theorem stored_object_survives_a_crash fuel root v s hash d broken s' :
  (∀ dest, pathFor root hash = inl dest → fresh v dest s) → errors_Is broken EOF = false →
  Store_run fuel root v s hash (stream d broken) = (Returns None, s') →
  broken = None ∧ (∀ c, crash s' c → Fetch root c None hash = inl (d, None)) ∧
  (∀ hash', hash' ≠ hash → ∀ fault, Fetch root s' fault hash' = Fetch root s fault hash').
Proof.
  intros Hf Hb. unfold Store_run. destruct (pathFor root hash) as [dest|e] eqn:Ep; [|done]. specialize (Hf dest eq_refl). intros Hr.
  pose proof (writeAtomic_cases fuel v dest s d broken Hf Hb) as Hc. rewrite Hr in Hc.
  destruct Hc as [[_ ?]|[-> Hw]]; [done|]. split; [done|]. destruct Hw as (Hd & Hrest & _). split.
  - intros c Hcr. unfold Fetch, os_Open. rewrite Ep. enough (contents c dest = Some d) as -> by done.
    unfold writeAtomic_run in Hr. destruct (w_mkdir v) eqn:Em; [|destruct (w_create v) eqn:Ec].
    1,2: unfold CommitWrite, Restore.with_fill in Hr; cbn [w_mkdir w_create] in Hr; rewrite ?Em, ?Ec in Hr; done.
    destruct (copy_run fuel (stream d None) []) as [[ops x]|x]; [|done]. cbn [fst snd] in Hr. injection Hr as He Hs'.
    assert (fresh (Restore.with_fill v (ops, x)) dest s) as Hf' by exact Hf.
    destruct (CommitWrite_durable _ dest s Hf' He) as (_ & Hnow & _ & _ & _ & Hdur). rewrite Hs' in Hnow, Hdur.
    rewrite (Hdur c Hcr). congruence.
  - intros hash' Hne fault. unfold Fetch, os_Open. destruct (pathFor root hash') as [p|x] eqn:Ep'; [|done].
    enough (contents s' p = contents s p) as -> by done. apply Hrest. intros ->.
    unfold pathFor in Ep, Ep'. destruct (ValidateContentHash hash) eqn:Ev; [done|]. destruct (ValidateContentHash hash') eqn:Ev'; [done|].
    injection Ep as <-. injection Ep' as Ek. apply (placed_inj root (IObject hash') (IObject hash)) in Ek; [|done..].
    congruence.
Qed.

Lemma stored_object_survives_a_crash_witness :
  (∀ c, crash ex_s1 c → Fetch "/b" c None ex_hash = inl ([Byte.x41], None)).
Proof.
  apply (stored_object_survives_a_crash 9 "/b" (ex_v "/b/t1" 1) ex_s0 ex_hash [Byte.x41] None ex_s1); [|reflexivity|vm_compute; reflexivity].
  intros dest Hd. vm_compute in Hd. injection Hd as <-. apply freshb_fresh. vm_compute. reflexivity.
Defined.

End FsTarget.
