(* ===== verification/S3Sink.v ===== *)
(** * The S3 sink

    [src/internal/adapter/outbound/sink/s3/s3.go]. The minio client is code
    outside the repository: a client is a value of a type variable, what the
    service answers it at one moment is an [api], and an upload of unknown
    length is a reading program ([PutObject]) with the contract documented for
    it. The sink's own state is the cached bucket verdict.

    An operation that calls the service several times takes one [api] per call,
    so a bucket that disappears between two calls is covered. [bucketMu] makes
    [confirmBucket] one step. *)

From S2P Require Import Prelude GoText GoRuntime Ledger Stream Fanout Verdict Manifest Layout.
From Stdlib Require Import ZArith Lia.
From stdpp Require Import base gmap strings list numbers.

Module S3Sink.
Import GoText(Join, EqualFold, Base) Stream Fanout Layout.

(** ** The client *)

(** An error of the client: what [minio.ToErrorResponse] reads of it, and the
    error itself. *)
Record apiErr := MkApiErr { StatusCode : Z; Code : string; a_err : err }.

(** The answers of the service at one moment, per client, bucket and key. *)
Record api {client : Type} := MkApi {
  StatObject : client → string → string → option apiErr;
  BucketExists : client → string → bool + err;
  GetObjectLockConfig : client → string → (string * option string) + apiErr;
  GetBucketVersioning : client → string → bool + err;       (* ver.Enabled() *)
  GetObject : client → string → string → body + err;
  ObjectStat : client → string → string → option apiErr;    (* the Stat method of an object *)
  ListObjects : client → string → string → string → list (string + err);  (* prefix, StartAfter *)
}.
Arguments api : clear implicits.
Arguments MkApi {client}.

Section sink.
Context {client : Type}.

Record Config := MkConfig {
  c_Name : string; c_Endpoint : string; c_Region : string; c_Bucket : string; c_Prefix : string;
  c_AccessKey : string; c_SecretKey : string; c_AuditAccessKey : string; c_AuditSecretKey : string;
  c_UseSSL : bool; c_SSE : bool;
}.

Record Sink := MkS3 {
  name : string; client_ : client; auditClient : option client; bucket : string; prefix : string;
  partSize : Z; sse : bool;
  bucketChecked : bool; bucketGone : goerr;
}.

(** ** Construction *)

(** [minio.New]: endpoint, Secure, Region and the static credentials. *)
Context (minio_New : string → bool → string → string → string → client + err).

Definition newMinioClient (cfg : Config) (access secret label : string) : client + err :=
  match minio_New (c_Endpoint cfg) (c_UseSSL cfg) (c_Region cfg) access secret with
  | inr e => inr (Wrap (label +:+ " " +:+ c_Name cfg) [e])
  | inl c => inl c
  end.

Definition New (cfg : Config) : Sink + err :=
  match newMinioClient cfg (c_AccessKey cfg) (c_SecretKey cfg) "s3 client" with
  | inr e => inr e
  | inl c =>
      let sink a := MkS3 (c_Name cfg) c a (c_Bucket cfg) (c_Prefix cfg) (5 * 2 ^ 20) (c_SSE cfg) false None in
      if bool_decide (c_AuditAccessKey cfg ≠ "") && bool_decide (c_AuditSecretKey cfg ≠ "") then
        match newMinioClient cfg (c_AuditAccessKey cfg) (c_AuditSecretKey cfg) "s3 audit client" with
        | inr e => inr e
        | inl a => inl (sink (Some a))
        end
      else inl (sink None)
  end.

Definition ImmutabilityReadable (s : Sink) : bool := bool_decide (is_Some (auditClient s)).

Definition prefixed (s : Sink) (key : string) : string := Join [prefix s; key].
Definition key (s : Sink) (hash : string) : string := prefixed s (ShardKey hash).

Definition readClient (s : Sink) : client := default (client_ s) (auditClient s).

(** ** Existence *)

Definition isNoSuchKey (e : apiErr) : bool := (StatusCode e =? 404)%Z || bool_decide (Code e = "NoSuchKey").
Definition isReadDenied (e : apiErr) : bool := (StatusCode e =? 403)%Z || bool_decide (Code e = "AccessDenied").
Definition isObjectLockNotFound (e : apiErr) : bool := bool_decide (Code e = "ObjectLockConfigurationNotFoundError").

(** One fresh BucketExists: whether the answer is definitive, and the error. *)
Definition bucketState (w : api client) (s : Sink) : bool * goerr :=
  match BucketExists w (readClient s) (bucket s) with
  | inr e => (false, Some (Wrap "bucket existence check" [e]))
  | inl false => (true, Some (Msg "bucket does not exist (deleted/renamed/misconfigured?)"))
  | inl true => (true, None)
  end.

Definition bucketPresentUncached (w : api client) (s : Sink) : goerr := (bucketState w s).2.

Definition set_bucket (s : Sink) (gone : goerr) : Sink :=
  MkS3 (name s) (client_ s) (auditClient s) (bucket s) (prefix s) (partSize s) (sse s) true gone.

Definition confirmBucket (w : api client) (s : Sink) : Sink * goerr :=
  if bucketChecked s then (s, bucketGone s)
  else
    match bucketState w s with
    | (false, e) => (s, e)
    | (true, e) => (set_bucket s e, e)
    end.

(** [Exists]; the StatObject is answered by [w], the BucketExists by [wb]. *)
Definition Exists_ (w wb : api client) (s : Sink) (hash : string) : Sink * (bool * goerr) :=
  match StatObject w (readClient s) (bucket s) (key s hash) with
  | None => (s, (true, None))
  | Some e =>
      if isNoSuchKey e then
        match confirmBucket wb s with
        | (s', Some berr) => (s', (false, Some berr))
        | (s', None) => (s', (false, None))
        end
      else if isReadDenied e then (s, (false, Some (Wrap "stat" [Sent ErrReadDenied; a_err e])))
      else (s, (false, Some (Wrap "stat" [a_err e])))
  end.

(** ** Immutability *)

Definition versioningEnabled (w : api client) (s : Sink) : bool :=
  match GetBucketVersioning w (readClient s) (bucket s) with inr _ => false | inl b => b end.

(** [CheckImmutability]; the lock is read at [w], the versioning at [wv]. *)
Definition CheckImmutability (w wv : api client) (s : Sink) : bool * bool * goerr :=
  match GetObjectLockConfig w (readClient s) (bucket s) with
  | inr e =>
      if isObjectLockNotFound e then (false, versioningEnabled wv s, None)
      else (false, false, Some (Wrap "object-lock config" [a_err e]))
  | inl (lockStatus, mode) =>
      if negb (EqualFold lockStatus "Enabled") then (false, versioningEnabled wv s, None)
      else if bool_decide (mode = None) || bool_decide (mode = Some "") then (false, versioningEnabled wv s, None)
      else
        match GetBucketVersioning wv (readClient s) (bucket s) with
        | inr e => (false, false, Some (Wrap "versioning config" [e]))
        | inl enabled => (true, enabled, None)
        end
  end.

(** ** Reading *)

Definition Fetch (w : api client) (s : Sink) (hash : string) : body + err :=
  match GetObject w (readClient s) (bucket s) (key s hash) with
  | inr e => inr (Wrap "get" [e])
  | inl b => inl b
  end.

Definition readManifestPointer (w : api client) (s : Sink) : option string :=
  readPointer (GetObject w (readClient s) (bucket s) (prefixed s ManifestLatestKey)).

(** The listing goes on until its first error. *)
Fixpoint collect_names (objs : list (string + err)) (names : list string) : list string + err :=
  match objs with
  | [] => inl names
  | inr e :: _ => inr (Wrap "list manifests" [e])
  | inl k :: objs => collect_names objs (names ++ [Base k])
  end.

Definition listManifestNamesAfter (w : api client) (s : Sink) (after : string) : list string + err :=
  let pre := prefixed s ManifestDir +:+ "/" in
  let startAfter := if bool_decide (after ≠ "") then prefixed s (ManifestKey after) else "" in
  collect_names (ListObjects w (readClient s) (bucket s) pre startAfter) [].

(** The [open] closure of [LatestManifest]: the object and its Stat at [w], the
    bucket again at [wb]. *)
Definition openManifest (w wb : api client) (s : Sink) (n : string) : body + err :=
  let k := prefixed s (ManifestKey n) in
  match GetObject w (readClient s) (bucket s) k with
  | inr e => inr (Wrap "get manifest" [e])
  | inl obj =>
      match ObjectStat w (readClient s) (bucket s) k with
      | Some e =>
          if isNoSuchKey e then
            match bucketPresentUncached wb s with
            | Some berr => inr berr
            | None => inr (Wrap "manifest vanished" [Sent ErrNotExist])
            end
          else inr (Wrap "stat manifest" [a_err e])
      | None => inl obj
      end
  end.

(** [LatestManifest]: the service at the first bucket check, at the read of the
    pointer, at each listing, each open and each re-check of the bucket. *)
Definition LatestManifest (w0 wp : api client) (wl wo wb : string → api client) (s : Sink) : body + err :=
  match bucketPresentUncached w0 s with
  | Some e => inr e
  | None =>
      Manifest.OpenLatestManifest (readManifestPointer wp s)
        (λ after, listManifestNamesAfter (wl after) s after) (λ n, openManifest (wo n) (wb n) s n)
  end.
End sink.
Arguments Sink : clear implicits.
Arguments MkS3 {client}.

(** ** Writing *)

Section put.
Context {client : Type}.

(** [PutObject] with size -1 of a stream, and with size 0 of no bytes: the
    bucket and the key; a program's blob is the object left at the key. *)
Context (PutObject : client → string → string → sinkprog).
Context (PutEmpty : client → string → string → goerr * option bytes).

(** [io.ReadFull(r, one[:])]: the one byte (any error that came with it is
    dropped), or the error. The fuel bounds the reads that return nothing. *)
Fixpoint readOne (fuel : nat) (k : bytes → goerr → sinkprog) : sinkprog :=
  match fuel with
  | O => k [] (Some (Msg "read budget exhausted"))
  | S fuel =>
      SRead 1 (λ bs e,
        match bs, e with
        | [], None => readOne fuel k
        | [], Some x => k [] (Some x)
        | _, _ => k bs None
        end)
  end.

(** [io.MultiReader(bytes.NewReader(one), r)]: the bytes already read come
    first, then the stream; once that has returned EOF it is not read again. *)
Fixpoint drained (p : sinkprog) : sinkprog :=
  match p with SRead _ k => drained (k [] (Some (Sent EOF))) | p => p end.

Fixpoint tail (p : sinkprog) : sinkprog :=
  match p with
  | SRead size k => SRead size (λ bs e, if is_EOF e then drained (k bs e) else tail (k bs e))
  | p => p
  end.

Fixpoint MultiReader (one : bytes) (p : sinkprog) : sinkprog :=
  match p with
  | SRead size k =>
      match one with
      | [] => tail (SRead size k)
      | _ => MultiReader (drop size one) (k (take size one) None)
      end
  | p => p
  end.

(** The upload's error, wrapped; its size otherwise. *)
Fixpoint put_result (p : sinkprog) : sinkprog :=
  match p with
  | SRet n (Some e) blob => SRet 0 (Some (Wrap "put" [e])) blob
  | SRead size k => SRead size (λ bs e, put_result (k bs e))
  | p => p
  end.

Definition putStream (fuel : nat) (s : Sink client) (k : string) : sinkprog :=
  readOne fuel (λ one e,
    match e with
    | Some x =>
        if Is x EOF then
          match PutEmpty (client_ s) (bucket s) k with
          | (Some perr, blob) => SRet 0 (Some (Wrap "put (empty)" [perr])) blob
          | (None, blob) => SRet 0 None blob
          end
        else SRet 0 (Some (Wrap "read" [x])) None
    | None => put_result (MultiReader one (PutObject (client_ s) (bucket s) k))
    end).

Definition Store (fuel : nat) (s : Sink client) (hash : string) : sinkprog := putStream fuel s (key s hash).

(** [Preflight]: the sentinel object, at a key of its own. *)
Definition Preflight (s : Sink client) (nanos : Z) (rand : bytes) : goerr :=
  match PutEmpty (client_ s) (bucket s) (prefixed s (PreflightKey nanos rand)) with
  | (Some e, _) => Some (Wrap "s3 preflight" [e])
  | (None, _) => None
  end.

(** [PutManifest]: what it returns, and what is left at the manifest's key and
    at the pointer's, for the snapshot stream [r]. *)
Definition PutManifest (fuel : nat) (s : Sink client) (n : string) (r : reader)
    : attempt goerr * option bytes * option bytes :=
  let m := run_sink (putStream fuel s (prefixed s (ManifestKey n))) r false in
  match so_result m with
  | Panics x => (Panics x, so_blob m, None)
  | Returns mr =>
      match r_err mr with
      | Some e => (Returns (Some e), so_blob m, None)
      | None =>
          let l := run_sink (putStream fuel s (prefixed s ManifestLatestKey)) [RData (bytes_of_string n) None] false in
          match so_result l with
          | Panics x => (Panics x, so_blob m, so_blob l)
          | Returns lr => (Returns (Manifest.WriteManifestWithPointer None (r_err lr)).1, so_blob m, so_blob l)
          end
      end
  end.

(** The documented contract of the two uploads. *)
Class PutLaws := {
  put_obeys : ∀ c b k, obeys [] (PutObject c b k);
  put_empty : ∀ c b k, match PutEmpty c b k with
                       | (None, blob) => blob = Some []
                       | (Some _, blob) => blob = None ∨ blob = Some []
                       end;
}.

(** ** The upload keeps the sink contract *)

Lemma drained_commits p acc : commits acc p → commits acc (drained p).
Proof.
  intros Hc. induction p as [n e blob|s|size k IH]; [done..|]. inversion Hc; subst. cbn [drained]. apply IH. auto.
Qed.

Lemma tail_commits p acc : commits acc p → commits acc (tail p).
Proof.
  intros Hc. induction p as [n e blob|s|size k IH]; [done..|]. inversion Hc as [| | |? ? ? Hk]; subst. cbn [tail].
  apply co_read. intros e He. destruct (is_EOF e); [apply drained_commits; auto|]. apply IH. auto.
Qed.

Lemma tail_obeys p acc : obeys acc p → obeys acc (tail p).
Proof.
  intros Ho. revert acc Ho. induction p as [n e blob|s|size k IH]; intros acc Ho; [done..|].
  inversion Ho as [| |? ? ? Hmore Hend]; subst. cbn [tail]. apply ob_read; intros bs e He.
  - destruct (is_EOF e) eqn:Ee; [|apply IH; auto]. destruct e as [[s| |]|]; try done. cbn in Ee, He. congruence.
  - destruct (is_EOF e); [apply drained_commits|apply tail_commits]; auto.
Qed.

(** The stream ended with the byte that is still to be delivered. *)
Lemma tail_ended p acc : obeys acc p → commits acc (tail p).
Proof.
  intros Ho. destruct p as [n e blob|s|size k]; inversion Ho as [| |? ? ? Hmore Hend]; subst; cbn [tail].
  - apply co_fail. by left.
  - apply co_panic.
  - apply co_read. intros e He. specialize (Hend [] e He). rewrite app_nil_r in Hend.
    destruct (is_EOF e); [by apply drained_commits|by apply tail_commits].
Qed.

Lemma MultiReader_obeys p acc one : obeys acc p →
  obeys (acc ++ one) (MultiReader one p) ∧ commits (acc ++ one) (MultiReader one p).
Proof.
  revert acc one. induction p as [n e blob|s|size k IH]; intros acc one Ho.
  - inversion Ho; subst. split; [apply ob_fail|apply co_fail; by left].
  - split; [apply ob_panic|apply co_panic].
  - cbn [MultiReader]. destruct one as [|b one].
    { rewrite app_nil_r. split; [by apply tail_obeys|by apply tail_ended]. }
    inversion Ho as [| |? ? ? Hmore _]; subst. 
    replace (acc ++ b :: one) with ((acc ++ take size (b :: one)) ++ drop size (b :: one)) by (by rewrite <- app_assoc, take_drop).
    apply IH, Hmore. done.
Qed.

Lemma put_result_commits p acc : commits acc p → commits acc (put_result p).
Proof.
  intros Hc. induction p as [n [e|] blob|s|size k IH]; [|done|done|]; inversion Hc; subst; cbn [put_result].
  - by apply co_fail.
  - apply co_read. auto.
Qed.

Lemma put_result_obeys p acc : obeys acc p → obeys acc (put_result p).
Proof.
  intros Ho. revert acc Ho. induction p as [n [e|] blob|s|size k IH]; intros acc Ho; [|done|done|]; inversion Ho; subst; cbn [put_result].
  - apply ob_fail.
  - apply ob_read; intros bs e He; [by apply IH; auto|apply put_result_commits; auto].
Qed.

Lemma putStream_obeys `{PutLaws} fuel s k : obeys [] (putStream fuel s k).
Proof.
  unfold putStream. induction fuel as [|fuel IH]; cbn [readOne]; [apply ob_fail|].
  pose proof (put_obeys (client_ s) (bucket s) k) as Hp. pose proof (put_empty (client_ s) (bucket s) k) as Hempty.
  apply ob_read; intros [|b bs] e He; destruct e as [x|]; try done; cbn [app].
  - cbn in He. rewrite He. apply ob_fail.
  - apply put_result_obeys, (MultiReader_obeys _ [] (b :: bs)), Hp.
  - apply put_result_obeys, (MultiReader_obeys _ [] (b :: bs)), Hp.
  - cbn in He. rewrite He. destruct (PutEmpty _ _ k) as [[perr|] blob]; [by apply co_fail|subst; apply co_ok].
  - apply put_result_commits, (MultiReader_obeys _ [] (b :: bs)), Hp.
Qed.

(** ** An upload that is accepted stores the stream *)

(** A stream that delivers its chunks and ends. *)
Definition clean (r : reader) : Prop := Forall (λ ev, ∃ bs, ev = RData bs None) r.

Lemma drained_run p : run_sink (drained p) [] true = run_sink p [] true.
Proof. induction p as [n e blob|s|size k IH]; [done..|]. cbn [drained]. rewrite IH. done. Qed.

Lemma tail_run p r saw : clean r → run_sink (tail p) r saw = run_sink p r saw.
Proof.
  revert r saw. induction p as [n e blob|s|size k IH]; intros r saw Hr; [done..|]. cbn [tail run_sink].
  destruct r as [|ev r]; cbn [read].
  { change (errors_Is (Some (Sent EOF)) EOF) with true. rewrite orb_true_r. apply drained_run. }
  apply list.Forall_cons in Hr as [[bs ->] Hr]. cbn [read]. destruct (length bs <=? size); apply IH; [done|].
  constructor; [by eexists|done].
Qed.

Lemma MultiReader_nil p : MultiReader [] p = tail p.
Proof. by destruct p. Qed.

Lemma MultiReader_run p one r saw : clean r → one ≠ [] →
  run_sink (MultiReader one p) r saw = run_sink p (RData one None :: r) saw.
Proof.
  intros Hr. revert one saw. induction p as [n e blob|s|size k IH]; intros one saw Hne; [done..|]. cbn [MultiReader run_sink read].
  destruct one as [|b one]; [done|]. destruct (length (b :: one) <=? size) eqn:El; to_prop.
  - rewrite take_ge, drop_ge, MultiReader_nil, tail_run, orb_false_r by done. done.
  - rewrite orb_false_r. apply IH. intros Hd. apply (f_equal length) in Hd. rewrite length_drop in Hd. cbn [length] in *. lia.
Qed.

Lemma put_result_run p r saw n saw' blob :
  run_sink p r saw = MkOut (Returns (MkRes n None saw')) blob → run_sink (put_result p) r saw = MkOut (Returns (MkRes n None saw')) blob.
Proof.
  revert r saw. induction p as [m [e|] b|s|size k IH]; intros r saw; cbn [run_sink put_result]; [done..|].
  destruct (read size r) as [r' [[bs e]|x]]; [apply IH|done].
Qed.

(** The service accepts every upload. *)
Definition accepting : Prop :=
  (∀ c b k r saw, clean r → run_sink (PutObject c b k) r saw =
     MkOut (Returns (MkRes (Z.of_nat (length (content r))) None true)) (Some (content r))) ∧
  (∀ c b k, PutEmpty c b k = (None, Some [])).

Lemma putStream_accepted s k d fuel : accepting → 2 ≤ fuel →
  run_sink (putStream fuel s k) [RData d None] false = MkOut (Returns (MkRes (Z.of_nat (length d)) None true)) (Some d).
Proof.
  intros [Hput Hempty] Hf. destruct fuel as [|[|fuel]]; [lia..|]. unfold putStream. cbn [readOne run_sink read].
  destruct d as [|b d].
  - cbn. by rewrite Hempty.
  - assert (∀ r, clean r → run_sink (put_result (MultiReader [b] (PutObject (client_ s) (bucket s) k))) r false =
      MkOut (Returns (MkRes (Z.of_nat (length (b :: content r))) None true)) (Some (b :: content r))) as Hrun.
    { intros r Hr. apply put_result_run. rewrite MultiReader_run by done. rewrite Hput; [done|]. constructor; [by eexists|done]. }
    destruct d as [|b' d]; cbn [length Nat.leb take drop orb errors_Is].
    + apply (Hrun []). constructor.
    + rewrite Hrun; [|by repeat econstructor]. cbn [content]. by rewrite app_nil_r.
Qed.
End put.

(** ** Properties of single operations *)

(** The S3 sink keeps the sink contract, and stores. If the client's uploads
    keep theirs, then [Store] reports success only after reading its stream to
    EOF and commits exactly what it read, the byte it probed for included, and a
    stream that ends in an error commits nothing; and when the service accepts
    the upload, every stream that ends, empty or not, is stored in full. *)
Theorem s3_store_obeys {client} PutObject PutEmpty `{!PutLaws (client := client) PutObject PutEmpty} fuel s hash :
  obeys [] (Store PutObject PutEmpty fuel s hash) ∧
  (∀ d, accepting PutObject PutEmpty → 2 ≤ fuel →
     run_sink (Store PutObject PutEmpty fuel s hash) [RData d None] false =
       MkOut (Returns (MkRes (Z.of_nat (length d)) None true)) (Some d)).
Proof. split; [by apply putStream_obeys|]. intros d. apply putStream_accepted. Qed.

Definition ex_sink : Sink unit := MkS3 "offsite" tt None "backups" "fbs" (5 * 2 ^ 20) true false None.
Definition ex_put (_ : unit) (_ _ : string) : sinkprog := copy_sink 9 4 [].
Definition ex_put_empty (_ : unit) (_ _ : string) : goerr * option bytes := (None, Some []).

#[global] Instance ex_put_laws : PutLaws ex_put ex_put_empty.
Proof. split; [intros; apply copy_sink_obeys|done]. Qed.

Lemma s3_store_obeys_witness :
  obeys [] (Store ex_put ex_put_empty 2 ex_sink ex_hash) ∧
  run_sink (Store ex_put ex_put_empty 2 ex_sink ex_hash) [RData [Byte.x41; Byte.x42; Byte.x43] None] false =
    MkOut (Returns (MkRes 3 None true)) (Some [Byte.x41; Byte.x42; Byte.x43]) ∧
  so_blob (run_sink (Store ex_put ex_put_empty 2 ex_sink ex_hash) [] false) = Some [].
Proof.
  split; [apply (s3_store_obeys ex_put ex_put_empty)|]. split; vm_compute; reflexivity.
Defined.

(** *** A sequence of existence probes *)

(** One probe: the hash, and the service at its StatObject and at the
    BucketExists it may make. *)
Record probe {client} := MkProbe { p_hash : string; p_stat : api client; p_bucket : api client }.
Arguments probe : clear implicits.
Arguments MkProbe {client}.

Fixpoint run_probes {client} (s : Sink client) (ps : list (probe client)) : Sink client * list (bool * goerr) :=
  match ps with
  | [] => (s, [])
  | p :: ps =>
      let '(s1, r) := Exists_ (p_stat p) (p_bucket p) s (p_hash p) in
      let '(s2, rs) := run_probes s1 ps in (s2, r :: rs)
  end.

Definition not_found {client} (s : Sink client) (p : probe client) : bool :=
  match StatObject (p_stat p) (readClient s) (bucket s) (key s (p_hash p)) with Some e => isNoSuchKey e | None => false end.

(** The answer a probe gets to its BucketExists. *)
Definition bucket_answer {client} (s : Sink client) (p : probe client) : bool + err :=
  BucketExists (p_bucket p) (readClient s) (bucket s).

(** The same sink, up to the cached verdict. *)
Definition same_target {client} (s s' : Sink client) : Prop :=
  readClient s' = readClient s ∧ bucket s' = bucket s ∧ prefix s' = prefix s.

(** What the cache may claim after the probes [done_]: a definitive answer that
    one of the not-found probes got. *)
Definition cache_ok {client} (s : Sink client) (done_ : list (probe client)) : Prop :=
  bucketChecked s = true →
  ∃ p, p ∈ done_ ∧ not_found s p = true ∧
    match bucketGone s with None => bucket_answer s p = inl true | Some _ => bucket_answer s p = inl false end.

Lemma same_target_cache {client} (s s' : Sink client) p : same_target s s' →
  not_found s' p = not_found s p ∧ bucket_answer s' p = bucket_answer s p.
Proof. intros (Hc & Hb & Hp). unfold not_found, bucket_answer, key, prefixed. by rewrite Hc, Hb, Hp. Qed.

Lemma Exists_step {client} (s : Sink client) p done_ : cache_ok s done_ →
  let '(s', r) := Exists_ (p_stat p) (p_bucket p) s (p_hash p) in
  same_target s s' ∧ cache_ok s' (done_ ++ [p]) ∧
  (r = (false, None) → not_found s p = true ∧ bucketChecked s' = true ∧ bucketGone s' = None) ∧
  (bucketChecked s = true → s' = s) ∧
  (bucketChecked s' = true → bucketChecked s = false → bucket_answer s p = inl (bool_decide (bucketGone s' = None))).
Proof.
  intros Hok. assert (cache_ok s (done_ ++ [p])) as Hok'.
  { intros Hc. destruct (Hok Hc) as (q & Hq & H). exists q. split; [apply elem_of_app; by left|done]. }
  assert (same_target s s) as Hst by done.
  unfold Exists_. destruct (StatObject _ _ _ _) as [e|] eqn:Es; [|split_and!; [done..|congruence]].
  destruct (isNoSuchKey e) eqn:Ek.
  2:{ destruct (isReadDenied e); (split_and!; [done..|congruence]). }
  assert (not_found s p = true) as Hnf by (unfold not_found; by rewrite Es).
  unfold confirmBucket. destruct (bucketChecked s) eqn:Ec.
  { destruct (bucketGone s) eqn:Eg; split_and!; try done; congruence. }
  unfold bucketState. destruct (BucketExists _ _ _) as [[]|x] eqn:Eb.
  - split_and!; try done. intros _. exists p. split_and!; [apply elem_of_app; right; by left|done|exact Eb].
  - split_and!; try done. intros _. exists p. split_and!; [apply elem_of_app; right; by left|done|exact Eb].
  - split_and!; try done. congruence.
Qed.

Lemma run_probes_spec {client} (s : Sink client) ps done_ k r : cache_ok s done_ →
  (run_probes s ps).2 !! k = Some r → r = (false, None) →
  ∃ p, ps !! k = Some p ∧ not_found s p = true ∧
  ∃ q, (q ∈ done_ ∨ q ∈ take (S k) ps) ∧ not_found s q = true ∧ bucket_answer s q = inl true.
Proof.
  revert s done_ k. induction ps as [|p ps IH]; intros s done_ k Hok Hk Hr; [by destruct k|]. cbn [run_probes] in Hk.
  pose proof (Exists_step s p done_ Hok) as Hstep. destruct (Exists_ _ _ s _) as [s1 r1] eqn:E1.
  destruct Hstep as (Hst & Hok1 & Habs & _). destruct (run_probes s1 ps) as [s2 rs] eqn:E2.
  destruct k as [|k]; cbn [snd] in Hk.
  - injection Hk as ->. destruct (Habs Hr) as (Hnf & Hc & Hg). exists p. split_and!; [done|done|].
    destruct (Hok1 Hc) as (q & Hq & Hqn & Ha). rewrite Hg in Ha. destruct (same_target_cache s s1 q Hst) as [H1 H2].
    exists q. rewrite <- H1, <- H2. split_and!; [|done|done]. apply elem_of_app in Hq as [Hq|Hq]; [by left|right; by cbn].
  - assert ((run_probes s1 ps).2 !! k = Some r) as Hk1 by (by rewrite E2).
    destruct (IH s1 (done_ ++ [p]) k Hok1 Hk1 Hr) as (q & Hq & Hnf & q' & Hq' & Hnf' & Ha).
    destruct (same_target_cache s s1 q Hst) as [H1 _]. destruct (same_target_cache s s1 q' Hst) as [H2 H3].
    exists q. split_and!; [done|by rewrite <- H1|]. exists q'. rewrite <- H2, <- H3. split_and!; [|done|done].
    cbn [take]. rewrite elem_of_cons. rewrite elem_of_app, list_elem_of_singleton in Hq'. naive_solver.
Qed.

Lemma run_probes_cache {client} (s : Sink client) ps done_ : cache_ok s done_ →
  same_target s (run_probes s ps).1 ∧ cache_ok (run_probes s ps).1 (done_ ++ ps).
Proof.
  revert s done_. induction ps as [|p ps IH]; intros s done_ Hok; cbn [run_probes]; [by rewrite app_nil_r|].
  pose proof (Exists_step s p done_ Hok) as Hstep. destruct (Exists_ _ _ s _) as [s1 r1].
  destruct Hstep as ((Hc & Hb & Hp) & Hok1 & _). specialize (IH s1 (done_ ++ [p]) Hok1).
  destruct (run_probes s1 ps) as [s2 rs]. cbn [fst] in *. rewrite <- app_assoc in IH.
  destruct IH as [(? & ? & ?) ?]. split; [|done]. unfold same_target. split_and!; congruence.
Qed.

Lemma Exists_cached {client} (s : Sink client) w wb wb' hash : bucketChecked s = true →
  Exists_ w wb s hash = Exists_ w wb' s hash ∧ (Exists_ w wb s hash).1 = s.
Proof.
  intros Hc. unfold Exists_, confirmBucket. rewrite Hc. destruct (StatObject _ _ _ _) as [e|]; [|done].
  destruct (isNoSuchKey e); [by destruct (bucketGone s)|]. by destruct (isReadDenied e).
Qed.

(** An object is reported absent only from a bucket known to exist. In any
    sequence of probes of a sink that starts with no cached verdict, a probe
    answers "absent" only if its object was not found and some probe no later
    than it, whose object was not found either, was told that the bucket exists:
    a missing or unreachable bucket is an error, never an absence. A failed
    bucket check is not remembered, a definite one is, so that later
    not-found probes do not ask again. *)
Theorem s3_absent_needs_a_present_bucket {client} (s : Sink client) ps : bucketChecked s = false →
  (∀ k, (run_probes s ps).2 !! k = Some (false, None) →
     ∃ p, ps !! k = Some p ∧ not_found s p = true ∧
     ∃ q, q ∈ take (S k) ps ∧ not_found s q = true ∧ bucket_answer s q = inl true) ∧
  ((∀ p, p ∈ ps → not_found s p = true → ∃ e, bucket_answer s p = inr e) → bucketChecked (run_probes s ps).1 = false) ∧
  (bucketChecked (run_probes s ps).1 = true →
     ∀ w wb wb' hash, Exists_ w wb (run_probes s ps).1 hash = Exists_ w wb' (run_probes s ps).1 hash ∧
       (Exists_ w wb (run_probes s ps).1 hash).1 = (run_probes s ps).1).
Proof.
  intros Hs. assert (cache_ok s []) as Hok by (intros Hc; congruence). split_and!.
  - intros k Hk. destruct (run_probes_spec s ps [] k _ Hok Hk eq_refl) as (p & Hp & Hnf & q & Hq & Hr).
    exists p. split_and!; [done|done|]. exists q. destruct Hq as [Hq|Hq]; [by apply not_elem_of_nil in Hq|done].
  - intros Hall. destruct (run_probes_cache s ps [] Hok) as [Hst Hfin]. apply not_true_iff_false. intros Hc.
    destruct (Hfin Hc) as (p & Hp & Hnf & Ha). destruct (same_target_cache _ _ p Hst) as [H1 H2].
    rewrite H1 in Hnf. destruct (Hall p Hp Hnf) as [e He]. rewrite H2, He in Ha. by destruct (bucketGone _).
  - intros Hc w wb wb' hash. by apply Exists_cached.
Qed.

Definition ex_404 : apiErr := MkApiErr 404 "NoSuchKey" (Msg "not found").
Definition ex_api (present : bool + err) : api unit :=
  MkApi (λ _ _ _, Some ex_404) (λ _ _, present) (λ _ _, inl ("Enabled", Some "COMPLIANCE")) (λ _ _, inl true)
    (λ _ _ _, inr (Msg "not found")) (λ _ _ _, Some ex_404) (λ _ _ _ _, []).

Lemma s3_absent_needs_a_present_bucket_witness :
  let gone := MkProbe ex_hash (ex_api (inl false)) (ex_api (inr (Msg "timeout"))) in
  let there := MkProbe ex_hash (ex_api (inl true)) (ex_api (inl true)) in
  (run_probes ex_sink [gone; there; gone]).2 !! 1 = Some (false, None) ∧
  (run_probes ex_sink [gone; there; gone]).2 !! 0 ≠ Some (false, None) ∧
  bucketChecked (run_probes ex_sink [gone]).1 = false.
Proof.
  cbv zeta. split; [vm_compute; reflexivity|]. split; [vm_compute; discriminate|].
  apply (s3_absent_needs_a_present_bucket ex_sink); [reflexivity|].
  intros p Hp _. apply list_elem_of_singleton in Hp as ->. by eexists.
Defined.

(** *** The drift check *)

(** The bucket's lock configuration as the audit credential reads it. *)
Definition lock_enforced {client} (w : api client) (s : Sink client) : Prop :=
  ∃ status mode, GetObjectLockConfig w (readClient s) (bucket s) = inl (status, Some mode) ∧
    EqualFold status "Enabled" = true ∧ mode ≠ "".

Definition lock_lost {client} (w : api client) (s : Sink client) : Prop :=
  (∃ e, GetObjectLockConfig w (readClient s) (bucket s) = inr e ∧ isObjectLockNotFound e = true) ∨
  (∃ status mode, GetObjectLockConfig w (readClient s) (bucket s) = inl (status, mode) ∧
     (EqualFold status "Enabled" = false ∨ mode = None ∨ mode = Some "")).

Definition lock_unread {client} (w : api client) (s : Sink client) : Prop :=
  ∃ e, GetObjectLockConfig w (readClient s) (bucket s) = inr e ∧ isObjectLockNotFound e = false.

(** The sink as the audit sees it. *)
Definition worm_target {client} (w wv : api client) (s : Sink client) : Verdict.Target :=
  Verdict.MkTarget (Some (Verdict.MkSink (name s) (Some (Returns (ImmutabilityReadable s)))
    (Some (Returns (CheckImmutability w wv s))))) true.

Lemma CheckImmutability_cases {client} (w wv : api client) s :
  match CheckImmutability w wv s with
  | (lock, ver, None) =>
      (lock = true ∧ lock_enforced w s ∧ GetBucketVersioning wv (readClient s) (bucket s) = inl ver) ∨
      (lock = false ∧ lock_lost w s)
  | (_, _, Some _) =>
      lock_unread w s ∨ (lock_enforced w s ∧ ∃ e, GetBucketVersioning wv (readClient s) (bucket s) = inr e)
  end.
Proof.
  unfold CheckImmutability, lock_enforced, lock_lost, lock_unread.
  destruct (GetObjectLockConfig _ _ _) as [[status mode]|e] eqn:El.
  2:{ destruct (isObjectLockNotFound e) eqn:Ee; [right; split; [done|]; left|left]; by exists e. }
  destruct (EqualFold status "Enabled") eqn:Es; cbn [negb].
  2:{ right. split; [done|]. right. exists status, mode. by split; [|left]. }
  destruct mode as [mode|].
  2:{ right. split; [done|]. right. exists status, None. split; [done|]. by right; left. }
  destruct (decide (mode = "")) as [->|Hm].
  { right. split; [done|]. right. exists status, (Some ""). split; [done|]. by right; right. }
  rewrite bool_decide_eq_false_2, bool_decide_eq_false_2 by congruence. cbn [orb].
  destruct (GetBucketVersioning _ _ _) as [b|e] eqn:Ev.
  - left. split_and!; [done| |done]. by exists status, mode.
  - right. split; [by exists status, mode|by exists e].
Qed.

Lemma lock_exclusive {client} (w : api client) s :
  (lock_enforced w s → ¬ lock_lost w s ∧ ¬ lock_unread w s) ∧ (lock_lost w s → ¬ lock_unread w s).
Proof.
  unfold lock_enforced, lock_lost, lock_unread. split.
  - intros (st & m & Hl & Hs & Hm). split; [|intros (e & He & _); congruence].
    intros [(e & He & _)|(st' & m' & He & Hd)]; [congruence|]. rewrite Hl in He. simplify_eq.
    destruct Hd as [?|[?|?]]; congruence.
  - intros [(e & He & H)|(st & m & He & _)] (e' & He' & H'); congruence.
Qed.

(** The S3 drift check says what the bucket enforces. For a target expected to
    be immutable, with a live context: without an audit credential the verdict
    is no-data; with one it is Verified exactly when object lock is enabled with
    a default retention mode and versioning is on, Drift exactly when the lock
    is definitely lost (whatever the versioning read gives) or versioning is
    definitely off, and Unverifiable exactly when what decides could not be
    read. *)
Theorem s3_immutability_exact {client} (w wv : api client) s :
  let versioning := GetBucketVersioning wv (readClient s) (bucket s) in
  ∃ v, Verdict.immutabilityProbe None (worm_target w wv s) = Returns v ∧
    (auditClient s = None → Verdict.v_Status v = Verdict.StatusNoData) ∧
    (auditClient s ≠ None →
      (Verdict.v_Status v = Verdict.StatusVerified ↔ lock_enforced w s ∧ versioning = inl true) ∧
      (Verdict.v_Status v = Verdict.StatusDrift ↔ lock_lost w s ∨ (lock_enforced w s ∧ versioning = inl false)) ∧
      (Verdict.v_Status v = Verdict.StatusUnverifiable ↔
         lock_unread w s ∨ (lock_enforced w s ∧ ∃ e, versioning = inr e))).
Proof.
  cbv zeta. unfold Verdict.immutabilityProbe, worm_target, Verdict.targetUnverifiableExempt, ImmutabilityReadable.
  cbn [Verdict.t_sink mbind option_bind Verdict.k_immutability Verdict.k_readable Verdict.t_worm negb].
  destruct (auditClient s) as [a|] eqn:Ea.
  2:{ rewrite bool_decide_eq_false_2 by (intros [? ?]; done). cbn [negb]. eexists. split_and!; [done|done|done]. }
  rewrite bool_decide_eq_true_2 by done. cbn [negb]. pose proof (CheckImmutability_cases w wv s) as Hc.
  destruct (lock_exclusive w s) as [Hx1 Hx2].
  destruct (CheckImmutability w wv s) as [[lock ver] [e|]]; eexists; (split; [reflexivity|]); (split; [done|]); intros _.
  - rewrite cancelledInFlight_live. cbn. split_and!; [| |done]; (split; [done|]).
    + intros [He Hv]. destruct Hc as [Hu|[_ [x Hx]]]; [by apply Hx1 in He as [_ ?]|congruence].
    + intros Hd. destruct Hc as [Hu|[He [x Hx]]]; [|destruct Hd as [Hl|[_ Hv]]; [by apply Hx1 in He as [? _]|congruence]].
      destruct Hd as [Hl|[He _]]; [by apply Hx2 in Hl|by apply Hx1 in He as [_ ?]].
  - destruct Hc as [(-> & He & Hv)|(-> & Hl)].
    + destruct (Hx1 He) as [Hnl Hnu]. destruct ver; cbn; split_and!; (split; [by auto|]); try done.
      * intros [?|[_ ?]]; [done|congruence].
      * intros [?|[_ [x ?]]]; [done|congruence].
      * intros [_ ?]. congruence.
      * intros [?|[_ [x ?]]]; [done|congruence].
    + cbn. split_and!; (split; [by auto|]); try done.
      * intros [He _]. by apply Hx1 in He as [? _].
      * intros [?|[He _]]; [by apply Hx2 in Hl|by apply Hx1 in He as [? _]].
Qed.

(** *** The newest manifest *)

(** The client's own errors do not claim that a file does not exist. *)
Definition tidy {client} (w : api client) : Prop :=
  (∀ c b e, BucketExists w c b = inr e → Is e ErrNotExist = false) ∧
  (∀ c b k e, GetObject w c b k = inr e → Is e ErrNotExist = false) ∧
  (∀ c b k e, ObjectStat w c b k = Some e → Is (a_err e) ErrNotExist = false) ∧
  (∀ c b p a e, inr e ∈ ListObjects w c b p a → Is e ErrNotExist = false).

Lemma bucketPresent_None {client} (w : api client) s : bucketPresentUncached w s = None ↔
  BucketExists w (readClient s) (bucket s) = inl true.
Proof. unfold bucketPresentUncached, bucketState. destruct (BucketExists _ _ _) as [[]|e]; done. Qed.

Lemma bucketPresent_real {client} (w : api client) s e : tidy w → bucketPresentUncached w s = Some e → Is e ErrNotExist = false.
Proof.
  intros (Hb & _). unfold bucketPresentUncached, bucketState. destruct (BucketExists _ _ _) as [[]|x] eqn:E; [done|by intros [= <-]|].
  intros [= <-]. rewrite Is_Wrap1. by eapply Hb.
Qed.

Lemma collect_names_real objs acc e : collect_names objs acc = inr e → ∃ x, inr x ∈ objs ∧ e = Wrap "list manifests" [x].
Proof.
  revert acc. induction objs as [|[k|x] objs IH]; intros acc; cbn; [done| |].
  - intros (x & Hx & ->)%IH. exists x. split; [by right|done].
  - intros [= <-]. exists x. split; [by left|done].
Qed.

(** A vanished bucket is never "no manifest yet". When [LatestManifest] reports
    that no manifest exists, the bucket was there when it started, a full
    listing succeeded, and every manifest it listed was gone from a bucket that
    was still there; any other failure is an error of its own, which the audit
    reports as unverifiable. *)
Theorem s3_vanished_bucket_is_an_error {client} (w0 wp : api client) wl wo wb s e :
  tidy w0 → (∀ n, tidy (wl n) ∧ tidy (wo n) ∧ tidy (wb n)) →
  LatestManifest w0 wp wl wo wb s = inr e → Is e ErrNotExist = true →
  BucketExists w0 (readClient s) (bucket s) = inl true ∧
  ∃ names, listManifestNamesAfter (wl "") s "" = inl names ∧
    ∀ n, n ∈ names → Manifest.IsTimestampedManifest n = true →
      BucketExists (wb n) (readClient s) (bucket s) = inl true ∧
      ∃ x, ObjectStat (wo n) (readClient s) (bucket s) (prefixed s (ManifestKey n)) = Some x ∧ isNoSuchKey x = true.
Proof.
  intros Ht0 Ht Hl He. unfold LatestManifest in Hl. destruct (bucketPresentUncached w0 s) as [x|] eqn:E0.
  { simplify_eq. apply bucketPresent_real in E0; [congruence|done]. }
  split; [by apply bucketPresent_None|].
  destruct (Manifest.OpenLatestManifest_ErrNotExist _ _ _ _ Hl He) as (names & Hn & Hall).
  { intros after x (y & Hy & ->)%collect_names_real. rewrite Is_Wrap1. destruct (Ht after) as ((_ & _ & _ & Hlo) & _). by eapply Hlo. }
  exists names. split; [done|]. intros n Hin Hts. destruct (Hall n Hin Hts) as (x & Ho & Hx). unfold openManifest in Ho.
  destruct (Ht n) as (_ & (_ & Hg & Hos & _) & Htb).
  destruct (GetObject (wo n) _ _ _) as [obj|y] eqn:Eg; [|simplify_eq; rewrite Is_Wrap1, (Hg _ _ _ _ Eg) in Hx; done].
  destruct (ObjectStat (wo n) _ _ _) as [y|] eqn:Es; [|done]. destruct (isNoSuchKey y) eqn:Ek.
  - destruct (bucketPresentUncached (wb n) s) eqn:Eb; [|split; [by apply bucketPresent_None|eauto]].
    simplify_eq. apply bucketPresent_real in Eb; [congruence|done].
  - simplify_eq. rewrite Is_Wrap1, (Hos _ _ _ _ Es) in Hx. done.
Qed.

Lemma ex_api_tidy b : b ≠ inr (Sent ErrNotExist) → (∀ e, b = inr e → Is e ErrNotExist = false) → tidy (ex_api b).
Proof.
  intros _ Hb. unfold tidy. cbn. split_and!; [intros _ _ e; apply Hb|by intros _ _ _ e [= <-]|by intros _ _ _ e [= <-]|].
  intros _ _ _ _ e He. by apply not_elem_of_nil in He.
Qed.

Lemma s3_vanished_bucket_is_an_error_witness :
  LatestManifest (ex_api (inl true)) (ex_api (inl true)) (λ _, ex_api (inl true)) (λ _, ex_api (inl true)) (λ _, ex_api (inl true)) ex_sink
    = inr (Wrap "no manifest" [Sent ErrNotExist]) ∧
  BucketExists (ex_api (inl true)) (readClient ex_sink) (bucket ex_sink) = inl true ∧
  (∀ e, LatestManifest (ex_api (inl false)) (ex_api (inl true)) (λ _, ex_api (inl true)) (λ _, ex_api (inl true)) (λ _, ex_api (inl true)) ex_sink
    = inr e → Is e ErrNotExist = false).
Proof.
  split; [vm_compute; reflexivity|]. assert (∀ b, tidy (ex_api (inl b))) as Ht by (intros b; by apply ex_api_tidy).
  split.
  - apply (s3_vanished_bucket_is_an_error (ex_api (inl true)) (ex_api (inl true)) (λ _, ex_api (inl true)) (λ _, ex_api (inl true))
      (λ _, ex_api (inl true)) ex_sink (Wrap "no manifest" [Sent ErrNotExist])); [apply Ht|intros _; split_and!; apply Ht|vm_compute; reflexivity..].
  - intros e Hl. vm_compute in Hl. by injection Hl as <-.
Defined.

End S3Sink.
