(* ===== verification/Bucket.v ===== *)
(** * The bucket behind the S3 sink

    A refinement: the operations of [s3.go] on one flat key space implement a
    target that keeps objects, manifests and the pointer apart. The abstract
    target says what each write may do to it (a write that reports success has
    happened; one that reports failure has happened or not, but only whole), and
    the reads of the sink ([Exists], [Fetch], [LatestManifest]) answer from it.

    The bucket is a map from keys to bytes that the service serves faithfully
    ([bucket_api]); each write may be served by its own client behaviour, as
    long as it keeps the contract [PutLaws]. *)

From S2P Require Import Prelude GoText GoRuntime Keyset Ledger Stream Fanout Manifest Layout Target S3Sink.
From Stdlib Require Import ZArith Lia.
From Stdlib Require Import Strings.Ascii Strings.String.
From stdpp Require Import base gmap strings list numbers.

Module Bucket.
Import GoText(Join, join, plain, append_assoc, render, is_rooted, kept) Stream Fanout Layout Target S3Sink.

(** ** Writes *)

(** The client's uploads during one write. *)
Record uploads := MkUp {
  up_put : unit → string → string → sinkprog;
  up_empty : unit → string → string → goerr * option bytes;
  up_laws : PutLaws up_put up_empty;
}.

Definition put (st : gmap string bytes) (k : string) (blob : option bytes) : gmap string bytes :=
  match blob with Some b => <[k := b]> st | None => st end.

(** One write of the sink on the bucket, and whether it reported success. *)
Definition cstep (fuel : nat) (s : Sink unit) (st : gmap string bytes) (o : op) (u : uploads) : gmap string bytes * bool :=
  match o with
  | OStore hash d broken =>
      let out := run_sink (Store (up_put u) (up_empty u) fuel s hash) (stream d broken) false in
      (put st (key s hash) (so_blob out),
       match so_result out with Returns r => bool_decide (r_err r = None) | Panics _ => false end)
  | OManifest t d broken =>
      let n := Manifest.FormatManifestName t in
      let '(r, mb, lb) := PutManifest (up_put u) (up_empty u) fuel s n (stream d broken) in
      (put (put st (prefixed s (ManifestKey n)) mb) (prefixed s ManifestLatestKey) lb, returned_ok r)
  | OProbe nanos rand =>
      (put st (prefixed s (PreflightKey nanos rand)) (up_empty u tt (bucket s) (prefixed s (PreflightKey nanos rand))).2,
       bool_decide (Preflight (up_empty u) s nanos rand = None))
  end.

Fixpoint crun (fuel : nat) (s : Sink unit) (st : gmap string bytes) (ops : list (op * uploads)) : gmap string bytes * list bool :=
  match ops with
  | [] => (st, [])
  | (o, u) :: ops =>
      let '(st1, ok) := cstep fuel s st o u in
      let '(st2, oks) := crun fuel s st1 ops in (st2, ok :: oks)
  end.

(** ** Reads *)

Definition missing : apiErr := MkApiErr 404 "NoSuchKey" (Msg "The specified key does not exist.").

(** The service over a bucket that exists and is served faithfully. *)
Definition bucket_api (st : gmap string bytes) : api unit :=
  let stat k := match st !! k with Some _ => None | None => Some missing end in
  MkApi (λ _ _ k, stat k) (λ _ _, inl true) (λ _ _, inr missing) (λ _ _, inl false)
    (λ _ _ k, inl (match st !! k with Some b => (b, None) | None => ([], Some (Msg "The specified key does not exist.")) end))
    (λ _ _ k, stat k)
    (λ _ _ pre startAfter, inl <$> List.filter (λ k, String.prefix pre k && str_ltb startAfter k)
       (Ledger.sort_ids (map_to_list st).*1)).

Definition open_latest (s : Sink unit) (st : gmap string bytes) : body + err :=
  LatestManifest (bucket_api st) (bucket_api st) (λ _, bucket_api st) (λ _, bucket_api st) (λ _, bucket_api st) s.

(** The sink's reads, of a sink that has not cached a bucket verdict. *)
Definition s3_reads (s : Sink unit) (st : gmap string bytes) : reads :=
  MkReads (λ hash, (Exists_ (bucket_api st) (bucket_api st) s hash).2) (Fetch (bucket_api st) s) (open_latest s st).

(** ** The simulation *)

Definition ikey (s : Sink unit) (i : item) : string := placed (prefix s) i.

Record R (s : Sink unit) (st : gmap string bytes) (a : target) : Prop := {
  R_held : ∀ i, well_named i → tracked i = true → st !! ikey s i = held a i;
  R_keys : ∀ k, is_Some (st !! k) → ∃ i, well_named i ∧ k = ikey s i;
  R_names : ∀ n, is_Some (manifests a !! n) → Manifest.IsTimestampedManifest n = true;
}.

Lemma B_empty s : R s ∅ empty_target.
Proof.
  split; cbn.
  - intros [| | |] _ _; cbn; by rewrite ?lookup_empty.
  - intros k [? Hk]. by rewrite lookup_empty in Hk.
  - intros n [? Hn]. by rewrite lookup_empty in Hn.
Qed.

(** Writing the blob of one item changes that item and nothing else. *)
Lemma B_put s st a a' i d : R s st a → well_named i →
  (∀ j, j ≠ i → held a' j = held a j) → (tracked i = true → held a' i = Some d) →
  (∀ n, is_Some (manifests a' !! n) → Manifest.IsTimestampedManifest n = true) →
  R s (<[ikey s i := d]> st) a'.
Proof.
  intros [Hh Hk _] Hi Hother Hself Hn. split; [| |done].
  - intros j Hj Htj. destruct (decide (ikey s i = ikey s j)) as [He|He].
    + apply placed_inj in He as ->; [|done..]. by rewrite lookup_insert_eq, Hself.
    + rewrite lookup_insert_ne by done. rewrite Hh by done. symmetry. apply Hother. by intros ->.
  - intros k [b Hb]. destruct (decide (ikey s i = k)) as [<-|He]; [eauto|]. rewrite lookup_insert_ne in Hb by done. eauto.
Qed.

Lemma B_store s st a hash d : R s st a → ValidateContentHash hash = None →
  R s (<[key s hash := d]> st) (MkTgt (<[hash := d]> (objects a)) (manifests a) (latest a)).
Proof.
  intros HR Hv. apply (B_put s st a _ (IObject hash)); [done|done| | |apply HR].
  - intros [h| | |] Hne; cbn; try done. rewrite lookup_insert_ne; [done|]. by intros ->.
  - intros _. cbn. by rewrite lookup_insert_eq.
Qed.

Lemma B_manifest s st a n d : R s st a → well_named (IManifest n) →
  R s (<[prefixed s (ManifestKey n) := d]> st) (MkTgt (objects a) (<[n := d]> (manifests a)) (latest a)).
Proof.
  intros HR Hv. apply (B_put s st a _ (IManifest n)); [done|done| | |].
  - intros [|m| |] Hne; cbn; try done. rewrite lookup_insert_ne; [done|]. by intros ->.
  - intros _. cbn. by rewrite lookup_insert_eq.
  - intros m [b Hm]. cbn in Hm. destruct (decide (n = m)) as [<-|Hne]; [done|]. rewrite lookup_insert_ne in Hm by done.
    apply (R_names s st a HR). by eexists.
Qed.

Lemma B_latest s st a d : R s st a →
  R s (<[prefixed s ManifestLatestKey := d]> st) (MkTgt (objects a) (manifests a) (Some d)).
Proof.
  intros HR. apply (B_put s st a _ ILatest); [done|done| |done|apply HR]. by intros [| | |] Hne.
Qed.

Lemma B_probe s st a nanos rand d : R s st a → R s (<[prefixed s (PreflightKey nanos rand) := d]> st) a.
Proof. intros HR. apply (B_put s st a _ (IProbe nanos rand)); [done|done|done|done|apply HR]. Qed.

Lemma put_stream_obeys u fuel s k : obeys [] (putStream (up_put u) (up_empty u) fuel s k).
Proof. destruct u as [pu pe Hl]. apply (putStream_obeys pu pe). Qed.

(** The pointer is written whole, or not at all. *)
Lemma B_pointer s st a n mb : R s st a → mb = None ∨ mb = Some (bytes_of_string n) →
  ∃ l, (l = latest a ∨ l = Some (bytes_of_string n)) ∧
    R s (put st (prefixed s ManifestLatestKey) mb) (MkTgt (objects a) (manifests a) l).
Proof.
  intros HR [->| ->]; cbn [put].
  - exists (latest a). split; [by left|]. by destruct a.
  - exists (Some (bytes_of_string n)). split; [by right|]. by apply B_latest.
Qed.

Lemma cstep_manifest fuel s st a t d broken u : R s st a → wf_op (OManifest t d broken) →
  let '(st', ok) := cstep fuel s st (OManifest t d broken) u in ∃ a', astep a (OManifest t d broken) ok a' ∧ R s st' a'.
Proof.
  intros HR [Ht Hb]. set (n := Manifest.FormatManifestName t). pose proof (FormatManifestName_well_named t Ht) as Hn. fold n in Hn.
  cbn [cstep]. fold n. unfold PutManifest.
  pose proof (upload_cases _ d broken (put_stream_obeys u fuel s (prefixed s (ManifestKey n))) Hb) as Hup. cbv zeta in Hup.
  set (m := run_sink (putStream _ _ fuel s (prefixed s (ManifestKey n))) _ false) in *. destruct Hup as [Hblob Hok].
  assert (∀ ok lb, (lb = None ∨ (so_blob m ≠ None ∧ lb = Some (bytes_of_string n))) → (ok = true → so_blob m ≠ None) →
    ∃ a', astep a (OManifest t d broken) ok a' ∧
      R s (put (put st (prefixed s (ManifestKey n)) (so_blob m)) (prefixed s ManifestLatestKey) lb) a') as Hgoal.
  { intros ok lb Hlb Hm. destruct Hblob as [E|[-> E]]; rewrite E in *; cbn [put].
    - destruct Hlb as [->|[? _]]; [|done]. destruct ok; [by destruct Hm|]. exists a. split; [constructor|done].
    - destruct (B_pointer s (<[prefixed s (ManifestKey n) := d]> st) (MkTgt (objects a) (<[n := d]> (manifests a)) (latest a)) n lb)
        as (l & Hl & HR'); [by apply B_manifest|naive_solver|]. cbn [objects manifests latest] in Hl, HR'.
      exists (MkTgt (objects a) (<[n := d]> (manifests a)) l). split; [|exact HR']. by apply as_manifest. }
  destruct (so_result m) as [mr|x] eqn:Er; [|by apply Hgoal; [left|]].
  destruct (r_err mr) as [e|] eqn:Ee; [by apply Hgoal; [left|]|].
  destruct (Hok mr eq_refl Ee) as [-> Hbm].
  pose proof (upload_cases _ (bytes_of_string n) None (put_stream_obeys u fuel s (prefixed s ManifestLatestKey)) eq_refl) as Hpt.
  cbv zeta in Hpt. change (stream (bytes_of_string n) None) with [RData (bytes_of_string n) None] in Hpt.
  set (l := run_sink (putStream _ _ fuel s (prefixed s ManifestLatestKey)) _ false) in *.
  destruct Hpt as [Hl _]. assert (so_blob m ≠ None) as Hne by congruence.
  destruct (so_result l); apply Hgoal; try (intros; done); naive_solver.
Qed.

Lemma cstep_sim fuel s st a o u : R s st a → wf_op o →
  let '(st', ok) := cstep fuel s st o u in ∃ a', astep a o ok a' ∧ R s st' a'.
Proof.
  intros HR Ho. destruct o as [hash d broken|t d broken|nanos rand]; [|by apply cstep_manifest|].
  - destruct Ho as [Hv Hb]. cbn [cstep].
    destruct (upload_cases _ d broken (put_stream_obeys u fuel s (key s hash)) Hb) as [Hblob Hok].
    fold (Store (up_put u) (up_empty u) fuel s hash) in Hblob, Hok.
    set (out := run_sink _ _ _) in *. destruct Hblob as [E|[-> E]]; rewrite E; cbn [put].
    + exists a. split; [|done]. destruct (so_result out) as [r|x]; [|constructor].
      case_bool_decide as Hn; [|constructor]. destruct (Hok r eq_refl Hn) as [_ ?]. congruence.
    + eexists. split; [apply as_store|]. by apply B_store.
  - cbn [cstep]. unfold Preflight. destruct (up_empty u tt (bucket s) _) as [[e|] blob] eqn:Eu.
    all: destruct s as [nm [] au bk pf ps se bc bg]; cbn [bucket prefixed client_ prefix] in *; rewrite Eu; cbn [snd].
    all: eexists a; (split; [constructor|]); destruct blob; cbn [put]; [by apply B_probe|done].
Qed.

Lemma crun_sim fuel s ops st a : R s st a → Forall wf_op ops.*1 →
  ∃ a', arun a ops.*1 (crun fuel s st ops).2 a' ∧ R s (crun fuel s st ops).1 a'.
Proof.
  revert st a. induction ops as [|[o u] ops IH]; intros st a HR Hw; [exists a; split; [constructor|done]|].
  apply list.Forall_cons in Hw as [Ho Hw]. pose proof (cstep_sim fuel s st a o u HR Ho) as Hs. cbn [crun].
  destruct (cstep fuel s st o u) as [st1 ok]. destruct Hs as (a1 & Ha1 & HR1). destruct (IH st1 a1 HR1 Hw) as (a2 & Ha2 & HR2).
  destruct (crun fuel s st1 ops) as [st2 oks]. exists a2. split; [by econstructor|done].
Qed.

(** ** The listing *)

Lemma manifest_keys s : ∃ M, prefixed s ManifestDir +:+ "/" = M ∧
  (∀ n, plain n = true → prefixed s (ManifestKey n) = M +:+ n) ∧
  prefixed s ManifestLatestKey = M +:+ manifestLatestName ∧
  (∀ i, well_named i → String.prefix M (ikey s i) = bool_decide (is_Some (manifest_name i))).
Proof. apply placed_manifests. Qed.

Lemma collect_names_map ks acc : collect_names (inl <$> ks) acc = inl (acc ++ (GoText.Base <$> ks)).
Proof.
  revert acc. induction ks as [|k ks IH]; intros acc; cbn [fmap list_fmap collect_names]; [by rewrite app_nil_r|].
  rewrite IH. by rewrite <- app_assoc.
Qed.

(** The manifest names of a bucket, the pointer's included. *)
Definition names_of (s : Sink unit) (st : gmap string bytes) : list string :=
  GoText.Base <$> List.filter (λ k, String.prefix (prefixed s ManifestDir +:+ "/") k) (Ledger.sort_ids (map_to_list st).*1).

Lemma keys_elem (st : gmap string bytes) k : k ∈ Ledger.sort_ids (map_to_list st).*1 ↔ is_Some (st !! k).
Proof.
  rewrite Ledger.sort_ids_Permutation, list_elem_of_fmap. split.
  - intros ([k' b] & -> & Hb). apply elem_of_map_to_list in Hb. by eexists.
  - intros [b Hb]. exists (k, b). split; [done|]. by apply elem_of_map_to_list.
Qed.

(** A key under the manifest prefix is that prefix and a plain name. *)
Lemma manifest_key_shape s st a k : R s st a → is_Some (st !! k) → String.prefix (prefixed s ManifestDir +:+ "/") k = true →
  ∃ i n, well_named i ∧ manifest_name i = Some n ∧ k = ikey s i ∧ k = (prefixed s ManifestDir +:+ "/") +:+ n ∧ GoText.Base k = n.
Proof.
  intros HR Hk Hp. destruct (R_keys s st a HR k Hk) as (i & Hi & ->). destruct (manifest_keys s) as (M & HM & Hkey & Hlat & Hpre).
  rewrite HM in *. rewrite (Hpre i Hi) in Hp.
  assert (∃ n, manifest_name i = Some n ∧ ikey s i = M +:+ n) as (n & Hn & Hin).
  { destruct i as [h|n| |]; [done| | |done]; eexists; (split; [done|]); [|exact Hlat].
    apply Hkey. by apply timestamped_plain. }
  exists i, n. split_and!; [done..|]. rewrite Hin, <- HM, append_assoc. apply Base_app. by eapply manifest_name_plain.
Qed.

Lemma bucket_listing s st a after : R s st a → after = "" ∨ Manifest.IsTimestampedManifest after = true →
  listManifestNamesAfter (bucket_api st) s after = inl (List.filter (λ n, str_ltb after n) (names_of s st)).
Proof.
  intros HR Hafter. unfold listManifestNamesAfter, names_of. cbn [ListObjects bucket_api]. rewrite collect_names_map. cbn [app].
  f_equal. set (M := prefixed s ManifestDir +:+ "/").
  set (sa := if bool_decide (after ≠ "") then prefixed s (ManifestKey after) else "").
  assert (∀ n, plain n = true → str_ltb sa (M +:+ n) = str_ltb after n) as Hlt.
  { intros n Hn. destruct (manifest_keys s) as (M' & HM & Hkey & _). fold M in HM. subst M'. unfold sa. case_bool_decide as He.
    - destruct Hafter as [?|Ht]; [done|]. rewrite Hkey by (by apply timestamped_plain). apply str_ltb_prefix.
    - destruct (decide (after = "")) as [->|]; [|done]. apply GoText.plain_spec in Hn as [Hn _].
      rewrite !Keyset.str_ltb_empty by (first [done|by destruct M, n]). done. }
  assert (Forall (λ k, is_Some (st !! k)) (Ledger.sort_ids (map_to_list st).*1)) as Hall.
  { apply list.Forall_forall. intros k Hk. by apply keys_elem. }
  induction Hall as [|k ks Hk Hks IH]; [done|]. cbn [List.filter]. destruct (String.prefix M k) eqn:Ep; cbn [andb]; [|exact IH].
  destruct (manifest_key_shape s st a k HR Hk Ep) as (i & n & Hi & Hn & _ & Hkn & Hb). fold M in Hkn.
  cbn [fmap list_fmap List.filter]. rewrite Hb. rewrite Hkn at 1. rewrite Hlt by (by eapply manifest_name_plain).
  destruct (str_ltb after n); cbn [fmap list_fmap]; [by rewrite Hb; f_equal|done].
Qed.

Lemma names_of_elem s st a n : R s st a → Manifest.IsTimestampedManifest n = true →
  n ∈ names_of s st ↔ is_Some (manifests a !! n).
Proof.
  intros HR Hn. assert (well_named (IManifest n)) as Hw by done. change (manifests a !! n) with (held a (IManifest n)). rewrite <- (R_held s st a HR (IManifest n) Hw eq_refl).
  unfold names_of. rewrite list_elem_of_fmap. split.
  - intros (k & Hnk & Hk). apply list_elem_of_In, List.filter_In in Hk as [Hk Hp]. apply list_elem_of_In, keys_elem in Hk.
    destruct (manifest_key_shape s st a k HR Hk Hp) as (i & m & Hi & Him & Hki & _ & Hb).
    assert (m = n) as -> by congruence. assert (i = IManifest n) as ->; [|by rewrite <- Hki].
    destruct i as [|x| |]; cbn in Him; [done|congruence| |done]. injection Him as <-. done.
  - intros Hk. destruct (manifest_keys s) as (M & HM & Hkey & _ & Hpre). exists (ikey s (IManifest n)).
    assert (String.prefix (prefixed s ManifestDir +:+ "/") (ikey s (IManifest n)) = true) as Hp by (by rewrite HM, Hpre).
    split.
    + destruct (manifest_key_shape s st a _ HR Hk Hp) as (i & m & Hi & Hm & Hik & _ & Hb). rewrite Hb.
      symmetry in Hik. apply placed_inj in Hik as ->; [by injection Hm|done..].
    + apply list_elem_of_In, List.filter_In. split; [|done]. by apply list_elem_of_In, keys_elem.
Qed.


Definition vanished : err := Wrap "manifest vanished" [Sent ErrNotExist].

Lemma openManifest_held s st a n : R s st a → Manifest.IsTimestampedManifest n = true →
  openManifest (bucket_api st) (bucket_api st) s n =
    match manifests a !! n with Some d => inl (d, None) | None => inr vanished end.
Proof.
  intros HR Hn. pose proof (R_held s st a HR (IManifest n) Hn eq_refl) as Hh.
  change (st !! prefixed s (ManifestKey n) = manifests a !! n) in Hh.
  unfold openManifest. cbn [GetObject ObjectStat bucket_api]. rewrite Hh. by destruct (manifests a !! n).
Qed.

Lemma B_reads s st a : bucketChecked s = false → R s st a → answers (s3_reads s st) a.
Proof.
  intros Hc HR. split.
  - intros hash Hv. pose proof (R_held s st a HR (IObject hash) Hv eq_refl) as Hh.
    change (st !! key s hash = objects a !! hash) in Hh. cbn [s3_reads rd_exists rd_fetch]. split.
    + unfold Exists_, confirmBucket. cbn [StatObject bucket_api]. rewrite Hh, Hc. by destruct (objects a !! hash).
    + intros d Hd. unfold Fetch. cbn [GetObject bucket_api]. by rewrite Hh, Hd.
  - cbn [s3_reads rd_latest]. unfold open_latest, LatestManifest.
    change (bucketPresentUncached (bucket_api st) s) with (@None err). cbv beta iota.
    apply (latest_answers a (names_of s st) vanished); [apply HR| |done| |].
    + intros n Hn. by apply names_of_elem.
    + intros after Hafter. by eapply bucket_listing.
    + intros n Hn. by apply openManifest_held.
Qed.

(** ** Property *)

(** C10: a bucket written by the sink is a target. Run any sequence of stores,
    manifest writes and probes on an empty bucket, their streams ending or
    breaking off and their uploads succeeding or failing in any way their
    contract allows: there is a run of the abstract target with the same
    outcomes, in which every write that reported success happened and every
    other one happened whole or not at all, and afterwards [Exists] and [Fetch]
    answer for each object, and [LatestManifest] opens the newest manifest of
    that target, whatever the pointer says. *)
Theorem bucket_refines_target fuel s ops : bucketChecked s = false → Forall wf_op ops.*1 →
  let '(st, oks) := crun fuel s ∅ ops in
  ∃ a, arun empty_target ops.*1 oks a ∧ answers (s3_reads s st) a.
Proof.
  intros Hc Hw. destruct (crun_sim fuel s ops ∅ empty_target (B_empty s) Hw) as (a & Ha & HR).
  destruct (crun fuel s ∅ ops) as [st oks]. exists a. split; [done|by apply B_reads].
Qed.

Definition ex_up : uploads := MkUp ex_put ex_put_empty ex_put_laws.
Definition ex_old : Manifest.civil := Manifest.MkTime 2026 1 2 3 4 5 6.
Definition ex_new : Manifest.civil := Manifest.MkTime 2026 2 3 4 5 6 7.
Definition ex_ops : list (op * uploads) :=
  [(OManifest ex_new [Byte.x02] None, ex_up); (OStore ex_hash [Byte.x41; Byte.x42] None, ex_up);
   (OManifest ex_old [Byte.x01] None, ex_up); (OStore ex_hash [Byte.x43] (Some (Msg "reset")), ex_up)].

Lemma bucket_refines_target_witness :
  open_latest ex_sink (crun 4 ex_sink ∅ ex_ops).1 = inl ([Byte.x02], None) ∧
  Fetch (bucket_api (crun 4 ex_sink ∅ ex_ops).1) ex_sink ex_hash = inl ([Byte.x41; Byte.x42], None) ∧
  ∃ a, arun empty_target ex_ops.*1 [true; true; true; false] a ∧ answers (s3_reads ex_sink (crun 4 ex_sink ∅ ex_ops).1) a.
Proof.
  split; [vm_compute; reflexivity|]. split; [vm_compute; reflexivity|].
  assert (Forall wf_op ex_ops.*1) as Hw.
  { repeat constructor; try (vm_compute; reflexivity); unfold Manifest.valid_time; vm_compute; intuition congruence. }
  pose proof (bucket_refines_target 4 ex_sink ex_ops eq_refl Hw) as H.
  assert ((crun 4 ex_sink ∅ ex_ops).2 = [true; true; true; false]) as Ho by (vm_compute; reflexivity).
  destruct (crun 4 ex_sink ∅ ex_ops) as [st oks]. cbn in Ho. subst oks. exact H.
Defined.

End Bucket.
