(* ===== verification/EndToEnd.v ===== *)
(** * Backup, then restore

    The theorem the parts add up to: an object the ledger records on a target
    was committed there and restores from it. It composes the pipeline and the
    ledger interface (Pipeline.v), the verified fan-out and the sink contract
    (Fanout.v), the filesystem sink that discharges it (FsSink.v) and the
    hash-arbitrated decode (Restore.v), with the zstd pair as the interface
    [Restore.ZstdLaws]. *)

From S2P Require Import Prelude GoRuntime Ports Circuit Keyset Ledger Stream Fanout Pipeline Files Restore Inventory Manifest FsSink.
From Stdlib Require Import ZArith Lia.
From stdpp Require Import base gmap strings list numbers.

Module EndToEnd.
Import Ports Stream Fanout Pipeline Restore.

(** The bytes [blob] restore under the name [hash]: every undisturbed read of them,
    in whatever chunks, decodes to the end and has written a plaintext of that
    digest; it is [data] itself, unless [data] begins like a zstd frame and another
    plaintext of the same digest was found in it. *)
Definition restores `{Decoder} (sum : bytes → string) (blob : bytes) (hash : string) (data : bytes) : Prop :=
  ∀ dv, undisturbed dv → (∀ k, d_fault dv k = None) → serves dv blob (Sent EOF) →
    ∃ F0, ∀ F, F0 ≤ F → ∃ ops,
      decodeStreamInner sum dv F hash = Some (ops, Returns None) ∧
      sum (Files.written ops) = hash ∧
      (Files.written ops = data ∨ (take 4 data = zstdMagic ∧ Files.written ops ≠ data)).

(** An encoded plaintext restores under its digest. *)
Lemma encode_restores `{Decoder} `{Zstd} `{!ZstdLaws} sum codec data hash :
  sum data = hash → (Z.of_nat (length data) ≤ maxObjectBytes)%Z → restores sum (encode codec data) hash data.
Proof.
  intros Hs Hlen dv Hun Hnf Hsv. destruct (decode_roundtrip sum dv hash data codec Hs Hlen Hun Hnf Hsv) as [F0 HF0].
  exists F0. intros F HF. destruct (HF0 F HF) as (ops & Hd & Hdig & Hor). exists ops. split_and!; [done|done|].
  destruct Hor as [?|(_ & ? & ?)]; [by left|by right].
Qed.

(** C2: what is recorded restores. When a backup newly records an object on a
    target whose sink keeps its contract, that sink holds the encoding of a
    plaintext with the object's content hash, and any later read of those
    bytes, in whatever chunks they come, restores the object: the decode
    returns nil and has written a plaintext with that hash. *)
Theorem recorded_object_restores {L} `{Ledger.LedgerIface L} `{Decoder} `{Zstd} `{!ZstdLaws}
    p v (s : pstate (L := L)) e known o n :
  (∀ t, t ∈ Targets p → obeys [] (t_store t (ExternalID e))) →
  backupFrom p v s e known = Some o →
  n ∈ Ledger.lg_StoredTargets (ledger (o_state o)) (ExternalID e) →
  n ∉ Ledger.lg_StoredTargets (ledger s) (ExternalID e) →
  ∃ data blob, (n, Some blob) ∈ o_blobs o ∧ digest v data = ExternalID e ∧
    restores (digest v) blob (ExternalID e) data.
Proof.
  intros Hob Hb Hin Hni. apply backupFrom_ledger in Hb as [_ Hnew].
  destruct (Hnew _ n Hin) as [?|(_ & i & t & src & fo & pending & r & Hsub & Hf & Hfo & Hbl & Ht & Hr & He & Hn)]; [done|].
  destruct src as [rc|y]; [|unfold fanOut in Hfo; by simplify_eq].
  assert (t ∈ Targets p) as Hin'.
  { eapply elem_of_submseteq; [by eapply list_elem_of_lookup_2|by apply sublist_submseteq]. }
  destruct (fanOut_stored _ _ _ _ _ _ _ _ _ _ _ _ _ Hfo (goroutines_length v pending) Ht Hr He) as (_ & d0 & _ & _ & _ & Hcom).
  specialize (Hcom (Hob t Hin')).
  destruct (fanOut_blob _ _ _ _ _ _ _ _ _ _ _ _ _ Hfo (goroutines_length v pending) Ht (Hob t Hin') Hcom)
    as (data & Henc & Hs & _ & Hlen).
  exists data, (encode (t_codec t) data). rewrite <- Henc at 1. split_and!; [|done|].
  - rewrite Hbl. apply list_elem_of_lookup. exists i. rewrite lookup_zip_with, list_lookup_fmap, Ht. simpl.
    rewrite Hcom. simpl. by rewrite Hn.
  - by apply encode_restores.
Qed.

(** *** A filesystem target, end to end *)

#[local] Existing Instance Restore.ex_zstd.
#[local] Existing Instance Restore.ex_decoder.
#[local] Existing Instance Restore.ex_laws.

Definition ex_item : BackupItem := MkItem 1 ex_hash 2 None None.
Definition ex_pipe : Pipeline :=
  MkPipeline [MkTarget "a" CodecZstd (FsSink.Store 10 "d" (Files.ex_wenv None) Files.ex_fs)] 60.
Definition ex_env : env := MkPEnv None (λ _, (1, 1)%Z) (λ _, 1%Z)
  (Returns (inl [RData ex_plain None])) ex_sum 8 (λ _, [CDone 0 false]) (λ _, MkEnv None ArmResult CtxCanceled)
  None None None 7 None.
Definition ex_start : pstate (L := Ledger.db) := MkP Ledger.empty_db None [].

Lemma ex_fs_obeys t : t ∈ Targets ex_pipe → obeys [] (t_store t (ExternalID ex_item)).
Proof.
  intros [->|Hn]%elem_of_cons; [|by apply not_elem_of_nil in Hn]. cbn [t_store].
  unfold FsSink.Store. change (FsSink.pathFor "d" (ExternalID ex_item)) with (@inl string err (FsSink.osPath "d" (ShardKey ex_hash))).
  unfold FsSink.writeAtomic. cbn [Files.ex_wenv Files.w_mkdir Files.w_create].
  change (@nil Byte.byte) with (Files.written []). apply FsSink.copyInto_obeys.
  destruct (Files.ex_fresh None) as (H1 & H2 & _ & H4 & H5 & H6). unfold Files.fresh. by split_and!.
Qed.

Lemma recorded_object_restores_witness :
  ∃ o data blob, backupFrom ex_pipe ex_env ex_start ex_item None = Some o ∧ ("a", Some blob) ∈ o_blobs o ∧
    ex_sum data = ex_hash ∧
    restores ex_sum blob ex_hash data.
Proof.
  assert ((λ o, bool_decide ("a" ∈ Ledger.StoredTargets (ledger (o_state o)) ex_hash)) <$>
    backupFrom ex_pipe ex_env ex_start ex_item None = Some true) as Hr by (vm_compute; reflexivity).
  destruct (backupFrom ex_pipe ex_env ex_start ex_item None) as [o|] eqn:Eo; [|done].
  cbn in Hr. injection Hr as Hr. apply bool_decide_eq_true_1 in Hr.
  destruct (recorded_object_restores ex_pipe ex_env ex_start ex_item None o "a" ex_fs_obeys Eo Hr) as (data & blob & H1 & H2 & H3).
  { apply (bool_decide_eq_true_1 ("a" ∉ Ledger.StoredTargets Ledger.empty_db ex_hash)). vm_compute. reflexivity. }
  exists o, data, blob. by split_and!.
Defined.

End EndToEnd.
