(* ===== verification/System.v ===== *)
(** * The whole service

    The components put together as one system: any number of workers, backfills
    and reconcile passes, in any number of processes, over one outbox, one ledger
    and the targets, with the reaper and crashes at any point. A backup is not
    atomic here: it reads the ledger at one time, picks its targets, fans out,
    each sink commits at a time of its own (an abandoned store possibly after the
    call has returned), the record is written at another, and the outbox row is
    settled last; between any two of these everybody else may act.

    The phases are the functions of Pipeline.v ([backupFrom_phases]) and the
    statements those of Outbox.v and Ledger.v. The circuit breaker is whatever
    its callers find: each phase is given one. The invariant is about what is
    shared, so it does not depend on who runs the phases. *)

From S2P Require Import Prelude GoRuntime Ports Circuit Keyset Ledger Outbox Stream Fanout Pipeline Consumer Files Restore EndToEnd.
From Stdlib Require Import ZArith Lia.
From stdpp Require Import base gmap strings list numbers.

Module System.
Import Ports Stream Fanout Pipeline Restore EndToEnd.

(** ** The phases of a backup *)

Section phases.
Context {L : Type} `{Ledger.LedgerIface L} `{Zstd}.

(** Up to the choice of targets: an early return, or the pending targets and
    whether one was skipped for its circuit. *)
Definition pick (p : Pipeline) (v : env) (s : pstate (L := L)) (e : BackupItem) (known : option (gset string))
    : pstate (L := L) * ((bool * bool * goerr) + (list Target * bool)) :=
  match precheck p e with
  | Some x => (s, inl (false, false, Some x))
  | None =>
      match resolveStored v s (ExternalID e) known with
      | inr x => (s, inl (false, false, Some x))
      | inl st =>
          let '(pending, skippedOpen, s) := pendingTargets v st (Targets p) s in
          match pending with
          | [] => (s, inl (negb skippedOpen, skippedOpen, None))
          | _ => (s, inr (pending, skippedOpen))
          end
      end
  end.

(** The fetch and the fan-out; [inr]: the fetch panicked. *)
Definition fan (p : Pipeline) (v : env) (e : BackupItem) (pending : list Target) : option (fanout + string) :=
  match fetch v with
  | Panics x => Some (inr x)
  | Returns src =>
      fo ← fanOut (digest v) (bufsize v) (StallTimeout p) (sched v) src (ctx_fanout v)
             (ExternalID e) pending (goroutine v <$> seq 0 (length pending));
      Some (inl fo)
  end.

(** The phases, one after the other, are [backupFrom]. *)
Lemma backupFrom_phases p v s e known :
  backupFrom p v s e known =
    match pick p v s e known with
    | (s, inl ret) => Some (MkOutcome s [] (Returns ret))
    | (s, inr (pending, skippedOpen)) =>
        r ← fan p v e pending;
        match r with
        | inr x => Some (MkOutcome s [] (Panics x))
        | inl fo =>
            let '(s, ret) := settleFanout v s e pending skippedOpen fo in
            Some (MkOutcome s (zip (t_name <$> pending) (fo_blobs fo)) ret)
        end
    end.
Proof.
  unfold backupFrom, pick, fan. destruct (precheck p e); [done|].
  destruct (resolveStored v s (ExternalID e) known); [|done].
  destruct (pendingTargets v _ (Targets p) s) as [[[|t pending] sk] s1]; [done|].
  destruct (fetch v); [|done]. by destruct (fanOut _ _ _ _ _ _ _ _ _).
Qed.
End phases.

(** ** The system *)

Section system.
Context `{Decoder} `{Zstd} `{!ZstdLaws}.
Context (sum : bytes → string) (p : Pipeline) (maxAttempts maxDeliveries : Z).

(** One backup under way: the outbox row it was claimed for (none for a
    backfill or a repair), its item, the stored set it was handed, and the
    environment it meets. *)
Record job := MkJob {
  j_row : option Z; j_item : BackupItem; j_known : option (gset string); j_env : env;
}.

Inductive backup :=
  | Started (j : job)
  | Picked (j : job) (pending : list Target) (skippedOpen : bool)
  | Fanned (j : job) (pending : list Target) (skippedOpen : bool) (fo : fanout) (todo : list (string * bytes))
  | Ended (j : job) (ret : attempt (bool * bool * goerr)).

(** [held] is what the targets hold, by target and key; [late] the stores that
    were abandoned and may still commit. *)
Record sys := MkSys {
  outbox : Outbox.table; ledger : Ledger.db;
  held : gmap (string * string) bytes;
  backups : gmap nat backup; late : list (string * string * bytes);
}.

Definition init : sys := MkSys ∅ Ledger.empty_db ∅ ∅ [].

Definition set_backup (b : nat) (x : backup) (s : sys) : sys :=
  MkSys (outbox s) (ledger s) (held s) (<[b := x]> (backups s)) (late s).

(** The digest is the system's, not the environment's to choose. *)
Definition norm (v : env) : env :=
  MkPEnv (read_err v) (open_clock v) (rec_clock v) (fetch v) sum (bufsize v) (sched v) (goroutine v)
    (ctx_fanout v) (ctx_abort v) (ctx_circuit v) (db_now v) (record_fault v).

Definition view (s : sys) (cb : option Circuit.CircuitBreaker) : pstate (L := Ledger.db) := MkP (ledger s) cb [].

(** What the sinks of one fan-out commit. *)
Definition commits (pending : list Target) (fo : fanout) : list (string * bytes) :=
  omap (λ nb : string * option bytes, b ← nb.2; Some (nb.1, b)) (zip (t_name <$> pending) (fo_blobs fo)).

(** A store that reported success has committed: [fanOut] waited for it. *)
Definition waited (pending : list Target) (fo : fanout) (todo : list (string * bytes)) : bool :=
  forallb (λ tr : Target * targetResult,
      bool_decide (r_err tr.2 ≠ None) || bool_decide (t_name tr.1 ∉ todo.*1))
    (zip pending (default [] (fo_results fo))).

(** How the consumer settles the row of a backup that ended ([process]). *)
Definition finish_row (v : Consumer.penv) (id : Z) (ret : attempt (bool * bool * goerr)) (t : Outbox.table)
    : Outbox.table :=
  let s := Consumer.MkC t (MkP Ledger.empty_db None []) (Consumer.MkHooks 0 0 0) in
  Consumer.outbox
    match ret with
    | Panics r => Consumer.fail maxAttempts (Consumer.e_now v) (Consumer.e_fault v) id ("panic: " +:+ r) s
    | Returns (ok, deferred, x) =>
        Consumer.settle maxAttempts (Consumer.e_ctx v) (Consumer.e_objCtx v) (Consumer.e_now v) (Consumer.e_jitter v)
          (Consumer.e_fault v) id ok deferred x s
    end.

Inductive event :=
  | EvEnqueue (id : Z) (r : Outbox.row)
  | EvClaim (b : nat) (now : Z) (locked : gset Z) (v : env)
  | EvBackfill (b : nat) (e : BackupItem) (v : env)
  | EvGap (b : nat) (e : BackupItem) (v : env)
  | EvPick (b : nat) (cb : option Circuit.CircuitBreaker)
  | EvFan (b : nat)
  | EvCommit (b k : nat)
  | EvLate (k : nat)
  | EvSettle (b : nat) (cb : option Circuit.CircuitBreaker)
  | EvRow (b : nat) (v : Consumer.penv)
  | EvCrash (b : nat)
  | EvReap (now ttl : Z).

(** *** The steps *)

Definition enqueue (id : Z) (r : Outbox.row) (s : sys) : option sys :=
  match outbox s !! id with
  | None =>
      if bool_decide (Outbox.r_status r = Outbox.pending)
      then Some (MkSys (<[id := r]> (outbox s)) (ledger s) (held s) (backups s) (late s)) else None
  | Some _ => None
  end.

Definition claim (b : nat) (now : Z) (locked : gset Z) (v : env) (s : sys) : option sys :=
  match backups s !! b, Outbox.Claim now locked 1 (outbox s) with
  | None, (t, [e]) =>
      Some (MkSys t (ledger s) (held s)
              (<[b := Started (MkJob (Some (entryID e)) (entryItem e) None (norm v))]> (backups s)) (late s))
  | _, _ => None
  end.

Definition start (b : nat) (j : job) (s : sys) : option sys :=
  match backups s !! b with None => Some (set_backup b (Started j) s) | Some _ => None end.

(** A repair starts from the work-list of [TargetGaps], read now. *)
Definition start_gap (b : nat) (e : BackupItem) (v : env) (s : sys) : option sys :=
  match List.find (λ g, bool_decide (Ledger.externalID g = ExternalID e))
          (Ledger.gap_rows (ledger s) (t_name <$> Targets p)) with
  | Some g => start b (MkJob None e (Some (Ledger.stored g)) (norm v)) s
  | None => None
  end.

Definition step_pick (b : nat) (cb : option Circuit.CircuitBreaker) (s : sys) : option sys :=
  match backups s !! b with
  | Some (Started j) =>
      Some (match (pick p (j_env j) (view s cb) (j_item j) (j_known j)).2 with
            | inl ret => set_backup b (Ended j (Returns ret)) s
            | inr (pending, skippedOpen) => set_backup b (Picked j pending skippedOpen) s
            end)
  | _ => None
  end.

Definition step_fan (b : nat) (s : sys) : option sys :=
  match backups s !! b with
  | Some (Picked j pending skippedOpen) =>
      r ← fan p (j_env j) (j_item j) pending;
      Some (match r with
            | inr x => set_backup b (Ended j (Panics x)) s
            | inl fo => set_backup b (Fanned j pending skippedOpen fo (commits pending fo)) s
            end)
  | _ => None
  end.

Definition step_commit (b k : nat) (s : sys) : option sys :=
  match backups s !! b with
  | Some (Fanned j pending skippedOpen fo todo) =>
      match todo !! k with
      | Some (name, blob) =>
          Some (MkSys (outbox s) (ledger s) (<[(name, ExternalID (j_item j)) := blob]> (held s))
                  (<[b := Fanned j pending skippedOpen fo (delete k todo)]> (backups s)) (late s))
      | None => None
      end
  | _ => None
  end.

Definition step_late (k : nat) (s : sys) : option sys :=
  match late s !! k with
  | Some (name, id, blob) =>
      Some (MkSys (outbox s) (ledger s) (<[(name, id) := blob]> (held s)) (backups s) (delete k (late s)))
  | None => None
  end.

Definition step_settle (b : nat) (cb : option Circuit.CircuitBreaker) (s : sys) : option sys :=
  match backups s !! b with
  | Some (Fanned j pending skippedOpen fo todo) =>
      if waited pending fo todo then
        let '(s', ret) := settleFanout (j_env j) (view s cb) (j_item j) pending skippedOpen fo in
        Some (MkSys (outbox s) (Pipeline.ledger s') (held s) (<[b := Ended j ret]> (backups s))
                (late s ++ ((λ nb, (nb.1, ExternalID (j_item j), nb.2)) <$> todo)))
      else None
  | _ => None
  end.

Definition step_row (b : nat) (v : Consumer.penv) (s : sys) : option sys :=
  match backups s !! b with
  | Some (Ended j ret) =>
      Some (MkSys (match j_row j with Some id => finish_row v id ret (outbox s) | None => outbox s end)
              (ledger s) (held s) (delete b (backups s)) (late s))
  | _ => None
  end.

(** The process running the backup dies; its stores may still land. *)
Definition step_crash (b : nat) (s : sys) : option sys :=
  match backups s !! b with
  | Some x =>
      Some (MkSys (outbox s) (ledger s) (held s) (delete b (backups s))
              (late s ++ match x with
                         | Fanned j _ _ _ todo => (λ nb, (nb.1, ExternalID (j_item j), nb.2)) <$> todo
                         | _ => []
                         end))
  | None => None
  end.

Definition step_reap (now ttl : Z) (s : sys) : option sys :=
  Some (MkSys (Outbox.ReapStale maxDeliveries now ttl (outbox s)).1 (ledger s) (held s) (backups s) (late s)).

Definition step (e : event) : sys → option sys :=
  match e with
  | EvEnqueue id r => enqueue id r
  | EvClaim b now locked v => claim b now locked v
  | EvBackfill b e v => start b (MkJob None e None (norm v))
  | EvGap b e v => start_gap b e v
  | EvPick b cb => step_pick b cb
  | EvFan b => step_fan b
  | EvCommit b k => step_commit b k
  | EvLate k => step_late k
  | EvSettle b cb => step_settle b cb
  | EvRow b v => step_row b v
  | EvCrash b => step_crash b
  | EvReap now ttl => step_reap now ttl
  end.

Definition run (evs : list event) : option sys := foldl (λ s e, s ≫= step e) (Some init) evs.

(** ** The invariant *)

Abbreviation names_of s id := (Ledger.StoredTargets (ledger s) id).

(** The bytes restore to an object of this name. *)
Definition good (id : string) (blob : bytes) : Prop := ∃ data, sum data = id ∧ restores sum blob id data.

Definition everywhere (s : sys) (id : string) : Prop := ∀ t, t ∈ Targets p → t_name t ∈ names_of s id.

Record job_ok (s : sys) (j : job) : Prop := MkJobOk {
  jo_row i : j_row j = Some i →
    ∃ r, outbox s !! i = Some r ∧ Outbox.r_externalID r = ExternalID (j_item j);
  jo_known k : j_known j = Some k → k ⊆ names_of s (ExternalID (j_item j));
  jo_env : digest (j_env j) = sum;
}.

(** What a backup knows of the targets it did not fan out to. *)
Record picked_ok (s : sys) (j : job) (pending : list Target) (skippedOpen : bool) : Prop := MkPickedOk {
  po_sub : pending `sublist_of` Targets p;
  po_rest : skippedOpen = false → ∀ t, t ∈ Targets p → t_name t ∈ names_of s (ExternalID (j_item j)) ∨ t ∈ pending;
}.

(** What its fan-out committed, and is about to. *)
Record fanned_ok (s : sys) (j : job) (pending : list Target) (fo : fanout) (todo : list (string * bytes)) : Prop :=
  MkFannedOk {
  fo_len rs : fo_results fo = Some rs → length rs = length pending;
  fo_good n b : (n, b) ∈ todo → good (ExternalID (j_item j)) b;
  fo_done i t r : pending !! i = Some t → (fo_results fo ≫= (.!! i)) = Some r → r_err r = None →
    t_name t ∈ todo.*1 ∨ is_Some (held s !! (t_name t, ExternalID (j_item j)));
}.

Definition backup_ok (s : sys) (x : backup) : Prop :=
  match x with
  | Started j => job_ok s j
  | Picked j pending sk => job_ok s j ∧ picked_ok s j pending sk
  | Fanned j pending sk fo todo => job_ok s j ∧ picked_ok s j pending sk ∧ fanned_ok s j pending fo todo
  | Ended j ret => job_ok s j ∧ ∀ df x, ret = Returns (true, df, x) → everywhere s (ExternalID (j_item j))
  end.

Record inv (s : sys) : Prop := MkInv {
  inv_recorded n id : n ∈ names_of s id → is_Some (held s !! (n, id));
  inv_held n id b : held s !! (n, id) = Some b → good id b;
  inv_late n id b : (n, id, b) ∈ late s → good id b;
  inv_done i r : outbox s !! i = Some r → Outbox.r_status r = Outbox.done_ → everywhere s (Outbox.r_externalID r);
  inv_backups b x : backups s !! b = Some x → backup_ok s x;
}.

(** The shared state only grows: records, objects, rows with their names. *)
Record grows (s s' : sys) : Prop := MkGrows {
  gr_names id : names_of s id ⊆ names_of s' id;
  gr_held k : is_Some (held s !! k) → is_Some (held s' !! k);
  gr_rows i r : outbox s !! i = Some r →
    ∃ r', outbox s' !! i = Some r' ∧ Outbox.r_externalID r' = Outbox.r_externalID r;
}.

Lemma everywhere_grows s s' id : grows s s' → everywhere s id → everywhere s' id.
Proof. intros Hg He t Ht. apply (gr_names _ _ Hg). by apply He. Qed.

Lemma backup_ok_grows s s' x : grows s s' → backup_ok s x → backup_ok s' x.
Proof.
  intros Hg.
  assert (∀ j, job_ok s j → job_ok s' j) as Hj.
  { intros j [Hr Hk He]. split; [|intros k Hk'; etrans; [by apply Hk|by apply gr_names]|done].
    intros i Hi. destruct (Hr i Hi) as (r & Hl & Hx). destruct (gr_rows _ _ Hg i r Hl) as (r' & ? & ?).
    exists r'. split; [done|congruence]. }
  assert (∀ j pd sk, picked_ok s j pd sk → picked_ok s' j pd sk) as Hp.
  { intros j pd sk [Hs Hr]. split; [done|]. intros Hsk t Ht. destruct (Hr Hsk t Ht); [left|by right].
    by apply (gr_names _ _ Hg). }
  destruct x as [j|j pd sk|j pd sk fo todo|j ret]; simpl; [auto|naive_solver| |].
  - intros (? & ? & [Hl Hgd Hdn]). split_and!; [auto|auto|]. split; [done|done|].
    intros i t r Ht Hr He. destruct (Hdn i t r Ht Hr He); [by left|right]. by apply (gr_held _ _ Hg).
  - intros [? He]. split; [auto|]. intros df x Hret. by eapply everywhere_grows, He.
Qed.

(** A step that grows the shared state keeps the invariant if it does for the
    new rows, objects and backups. *)
Lemma inv_step s s' : inv s → grows s s' →
  (∀ n id, n ∈ names_of s' id → n ∉ names_of s id → is_Some (held s' !! (n, id))) →
  (∀ n id b, held s' !! (n, id) = Some b → held s !! (n, id) = Some b ∨ good id b) →
  (∀ n id b, (n, id, b) ∈ late s' → (n, id, b) ∈ late s ∨ good id b) →
  (∀ i r, outbox s' !! i = Some r → Outbox.r_status r = Outbox.done_ →
     everywhere s' (Outbox.r_externalID r) ∨
     ∃ r0, outbox s !! i = Some r0 ∧ Outbox.r_status r0 = Outbox.done_ ∧
       Outbox.r_externalID r0 = Outbox.r_externalID r) →
  (∀ b x, backups s' !! b = Some x → backups s !! b = Some x ∨ backup_ok s' x) →
  inv s'.
Proof.
  intros [Hr Hh Hl Hd Hb] Hg Hr' Hh' Hl' Hd' Hb'. split.
  - intros n id Hn. destruct (decide (n ∈ names_of s id)); [|by apply Hr'].
    by apply (gr_held _ _ Hg), Hr.
  - intros n id b Hl0. destruct (Hh' n id b Hl0); [by eapply Hh|done].
  - intros n id b Hin. destruct (Hl' n id b Hin); [by eapply Hl|done].
  - intros i r Hi Hst. destruct (Hd' i r Hi Hst) as [?|(r0 & Hi0 & Hst0 & Hx)]; [done|].
    rewrite <- Hx. eapply everywhere_grows; [done|]. by eapply Hd.
  - intros b x Hx. destruct (Hb' b x Hx); [|done]. by eapply backup_ok_grows, Hb.
Qed.

Lemma grows_refl_mem s s' : ledger s' = ledger s → held s' = held s → outbox s' = outbox s → grows s s'.
Proof. intros Hl Hh Ho. split; rewrite ?Hl, ?Hh, ?Ho; eauto. Qed.

(** A step of one backup that leaves the tables and targets alone. *)
Lemma inv_backup s b x : inv s → backup_ok s x → inv (set_backup b x s).
Proof.
  intros Hi Hx. assert (Hg : grows s (set_backup b x s)) by by apply grows_refl_mem.
  apply (inv_step s); try done; simpl; eauto 6.
  intros b' x' [[<- <-]|[Hne Hb]]%lookup_insert_Some; [right|by left]. by eapply backup_ok_grows.
Qed.

(** *** The outbox statements *)

(** A change of the outbox: rows stay, with their names, and a row becomes done
    only if [mark] is it. *)
Definition settles (mark : option Z) (t t' : Outbox.table) : Prop :=
  (∀ i r, t !! i = Some r → ∃ r', t' !! i = Some r' ∧ Outbox.r_externalID r' = Outbox.r_externalID r) ∧
  (∀ i r', t' !! i = Some r' → Outbox.r_status r' = Outbox.done_ →
     ∃ r, t !! i = Some r ∧ Outbox.r_externalID r = Outbox.r_externalID r' ∧
       (Outbox.r_status r = Outbox.done_ ∨ mark = Some i)).

Lemma settles_refl mark t : settles mark t t.
Proof. split; eauto 6. Qed.

Lemma settles_weaken t t' i : settles None t t' → settles (Some i) t t'.
Proof. intros [Hs1 Hs2]. split; [done|]. intros k r Hk Hr. destruct (Hs2 k r Hk Hr) as (r0 & ? & ? & [?|?]); [eauto 6|done]. Qed.

Lemma moves_keeps o i r r' : Outbox.moves maxAttempts maxDeliveries o i r r' →
  Outbox.r_externalID r' = Outbox.r_externalID r ∧
  (Outbox.r_status r' = Outbox.done_ → Outbox.r_status r = Outbox.done_ ∨ o.2 = Outbox.OMarkDone i).
Proof.
  destruct 1; (split; [done|]); simpl; auto; try done.
  all: unfold Outbox.failed_row, Outbox.reaped_row; simpl; by case_match.
Qed.

Lemma statement_settles t o :
  settles (match o.2 with Outbox.OMarkDone i => Some i | _ => None end) t
    (Outbox.step maxAttempts maxDeliveries t o).
Proof.
  split.
  - intros i r Hi. pose proof (Outbox.step_moves maxAttempts maxDeliveries t o i) as Hm. rewrite Hi in Hm.
    destruct Hm as (r' & ? & [??]%moves_keeps). eauto.
  - intros i r' Hi Hst. pose proof (Outbox.step_moves maxAttempts maxDeliveries t o i) as Hm.
    destruct (t !! i) as [r|] eqn:Er; [|by rewrite Hi in Hm].
    destruct Hm as (r1 & Hi' & [Hx Hd]%moves_keeps). simplify_eq. exists r. split_and!; [done|done|].
    destruct (Hd Hst) as [?|Ho]; [by left|right]. by rewrite Ho.
Qed.

(** A statement that may fail, applied or not. *)
Lemma faulty_settles mark flt t t' : settles mark t t' → settles mark t (Consumer.faulty flt t t').1.
Proof. intros Hs. destruct flt as [[e []]|]; simpl; [done|apply settles_refl|done]. Qed.

Lemma fail_settles {L} now flt id reason (c : Consumer.cstate (L := L)) t : Consumer.outbox c = t →
  settles None t (Consumer.outbox (Consumer.fail maxAttempts now flt id reason c)).
Proof.
  intros Hc. assert (Hs := statement_settles t (now, Outbox.OFail id reason)).
  apply (faulty_settles _ flt) in Hs. unfold Outbox.step in Hs. cbn [fst snd] in Hs. revert Hs.
  unfold Consumer.fail. rewrite Hc. destruct (Outbox.Fail maxAttempts now id reason t) as [t' dead]. simpl.
  destruct (Consumer.faulty flt t t') as [t1 [x|]]; simpl; [done|by destruct dead].
Qed.

Lemma transitioned_settles {L} flt f o (c : Consumer.cstate (L := L)) t : Consumer.outbox c = t →
  f t = Outbox.step maxAttempts maxDeliveries t o →
  settles (match o.2 with Outbox.OMarkDone i => Some i | _ => None end) t
    (Consumer.outbox (Consumer.transitioned flt f c)).
Proof.
  intros Hc Hf. unfold Consumer.transitioned. simpl. rewrite Hc, Hf. apply faulty_settles, statement_settles.
Qed.

(** The row of an ended backup is marked done only if the backup returned done. *)
Lemma finish_row_settles v id ret t :
  settles (match ret with Returns (true, _, _) => Some id | _ => None end) t (finish_row v id ret t).
Proof.
  unfold finish_row. destruct ret as [[[ok df] x]|r]; [|by apply fail_settles].
  assert (Hw : ∀ t', settles None t t' → settles (if ok then Some id else None) t t').
  { intros t' Hs. destruct ok; [by apply settles_weaken|done]. }
  unfold Consumer.settle. destruct (ok && bool_decide (x = None)) eqn:Eok.
  { apply andb_true_iff in Eok as [-> _]. by apply (transitioned_settles _ _ (0%Z, Outbox.OMarkDone id)). }
  apply Hw. destruct (bool_decide (Consumer.e_ctx v ≠ None)); [by apply (transitioned_settles _ _ (0%Z, Outbox.ORelease id))|].
  destruct (errors_Is x ErrSourceGone); [by apply (transitioned_settles _ _ (0%Z, Outbox.OSkip id))|].
  set (c := Consumer.fireObjectTimeout _ _ _).
  assert (Hc : Consumer.outbox c = t) by (unfold c; by rewrite Consumer.fireObjectTimeout_outbox).
  destruct df; [by apply (transitioned_settles _ _ (Consumer.e_now v, Outbox.ODefer (Consumer.e_jitter v) id))|].
  destruct x; by apply fail_settles.
Qed.

(** *** The steps keep the invariant *)

(** What the sinks are: each keeps its contract under every name. *)
Definition sinks_obey : Prop := ∀ t hash, t ∈ Targets p → obeys [] (t_store t hash).

Lemma inv_init : inv init.
Proof.
  split; simpl.
  - intros n id Hn%Ledger.elem_of_StoredTargets. unfold Ledger.is_stored in Hn. simpl in Hn.
    by rewrite lookup_empty in Hn.
  - intros n id b Hl. by rewrite lookup_empty in Hl.
  - intros n id b Hin. by apply not_elem_of_nil in Hin.
  - intros i r Hl. by rewrite lookup_empty in Hl.
  - intros b x Hl. by rewrite lookup_empty in Hl.
Qed.

(** A step of the outbox alone. *)
Lemma inv_outbox s t mark bs : inv s → settles mark (outbox s) t →
  (∀ i r, mark = Some i → outbox s !! i = Some r → everywhere s (Outbox.r_externalID r)) →
  (∀ b x, bs !! b = Some x → backups s !! b = Some x ∨
     backup_ok (MkSys t (ledger s) (held s) bs (late s)) x) →
  inv (MkSys t (ledger s) (held s) bs (late s)).
Proof.
  intros Hi [Hk Hd] Hm Hb.
  apply (inv_step s); simpl; try done; eauto.
  intros i r Hr Hst. destruct (Hd i r Hr Hst) as (r0 & Hr0 & Hx & [Hst0|Hm0]); [right; eauto|left].
  rewrite <- Hx. by eapply Hm.
Qed.

Lemma enqueue_inv id r s s' : inv s → enqueue id r s = Some s' → inv s'.
Proof.
  intros Hi. unfold enqueue. destruct (outbox s !! id) eqn:Ei; [done|]. case_bool_decide as Hst; [|done].
  intros [= <-]. apply (inv_step s); simpl; try done; eauto.
  - split; simpl; [done|done|]. intros i r0 Hr0. exists r0. split; [|done]. rewrite lookup_insert_ne; congruence.
  - intros i r0 [[<- <-]|[Hne Hr0]]%lookup_insert_Some Hd; [congruence|right; eauto].
Qed.

Lemma claim_inv b now locked v s s' : inv s → claim b now locked v s = Some s' → inv s'.
Proof.
  intros Hi. unfold claim. destruct (backups s !! b) eqn:Eb; [done|].
  assert (Hs := statement_settles (outbox s) (now, Outbox.OClaim locked 1)).
  unfold Outbox.step in Hs. cbn [fst snd] in Hs.
  pose proof (Outbox.Claim_elem_claimable now locked 1 (outbox s)) as Hc.
  destruct (Outbox.Claim now locked 1 (outbox s)) as [t [|e [|]]]; [done| |done].
  intros [= <-]. apply (inv_outbox s t None); [done|done|done|].
  intros b' x [[<- <-]|[Hne Hb]]%lookup_insert_Some; [right|by left]. simpl.
  destruct (Hc e) as (r & Hr & _ & _ & He); [by left|].
  split; [|done|done]. intros i [= <-]. destruct (proj1 Hs _ _ Hr) as (r' & Hr' & Hx).
  exists r'. split; [done|]. rewrite Hx, He. done.
Qed.

Lemma start_inv b j s s' : inv s → job_ok s j → start b j s = Some s' → inv s'.
Proof. intros Hi Hj. unfold start. destruct (backups s !! b); [done|]. intros [= <-]. by apply inv_backup. Qed.

(** The stored set of a gap is what the ledger says at that moment. *)
Lemma gap_known d ts g : g ∈ Ledger.gap_rows d ts → Ledger.stored g ⊆ Ledger.StoredTargets d (Ledger.externalID g).
Proof.
  unfold Ledger.gap_rows. intros (id & _ & Hg)%list_elem_of_omap. case_bool_decide; [|done]. simplify_eq/=.
  intros n. rewrite elem_of_list_to_set, Ledger.elem_of_held, Ledger.elem_of_StoredTargets. tauto.
Qed.

Lemma start_gap_inv b e v s s' : inv s → start_gap b e v s = Some s' → inv s'.
Proof.
  intros Hi. unfold start_gap. destruct (List.find _ _) as [g|] eqn:Ef; [|done].
  apply List.find_some in Ef as [Hg Hx%bool_decide_eq_true].
  apply start_inv; [done|]. split; simpl; [done| |done]. intros k [= <-]. rewrite <- Hx.
  apply (gap_known _ (t_name <$> Targets p)). by apply list_elem_of_In.
Qed.

Lemma resolved_known v s j cb st : job_ok s j →
  resolveStored v (view s cb) (ExternalID (j_item j)) (j_known j) = inl st →
  st ⊆ names_of s (ExternalID (j_item j)).
Proof.
  intros [_ Hk _]. unfold resolveStored. destruct (j_known j) as [k|] eqn:Ek; [intros [= <-]; by apply Hk|].
  by destruct (read_err v); [|intros [= <-]].
Qed.

Lemma step_pick_inv b cb s s' : inv s → step_pick b cb s = Some s' → inv s'.
Proof.
  intros Hi. unfold step_pick. destruct (backups s !! b) as [[j| | |]|] eqn:Eb; try done. intros [= <-].
  assert (Hj : job_ok s j) by apply (inv_backups _ Hi _ _ Eb).
  assert (Hfail : ∀ x, backup_ok s (Ended j (Returns (false, false, x)))) by (intros x; by split).
  unfold pick. destruct (precheck p (j_item j)); [by apply inv_backup|].
  destruct (resolveStored _ _ _ _) as [st|] eqn:Er; [|by apply inv_backup].
  pose proof (resolved_known _ _ _ _ _ Hj Er) as Hst.
  destruct (pendingTargets _ st (Targets p) _) as [[pending sk] s1] eqn:Ep.
  apply pendingTargets_spec in Ep as (_ & Hsub & _ & _ & _ & Hall).
  destruct pending as [|t pending]; apply inv_backup; try done; (split; [done|]).
  - intros df x [= Hsk _ _] t Ht. destruct sk; [done|].
    destruct (Hall eq_refl t Ht) as [?|Hn]; [by apply Hst|by apply not_elem_of_nil in Hn].
  - split; [done|]. intros Hsk t' Ht'. destruct (Hall Hsk t' Ht'); [left; by apply Hst|by right].
Qed.

(** *** The fan-out *)

Lemma elem_of_commits pending fo n b : (n, b) ∈ commits pending fo ↔
  ∃ i t, pending !! i = Some t ∧ t_name t = n ∧ fo_blobs fo !! i = Some (Some b).
Proof.
  unfold commits. rewrite list_elem_of_omap. split.
  - intros ([n' [b'|]] & Hin & Hx); simplify_eq/=. apply list_elem_of_lookup in Hin as [i Hi].
    rewrite lookup_zip_with, list_lookup_fmap in Hi. destruct (pending !! i) as [t|] eqn:Et; simplify_eq/=.
    destruct (fo_blobs fo !! i) eqn:Ef; simplify_eq/=. by exists i, t.
  - intros (i & t & Ht & <- & Hb). exists (t_name t, Some b). split; [|done].
    apply list_elem_of_lookup. exists i. by rewrite lookup_zip_with, list_lookup_fmap, Ht; simpl; rewrite Hb.
Qed.

Lemma fan_ok s j pending fo : sinks_obey → digest (j_env j) = sum → pending `sublist_of` Targets p →
  fan p (j_env j) (j_item j) pending = Some (inl fo) → fanned_ok s j pending fo (commits pending fo).
Proof.
  intros Hob Hdg Hsub. unfold fan. destruct (fetch (j_env j)) as [src|]; [|done].
  destruct (fanOut _ _ _ _ _ _ _ _ _) as [fo'|] eqn:Ef; [|done]. intros [= ->]. rewrite Hdg in Ef.
  pose proof (goroutines_length (j_env j) pending) as Hlen.
  assert (Hpt : ∀ i t, pending !! i = Some t → obeys [] (t_store t (ExternalID (j_item j)))).
  { intros i t Ht. apply Hob. eapply elem_of_submseteq; [by eapply list_elem_of_lookup_2|by apply sublist_submseteq]. }
  destruct src as [rc|y].
  - split.
    + intros rs Hrs. by eapply fanOut_length.
    + intros n b (i & t & Ht & _ & Hb)%elem_of_commits.
      destruct (fanOut_blob _ _ _ _ _ _ _ _ _ _ _ _ _ Ef Hlen Ht (Hpt i t Ht) Hb) as (data & -> & Hs & _ & Hl).
      exists data. split; [done|]. by apply encode_restores.
    + intros i t r Ht Hr He. left.
      destruct (fanOut_stored _ _ _ _ _ _ _ _ _ _ _ _ _ Ef Hlen Ht Hr He) as (_ & data & _ & _ & _ & Hc).
      apply list_elem_of_fmap. eexists (_, _). split; [reflexivity|].
      apply elem_of_commits. exists i, t. split_and!; [done|done|by apply Hc, (Hpt i)].
  - unfold fanOut in Ef. simplify_eq/=. split; [done| |done].
    intros n b (i & t & _ & _ & Hb)%elem_of_commits. simpl in Hb. by rewrite lookup_nil in Hb.
Qed.

Lemma step_fan_inv b s s' : sinks_obey → inv s → step_fan b s = Some s' → inv s'.
Proof.
  intros Hob Hi. unfold step_fan. destruct (backups s !! b) as [[|j pending sk| |]|] eqn:Eb; try done.
  destruct (inv_backups _ Hi _ _ Eb) as [Hj Hp].
  destruct (fan p _ _ _) as [[fo|x]|] eqn:Ef; simpl; [|by intros [= <-]; apply inv_backup|done].
  intros [= <-]. apply inv_backup; [done|]. split_and!; [done|done|].
  apply fan_ok; [done|apply Hj|apply Hp|done].
Qed.

(** *** The commits *)

(** An object a target did not hold, or held in another encoding. *)
Lemma held_grows s k b : grows s (MkSys (outbox s) (ledger s) (<[k := b]> (held s)) (backups s) (late s)).
Proof.
  split; simpl; [done| |eauto]. intros k' Hk. destruct (decide (k = k')) as [->|Hne].
  - rewrite lookup_insert_eq. by eexists.
  - by rewrite lookup_insert_ne.
Qed.

Lemma held_inv s n id b : inv s → good id b →
  inv (MkSys (outbox s) (ledger s) (<[(n, id) := b]> (held s)) (backups s) (late s)).
Proof.
  intros Hi Hg. apply (inv_step s); simpl; try done; eauto; [apply held_grows|].
  intros n' id' b' [[[= <- <-] <-]|[_ Hb]]%lookup_insert_Some; [by right|by left].
Qed.

Lemma late_inv s l : inv s → (∀ n id b, (n, id, b) ∈ l → (n, id, b) ∈ late s ∨ good id b) →
  inv (MkSys (outbox s) (ledger s) (held s) (backups s) l).
Proof. intros Hi Hl. apply (inv_step s); simpl; try done; eauto. by apply grows_refl_mem. Qed.

Lemma drop_inv s b : inv s → inv (MkSys (outbox s) (ledger s) (held s) (delete b (backups s)) (late s)).
Proof.
  intros Hi. apply (inv_step s); simpl; try done; eauto; [by apply grows_refl_mem|].
  intros b' x [_ Hx]%lookup_delete_Some. by left.
Qed.

Lemma delete_elem {A} k (l : list A) x : x ∈ delete k l → x ∈ l.
Proof. intros Hx. eapply elem_of_submseteq; [done|]. apply sublist_submseteq, sublist_delete. Qed.

Lemma delete_other {A} k (l : list A) x y : l !! k = Some y → x ∈ l → x = y ∨ x ∈ delete k l.
Proof.
  intros Hk Hx. rewrite (delete_Permutation l k y Hk) in Hx. by apply elem_of_cons in Hx.
Qed.

Lemma step_commit_inv b k s s' : inv s → step_commit b k s = Some s' → inv s'.
Proof.
  intros Hi. unfold step_commit. destruct (backups s !! b) as [[| |j pending sk fo todo|]|] eqn:Eb; try done.
  destruct (todo !! k) as [[n x]|] eqn:Ek; [|done]. intros [= <-].
  destruct (inv_backups _ Hi _ _ Eb) as (Hj & Hp & [Hl Hg Hd]).
  set (s1 := MkSys (outbox s) (ledger s) (<[(n, ExternalID (j_item j)) := x]> (held s)) (backups s) (late s)).
  assert (Hgr : grows s s1) by apply held_grows.
  assert (Hi1 : inv s1) by (apply held_inv; [done|]; by eapply Hg, list_elem_of_lookup_2).
  apply (inv_backup s1 b (Fanned j pending sk fo (delete k todo))); [done|].
  destruct (backup_ok_grows s s1 (Picked j pending sk) Hgr (conj Hj Hp)) as [Hj1 Hp1].
  split_and!; [done|done|]. split; [done|intros ?? ?%delete_elem; eauto|].
  intros i t r Ht Hr He. destruct (Hd i t r Ht Hr He) as [Hin|Hh]; [|right; by apply (gr_held _ _ Hgr)].
  apply list_elem_of_fmap in Hin as ([n' y] & Hn & Hin). simpl in Hn.
  destruct (delete_other k todo _ _ Ek Hin) as [[= -> ->]|Hin'].
  - right. rewrite Hn. simpl. rewrite lookup_insert_eq. by eexists.
  - left. apply list_elem_of_fmap. by exists (n', y).
Qed.

Lemma step_late_inv k s s' : inv s → step_late k s = Some s' → inv s'.
Proof.
  intros Hi. unfold step_late. destruct (late s !! k) as [[[n id] b]|] eqn:Ek; [|done]. intros [= <-].
  set (s1 := MkSys (outbox s) (ledger s) (<[(n, id) := b]> (held s)) (backups s) (late s)).
  apply (late_inv s1); [|intros ??? ?%delete_elem; by left].
  apply held_inv; [done|]. by eapply (inv_late _ Hi), list_elem_of_lookup_2.
Qed.

(** The stores still to come of an object whose fan-out is [Fanned]. *)
Lemma todo_late s j todo : (∀ n b, (n, b) ∈ todo → good (ExternalID (j_item j)) b) →
  ∀ n id b, (n, id, b) ∈ late s ++ ((λ nb, (nb.1, ExternalID (j_item j), nb.2)) <$> todo) →
    (n, id, b) ∈ late s ∨ good id b.
Proof.
  intros Hg n id b [?|Hin]%elem_of_app; [by left|right].
  apply list_elem_of_fmap in Hin as ([n' b'] & [= -> -> ->] & Hin). by eapply Hg.
Qed.

Lemma step_crash_inv b s s' : inv s → step_crash b s = Some s' → inv s'.
Proof.
  intros Hi. unfold step_crash. destruct (backups s !! b) as [x|] eqn:Eb; [|done]. intros [= <-].
  set (s1 := MkSys (outbox s) (ledger s) (held s) (delete b (backups s)) (late s)).
  apply (late_inv s1); [by apply drop_inv|].
  pose proof (inv_backups _ Hi _ _ Eb) as Hx. simpl.
  destruct x as [| |j pending sk fo todo|]; try (rewrite app_nil_r; by left).
  destruct Hx as (_ & _ & [_ Hg _]). by apply (todo_late s).
Qed.

Lemma step_reap_inv now ttl s s' : inv s → step_reap now ttl s = Some s' → inv s'.
Proof.
  intros Hi [= <-]. apply (inv_outbox s _ None); [done| |done|eauto].
  by apply (statement_settles (outbox s) (now, Outbox.OReap ttl)).
Qed.

(** *** The record and the row *)

(** A store that reported success and is not under way any more has committed. *)
Lemma waited_held s j pending fo todo i t r : fanned_ok s j pending fo todo → waited pending fo todo = true →
  pending !! i = Some t → (fo_results fo ≫= (.!! i)) = Some r → r_err r = None →
  is_Some (held s !! (t_name t, ExternalID (j_item j))).
Proof.
  intros [_ _ Hd] Hw Ht Hr He. destruct (Hd i t r Ht Hr He) as [Hin|?]; [exfalso|done].
  unfold waited in Hw. rewrite forallb_forall in Hw.
  destruct (fo_results fo) as [rs|]; [|done]. simpl in *.
  specialize (Hw (t, r)). rewrite <- list_elem_of_In in Hw.
  assert (Hz : (t, r) ∈ zip pending rs).
  { apply list_elem_of_lookup. exists i. by rewrite lookup_zip_with, Ht; simpl; rewrite Hr. }
  specialize (Hw Hz). apply orb_true_iff in Hw as [Hw|Hw]; apply bool_decide_eq_true_1 in Hw; by simpl in Hw.
Qed.

Lemma step_settle_inv b cb s s' : inv s → step_settle b cb s = Some s' → inv s'.
Proof.
  intros Hi. unfold step_settle. destruct (backups s !! b) as [[| |j pending sk fo todo|]|] eqn:Eb; try done.
  destruct (waited pending fo todo) eqn:Hw; [|done].
  destruct (settleFanout _ _ _ _ _ _) as [s1 ret] eqn:Es. intros [= <-].
  destruct (inv_backups _ Hi _ _ Eb) as (Hj & Hp & Hf).
  destruct (settleFanout_ledger _ _ _ _ _ _ _ _ Es) as (Hmono & Hnew & _). simpl in Hmono, Hnew.
  set (s2 := MkSys _ _ _ _ _).
  assert (Hgr : grows s s2) by (split; simpl; eauto).
  apply (inv_step s); try done; simpl; eauto.
  - intros n id Hn Hni. destruct (Hnew id n Hn) as [?|(-> & i & t & r & Ht & Hr & He & <-)]; [done|].
    by eapply waited_held.
  - by apply todo_late, Hf.
  - intros b' x [[<- <-]|[_ Hx]]%lookup_insert_Some; [right|by left].
    destruct (backup_ok_grows s s2 (Picked j pending sk) Hgr (conj Hj Hp)) as [Hj2 [_ Hrest]].
    split; [done|]. intros df x -> t Ht.
    destruct (settleFanout_flags _ _ _ _ _ _ _ _ _ _ Es (fo_len _ _ _ _ _ Hf)) as (_ & _ & Hdn & _).
    destruct (Hdn eq_refl) as [-> Hall]. destruct (Hrest eq_refl t Ht) as [?|Hin]; [done|]. by apply Hall.
Qed.

Lemma step_row_inv b v s s' : inv s → step_row b v s = Some s' → inv s'.
Proof.
  intros Hi. unfold step_row. destruct (backups s !! b) as [[| | |j ret]|] eqn:Eb; try done. intros [= <-].
  destruct (j_row j) as [id|] eqn:Ej; [|by apply drop_inv].
  destruct (inv_backups _ Hi _ _ Eb) as [Hj Hret].
  eapply inv_outbox; [done|apply finish_row_settles| |intros b' x [_ Hx]%lookup_delete_Some; by left].
  intros i r Hm Hr. destruct ret as [[[[] df] x]|]; simplify_eq.
  destruct (jo_row _ _ Hj i Ej) as (r' & Hr' & Hx). simplify_eq. rewrite Hx. by eapply Hret.
Qed.

Lemma step_inv e s s' : sinks_obey → inv s → step e s = Some s' → inv s'.
Proof.
  intros Hob Hi. destruct e; cbn [step];
    [by apply enqueue_inv|by apply claim_inv|by apply start_inv; [|split]|by apply start_gap_inv|by apply step_pick_inv
    |by apply step_fan_inv|by apply step_commit_inv|by apply step_late_inv|by apply step_settle_inv
    |by apply step_row_inv|by apply step_crash_inv|by apply step_reap_inv].
Qed.

Lemma run_inv evs s : sinks_obey → run evs = Some s → inv s.
Proof.
  intros Hob. unfold run. revert s. induction evs as [|e evs IH] using rev_ind; intros s.
  { intros [= <-]. apply inv_init. }
  rewrite foldl_app. simpl. destruct (foldl _ _ evs) as [x|]; cbn [mbind option_bind]; [|done].
  apply step_inv; [done|by apply IH].
Qed.

(** C1: The service keeps its promise. In every execution of any number of
    workers, backfills and repairs, in any interleaving with each other, with
    the reaper, with stores that commit late and with crashes and lost answers
    at any point: the ledger records an object only on a target that holds it;
    everything a target holds under a name restores to a plaintext with that
    content hash; and so an outbox row that is done restores from each of the
    configured targets. *)
Theorem done_rows_restore_everywhere evs s : sinks_obey → run evs = Some s →
  (∀ n id, n ∈ Ledger.StoredTargets (ledger s) id → is_Some (held s !! (n, id))) ∧
  (∀ n id blob, held s !! (n, id) = Some blob → ∃ data, sum data = id ∧ restores sum blob id data) ∧
  (∀ i r t, outbox s !! i = Some r → Outbox.r_status r = Outbox.done_ → t ∈ Targets p →
     ∃ blob data, held s !! (t_name t, Outbox.r_externalID r) = Some blob ∧
       sum data = Outbox.r_externalID r ∧ restores sum blob (Outbox.r_externalID r) data).
Proof.
  intros Hob Hr. destruct (run_inv evs s Hob Hr) as [Hrec Hh _ Hd _]. split_and!; [done|done|].
  intros i r t Hi Hst Ht. destruct (Hrec _ _ (Hd i r Hi Hst t Ht)) as [blob Hb].
  destruct (Hh _ _ _ Hb) as (data & Hs & Hres). by exists blob, data.
Qed.
End system.

(** *** An execution

    A worker's claim is reaped while it runs and given to a second one; a
    backfill of the same object runs beside them; the first worker ends last but
    settles the row first; the second crashes. *)

#[local] Existing Instance Restore.ex_zstd.
#[local] Existing Instance Restore.ex_decoder.
#[local] Existing Instance Restore.ex_laws.

Definition ex_pipe : Pipeline :=
  MkPipeline [MkTarget "a" CodecZstd (λ _, copy_sink 5 2 []); MkTarget "b" CodecNone (λ _, copy_sink 5 2 [])] 60.
Definition ex_env : env := MkPEnv None (λ _, (1, 1)%Z) (λ _, 1%Z)
  (Returns (inl [RData ex_plain None])) ex_sum 8 (λ _, [CDone 0 false; CDone 1 false])
  (λ _, MkEnv None ArmResult CtxCanceled) None None None 7 None.
Definition ex_row : Outbox.row := Outbox.MkRow 1 ex_hash 0 Outbox.pending None None None None None None None None.
Definition ex_penv : Consumer.penv := Consumer.MkE ex_env None None 100 7 None.
Definition ex_events : list event :=
  [EvEnqueue 1 ex_row; EvClaim 0 5 ∅ ex_env; EvPick 0 None; EvBackfill 7 EndToEnd.ex_item ex_env; EvReap 50 10;
   EvClaim 1 60 ∅ ex_env; EvPick 7 None; EvFan 7; EvCommit 7 1; EvFan 0; EvPick 1 None; EvCommit 7 0;
   EvSettle 7 None; EvFan 1; EvCommit 0 0; EvRow 7 ex_penv; EvCommit 0 0; EvSettle 0 None; EvRow 0 ex_penv;
   EvCrash 1; EvLate 1].

Lemma ex_sinks_obey : sinks_obey ex_pipe.
Proof.
  intros t hash Ht. unfold ex_pipe in Ht. cbn [Targets] in Ht.
  apply elem_of_cons in Ht as [->|Ht]; [apply (copy_sink_obeys 5 2 [])|].
  apply elem_of_cons in Ht as [->|Ht]; [apply (copy_sink_obeys 5 2 [])|by apply not_elem_of_nil in Ht].
Qed.

Lemma done_rows_restore_everywhere_witness :
  ∃ s r, run ex_sum ex_pipe 5 5 ex_events = Some s ∧ outbox s !! 1%Z = Some r ∧
    Outbox.r_status r = Outbox.done_ ∧
    ∀ t, t ∈ Targets ex_pipe → ∃ blob data, held s !! (t_name t, ex_hash) = Some blob ∧
      ex_sum data = ex_hash ∧ restores ex_sum blob ex_hash data.
Proof.
  assert (Hr : (λ s, Outbox.r_externalID <$> outbox s !! 1%Z) <$> run ex_sum ex_pipe 5 5 ex_events =
    Some (Some ex_hash) ∧ (λ s, Outbox.r_status <$> outbox s !! 1%Z) <$> run ex_sum ex_pipe 5 5 ex_events =
    Some (Some Outbox.done_)) by (by vm_compute).
  destruct Hr as [Hx Hst]. destruct (run ex_sum ex_pipe 5 5 ex_events) as [s|] eqn:Es; [|done].
  injection Hx as Hx. injection Hst as Hst. destruct (outbox s !! 1%Z) as [r|] eqn:Er; [|done].
  injection Hx as Hx. injection Hst as Hst. exists s, r. split_and!; [done|done|done|].
  intros t Ht. rewrite <- Hx.
  by apply (done_rows_restore_everywhere ex_sum ex_pipe 5 5 ex_events s ex_sinks_obey Es) with (i := 1%Z).
Defined.

End System.
