(* ===== verification/Recovery.v ===== *)
(** * Recovery: nothing the service meets can strand an object

    System.v shows that no execution of the whole service claims something it did not
    do; this file shows that none can paint itself into a corner. From every state the
    service can reach, whatever crashed, hung, was lost or half done before, an outbox
    row that is still open can be brought to done by the service's own steps: the
    reaper, a claim, and one undisturbed backup. *)

From S2P Require Import Prelude GoRuntime Ports Circuit Keyset Ledger Outbox Stream Fanout Pipeline Consumer Progress Files Restore EndToEnd System.
From Stdlib Require Import ZArith Lia.
From stdpp Require Import base gmap strings list numbers fin_maps.

Module Recovery.
Import Ports Stream Fanout Pipeline Restore EndToEnd System.

Section recovery.
Context `{Decoder} `{Zstd} `{!ZstdLaws}.
Context (sum : bytes → string) (p : Pipeline) (maxAttempts maxDeliveries : Z).

Definition steps (evs : list event) (s : sys) : option sys :=
  foldl (λ s e, s ≫= step sum p maxAttempts maxDeliveries e) (Some s) evs.

Lemma run_steps evs evs' s : run sum p maxAttempts maxDeliveries evs = Some s →
  run sum p maxAttempts maxDeliveries (evs ++ evs') = steps evs' s.
Proof. intros Hr. unfold run in *. by rewrite foldl_app, Hr. Qed.

Lemma steps_cons e evs s s1 : step sum p maxAttempts maxDeliveries e s = Some s1 → steps (e :: evs) s = steps evs s1.
Proof. intros He. unfold steps. cbn. by rewrite He. Qed.

Lemma steps_app evs evs' s s1 : steps evs s = Some s1 → steps (evs ++ evs') s = steps evs' s1.
Proof. intros Hs. unfold steps in *. by rewrite foldl_app, Hs. Qed.

(** ** An undisturbed backup *)

(** The source delivers [data], every pump keeps up, nothing fails. *)
Definition fair_weather (data : bytes) : env :=
  MkPEnv None (λ _, (0, 0)%Z) (λ _, 0%Z) (Returns (inl [RData data None])) sum 1
    (λ _, (λ i, CDone i false) <$> seq 0 (length (Targets p))) (λ _, MkEnv None ArmResult CtxCanceled)
    None None None 0 None.

Lemma prompt_all i n tick : i < n → Progress.prompt i tick ((λ i, CDone i false) <$> seq 0 n) = true.
Proof.
  enough (∀ a, a ≤ i → i < a + n → Progress.prompt i tick ((λ i, CDone i false) <$> seq a n) = true) as Hall.
  { intros Hi. apply Hall; lia. }
  induction n as [|n IH]; intros a Ha Hi; [lia|]. cbn. destruct (Nat.eqb_spec a i); [done|]. apply IH; lia.
Qed.

Section object.
Context (id : string) (data : bytes).
Context (names : Progress.names_ok (Targets p)) (some : Targets p ≠ []) (valid : ValidateContentHash id = None).
Context (named : sum data = id) (small : (Z.of_nat (length data) ≤ maxObjectBytes)%Z).
Context (accept : ∀ t, t ∈ Targets p → Progress.accepts t id data).

Lemma fan_succeeds e pending : ExternalID e = id → pending `sublist_of` Targets p → pending ≠ [] →
  ∃ fo rs, fan p (fair_weather data) e pending = Some (inl fo) ∧ fo_results fo = Some rs ∧ length rs = length pending ∧
    fo_err fo = None ∧ ∀ r, r ∈ rs → r_err r = None.
Proof.
  intros He Hsub Hne. unfold fan. rewrite He. set (v := fair_weather data).
  assert (length pending ≤ length (Targets p)) as Hle by (by apply sublist_length).
  assert (fair (sched v) (length pending)) as Hfair.
  { intros k i Hi. exists false. cbn. apply list_elem_of_fmap. exists i. split; [done|]. apply elem_of_seq. lia. }
  change (fetch v) with (Returns (T := reader + err) (inl [RData data None])). cbn [mbind option_bind].
  destruct (fanOut_total (digest v) (bufsize v) (StallTimeout p) (sched v) [RData data None] (ctx_fanout v) id pending
    (goroutine v <$> seq 0 (length pending)) Hfair) as (fo & rs & Hfo & Hrs & Hlen); [cbn; lia|apply goroutines_length|].
  rewrite Hfo. exists fo, rs.
  assert (∀ i t, pending !! i = Some t → ∃ r, rs !! i = Some r ∧ r_err r = None ∧ fo_err fo = None) as Hserve.
  { intros i t Ht. pose proof (lookup_lt_Some _ _ _ Ht) as Hi.
    destruct (Progress.fanOut_serves _ _ _ _ _ _ _ _ _ fo i t (MkEnv None ArmResult CtxCanceled) Hfo)
      as (r & Hr & Hok & _ & Hfe); cbn; rewrite ?app_nil_r; try done.
    - by rewrite list_lookup_fmap, lookup_seq_lt.
    - intros k. apply prompt_all. lia.
    - apply accept. eapply elem_of_submseteq; [by eapply list_elem_of_lookup_2|by apply sublist_submseteq].
    - rewrite Hrs in Hr. exists r. split_and!; [done|done|by apply Hfe]. }
  split_and!; [done|done|done| |].
  - destruct pending as [|t0 ts]; [done|]. by destruct (Hserve 0 t0 eq_refl) as (_ & _ & _ & ?).
  - intros r [i Hr]%list_elem_of_lookup.
    destruct (lookup_lt_is_Some_2 pending i) as [t Ht]; [rewrite <- Hlen; by eapply lookup_lt_Some|].
    destruct (Hserve i t Ht) as (r' & ? & ? & _). congruence.
Qed.

(** All its stores commit, in their order. *)
Lemma commit_all b j pending sk fo todo s : backups s !! b = Some (Fanned j pending sk fo todo) →
  ∃ s', steps (replicate (length todo) (EvCommit b 0)) s = Some s' ∧ outbox s' = outbox s ∧ ledger s' = ledger s ∧
    backups s' !! b = Some (Fanned j pending sk fo []).
Proof.
  revert s. induction todo as [|[n x] todo IH]; intros s Hb; [by exists s|]. cbn [length replicate].
  erewrite steps_cons; [|unfold step, step_commit; by rewrite Hb].
  destruct (IH (MkSys (outbox s) (ledger s) (<[(n, ExternalID (j_item j)) := x]> (held s))
    (<[b := Fanned j pending sk fo todo]> (backups s)) (late s))) as (s' & Hs & Ho & Hl & Hb'); [cbn; by rewrite lookup_insert_eq|].
  exists s'. by split_and!.
Qed.

(** A fan-out whose stores all succeeded, settled after its commits, is done. *)
Lemma fanned_ends b j pending fo rs s : ExternalID (j_item j) = id → j_env j = fair_weather data →
  pending `sublist_of` Targets p → fo_results fo = Some rs → length rs = length pending → fo_err fo = None →
  (∀ r, r ∈ rs → r_err r = None) →
  backups s !! b = Some (Fanned j pending false fo (commits pending fo)) →
  ∃ evs s', steps evs s = Some s' ∧ outbox s' = outbox s ∧ backups s' !! b = Some (Ended j (Returns (true, false, None))).
Proof.
  intros Hid Hv Hsub Hrs Hlen Hfe Hall Hb.
  destruct (commit_all _ _ _ _ _ _ _ Hb) as (s1 & Hs1 & Ho & _ & Hb1).
  destruct (Progress.settleFanout_records (j_env j) (view s1 None) (j_item j) pending false fo rs)
    as (s2 & ret & Hset & _ & Hret); rewrite ?Hid, ?Hv; [done|by eapply Progress.names_ok_sublist|done..|].
  exists (replicate (length (commits pending fo)) (EvCommit b 0) ++ [EvSettle b None]). eexists.
  split; [erewrite steps_app by exact Hs1; unfold steps; cbn [foldl mbind option_bind step]|].
  { unfold step_settle. rewrite Hb1. assert (waited pending fo [] = true) as ->.
    { unfold waited. apply List.forallb_forall. intros x _. apply orb_true_iff. right.
      apply bool_decide_eq_true_2, not_elem_of_nil. }
    rewrite Hset. reflexivity. }
  cbn. split; [done|]. by rewrite lookup_insert_eq, Hret.
Qed.

(** From the start of a backup to its end. *)
Lemma backup_ends b j s : backups s !! b = Some (Started j) → ExternalID (j_item j) = id → j_known j = None →
  precheck p (j_item j) = None → j_env j = fair_weather data →
  ∃ evs s', steps evs s = Some s' ∧ outbox s' = outbox s ∧
    backups s' !! b = Some (Ended j (Returns (true, false, None))).
Proof.
  intros Hb Hid Hk Hpre Hv. set (st := Ledger.StoredTargets (System.ledger s) id).
  pose proof (Progress.pendingTargets_none_skipped (fair_weather data) st (Targets p) (view s None)) as Hsk.
  destruct (pendingTargets (fair_weather data) st (Targets p) (view s None)) as [[pending sk] s1] eqn:Hp.
  cbn [fst snd] in Hsk. rewrite Hsk in Hp by done. clear Hsk sk.
  pose proof (pendingTargets_spec _ _ _ _ _ _ _ Hp) as (_ & Hsub & _).
  assert (step sum p maxAttempts maxDeliveries (EvPick b None) s =
    Some (match pending with [] => set_backup b (Ended j (Returns (true, false, None))) s
                           | _ => set_backup b (Picked j pending false) s end)) as Hpick.
  { cbn [step]. unfold step_pick, pick. rewrite Hb, Hv, Hk, Hpre, Hid.
    change (resolveStored (fair_weather data) (view s None) id None) with (@inl (gset string) err st).
    cbv beta iota. rewrite Hp. by destruct pending. }
  destruct (decide (pending = [])) as [->|Hne].
  { exists [EvPick b None]. eexists. split; [by erewrite steps_cons by exact Hpick|].
    split; [done|]. cbn. by rewrite lookup_insert_eq. }
  destruct (fan_succeeds (j_item j) pending Hid Hsub Hne) as (fo & rs & Hfan & Hrs & Hlen & Hfe & Hall).
  set (s2 := set_backup b (Picked j pending false) s).
  set (s3 := set_backup b (Fanned j pending false fo (commits pending fo)) s2).
  assert (step sum p maxAttempts maxDeliveries (EvPick b None) s = Some s2) as Hs2 by (rewrite Hpick; by destruct pending).
  assert (step sum p maxAttempts maxDeliveries (EvFan b) s2 = Some s3) as Hs3.
  { cbn [step]. unfold step_fan. unfold s2 at 1. cbn [set_backup backups]. rewrite lookup_insert_eq, Hv, Hfan. done. }
  destruct (fanned_ends b j pending fo rs s3 Hid Hv Hsub Hrs Hlen Hfe Hall) as (evs & s4 & Hs4 & Ho & Hb4).
  { unfold s3. cbn. by rewrite lookup_insert_eq. }
  exists (EvPick b None :: EvFan b :: evs), s4. split_and!; [|exact Ho|exact Hb4].
  by rewrite (steps_cons _ _ _ _ Hs2), (steps_cons _ _ _ _ Hs3).
Qed.

(** ** The row *)

(** A claim can single out any claimable row: the others are locked. *)
Lemma Claim_only now t i r : t !! i = Some r → Outbox.claimable now r = true →
  Outbox.Claim now (dom t ∖ {[i]}) 1 t = (<[i := Outbox.claimed_row now r]> t, [Outbox.entry_of now (i, r)]).
Proof.
  intros Hr Hc. unfold Outbox.Claim. set (cs := Outbox.candidates now _ t).
  assert (∀ x, x ∈ cs → x = (i, r)) as Hall.
  { intros [k rk] (Hk & _ & Hl)%Outbox.candidates_elem. cbn in *.
    apply elem_of_dom_2 in Hk as Hd. rewrite elem_of_difference, elem_of_singleton in Hl.
    destruct (decide (k = i)) as [->|]; [congruence|by destruct Hl]. }
  assert ((i, r) ∈ cs) as Hin by (apply Outbox.candidates_elem; split_and!; [done|done|set_solver]).
  destruct cs as [|x cs]; [by apply not_elem_of_nil in Hin|]. by rewrite (Hall x) by apply list_elem_of_here.
Qed.

(** A pending row is brought to done by one undisturbed backup. *)
Lemma pending_row_done i r s : outbox s !! i = Some r → Outbox.r_status r = Outbox.pending → Outbox.r_externalID r = id →
  ∃ evs s' r', steps evs s = Some s' ∧ outbox s' !! i = Some r' ∧
    Outbox.r_status r' = Outbox.done_ ∧ Outbox.r_externalID r' = id.
Proof.
  intros Hr Hst Hid. set (now := default 0%Z (Outbox.r_visibleAt r)). set (b := fresh (dom (backups s))).
  assert (Outbox.claimable now r = true) as Hc.
  { unfold Outbox.claimable, Outbox.visible, now. rewrite Hst. destruct (Outbox.r_visibleAt r); [apply Z.leb_refl|done]. }
  set (e := Outbox.entry_of now (i, r)). set (j := MkJob (Some i) (entryItem e) None (fair_weather data)).
  set (s1 := MkSys (<[i := Outbox.claimed_row now r]> (outbox s)) (System.ledger s) (held s)
    (<[b := Started j]> (backups s)) (late s)).
  assert (step sum p maxAttempts maxDeliveries (EvClaim b now (dom (outbox s) ∖ {[i]}) (fair_weather data)) s = Some s1) as Hclaim.
  { cbn [step]. unfold claim. rewrite (Claim_only now _ i r Hr Hc).
    assert (backups s !! b = None) as -> by apply not_elem_of_dom, is_fresh. done. }
  destruct (backup_ends b j s1) as (evs & s2 & Hs2 & Ho & Hb2); [unfold s1; cbn; by rewrite lookup_insert_eq|done|done| |done|].
  { unfold precheck. cbn. rewrite Hid, valid. by rewrite bool_decide_eq_false_2. }
  set (v := Consumer.MkE (fair_weather data) None None 0 0 None).
  eexists (_ :: evs ++ [EvRow b v]), _, _. split.
  { rewrite (steps_cons _ _ _ _ Hclaim), (steps_app _ _ _ _ Hs2). unfold steps.
    cbn [foldl mbind option_bind step]. unfold step_row. rewrite Hb2. reflexivity. }
  cbn [outbox j_row j]. unfold finish_row. split; [|split].
  { rewrite (Consumer.settle_row maxAttempts _ _ _ _ _ _ _ _ _ (Outbox.claimed_row now r)); [reflexivity| |done].
    cbn. rewrite Ho. cbn. by rewrite lookup_insert_eq. }
  - done.
  - done.
Qed.
End object.

(** A row that is not settled for good: waiting, or claimed with a delivery to spare. *)
Definition open_row (r : Outbox.row) : bool :=
  match Outbox.r_status r with
  | Outbox.pending => true
  | Outbox.in_progress => (Outbox.COALESCE (Outbox.r_deliveries r) 0 + 1 <? maxDeliveries)%Z
  | _ => false
  end.

(** The reaper makes an open row claimable, whoever had claimed it. *)
Lemma reaped_is_pending i r s : outbox s !! i = Some r → open_row r = true →
  ∃ evs s' r', steps evs s = Some s' ∧ outbox s' !! i = Some r' ∧
    Outbox.r_status r' = Outbox.pending ∧ Outbox.r_externalID r' = Outbox.r_externalID r.
Proof.
  intros Hr Hopen. unfold open_row in Hopen. destruct (Outbox.r_status r) eqn:Hst; try done; [by exists [], s, r|].
  apply Z.ltb_lt in Hopen. set (now := (default 0 (Outbox.r_claimedAt r) + 1)%Z).
  exists [EvReap now 0]. eexists _, (Outbox.reaped_row maxDeliveries r). split; [reflexivity|].
  cbn [outbox]. unfold Outbox.ReapStale. cbn [fst]. rewrite lookup_fmap, Hr. cbn. unfold Outbox.reap_row, Outbox.stale.
  rewrite Hst, bool_decide_eq_true_2 by done.
  assert (match Outbox.r_claimedAt r with Some c => (c <? now - 0)%Z | None => true end = true) as ->.
  { unfold now. destruct (Outbox.r_claimedAt r); [|done]. cbn. apply Z.ltb_lt. lia. }
  split; [done|]. unfold Outbox.reaped_row. cbn. split; [|done].
  destruct (Z.geb_spec (Outbox.COALESCE (Outbox.r_deliveries r) 0 + 1)%Z maxDeliveries); [lia|done].
Qed.

(** C4: no execution strands an object. From every state the service can reach
    (whatever crashed, hung, was lost, dropped, half committed or is still under way)
    an outbox row that is waiting, or claimed with a delivery to spare, can be
    brought to done by the service's own steps, the reaper, a claim and one
    undisturbed backup; and then every configured target holds a copy that
    restores to the object. *)
Theorem no_object_is_stuck evs s i r data :
  sinks_obey p → run sum p maxAttempts maxDeliveries evs = Some s →
  outbox s !! i = Some r → open_row r = true →
  Progress.names_ok (Targets p) → Targets p ≠ [] → ValidateContentHash (Outbox.r_externalID r) = None →
  sum data = Outbox.r_externalID r → (Z.of_nat (length data) ≤ maxObjectBytes)%Z →
  (∀ t, t ∈ Targets p → Progress.accepts t (Outbox.r_externalID r) data) →
  ∃ evs' s' r', run sum p maxAttempts maxDeliveries (evs ++ evs') = Some s' ∧
    outbox s' !! i = Some r' ∧ Outbox.r_status r' = Outbox.done_ ∧
    ∀ t, t ∈ Targets p → ∃ blob, held s' !! (t_name t, Outbox.r_externalID r) = Some blob ∧
      good sum (Outbox.r_externalID r) blob.
Proof.
  intros Hob Hrun Hr Hopen Hnm Hne Hv Hsum Hsz Hacc.
  destruct (reaped_is_pending i r s Hr Hopen) as (evs1 & s1 & r1 & Hs1 & Hr1 & Hst1 & Hx1).
  destruct (pending_row_done (Outbox.r_externalID r) data Hnm Hne Hv Hsum Hsz Hacc i r1 s1 Hr1 Hst1 Hx1)
    as (evs2 & s2 & r2 & Hs2 & Hr2 & Hst2 & Hx2).
  assert (run sum p maxAttempts maxDeliveries (evs ++ evs1 ++ evs2) = Some s2) as Hrun2.
  { by rewrite (run_steps _ _ _ Hrun), (steps_app _ _ _ _ Hs1). }
  exists (evs1 ++ evs2), s2, r2. split_and!; [done..|]. intros t Ht.
  destruct (run_inv _ _ _ _ _ _ Hob Hrun2) as [Hrec Hh _ Hd _].
  destruct (Hrec _ _ (Hd i r2 Hr2 Hst2 t Ht)) as [blob Hb]. rewrite Hx2 in Hb. exists blob. split; [done|].
  by eapply Hh.
Qed.
End recovery.

(** A worker claims the row, stores the object on one target, and dies before it
    records anything; the row stays claimed. *)
#[local] Existing Instance Restore.ex_zstd.
#[local] Existing Instance Restore.ex_decoder.
#[local] Existing Instance Restore.ex_laws.

Definition ex_crash : list event :=
  [EvEnqueue 1 System.ex_row; EvClaim 0 5 ∅ System.ex_env; EvPick 0 None; EvFan 0; EvCommit 0 0; EvCrash 0].

Lemma ex_pipe_names_ok : Progress.names_ok (Targets System.ex_pipe).
Proof.
  split; [|repeat constructor; simpl; lia].
  apply (bool_decide_unpack (NoDup ["a"; "b"])). vm_compute. done.
Qed.

Lemma ex_accepts t : t ∈ Targets System.ex_pipe → Progress.accepts t ex_hash ex_plain.
Proof.
  intros [->|[->|Hn]%elem_of_cons]%elem_of_cons; [..|by apply not_elem_of_nil in Hn]; eexists; vm_compute; reflexivity.
Qed.

Lemma no_object_is_stuck_witness :
  ∃ s r, run ex_sum System.ex_pipe 5 5 ex_crash = Some s ∧ outbox s !! 1%Z = Some r ∧
    Outbox.r_status r = Outbox.in_progress ∧
    ∃ evs' s' r', run ex_sum System.ex_pipe 5 5 (ex_crash ++ evs') = Some s' ∧
      outbox s' !! 1%Z = Some r' ∧ Outbox.r_status r' = Outbox.done_ ∧
      ∀ t, t ∈ Targets System.ex_pipe → ∃ blob, held s' !! (t_name t, Outbox.r_externalID r) = Some blob ∧
        good ex_sum (Outbox.r_externalID r) blob.
Proof.
  assert (Hx : (λ s, outbox s !! 1%Z) <$> run ex_sum System.ex_pipe 5 5 ex_crash =
    Some (Some (Outbox.claimed_row 5 System.ex_row))) by (vm_compute; reflexivity).
  destruct (run ex_sum System.ex_pipe 5 5 ex_crash) as [s|] eqn:Es; [|done]. injection Hx as Hx.
  exists s, (Outbox.claimed_row 5 System.ex_row). split_and!; [done|done|done|].
  apply (no_object_is_stuck ex_sum System.ex_pipe 5 5 ex_crash s 1 _ ex_plain ex_sinks_obey Es Hx).
  - reflexivity.
  - apply ex_pipe_names_ok.
  - done.
  - vm_compute. reflexivity.
  - reflexivity.
  - vm_compute. done.
  - apply ex_accepts.
Defined.

End Recovery.
