(* ===== verification/FileService.v ===== *)
(** * The file-service client

    [src/internal/adapter/outbound/fileservice/client.go]: the URL of an object,
    the classification of an answer, and the startup probe. The HTTP transport
    is a parameter: the answer to a GET of a URL, a status with a body or an
    error.

    The last section composes it with the pipeline and the consumer: what a
    skipped outbox row means. *)

From S2P Require Import Prelude GoText GoRuntime Ports Circuit Keyset Ledger Stream Fanout Outbox Pipeline Consumer.
From Stdlib Require Import ZArith Lia.
From Stdlib Require Import Strings.Ascii Strings.String.
From stdpp Require Import base gmap strings list numbers.

Module FileService.
Import Ports Stream.

Definition preflightProbeKey : string := "preflight-probe-invalid-key".

Record Client := MkClient { baseURL : string; maxIdleConnsPerHost : Z }.

(** [New] with the default HTTP client. *)
Definition New (base : string) (maxIdleConns : Z) : Client :=
  MkClient (GoText.TrimRight "/" base) (if (maxIdleConns <? 1)%Z then 16 else maxIdleConns).

Section http.
(** Whether [http.NewRequest] accepts the URL, and the answer to the GET. *)
Context (newRequest : string → goerr) (do_ : string → (Z * reader) + err).

Definition reqURL (c : Client) (e : BackupItem) : string :=
  baseURL c +:+ "/internal/blob/" +:+ GoText.PathEscape (ExternalID e) +:+ "/content".

Definition FetchContent (c : Client) (e : BackupItem) : reader + err :=
  let u := reqURL c e in
  match newRequest u with
  | Some x => inr (Wrap "build request" [x])
  | None =>
      match do_ u with
      | inr x => inr (Wrap "fetch content" [x])
      | inl (status, body) =>
          if negb (status =? 200)%Z then
            if (status =? 404)%Z || (status =? 410)%Z
            then inr (Wrap "file-service GET" [Sent ErrSourceGone])
            else inr (Wrap "file-service GET: status" [Sent errRemoteStatus])
          else inl body
      end
  end.

Definition probeItem : BackupItem := MkItem 0 preflightProbeKey 0 None None.

Definition Preflight (c : Client) : goerr :=
  match FetchContent c probeItem with
  | inl _ => Some (Msg "file-service preflight: answered 200 to an invalid-key probe")
  | inr e =>
      if Is e ErrSourceGone then Some (Wrap "file-service preflight: no /internal/blob route" [e])
      else if Is e errRemoteStatus then None
      else Some (Wrap "file-service unreachable" [e])
  end.

(** The transport's own errors are not the client's two sentinels. *)
Definition foreign : Prop :=
  (∀ u x, newRequest u = Some x → Is x ErrSourceGone = false ∧ Is x errRemoteStatus = false) ∧
  (∀ u x, do_ u = inr x → Is x ErrSourceGone = false ∧ Is x errRemoteStatus = false).

Lemma FetchContent_gone c e x : foreign → FetchContent c e = inr x →
  Is x ErrSourceGone = true ↔ newRequest (reqURL c e) = None ∧ ∃ st b, do_ (reqURL c e) = inl (st, b) ∧ (st = 404 ∨ st = 410)%Z.
Proof.
  intros [Hb Hd]. unfold FetchContent. destruct (newRequest (reqURL c e)) as [y|] eqn:Eb.
  { intros [= <-]. rewrite Is_Wrap1. destruct (Hb _ _ Eb) as [-> _]. split; [done|by intros [? _]]. }
  destruct (do_ (reqURL c e)) as [[st b]|y] eqn:Ed.
  2:{ intros [= <-]. rewrite Is_Wrap1. destruct (Hd _ _ Ed) as [-> _]. split; [done|]. by intros (_ & ? & ? & ? & _). }
  destruct (st =? 200)%Z eqn:E2; cbn [negb]; [done|]. destruct ((st =? 404)%Z || (st =? 410)%Z) eqn:E4; intros [= <-].
  - split; [|done]. intros _. split; [done|]. exists st, b. split; [done|]. apply orb_true_iff in E4 as [?|?]; to_prop; auto.
  - split; [done|]. intros (_ & st' & b' & [= <- <-] & Hst). apply orb_false_iff in E4 as [? ?]; to_prop. lia.
Qed.

Lemma TrimRight_idem c s : GoText.TrimRight c (GoText.TrimRight c s) = GoText.TrimRight c s.
Proof.
  induction s as [|x s IH]; [done|]. cbn [GoText.TrimRight]. destruct (GoText.TrimRight c s) as [|y t] eqn:E.
  - case_bool_decide as Hx; [done|]. cbn. by rewrite bool_decide_eq_false_2.
  - rewrite <- E in *. cbn [GoText.TrimRight]. rewrite IH, E. done.
Qed.

Lemma TrimRight_app_slash s : GoText.TrimRight "/" (s +:+ "/") = GoText.TrimRight "/" s.
Proof.
  induction s as [|x s IH]; [done|]. rewrite GoText.append_cons. cbn [GoText.TrimRight]. by rewrite IH.
Qed.

(** ** Properties *)

(** The client reads one object by its hash and says what it was told. The
    request names the object in a single escaped path segment, for a content
    hash the hash itself, and trailing slashes of the configured base do not
    change it. The content is returned exactly on a 200; the error is
    source-gone exactly on a 404 or a 410; and [Preflight] passes exactly when
    the service answered the invalid key with something other than 200, 404 and
    410, so a missing route or a wrong endpoint stops the start. *)
Theorem fetch_says_what_it_was_told base n c e : foreign →
  c = New base n →
  New (base +:+ "/") n = c ∧
  GoText.unescape GoText.encodePathSegment (GoText.PathEscape (ExternalID e)) = Some (ExternalID e) ∧
  GoText.all_chars (GoText.isnt "/") (GoText.PathEscape (ExternalID e)) = true ∧
  (ValidateContentHash (ExternalID e) = None → GoText.PathEscape (ExternalID e) = ExternalID e) ∧
  (∀ body, FetchContent c e = inl body ↔ newRequest (reqURL c e) = None ∧ do_ (reqURL c e) = inl (200%Z, body)) ∧
  (∀ x, FetchContent c e = inr x → Is x ErrSourceGone = true ↔
     newRequest (reqURL c e) = None ∧ ∃ st b, do_ (reqURL c e) = inl (st, b) ∧ (st = 404 ∨ st = 410)%Z) ∧
  (Preflight c = None ↔ newRequest (reqURL c probeItem) = None ∧
     ∃ st b, do_ (reqURL c probeItem) = inl (st, b) ∧ st ≠ 200%Z ∧ st ≠ 404%Z ∧ st ≠ 410%Z).
Proof.
  intros Hf ->. split_and!.
  - unfold New. by rewrite TrimRight_app_slash.
  - by apply GoText.unescape_escape.
  - apply GoText.escape_all_chars. intros c. by destruct c as [[] [] [] [] [] [] [] []].
  - intros [_ Hh]%ValidateContentHash_None. apply GoText.escape_plain. eapply GoText.all_chars_impl; [|exact Hh].
    intros c. by destruct c as [[] [] [] [] [] [] [] []].
  - intros body. unfold FetchContent. destruct (newRequest _); [split; [done|by intros [? _]]|].
    destruct (do_ _) as [[st b]|y]; [|split; [done|by intros [_ ?]]].
    destruct (st =? 200)%Z eqn:E; to_prop; cbn [negb].
    + subst st. split; [by intros [= ->]|by intros [_ [= ->]]].
    + destruct (_ || _); (split; [done|]); intros [_ [= ? _]]; lia.
  - intros x. by apply FetchContent_gone.
  - destruct Hf as [Hb Hd]. unfold Preflight, FetchContent. destruct (newRequest (reqURL _ probeItem)) as [y|] eqn:Eb.
    { rewrite !Is_Wrap1. destruct (Hb _ _ Eb) as [-> ->]. split; [done|by intros [? _]]. }
    destruct (do_ (reqURL _ probeItem)) as [[st b]|y] eqn:Ed.
    2:{ rewrite !Is_Wrap1. destruct (Hd _ _ Ed) as [-> ->]. split; [done|]. by intros (_ & ? & ? & ? & _). }
    destruct (st =? 200)%Z eqn:E2; cbn [negb]; to_prop; [split; [done|]; intros (_ & ? & ? & [= <- _] & ? & _); lia|].
    destruct ((st =? 404)%Z || (st =? 410)%Z) eqn:E4; cbn.
    + split; [done|]. intros (_ & ? & ? & [= <- _] & _ & ? & ?). apply orb_true_iff in E4 as [?|?]; to_prop; lia.
    + apply orb_false_iff in E4 as [? ?]; to_prop. split; [|done]. intros _. split; [done|]. by exists st, b.
Qed.
End http.

Definition ex_do (u : string) : (Z * reader) + err :=
  if bool_decide (u = "http://fs/internal/blob/preflight-probe-invalid-key/content") then inl (400%Z, []) else inl (404%Z, []).

Lemma fetch_says_what_it_was_told_witness :
  Preflight (λ _, None) ex_do (New "http://fs/" 8) = None ∧
  reqURL (New "http://fs//" 8) (MkItem 1 "a/b" 0 None None) = "http://fs/internal/blob/a%2Fb/content".
Proof.
  split; [|vm_compute; reflexivity].
  apply (fetch_says_what_it_was_told (λ _, None) ex_do "http://fs/" 8 (New "http://fs/" 8) probeItem).
  - split; [done|]. intros u x. unfold ex_do. by case_bool_decide.
  - reflexivity.
  - split; [done|]. by exists 400%Z, [].
Defined.


(** ** What a skipped row means *)

Import Fanout Pipeline.

(** A stream none of whose errors says that the source is gone. *)
Definition silent (r : reader) : Prop :=
  Forall (λ ev, match ev with RData _ e => errors_Is e ErrSourceGone = false | RSticky e => Is e ErrSourceGone = false | RPanic _ => True end) r.

Lemma read_silent k r r' bs e : silent r → read k r = (r', Returns (bs, e)) → silent r' ∧ errors_Is e ErrSourceGone = false.
Proof.
  intros Hr. destruct r as [|[b x|m|x] r]; cbn.
  - by intros [= <- <- <-].
  - apply list.Forall_cons in Hr as [Hx Hr]. destruct (length b <=? k); intros [= <- <- <-]; [done|]. split; [|done]. by constructor.
  - done.
  - intros [= <- <- <-]. split; [done|]. by apply list.Forall_cons in Hr as [Hx _].
Qed.

Lemma VRead_silent sum k v v' p e : silent (v_r v) → VRead sum k v = (v', Returns (p, e)) →
  silent (v_r v') ∧ errors_Is e ErrSourceGone = false.
Proof.
  intros Hr. unfold VRead. destruct (read k (v_r v)) as [r' [[q x]|m]] eqn:Er; [|done].
  destruct (read_silent _ _ _ _ _ Hr Er) as [Hr' Hx]. intros [= <- <- <-]. split; [done|].
  destruct (_ && _); [done|]. destruct (_ || _); [|done]. by case_bool_decide.
Qed.

Lemma read_loop_silent sum fuel min v got v' p e : silent (v_r v) → read_loop sum fuel min v got = Some (v', Returns (p, e)) →
  silent (v_r v') ∧ errors_Is e ErrSourceGone = false.
Proof.
  assert (∀ g x, errors_Is x ErrSourceGone = false → errors_Is (read_finish min g x).2 ErrSourceGone = false) as Hfin.
  { intros g x Hx. unfold read_finish. destruct (min <=? length g); [done|]. cbn [snd]. by destruct (_ && _). }
  revert v got. induction fuel as [|fuel IH]; intros v got Hr Hl; [done|]. cbn [read_loop] in Hl. destruct (length got <? min).
  - destruct (VRead sum _ v) as [v1 [[q [x|]]|m]] eqn:EV; [| |done];
      destruct (VRead_silent _ _ _ _ _ _ Hr EV) as [Hr1 Hx]; [|by eapply IH].
    injection Hl as <- Hl. split; [done|]. specialize (Hfin (got ++ q) (Some x) Hx). by rewrite Hl in Hfin.
  - injection Hl as <- Hl. split; [done|]. specialize (Hfin got None eq_refl). by rewrite Hl in Hfin.
Qed.

Lemma fanoutCopy_silent sum buf stall evs fuel k f v f' v' e : silent (v_r v) →
  fanoutCopy sum buf stall evs fuel k f v = Some (f', v', e) → errors_Is e ErrSourceGone = false.
Proof.
  revert k f v. induction fuel as [|fuel IH]; intros k f v Hr Hc; [done|]. cbn [fanoutCopy] in Hc.
  destruct (ReadFull sum buf v) as [[v1 [[p x]|m]]|] eqn:ER; cbn [mbind option_bind] in Hc; [|by simplify_eq|done].
  destruct (read_loop_silent _ _ _ _ _ _ _ _ Hr ER) as [Hr1 Hx].
  assert (∀ f1 w, (if 0 <? length p then Write stall p (evs k) f else Some (f, None)) = Some (f1, Some w) → Is w ErrSourceGone = false) as Hw.
  { intros f1 w. destruct (0 <? length p); [|done]. unfold Write. destruct (collect _ _ _ _); [|done]. cbn.
    destruct (existsb _ _); intros [= _ <-]. done. }
  destruct (if 0 <? length p then _ else _) as [[f1 [w|]]|] eqn:EW; cbn [mbind option_bind] in Hc; [| |done].
  - simplify_eq. by apply (Hw f' w).
  - destruct x as [x|]; [|by eapply IH]. destruct (ends (Some x)); by simplify_eq.
Qed.

Lemma fanOut_silent `{Zstd} sum buf stall evs rc ctx hash ts envs fo : silent rc →
  fanOut sum buf stall evs (inl rc) ctx hash ts envs = Some fo → errors_Is (fo_err fo) ErrSourceGone = false.
Proof.
  intros Hr. unfold fanOut. destruct (fanoutCopy _ _ _ _ _ _ _ _) as [[[f v] e]|] eqn:Ec; [|done]. cbn [mbind option_bind].
  apply fanoutCopy_silent in Ec; [|done]. intros [= <-]. destruct ctx as [[]|]; [done..|]. destruct e as [e|]; [|done].
  destruct (Is e ErrClosedPipe); cbn in *; [done|]. by rewrite Ec.
Qed.

Section skipped.
Context {L : Type} `{Ledger.LedgerIface L} `{Zstd}.

(** The other parts' errors do not say that the source is gone. *)
Definition quiet (v : env) : Prop :=
  errors_Is (read_err v) ErrSourceGone = false ∧
  (∀ x a, record_fault v = Some (x, a) → Is x ErrSourceGone = false) ∧
  (∀ now meta sts (l : L) x, Ledger.lg_RecordBackup now meta sts l = Keyset.Er x → Is x ErrSourceGone = false).

Lemma settleFanout_gone v (s : pstate (L := L)) e pending skippedOpen fo s' ok d x : quiet v →
  settleFanout v s e pending skippedOpen fo = (s', Returns (ok, d, Some x)) → Is x ErrSourceGone = true →
  errors_Is (fo_err fo) ErrSourceGone = true.
Proof.
  intros (_ & Hrf & Hlr) Hs Hx. unfold settleFanout in Hs. destruct (bool_decide (fo_err fo ≠ None) && _).
  { injection Hs as _ _ _ Hs. by rewrite Hs. }
  destruct (if shouldRecordCircuit _ _ _ then _ else _) as [s1|]; [|done].
  destruct (classifyFanout _ _ _ _) as [[[[sts hf] al] ms]|]; [|done].
  assert (∀ s0 meta y, (record v s0 meta sts).2 = Some y → Is y ErrSourceGone = false) as Hrec.
  { intros s0 meta y. unfold record. destruct sts; [done|]. destruct (record_fault v) as [[z ap]|] eqn:Erf.
    - intros [= <-]. rewrite Is_Wrap1. by eapply Hrf.
    - destruct (Ledger.lg_RecordBackup _ _ _ _) eqn:Er; [done|]. intros [= <-]. rewrite Is_Wrap1. by eapply Hlr. }
  specialize (Hrec (MkP (ledger s1) (circuit s1) (metrics s1 ++ ms)) (mk_meta e (fo_verified fo))).
  destruct (record v _ _ sts) as [s2 [y|]]; cbn [snd] in Hrec.
  - injection Hs as _ _ _ <-. specialize (Hrec y eq_refl). congruence.
  - destruct hf; [|by destruct (al && _)]. case_bool_decide; injection Hs as _ _ _ Hs; [by rewrite Hs|done].
Qed.

Lemma backupFrom_gone p v (s : pstate (L := L)) e known o ok d x : quiet v →
  (∀ rc, fetch v = Returns (inl rc) → silent rc) →
  backupFrom p v s e known = Some o → o_ret o = Returns (ok, d, Some x) → Is x ErrSourceGone = true →
  ∃ y, fetch v = Returns (inr y) ∧ Is y ErrSourceGone = true.
Proof.
  intros Hq Hsil Hb Hr Hx. unfold backupFrom in Hb. destruct (precheck p e) as [y|] eqn:Ep.
  { simplify_eq. cbn in Hr. injection Hr as _ _ <-. unfold precheck, ValidateContentHash in Ep.
    repeat case_match; by simplify_eq. }
  destruct (resolveStored v s (ExternalID e) known) as [st|y] eqn:Es.
  2:{ simplify_eq. cbn in Hr. injection Hr as _ _ <-. unfold resolveStored in Es. destruct known; [done|].
      destruct Hq as (Hre & _). destruct (read_err v); [|done]. injection Es as <-. rewrite Is_Wrap1 in Hx. cbn in Hre. congruence. }
  destruct (pendingTargets v st (Targets p) s) as [[pending skipped] s1]. destruct pending as [|t pending]; [by simplify_eq|].
  destruct (fetch v) as [src|m] eqn:Ef; [|by simplify_eq].
  destruct (fanOut _ _ _ _ src _ _ _ _) as [fo|] eqn:Efo; [|done]. cbn [mbind option_bind] in Hb.
  destruct (settleFanout _ _ _ _ _ _) as [s2 ret] eqn:Eset. simplify_eq. cbn in Hr. subst ret.
  apply settleFanout_gone in Eset; [|done..]. destruct src as [rc|y].
  - apply fanOut_silent in Efo; [congruence|by apply Hsil].
  - exists y. split; [done|]. unfold fanOut in Efo. injection Efo as <-. exact Eset.
Qed.

(** An outbox row is skipped only because the service said the object is gone.
    When the settlement of a claimed row leaves it skipped, the terminal state
    that gives an object up without a retry or an alert of its own, the
    file service answered 404 or 410 to the request for that row's own content
    hash, and the worker was not being shut down. A transport error, a 5xx, a
    failing target or ledger never skips a row. *)
Theorem skipped_row_was_gone newRequest do_ c ma p v e (s s' : Consumer.cstate (L := L)) r r' :
  foreign newRequest do_ → quiet (Consumer.e_pipe v) →
  fetch (Consumer.e_pipe v) = Returns (FetchContent newRequest do_ c (entryItem e)) →
  (∀ rc, FetchContent newRequest do_ c (entryItem e) = inl rc → silent rc) →
  Consumer.outbox s !! entryID e = Some r → Outbox.r_status r = Outbox.in_progress → Consumer.e_fault v = None →
  Consumer.process ma p v e s = Some s' → Consumer.outbox s' !! entryID e = Some r' →
  Outbox.r_status r' = Outbox.skipped →
  Consumer.e_ctx v = None ∧
  ∃ st b, do_ (reqURL c (entryItem e)) = inl (st, b) ∧ (st = 404 ∨ st = 410)%Z.
Proof.
  intros Hfor Hq Hfetch Hsil Hr Hst Hflt. unfold Consumer.process, BackupOne.
  destruct (backupFrom p (Consumer.e_pipe v) _ (entryItem e) None) as [o|] eqn:Eo; simpl; [|done].
  intros [= <-]. rewrite Hflt. destruct (o_ret o) as [[[ok deferred] x]|pn] eqn:Eret.
  2:{ rewrite (Consumer.outbox_fail ma _ _ _ _ r) by done. intros [= <-]. cbn. by case_match. }
  rewrite (Consumer.settle_row ma _ _ _ _ _ _ _ _ _ r) by done. intros [= <-]. unfold Consumer.settled_row.
  destruct (ok && _); [done|]. destruct (bool_decide (Consumer.e_ctx v ≠ None)) eqn:Ec; [done|]. to_prop.
  destruct (errors_Is x ErrSourceGone) eqn:Ex.
  - intros _. split; [by destruct (Consumer.e_ctx v); [destruct Ec|]|].
    destruct x as [x|]; [|done]. edestruct backupFrom_gone as (y & Hy & Hgone); [done| |done|done|done|].
    { intros rc Hrc. rewrite Hfetch in Hrc. injection Hrc as Hrc. by apply Hsil. }
    rewrite Hfetch in Hy. injection Hy as Hy. destruct (FetchContent_gone _ _ _ _ _ Hfor Hy) as [Hiff _].
    by destruct (Hiff Hgone) as [_ ?].
  - destruct deferred; [done|]. cbn. unfold Outbox.failed_row. cbn. by case_match.
Qed.
End skipped.


#[local] Existing Instance Pipeline.ex_zstd.

Definition ex_client : Client := New "http://fs" 8.
Definition ex_gone_env : env := MkPEnv None (λ _, (1, 1)%Z) (λ _, 1%Z)
  (Returns (FetchContent (λ _, None) ex_do ex_client ex_item)) ex_digest 8 (λ _, []) (λ _, MkEnv None ArmResult CtxCanceled)
  None None None 7 None.
Definition ex_gone : Consumer.penv := Consumer.MkE ex_gone_env None None 100 7 None.

Lemma skipped_row_was_gone_witness :
  (λ s, Outbox.r_status <$> Consumer.outbox s !! 1%Z) <$> Consumer.process 5 ex_pipe ex_gone Consumer.ex_entry Consumer.ex_state =
    Some (Some Outbox.skipped) ∧
  ∃ st b, ex_do (reqURL ex_client ex_item) = inl (st, b) ∧ (st = 404 ∨ st = 410)%Z.
Proof.
  assert ((λ s, Outbox.r_status <$> Consumer.outbox s !! 1%Z) <$>
    Consumer.process 5 ex_pipe ex_gone Consumer.ex_entry Consumer.ex_state = Some (Some Outbox.skipped)) as Hr by (vm_compute; reflexivity).
  split; [exact Hr|].
  destruct (Consumer.process 5 ex_pipe ex_gone Consumer.ex_entry Consumer.ex_state) as [s'|] eqn:Es; [|done].
  injection Hr as Hr. destruct (Consumer.outbox s' !! 1%Z) as [r'|] eqn:Er; [|done]. injection Hr as Hr.
  apply (skipped_row_was_gone (λ _, None) ex_do ex_client 5 ex_pipe ex_gone Consumer.ex_entry Consumer.ex_state s' Consumer.ex_row r').
  - split; [done|]. intros u x. unfold ex_do. by case_bool_decide.
  - split_and!; [done|done|]. intros now meta sts l x. cbn. unfold Ledger.RecordBackup. by destruct (Ledger.well_typed _ _); intros [= <-].
  - reflexivity.
  - intros rc Hrc. vm_compute in Hrc. discriminate Hrc.
  - reflexivity.
  - reflexivity.
  - reflexivity.
  - exact Es.
  - exact Er.
  - exact Hr.
Defined.

End FileService.
