(* ===== verification/Metrics.v ===== *)
(** * Metrics

    [src/internal/adapter/inbound/metrics/metrics.go]: the registry and its
    names, the per-target counters behind their cache, and the restore drill's
    textfile with the last success it carries forward. The setters of the RPO
    and immutability gauges are in Service.v and Verdict.v, where their
    samplers are.

    A counter or gauge is a Prometheus float64; the values here are counts, byte
    totals and Unix seconds, held as integers, which a float64 represents
    exactly below 2^53. The exposition format is library code: [Expfmt] is its
    encoder and parser with the one law the code relies on. *)

From S2P Require Import Prelude GoText GoRuntime Ports Stream Pipeline Files Layout.
From Stdlib Require Import ZArith Lia.
From Stdlib Require Import Strings.Byte Strings.Ascii Strings.String.
From stdpp Require Import base gmap strings list numbers.

Module Metrics.
Import Ports Stream Files.

(** ** The registry *)

Inductive kind := Counter | Gauge | CounterVec (labels : list string) | GaugeVec (labels : list string).

(** [promauto] registers or panics: a name can be registered once. *)
Definition register (reg : list (string * kind)) (d : string * kind) : option (list (string * kind)) :=
  if bool_decide (d.1 ∈ reg.*1) then None else Some (reg ++ [d]).

Fixpoint register_all (reg : list (string * kind)) (ds : list (string * kind)) : option (list (string * kind)) :=
  match ds with [] => Some reg | d :: ds => reg ← register reg d; register_all reg ds end.

Definition descriptors : list (string * kind) :=
  [("filebackup_objects_total", CounterVec ["result"; "target"]); ("filebackup_bytes_stored_total", CounterVec ["target"]);
   ("filebackup_deadletter_total", Counter); ("filebackup_object_timeout_total", Counter);
   ("filebackup_source_gone_total", Counter); ("filebackup_manifest_write_errors_total", Counter);
   ("filebackup_outbox_pending", Gauge); ("filebackup_oldest_pending_age_seconds", Gauge);
   ("filebackup_last_success_age_seconds", Gauge); ("filebackup_under_replicated_objects", Gauge);
   ("filebackup_targets_never_verified", Gauge); ("filebackup_targets_circuit_open", Gauge);
   ("filebackup_metrics_sample_errors_total", Counter);
   ("filebackup_immutability_ok", GaugeVec ["target"]); ("filebackup_immutability_unverifiable", GaugeVec ["target"])].

(** ** The counters *)

(** A resolved handle is a series of one of the two vectors. *)
Inductive series := SObjects (result target : string) | SBytes (target : string).
#[global] Instance series_eq_dec : EqDecision series.
Proof. solve_decision. Defined.

Record targetCounters := MkTC { tc_stored : series; tc_failed : series; tc_dedup : series; tc_bytes : series }.

(** The registered names, the series' values, the scalar counters and the cache
    of handles ([byTarget]). *)
Record Metrics := MkMetrics {
  reg : list (string * kind);
  objects : gmap (string * string) Z; bytes_ : gmap string Z;
  deadletter : Z; timeout : Z; sourceGone : Z; manifestErr : Z;
  byTarget : gmap string targetCounters;
}.

Definition New : option Metrics :=
  r ← register_all [] descriptors; Some (MkMetrics r ∅ ∅ 0 0 0 0 ∅).

Definition value (m : Metrics) (s : series) : Z :=
  match s with
  | SObjects r t => default 0%Z (objects m !! (r, t))
  | SBytes t => default 0%Z (bytes_ m !! t)
  end.

(** [WithLabelValues]: the series, created at 0 when it is new. *)
Definition WithLabelValues (m : Metrics) (s : series) : Metrics :=
  match s with
  | SObjects r t => MkMetrics (reg m) (match objects m !! (r, t) with None => <[(r, t) := 0%Z]> (objects m) | _ => objects m end)
      (bytes_ m) (deadletter m) (timeout m) (sourceGone m) (manifestErr m) (byTarget m)
  | SBytes t => MkMetrics (reg m) (objects m) (match bytes_ m !! t with None => <[t := 0%Z]> (bytes_ m) | _ => bytes_ m end)
      (deadletter m) (timeout m) (sourceGone m) (manifestErr m) (byTarget m)
  end.

(** [Counter.Add] panics on a negative value. *)
Definition Add (m : Metrics) (s : series) (v : Z) : attempt Metrics :=
  if (v <? 0)%Z then Panics "counter cannot decrease in value"
  else Returns (match s with
    | SObjects r t => MkMetrics (reg m) (<[(r, t) := (value m s + v)%Z]> (objects m)) (bytes_ m)
        (deadletter m) (timeout m) (sourceGone m) (manifestErr m) (byTarget m)
    | SBytes t => MkMetrics (reg m) (objects m) (<[t := (value m s + v)%Z]> (bytes_ m))
        (deadletter m) (timeout m) (sourceGone m) (manifestErr m) (byTarget m)
    end).

Definition counters (m : Metrics) (target : string) : Metrics * targetCounters :=
  match byTarget m !! target with
  | Some tc => (m, tc)
  | None =>
      let tc := MkTC (SObjects StateStored target) (SObjects StateFailed target) (SObjects "dedup" target) (SBytes target) in
      let m := foldl WithLabelValues m [tc_stored tc; tc_failed tc; tc_dedup tc; tc_bytes tc] in
      (MkMetrics (reg m) (objects m) (bytes_ m) (deadletter m) (timeout m) (sourceGone m) (manifestErr m)
         (<[target := tc]> (byTarget m)), tc)
  end.

Definition ObjectStored (target : string) (storedBytes : Z) (m : Metrics) : attempt Metrics :=
  let '(m, tc) := counters m target in
  match Add m (tc_stored tc) 1 with
  | Panics x => Panics x
  | Returns m => Add m (tc_bytes tc) storedBytes
  end.

Definition ObjectFailed (target : string) (m : Metrics) : attempt Metrics :=
  let '(m, tc) := counters m target in Add m (tc_failed tc) 1.

Definition ObjectDedup (target : string) (m : Metrics) : attempt Metrics :=
  let '(m, tc) := counters m target in Add m (tc_dedup tc) 1.

(** What the pipeline observes, reported in order. *)
Definition observe (m : Metrics) (o : Pipeline.metric) : attempt Metrics :=
  match o with
  | Pipeline.ObjectStored t n => ObjectStored t n m
  | Pipeline.ObjectFailed t => ObjectFailed t m
  | Pipeline.ObjectDedup t => ObjectDedup t m
  end.

Fixpoint observe_all (m : Metrics) (os : list Pipeline.metric) : attempt Metrics :=
  match os with
  | [] => Returns m
  | o :: os => match observe m o with Panics x => Panics x | Returns m => observe_all m os end
  end.

(** The scalar counters. *)
Definition DeadLetter (m : Metrics) : Metrics :=
  MkMetrics (reg m) (objects m) (bytes_ m) (deadletter m + 1) (timeout m) (sourceGone m) (manifestErr m) (byTarget m).
Definition ObjectTimeout (m : Metrics) : Metrics :=
  MkMetrics (reg m) (objects m) (bytes_ m) (deadletter m) (timeout m + 1) (sourceGone m) (manifestErr m) (byTarget m).
Definition SourceGone (m : Metrics) : Metrics :=
  MkMetrics (reg m) (objects m) (bytes_ m) (deadletter m) (timeout m) (sourceGone m + 1) (manifestErr m) (byTarget m).
Definition ManifestError (m : Metrics) : Metrics :=
  MkMetrics (reg m) (objects m) (bytes_ m) (deadletter m) (timeout m) (sourceGone m) (manifestErr m + 1) (byTarget m).

(** ** The counters count *)

(** What a series should show after the observations. *)
Definition counted (os : list Pipeline.metric) (s : series) : Z :=
  foldr Z.add 0%Z ((λ o,
    match o, s with
    | Pipeline.ObjectStored t n, SObjects r t' => if bool_decide (r = StateStored ∧ t = t') then 1 else 0
    | Pipeline.ObjectStored t n, SBytes t' => if bool_decide (t = t') then n else 0
    | Pipeline.ObjectFailed t, SObjects r t' => if bool_decide (r = StateFailed ∧ t = t') then 1 else 0
    | Pipeline.ObjectDedup t, SObjects r t' => if bool_decide (r = "dedup" ∧ t = t') then 1 else 0
    | _, _ => 0
    end)%Z <$> os).

(** The cached handles are the ones a lookup would resolve. *)
Definition cache_ok (m : Metrics) : Prop :=
  ∀ t tc, byTarget m !! t = Some tc →
    tc = MkTC (SObjects StateStored t) (SObjects StateFailed t) (SObjects "dedup" t) (SBytes t).

Lemma value_With m s s' : value (WithLabelValues m s) s' = value m s'.
Proof.
  destruct s as [r t|t], s' as [r' t'|t']; cbn; try done.
  - destruct (objects m !! (r, t)) eqn:E; [done|]. destruct (decide ((r, t) = (r', t'))) as [<-|Hne].
    + by rewrite lookup_insert_eq, E.
    + by rewrite lookup_insert_ne.
  - destruct (bytes_ m !! t) eqn:E; [done|]. destruct (decide (t = t')) as [<-|Hne].
    + by rewrite lookup_insert_eq, E.
    + by rewrite lookup_insert_ne.
Qed.

Lemma Add_spec m s v : (0 ≤ v)%Z → ∃ m', Add m s v = Returns m' ∧ byTarget m' = byTarget m ∧
  ∀ s', value m' s' = (value m s' + if bool_decide (s = s') then v else 0)%Z.
Proof.
  intros Hv. unfold Add. rewrite (proj2 (Z.ltb_ge _ _)) by done. eexists. split; [done|]. split; [by destruct s|]. intros s'.
  destruct s as [r t|t], s' as [r' t'|t']; cbn [value objects bytes_].
  - destruct (decide ((r, t) = (r', t'))) as [[= <- <-]|Hne].
    + rewrite lookup_insert_eq. by rewrite bool_decide_eq_true_2.
    + rewrite lookup_insert_ne by done. rewrite bool_decide_eq_false_2 by congruence. lia.
  - rewrite bool_decide_eq_false_2 by done. lia.
  - rewrite bool_decide_eq_false_2 by done. lia.
  - destruct (decide (t = t')) as [<-|Hne].
    + rewrite lookup_insert_eq. by rewrite bool_decide_eq_true_2.
    + rewrite lookup_insert_ne by done. rewrite bool_decide_eq_false_2 by congruence. lia.
Qed.

Lemma counters_spec m t : cache_ok m →
  let '(m', tc) := counters m t in
  cache_ok m' ∧ tc = MkTC (SObjects StateStored t) (SObjects StateFailed t) (SObjects "dedup" t) (SBytes t) ∧
  ∀ s, value m' s = value m s.
Proof.
  intros Hc. unfold counters. destruct (byTarget m !! t) as [tc|] eqn:E; [split_and!; [done|by apply Hc|done]|].
  set (tc := MkTC _ _ _ _). set (m1 := foldl WithLabelValues m _).
  assert (byTarget m1 = byTarget m) as Hb by done.
  assert (∀ s, value m1 s = value m s) as Hv by (intros s; cbn -[value WithLabelValues] in m1; subst m1; by rewrite !value_With).
  split_and!; [|done|].
  - intros t' tc'. cbn [byTarget]. rewrite Hb. destruct (decide (t = t')) as [<-|Hne].
    + rewrite lookup_insert_eq. by intros [= <-].
    + rewrite lookup_insert_ne by done. apply Hc.
  - intros s. rewrite <- Hv. by destruct s.
Qed.

Definition sane (o : Pipeline.metric) : Prop := match o with Pipeline.ObjectStored _ n => (0 ≤ n)%Z | _ => True end.

Lemma observe_spec m o : cache_ok m → sane o →
  ∃ m', observe m o = Returns m' ∧ cache_ok m' ∧ ∀ s, value m' s = (value m s + counted [o] s)%Z.
Proof.
  intros Hc Hs. assert (∀ t, let '(m1, tc) := counters m t in
    cache_ok m1 ∧ tc = MkTC (SObjects StateStored t) (SObjects StateFailed t) (SObjects "dedup" t) (SBytes t) ∧
    ∀ s, value m1 s = value m s) as Hct by (intros t; by apply counters_spec).
  assert (∀ m1 m2, cache_ok m1 → byTarget m2 = byTarget m1 → cache_ok m2) as Hcm by (intros m1 m2 H E t tc; rewrite E; apply H).
  destruct o as [t|t n|t]; cbn [observe]; unfold ObjectDedup, ObjectStored, ObjectFailed; specialize (Hct t);
    destruct (counters m t) as [m1 tc]; destruct Hct as (Hc1 & -> & Hv1); cbn [tc_stored tc_failed tc_dedup tc_bytes].
  - destruct (Add_spec m1 (SObjects "dedup" t) 1) as (m2 & -> & Hb & Hv2); [lia|]. exists m2. split_and!; [done|by eapply Hcm|].
    intros s. rewrite Hv2, Hv1. cbn. rewrite Z.add_0_r. f_equal. destruct s as [r t'|t']; repeat case_bool_decide; naive_solver.
  - destruct (Add_spec m1 (SObjects StateStored t) 1) as (m2 & -> & Hb2 & Hv2); [lia|].
    destruct (Add_spec m2 (SBytes t) n Hs) as (m3 & -> & Hb3 & Hv3). exists m3. split_and!; [done|by eapply Hcm; [exact Hc1|congruence]|].
    intros s. rewrite Hv3, Hv2, Hv1. cbn. rewrite Z.add_0_r. rewrite <- Z.add_assoc. f_equal.
    destruct s as [r t'|t']; repeat case_bool_decide; naive_solver lia.
  - destruct (Add_spec m1 (SObjects StateFailed t) 1) as (m2 & -> & Hb & Hv2); [lia|]. exists m2. split_and!; [done|by eapply Hcm|].
    intros s. rewrite Hv2, Hv1. cbn. rewrite Z.add_0_r. f_equal. destruct s as [r t'|t']; repeat case_bool_decide; naive_solver.
Qed.

(** The exported counters are the pipeline's observations. The registry is
    built without a name clash; and after any sequence of observations (stores
    of non-negative size, failures, dedups) on any targets, no call panics and
    every series shows exactly the number, and the byte total, of the
    observations for its result and target: the handle cache is invisible. *)
Theorem counters_count_observations os : Forall sane os →
  ∃ m m', New = Some m ∧ observe_all m os = Returns m' ∧ ∀ s, value m' s = counted os s.
Proof.
  intros Hs. destruct New as [m|] eqn:En; [|vm_compute in En; done].
  assert (cache_ok m ∧ ∀ s, value m s = 0%Z) as [Hc Hv].
  { unfold New in En. destruct (register_all [] descriptors); [|done]. injection En as <-. split; [done|]. by intros []. }
  exists m. assert (∃ m', observe_all m os = Returns m' ∧ ∀ s, value m' s = (value m s + counted os s)%Z) as (m' & Ho & Hm).
  { clear Hv En. revert m Hc. induction Hs as [|o os Ho Hos IH]; intros m Hc; cbn [observe_all].
    - exists m. split; [done|]. intros s. unfold counted. cbn. lia.
    - destruct (observe_spec m o Hc Ho) as (m1 & -> & Hc1 & Hv1). destruct (IH m1 Hc1) as (m2 & Hm2 & Hv2).
      exists m2. split; [done|]. intros s. rewrite Hv2, Hv1. unfold counted. cbn. lia. }
  exists m'. split_and!; [done|done|]. intros s. by rewrite Hm, Hv.
Qed.

Lemma counters_count_observations_witness :
  ∃ m m', New = Some m ∧
    observe_all m [Pipeline.ObjectStored "a" 7; Pipeline.ObjectFailed "b"; Pipeline.ObjectStored "a" 5] = Returns m' ∧
    value m' (SBytes "a") = 12%Z ∧ value m' (SObjects StateStored "a") = 2%Z.
Proof.
  destruct (counters_count_observations [Pipeline.ObjectStored "a" 7; Pipeline.ObjectFailed "b"; Pipeline.ObjectStored "a" 5])
    as (m & m' & Hn & Ho & Hv); [repeat constructor; cbn; lia|].
  exists m, m'. split; [exact Hn|]. split; [exact Ho|]. rewrite !Hv. split; vm_compute; reflexivity.
Defined.


(** ** The restore drill's textfile *)

Definition b2f (b : bool) : Z := if b then 1 else 0.

Definition drillPassMetric : string := "filebackup_restore_drill_pass".
Definition drillLastSuccessMetric : string := "filebackup_drill_last_success_timestamp_seconds".

Record DrillMetrics := MkDM { pass : Z; lastSuccess : Z }.

Definition NewDrillMetrics : DrillMetrics := MkDM 0 0.

Definition SetPass (p : bool) (at_ : Z) (d : DrillMetrics) : DrillMetrics :=
  MkDM (b2f p) (if p then at_ else lastSuccess d).

(** What [Gather] returns: the families in the order of their names. *)
Definition Gather (d : DrillMetrics) : list (string * Z) := [(drillLastSuccessMetric, lastSuccess d); (drillPassMetric, pass d)].

(** The exposition format: [encodeFamily] is what the encoder writes for a
    family of one gauge, [TextToMetricFamilies] the parser: for each name, the
    metrics of its family, a gauge's value or [None]. *)
Class Expfmt := {
  encodeFamily : string * Z → bytes;
  TextToMetricFamilies : bytes → option (gmap string (list (option Z)));
}.

Definition exposition `{Expfmt} (d : DrillMetrics) : bytes := mjoin (encodeFamily <$> Gather d).

(** The parser reads back what the encoder wrote. *)
Class ExpfmtLaws `{Expfmt} := {
  parse_encoded : ∀ d, (0 ≤ pass d ≤ 1)%Z → (0 ≤ lastSuccess d ≤ max_int64)%Z →
    TextToMetricFamilies (exposition d) =
      Some {[ drillLastSuccessMetric := [Some (lastSuccess d)]; drillPassMetric := [Some (pass d)] ]};
}.

Section drill.
Context `{Expfmt}.

(** [for _, m := range mf.GetMetric()]: the first gauge. *)
Definition first_gauge (ms : list (option Z)) : Z := default 0%Z (head (omap id ms)).

(** [readPriorLastSuccess]; [openFault] is an error of [os.Open] other than the
    file's absence. *)
Definition readPriorLastSuccess (openFault : bool) (s : fs) (path : string) : Z :=
  match (if openFault then None else contents s path) with
  | None => 0
  | Some b =>
      match TextToMetricFamilies b with
      | None => 0
      | Some mfs => match mfs !! drillLastSuccessMetric with None => 0 | Some ms => first_gauge ms end
      end
  end.

(** [WriteTextfile]: the system calls of the write are [v], a failed encoder
    write among them; the gauges it leaves, and the run on the file system. *)
Definition WriteTextfile (openFault : bool) (v : wenv) (path : string) (passed : bool) (s : fs) (d : DrillMetrics)
    : DrillMetrics * run :=
  if bool_decide (path = "") then (d, ([], None))
  else
    let prior := readPriorLastSuccess openFault s path in
    let d := if negb passed && (0 <? prior)%Z then MkDM (pass d) prior else d in
    let fill := match (w_fill v).2 with
                | Some e => ((w_fill v).1, Some (Wrap "encode metrics" [e]))
                | None => (FWrite ∘ encodeFamily <$> Gather d, None)
                end in
    (d, CommitWrite (MkW (w_tmp v) (w_inode v) (w_mkdir v) (w_create v) fill (w_sync v) (w_close v) None
           (w_chmod v) (w_rename v) (w_syncdir v)) path s).

(** One run of the drill command, as far as its textfile goes. *)
Definition drill_run (openFault : bool) (v : wenv) (path : string) (passed : bool) (at_ : Z) (s : fs) : run :=
  (WriteTextfile openFault v path passed s (SetPass passed at_ NewDrillMetrics)).2.

(** ** The last success survives failing runs *)

(** The file holds the gauges of some run. *)
Definition holds (s : fs) (path : string) (d : option DrillMetrics) : Prop :=
  match d with
  | None => contents s path = None
  | Some d => contents s path = Some (exposition d) ∧ (0 ≤ pass d ≤ 1)%Z ∧ (0 ≤ lastSuccess d ≤ max_int64)%Z
  end.

Definition recorded (d : option DrillMetrics) : Z := match d with Some d => lastSuccess d | None => 0 end.

Lemma prior_recorded `{!ExpfmtLaws} s path d : holds s path d → readPriorLastSuccess false s path = recorded d.
Proof.
  unfold readPriorLastSuccess. destruct d as [d|]; cbn [holds recorded]; [|by intros ->]. intros (-> & Hp & Hl).
  rewrite parse_encoded by done. rewrite lookup_insert_eq. done.
Qed.

Lemma written_families d : written (FWrite ∘ encodeFamily <$> Gather d) = exposition d.
Proof. unfold exposition, written. cbn. by rewrite !app_nil_r. Qed.

(** What one run writes, if it writes: its own verdict, and its own time or the
    last success on file. *)
Definition next (passed : bool) (at_ : Z) (d : option DrillMetrics) : DrillMetrics :=
  MkDM (b2f passed) (if passed then at_ else recorded d).

Lemma drill_run_spec `{!ExpfmtLaws} v path passed at_ s d : path ≠ "" → fresh v path s → holds s path d →
  (0 < at_ ≤ max_int64)%Z →
  let r := drill_run false v path passed at_ s in
  (holds (last_state s r) path d ∧ r.2 ≠ None) ∨ holds (last_state s r) path (Some (next passed at_ d)).
Proof.
  intros Hne Hf Hd Hat. cbv zeta. unfold drill_run, WriteTextfile. rewrite bool_decide_eq_false_2 by done. rewrite (prior_recorded s path d Hd).
  set (dm := if negb passed && (0 <? recorded d)%Z then _ else _).
  assert (dm = next passed at_ d) as ->.
  { unfold dm, next, SetPass. destruct passed; [done|]. cbn [negb andb]. destruct (0 <? recorded d)%Z eqn:E; to_prop; [done|].
    cbn. f_equal. destruct d as [d|]; cbn in *; lia. }
  set (fill := match (w_fill v).2 with Some e => _ | None => _ end). set (w := MkW _ _ _ _ fill _ _ _ _ _ _). cbn [snd].
  assert (fresh w path s) as Hf' by exact Hf.
  destruct (CommitWrite_cases w path s Hf') as [[Hu He]|[Hfill Hw]].
  - left. split; [|done]. unfold holds in *. destruct (Hu path) as [_ ->]. done.
  - right. destruct Hw as (Hc & _). cbn [w w_fill] in Hfill, Hc. unfold fill in Hfill, Hc. destruct (w_fill v).2; [done|].
    cbn [fst] in Hc. rewrite written_families in Hc. split_and!; try done; cbn [next pass lastSuccess];
      destruct passed, d as [d|]; cbn in *; lia.
Qed.
End drill.


(** A history of drill runs on one path: for each its verdict, its time and
    whether the write returned nil. *)
Inductive drills `{Expfmt} (path : string) (s : fs) : list (bool * Z * bool) → fs → Prop :=
  | dr_nil : drills path s [] s
  | dr_cons passed at_ v rest s2 :
      fresh v path s →
      let r := drill_run false v path passed at_ s in
      drills path (last_state s r) rest s2 →
      drills path s ((passed, at_, bool_decide (r.2 = None)) :: rest) s2.

Lemma drills_spec `{ExpfmtLaws} path s runs s' d0 : path ≠ "" → drills path s runs s' → holds s path d0 →
  Forall (λ x, (0 < x.1.2 ≤ max_int64)%Z) runs →
  ∃ d, holds s' path d ∧
    (recorded d = recorded d0 ∨ ∃ j T ok, runs !! j = Some (true, T, ok) ∧ recorded d = T) ∧
    (∀ i T, runs !! i = Some (true, T, true) → ∃ j T' ok, i ≤ j ∧ runs !! j = Some (true, T', ok) ∧ recorded d = T').
Proof.
  intros Hne Hd. revert d0. induction Hd as [s|s passed at_ v rest s2 Hf r Hd IH]; intros d0 Hh Hall.
  { exists d0. split_and!; [done|by left|done]. }
  apply list.Forall_cons in Hall as [Hat Hall]. cbn in Hat.
  assert (∃ d1, holds (last_state s r) path d1 ∧ (recorded d1 = recorded d0 ∨ (passed = true ∧ recorded d1 = at_)) ∧
    (passed = true → bool_decide (r.2 = None) = true → recorded d1 = at_)) as (d1 & Hh1 & Hr1 & Hok1).
  { destruct (drill_run_spec v path passed at_ s d0 Hne Hf Hh Hat) as [[Hsame He]|Hnew].
    - exists d0. split_and!; [done|by left|]. intros _ Hb. apply bool_decide_eq_true in Hb. done.
    - exists (Some (next passed at_ d0)). split_and!; [done| |].
      + cbn. destruct passed; [by right|by left].
      + by intros ->. }
  destruct (IH d1 Hh1 Hall) as (d & Hhd & Hor & Hlast). exists d. split_and!; [done| |].
  - destruct Hor as [He|(j & T & ok & Hj & He)]; [|right; by exists (S j), T, ok].
    destruct Hr1 as [Hr1|[-> Hr1]]; [left; congruence|]. right. exists 0, at_, (bool_decide (r.2 = None)). split; [done|congruence].
  - intros [|i] T Hi; cbn in Hi.
    + injection Hi as -> -> Hb. specialize (Hok1 eq_refl Hb). destruct Hor as [He|(j & T' & ok & Hj & He)].
      * exists 0, T, (bool_decide (r.2 = None)). split_and!; [lia|done|congruence].
      * exists (S j), T', ok. split_and!; [lia|done|done].
    + destruct (Hlast i T Hi) as (j & T' & ok & Hij & Hj & He). exists (S j), T', ok. split_and!; [lia|done|done].
Qed.

(** A failing drill never erases the last success. Over any history of drill
    runs writing one textfile, passing or failing, whose writes succeed or fail
    at any system call, and whose reads of the previous file are not themselves
    refused: the file is always a whole exposition that parses, and once a
    passing run has written it, the last-success time it carries is that run's
    or a later passing run's, however many runs failed in between; with no
    passing run it is 0. *)
Theorem failing_drill_keeps_last_success `{ExpfmtLaws} path s runs s' :
  path ≠ "" → contents s path = None → drills path s runs s' → Forall (λ x, (0 < x.1.2 ≤ max_int64)%Z) runs →
  ∃ d, holds s' path d ∧ readPriorLastSuccess false s' path = recorded d ∧
    (∀ i T, runs !! i = Some (true, T, true) → ∃ j T' ok, i ≤ j ∧ runs !! j = Some (true, T', ok) ∧ recorded d = T') ∧
    ((∀ i T ok, runs !! i ≠ Some (true, T, ok)) → recorded d = 0%Z).
Proof.
  intros Hne Hs Hd Hall. destruct (drills_spec path s runs s' None Hne Hd Hs Hall) as (d & Hh & Hor & Hlast).
  exists d. split_and!; [done|by apply prior_recorded|done|]. intros Hno. destruct Hor as [?|(j & T & ok & Hj & _)]; [done|].
  by destruct (Hno j T ok).
Qed.

(** A concrete exposition: a line per family, the name, a space and the value. *)
Definition ex_line (f : string * Z) : string := (f.1 +:+ " " +:+ GoText.Itoa f.2) +:+ ";".

Definition ex_parse_line (l : string) : option (string * Z) :=
  match GoText.Cut " " l with Some (n, v) => z ← GoText.Atoi v; Some (n, z) | None => None end.

Fixpoint ex_parse_lines (ls : list string) : option (gmap string (list (option Z))) :=
  match ls with
  | [] => Some ∅
  | l :: ls =>
      if bool_decide (l = "") then ex_parse_lines ls
      else '(n, z) ← ex_parse_line l; m ← ex_parse_lines ls; Some (<[n := [Some z]]> m)
  end.

#[local] Instance ex_expfmt : Expfmt := {|
  encodeFamily f := Layout.bytes_of_string (ex_line f);
  TextToMetricFamilies b := ex_parse_lines (GoText.Split ";" (Layout.string_of_bytes b));
|}.

Lemma ex_parse_line_ok n z : GoText.all_chars (GoText.isnt " ") n = true → (0 ≤ z ≤ max_int64)%Z →
  ex_parse_line (n +:+ " " +:+ GoText.Itoa z) = Some (n, z).
Proof.
  intros Hn Hz. unfold ex_parse_line. change (" " +:+ GoText.Itoa z) with (String " " (GoText.Itoa z)).
  rewrite GoText.Cut_app by done. rewrite GoText.Atoi_Itoa; [done|]. unfold min_int64. lia.
Qed.

#[local] Instance ex_expfmt_laws : ExpfmtLaws.
Proof.
  split. intros [p l] Hp Hl. cbn [pass lastSuccess] in *. unfold exposition, Gather. cbn [fmap list_fmap mjoin list_join encodeFamily ex_expfmt pass lastSuccess TextToMetricFamilies].
  set (a := ex_line (drillLastSuccessMetric, l)). set (b := ex_line (drillPassMetric, p)).
  assert (Layout.string_of_bytes (Layout.bytes_of_string a ++ Layout.bytes_of_string b ++ []) = a +:+ b) as ->.
  { rewrite app_nil_r. assert (∀ x y, Layout.bytes_of_string (x +:+ y) = Layout.bytes_of_string x ++ Layout.bytes_of_string y) as Happ.
    { intros x y. unfold Layout.bytes_of_string. induction x as [|c x IH]; [done|]. rewrite GoText.append_cons. cbn. f_equal. exact IH. }
    rewrite <- Happ. apply Layout.string_of_bytes_of_string. }
  assert (∀ n z, GoText.all_chars (GoText.isnt ";") n = true → (0 ≤ z)%Z → GoText.all_chars (GoText.isnt ";") (n +:+ " " +:+ GoText.Itoa z) = true) as Hsc.
  { intros n z Hn Hz. rewrite !GoText.all_chars_app, Hn. cbn [andb]. apply andb_true_iff. split; [done|].
    eapply GoText.all_chars_impl; [|by apply GoText.Itoa_digits]. intros c. by destruct c as [[] [] [] [] [] [] [] []]. }
  assert (a +:+ b = (drillLastSuccessMetric +:+ " " +:+ GoText.Itoa l) +:+ String ";"
    ((drillPassMetric +:+ " " +:+ GoText.Itoa p) +:+ String ";" "")) as ->.
  { unfold a, b, ex_line. cbn [fst snd]. by rewrite GoText.append_assoc. }
  rewrite GoText.Split_app by (apply Hsc; [reflexivity|lia]). rewrite GoText.Split_app by (apply Hsc; [reflexivity|lia]).
  cbn [GoText.Split ex_parse_lines]. rewrite !bool_decide_eq_false_2 by done. rewrite bool_decide_eq_true_2 by done.
  rewrite !ex_parse_line_ok by (first [reflexivity|lia|unfold max_int64; lia]). reflexivity.
Qed.

Definition ex_w (tmp : string) (i : N) (e : goerr) : wenv := MkW tmp i None None ([], e) None None None None None None.
Definition ex_d0 : fs := MkFs ∅ ∅ ∅.
Definition ex_d1 : fs := last_state ex_d0 (drill_run false (ex_w "m.1" 1 None) "m" true 1700000000 ex_d0).
Definition ex_d2 : fs := last_state ex_d1 (drill_run false (ex_w "m.2" 2 None) "m" false 1700000100 ex_d1).

Lemma ex_drills : drills "m" ex_d0 [(true, 1700000000%Z, true); (false, 1700000100%Z, true)] ex_d2.
Proof.
  apply (dr_cons "m" ex_d0 true 1700000000 (ex_w "m.1" 1 None)).
  { apply freshb_fresh. vm_compute. reflexivity. }
  apply (dr_cons "m" ex_d1 false 1700000100 (ex_w "m.2" 2 None)).
  { apply freshb_fresh. vm_compute. reflexivity. }
  apply dr_nil.
Qed.

Lemma failing_drill_keeps_last_success_witness :
  readPriorLastSuccess false ex_d2 "m" = 1700000000%Z ∧
  ∃ d, holds ex_d2 "m" d ∧ recorded d = 1700000000%Z.
Proof.
  split; [vm_compute; reflexivity|].
  destruct (failing_drill_keeps_last_success "m" ex_d0 [(true, 1700000000%Z, true); (false, 1700000100%Z, true)] ex_d2)
    as (d & Hh & Hp & _); [done|reflexivity|exact ex_drills|repeat constructor; cbn; unfold max_int64; lia|].
  exists d. split; [exact Hh|]. rewrite <- Hp. vm_compute. reflexivity.
Defined.

(** A refused read of the previous file is taken for its absence: the failing
    run that meets it writes 0 over the recorded success. *)
Lemma unreadable_prior_is_erased :
  readPriorLastSuccess false (last_state ex_d1 (drill_run true (ex_w "m.2" 2 None) "m" false 1700000100 ex_d1)) "m" = 0%Z ∧
  readPriorLastSuccess false ex_d1 "m" = 1700000000%Z.
Proof. split; vm_compute; reflexivity. Qed.

End Metrics.
