(* ===== verification/Config.v ===== *)
(** * Configuration

    [src/internal/config/config.go]: the knobs with their defaults and limits
    ([applyDefaults], [validateLimits] and the durations derived from them), the
    target set ([ValidateTargets] and everything below it) and
    [SelectReadTarget]; [ParseCodec] of [src/internal/domain/transform.go].

    An [int] is a [Z] in the int64 range and a [time.Duration] a [Z] of
    nanoseconds, with [wrap64] wherever Go multiplies or adds. A target name is
    a byte string; [envToken] decodes its runes the way Go does. *)

From S2P Require Import Prelude GoRuntime Circuit Fanout Sweep.
From Stdlib Require Import ZArith Lia.
From Stdlib Require Import Strings.Ascii Strings.String.
From stdpp Require Import base gmap strings list numbers.

Module Config.
Import Sweep(second).

(** ** The knobs *)

Record DBConfig := MkDB { Host : string; Port : Z; User : string; Password : string; DBName : string; SSLMode : string }.

Record Target := MkT {
  Name : string; Type_ : string; Endpoint : string; Region : string; Bucket : string; Prefix : string; Path : string;
  Compression : string; AccessKey : string; SecretKey : string; AuditAccessKey : string; AuditSecretKey : string;
  UseSSL : bool; SSE : bool; Insecure : bool; Worm : bool;
}.

Record Config := MkC {
  FileServiceBase : string; AlkemioDB : DBConfig; LedgerDB : DBConfig; Targets : list Target;
  Concurrency : Z; MetricsPort : Z; PerObjectTimeoutSec : Z; StaleTTLSec : Z; PollEverySec : Z;
  MaxAttempts : Z; MaxDeliveries : Z; ManifestEverySec : Z; CircuitThreshold : Z; CircuitCooldownSec : Z;
  FanoutStallSec : Z; DBTimeoutSec : Z; ScratchDir : string;
}.

Definition defaultDBTimeoutSec : Z := 30.
Definition BookkeepingTimeout : Z := 15 * second.

Definition orDefault (v d : Z) : Z := if (v <=? 0)%Z then d else v.

Definition db_defaults (d : DBConfig) : DBConfig :=
  MkDB (Host d) (if (Port d =? 0)%Z then 5432 else Port d) (User d) (Password d) (DBName d)
       (if bool_decide (SSLMode d = "") then "require" else SSLMode d).

Definition applyDefaults (c : Config) : Config :=
  MkC (FileServiceBase c) (db_defaults (AlkemioDB c)) (db_defaults (LedgerDB c)) (Targets c)
    (orDefault (Concurrency c) 8) (orDefault (MetricsPort c) 4004)
    (orDefault (PerObjectTimeoutSec c) (Z.quot Sweep.DefaultPerObjectTimeout second))
    (orDefault (StaleTTLSec c) 3600) (orDefault (PollEverySec c) 10)
    (orDefault (MaxAttempts c) 10) (orDefault (MaxDeliveries c) 50)
    (orDefault (ManifestEverySec c) (24 * 60 * 60)) (orDefault (CircuitThreshold c) 5)
    (orDefault (CircuitCooldownSec c) 60) (orDefault (FanoutStallSec c) 60)
    (orDefault (DBTimeoutSec c) defaultDBTimeoutSec) (ScratchDir c).

(** ** Durations *)

(** [time.Duration(sec) * time.Second]. *)
Definition seconds (sec : Z) : Z := wrap64 (sec * second).

Definition secondsToDuration (sec fallback : Z) : Z :=
  if (sec <=? 0)%Z || (Z.quot max_int64 second <? sec)%Z then fallback else seconds sec.

Definition PerObjectTimeout (c : Config) : Z := secondsToDuration (PerObjectTimeoutSec c) 0.
Definition StaleTTL (c : Config) : Z := seconds (StaleTTLSec c).
Definition PollEvery (c : Config) : Z := seconds (PollEverySec c).
Definition ManifestEvery (c : Config) : Z := seconds (ManifestEverySec c).
Definition CircuitCooldown (c : Config) : Z := seconds (CircuitCooldownSec c).
Definition FanoutStall (c : Config) : Z := seconds (FanoutStallSec c).
Definition DBTimeout (c : Config) : Z := secondsToDuration (DBTimeoutSec c) (defaultDBTimeoutSec * second).

Definition NewCircuitBreaker (c : Config) : Circuit.CircuitBreaker :=
  Circuit.NewCircuitBreaker (CircuitThreshold c) (CircuitCooldown c).

(** [int32(n + headroom)]. *)
Definition wrap32 (z : Z) : Z := ((z + 2 ^ 31) mod 2 ^ 32 - 2 ^ 31)%Z.

Definition PoolSize (c : Config) (headroom : Z) : Z :=
  wrap32 (wrap64 (Z.min (Z.max (Concurrency c) 1) 1024 + headroom)).

(** ** Limits *)

Definition maxSec : Z := 7 * 24 * 60 * 60.

Definition over_max (c : Config) : bool :=
  existsb (λ sec, (maxSec <? sec)%Z)
    [PerObjectTimeoutSec c; StaleTTLSec c; PollEverySec c; ManifestEverySec c; CircuitCooldownSec c;
     FanoutStallSec c; DBTimeoutSec c].

Definition bookkeepingSec : Z := Z.quot BookkeepingTimeout second.

Definition validateLimits (c : Config) : goerr :=
  if (1024 <? Concurrency c)%Z then Some (Msg "concurrency is unreasonably high")
  else if over_max c then Some (Msg "exceeds the max")
  else if (StaleTTLSec c <=? wrap64 (PerObjectTimeoutSec c + 2 * bookkeepingSec))%Z
       then Some (Msg "staleTTLSec must exceed perObjectTimeoutSec + 2*bookkeeping")
  else if (MaxAttempts c <=? CircuitThreshold c)%Z then Some (Msg "circuitThreshold must be < maxAttempts")
  else if (DBTimeoutSec c <? bookkeepingSec)%Z then Some (Msg "dbTimeoutSec must be >= bookkeeping timeout")
  else if (PerObjectTimeoutSec c <=? FanoutStallSec c)%Z then Some (Msg "fanoutStallSec must be < perObjectTimeoutSec")
  else if (65535 <? MetricsPort c)%Z then Some (Msg "metricsPort exceeds 65535")
  else if (1000 <? MaxAttempts c)%Z then Some (Msg "maxAttempts exceeds 1000")
  else if (1000 <? MaxDeliveries c)%Z then Some (Msg "maxDeliveries exceeds 1000")
  else if (10000 <? CircuitThreshold c)%Z then Some (Msg "circuitThreshold exceeds 10000")
  else None.

(** [DBConfig.Validate]. *)
Definition DBValidate (d : DBConfig) : goerr :=
  if bool_decide (Host d = "") then Some (Msg "host is required")
  else if bool_decide (User d = "") then Some (Msg "user is required")
  else if bool_decide (DBName d = "") then Some (Msg "dbName is required")
  else if (Port d <? 1)%Z || (65535 <? Port d)%Z then Some (Msg "port out of range 1-65535")
  else None.

(** ** Environment tokens *)

(** The continuation bytes of a UTF-8 sequence. *)
Definition cont (lo hi c : N) : bool := (lo <=? c)%N && (c <=? hi)%N.

(** [utf8.DecodeRuneInString] on the bytes: the rune and its width; an invalid
    byte is the replacement rune, one byte wide. *)
Definition runeError : N := 65533.

Definition decodeRune (bs : list N) : N * nat :=
  match bs with
  | [] => (runeError, 0)
  | b0 :: r =>
      if (b0 <? 128)%N then (b0, 1)
      else
        match r with
        | b1 :: r1 =>
            if cont 194 223 b0 && cont 128 191 b1 then (((b0 mod 32) * 64 + b1 mod 64)%N, 2)
            else
              match r1 with
              | b2 :: r2 =>
                  if (cont 224 239 b0 && cont (if (b0 =? 224)%N then 160 else 128) (if (b0 =? 237)%N then 159 else 191) b1 && cont 128 191 b2)
                  then (((b0 mod 16) * 4096 + (b1 mod 64) * 64 + b2 mod 64)%N, 3)
                  else
                    match r2 with
                    | b3 :: _ =>
                        if (cont 240 244 b0 && cont (if (b0 =? 240)%N then 144 else 128) (if (b0 =? 244)%N then 143 else 191) b1
                            && cont 128 191 b2 && cont 128 191 b3)
                        then (((b0 mod 8) * 262144 + (b1 mod 64) * 4096 + (b2 mod 64) * 64 + b3 mod 64)%N, 4)
                        else (runeError, 1)
                    | [] => (runeError, 1)
                    end
              | [] => (runeError, 1)
              end
        | [] => (runeError, 1)
        end
  end.

(** One rune per byte at most, so the length of the string bounds the loop. *)
Fixpoint runes (fuel : nat) (bs : list N) : list N :=
  match fuel, bs with
  | S fuel, _ :: _ => let '(c, w) := decodeRune bs in c :: runes fuel (drop w bs)
  | _, _ => []
  end.

(** [unicode.ToUpper], up to the runes that stay outside ASCII: only the
    dotless i and the long s have an ASCII capital. *)
Definition toUpper (c : N) : N :=
  if cont 97 122 c then (c - 32)%N else if (c =? 305)%N then 73%N else if (c =? 383)%N then 83%N else c.

Definition token_rune (c : N) : ascii :=
  let u := toUpper c in if cont 65 90 u || cont 48 57 u then ascii_of_N u else "_"%char.

Definition envToken (name : string) : string :=
  let bs := N_of_ascii <$> list_ascii_of_string name in
  string_of_list_ascii (token_rune <$> runes (length bs) bs).

(** ** The target set *)

Definition validateTargetName (t : Target) (seen : gmap string string) : gmap string string + err :=
  if bool_decide (Name t = "") then inr (Msg "name is required")
  else if (64 <? String.length (Name t))%nat then inr (Msg "name exceeds 64 chars")
  else match seen !! envToken (Name t) with
       | Some prev => inr (if bool_decide (prev = Name t) then Msg "duplicate target name"
                           else Msg "targets collide on env-var namespace")
       | None => inl (<[envToken (Name t) := Name t]> seen)
       end.

Fixpoint check_names (ts : list Target) (seen : gmap string string) : goerr :=
  match ts with
  | [] => None
  | t :: ts => match validateTargetName t seen with inr e => Some e | inl seen => check_names ts seen end
  end.

Definition CheckTargetCollisions (c : Config) : goerr :=
  match Targets c with
  | [] => Some (Msg "at least one target is required")
  | ts => check_names ts ∅
  end.

Definition ParseCodec (s : string) : Fanout.Codec + err :=
  if bool_decide (s = "") || bool_decide (s = "none") then inl Fanout.CodecNone
  else if bool_decide (s = "zstd") then inl Fanout.CodecZstd
  else inr (Msg "unknown compression").

Definition validateS3Target (t : Target) : goerr :=
  if bool_decide (Endpoint t = "") || bool_decide (Bucket t = "") || bool_decide (Region t = "")
  then Some (Msg "s3 requires endpoint, bucket, and region")
  else if bool_decide (AccessKey t = "") || bool_decide (SecretKey t = "")
  then Some (Msg "s3 requires accessKey and secretKey")
  else if xorb (bool_decide (AuditAccessKey t = "")) (bool_decide (AuditSecretKey t = ""))
  then Some (Msg "the audit credential is all-or-nothing")
  else if negb (Insecure t) && (negb (UseSSL t) || negb (SSE t)) then Some (Msg "s3 requires useSSL and sse")
  else None.

Definition validateFilesystemTarget (t : Target) : goerr :=
  if bool_decide (Path t = "") then Some (Msg "filesystem requires path") else None.

(** The registry [targetFactories], its validate half. *)
Definition targetFactories (ty : string) : option (Target → goerr) :=
  if bool_decide (ty = "filesystem") then Some validateFilesystemTarget
  else if bool_decide (ty = "s3") then Some validateS3Target else None.

Definition ValidateTargetFields (t : Target) : goerr :=
  match targetFactories (Type_ t) with
  | None => Some (Msg "unknown type (want s3|filesystem)")
  | Some validate =>
      match validate t with
      | Some e => Some e
      | None => match ParseCodec (Compression t) with inr e => Some (Wrap "target" [e]) | inl _ => None end
      end
  end.

Definition first_err {A} (f : A → goerr) (l : list A) : goerr := head (omap f l).

Definition ValidateTargets (c : Config) : goerr :=
  match CheckTargetCollisions c with
  | Some e => Some e
  | None => first_err ValidateTargetFields (Targets c)
  end.

Definition Validate (c : Config) : goerr :=
  if bool_decide (FileServiceBase c = "") then Some (Msg "fileServiceBase is required")
  else match DBValidate (AlkemioDB c) with
       | Some e => Some e
       | None =>
           match DBValidate (LedgerDB c) with
           | Some e => Some e
           | None => match validateLimits c with Some e => Some e | None => ValidateTargets c end
           end
       end.

Definition ValidateDRLimits (c : Config) : goerr :=
  match validateLimits c with Some e => Some e | None => DBValidate (LedgerDB c) end.

Definition SelectReadTarget (targets : list Target) (from : string) : Target + err :=
  if bool_decide (from ≠ "") then
    match List.find (λ t, bool_decide (Name t = from)) targets with
    | Some t => inl t | None => inr (Msg "target not found in config") end
  else
    match List.find (λ t, negb (Worm t)) targets with
    | Some t => inl t | None => inr (Msg "no readable (non-WORM) target configured by default") end.

(** ** Lemmas *)

Lemma orDefault_pos v d : (0 < d → 0 < orDefault v d)%Z.
Proof. unfold orDefault. destruct (Z.leb_spec v 0); lia. Qed.

Lemma applyDefaults_pos c :
  Forall (λ z, 0 < z)%Z
    [Concurrency (applyDefaults c); MetricsPort (applyDefaults c); PerObjectTimeoutSec (applyDefaults c);
     StaleTTLSec (applyDefaults c); PollEverySec (applyDefaults c); MaxAttempts (applyDefaults c);
     MaxDeliveries (applyDefaults c); ManifestEverySec (applyDefaults c); CircuitThreshold (applyDefaults c);
     CircuitCooldownSec (applyDefaults c); FanoutStallSec (applyDefaults c); DBTimeoutSec (applyDefaults c)].
Proof. repeat constructor; cbn -[orDefault Z.quot]; apply orDefault_pos; vm_compute; reflexivity. Qed.

(** The conjunction [validateLimits] tests, once per-object timeouts are known not
    to overflow the sum it forms. *)
Record limits_ok (c : Config) : Prop := {
  lim_conc : (Concurrency c ≤ 1024)%Z;
  lim_max : Forall (λ sec, sec ≤ maxSec)%Z
    [PerObjectTimeoutSec c; StaleTTLSec c; PollEverySec c; ManifestEverySec c; CircuitCooldownSec c;
     FanoutStallSec c; DBTimeoutSec c];
  lim_stale : (PerObjectTimeoutSec c + 30 < StaleTTLSec c)%Z;
  lim_trip : (CircuitThreshold c < MaxAttempts c)%Z;
  lim_db : (15 ≤ DBTimeoutSec c)%Z;
  lim_stall : (FanoutStallSec c < PerObjectTimeoutSec c)%Z;
  lim_port : (MetricsPort c ≤ 65535)%Z;
  lim_att : (MaxAttempts c ≤ 1000)%Z;
  lim_del : (MaxDeliveries c ≤ 1000)%Z;
  lim_thr : (CircuitThreshold c ≤ 10000)%Z;
}.

Lemma over_max_false c : over_max c = false → Forall (λ sec, sec ≤ maxSec)%Z
    [PerObjectTimeoutSec c; StaleTTLSec c; PollEverySec c; ManifestEverySec c; CircuitCooldownSec c;
     FanoutStallSec c; DBTimeoutSec c].
Proof.
  intros H. apply list.Forall_forall. intros z Hz. apply list_elem_of_In in Hz.
  destruct (Z.leb_spec z maxSec); [done|]. exfalso.
  assert (over_max c = true) as H'; [|congruence].
  apply existsb_exists. exists z. split; [done|]. by apply Z.ltb_lt.
Qed.

Lemma validateLimits_ok c : (0 < PerObjectTimeoutSec c)%Z → validateLimits c = None → limits_ok c.
Proof.
  intros Hp H. unfold validateLimits in H.
  destruct (Z.ltb_spec 1024 (Concurrency c)); [done|].
  destruct (over_max c) eqn:Hm; [done|]. apply over_max_false in Hm.
  assert (PerObjectTimeoutSec c ≤ maxSec)%Z as Hpm by (by inversion Hm).
  replace (wrap64 (PerObjectTimeoutSec c + 2 * bookkeepingSec)) with (PerObjectTimeoutSec c + 30)%Z in H.
  2: { change (2 * bookkeepingSec)%Z with 30%Z. unfold maxSec in Hpm.
       rewrite wrap64_small; [done|]. unfold min_int64, max_int64. lia. }
  change bookkeepingSec with 15%Z in H.
  repeat match type of H with
  | (if (?a <=? ?b)%Z then _ else _) = None => destruct (Z.leb_spec a b); [done|]
  | (if (?a <? ?b)%Z then _ else _) = None => destruct (Z.ltb_spec a b); [done|]
  end.
  by constructor.
Qed.

Lemma seconds_exact s : (0 < s ≤ maxSec)%Z → seconds s = (s * second)%Z.
Proof.
  intros [H1 H2]. unfold seconds, maxSec, second in *. apply wrap64_small. unfold min_int64, max_int64. lia.
Qed.

Lemma secondsToDuration_exact s f : (0 < s ≤ maxSec)%Z → secondsToDuration s f = (s * second)%Z.
Proof.
  intros [H1 H2]. unfold secondsToDuration. unfold maxSec in H2.
  change (Z.quot max_int64 second) with 9223372036%Z.
  destruct (Z.leb_spec s 0); [lia|]. destruct (Z.ltb_spec 9223372036 s); [lia|].
  apply seconds_exact. unfold maxSec. lia.
Qed.

Lemma PoolSize_exact c h :
  (1 ≤ Concurrency c ≤ 1024)%Z → (0 ≤ h < 2 ^ 30)%Z → PoolSize c h = (Concurrency c + h)%Z.
Proof.
  intros Hc Hh. unfold PoolSize. rewrite Z.max_l by lia. rewrite Z.min_l by lia.
  rewrite wrap64_small by (unfold min_int64, max_int64; lia).
  unfold wrap32. rewrite Z.mod_small; lia.
Qed.

(** ** Theorems *)

(** Every duration a loop or a deadline is built from. *)
Definition durations (c : Config) : list (Z * Z) :=
  [(PerObjectTimeout c, PerObjectTimeoutSec c); (StaleTTL c, StaleTTLSec c); (PollEvery c, PollEverySec c);
   (ManifestEvery c, ManifestEverySec c); (CircuitCooldown c, CircuitCooldownSec c);
   (FanoutStall c, FanoutStallSec c); (DBTimeout c, DBTimeoutSec c)].

Lemma durations_exact c : limits_ok (applyDefaults c) →
  Forall (λ p, p.1 = p.2 * second ∧ 0 < p.1 ∧ p.1 ≤ maxSec * second)%Z (durations (applyDefaults c)).
Proof.
  intros L. pose proof (lim_max _ L) as Hm. pose proof (applyDefaults_pos c) as Hp.
  remember (applyDefaults c) as d eqn:Hd. clear Hd L.
  rewrite !list.Forall_cons in Hm. rewrite !list.Forall_cons in Hp. destruct_and!.
  assert (∀ s, 0 < s → s ≤ maxSec → 0 < s * second ∧ s * second ≤ maxSec * second)%Z as Hs
    by (intros; unfold second; lia).
  unfold durations. rewrite !list.Forall_cons.
  unfold PerObjectTimeout, StaleTTL, PollEvery, ManifestEvery, CircuitCooldown, FanoutStall, DBTimeout.
  cbn [fst snd].
  rewrite !secondsToDuration_exact by done. rewrite !seconds_exact by done.
  split_and!; try done; by apply Hs.
Qed.

(** Whatever the knobs were before [applyDefaults], once [validateLimits]
    accepts them every duration is exactly its seconds and positive (no wrap, so no
    ticker panics and no deadline is instant); the breaker starts well-formed and
    trips before an object can be dead-lettered; a hung target is dropped before the
    object times out; the reaper waits longer than the object's deadline plus its two
    bookkeeping writes; the statement timeout covers one such write; and the pool
    size is the exact, positive sum. *)
Theorem validated_limits_are_safe c headroom :
  validateLimits (applyDefaults c) = None → (0 ≤ headroom < 2 ^ 30)%Z →
  let d := applyDefaults c in
  Forall (λ p, p.1 = p.2 * second ∧ 0 < p.1 ∧ p.1 ≤ maxSec * second)%Z (durations d) ∧
  Circuit.wf (NewCircuitBreaker d) ∧
  (Circuit.threshold (NewCircuitBreaker d) < MaxAttempts d ≤ 1000)%Z ∧
  (FanoutStall d < PerObjectTimeout d)%Z ∧
  (PerObjectTimeout d + 2 * BookkeepingTimeout < StaleTTL d)%Z ∧
  (BookkeepingTimeout ≤ DBTimeout d)%Z ∧
  PoolSize d headroom = (Concurrency d + headroom)%Z ∧ (0 < PoolSize d headroom < 2 ^ 31)%Z.
Proof.
  intros Hv Hh d. pose proof (applyDefaults_pos c) as Hp. fold d in Hp.
  rewrite !list.Forall_cons in Hp. destruct Hp as (Hconc & _ & Hpot & _ & _ & _ & _ & _ & Hthr & _).
  pose proof (validateLimits_ok _ Hpot Hv) as L. fold d in L.
  pose proof (durations_exact c L) as HD. fold d in HD. split; [done|].
  unfold durations in HD. rewrite !list.Forall_cons in HD. cbn [fst snd] in HD.
  destruct HD as ([-> _] & [-> _] & _ & _ & _ & [-> _] & [-> _] & _).
  destruct L. unfold BookkeepingTimeout, second in *.
  rewrite PoolSize_exact by lia.
  split_and!; try lia.
  - by apply Circuit.wf_new.
  - unfold NewCircuitBreaker, Circuit.NewCircuitBreaker. cbn [Circuit.threshold]. lia.
Qed.

Definition sampleTarget (n : string) : Target :=
  MkT n "filesystem" "" "" "" "" "/backup" "zstd" "" "" "" "" false false false false.

Definition sampleConfig : Config :=
  let db := MkDB "pg" 0 "u" "p" "d" "" in
  MkC "http://fs" db db [sampleTarget "s3-eu"; sampleTarget "nas"] (-3) 0 0 0 0 0 0 0 0 0 0 0 "".

Lemma validated_limits_are_safe_witness :
  (FanoutStall (applyDefaults sampleConfig) < PerObjectTimeout (applyDefaults sampleConfig))%Z ∧
  PoolSize (applyDefaults sampleConfig) 8 = 16%Z.
Proof.
  assert (validateLimits (applyDefaults sampleConfig) = None) as Hv by (vm_compute; reflexivity).
  assert (0 ≤ 8 < 2 ^ 30)%Z as Hh by lia.
  destruct (validated_limits_are_safe sampleConfig 8 Hv Hh) as (_ & _ & _ & H & _ & _ & H' & _).
  split; [exact H|exact H'].
Defined.

(** *** Targets *)

(** What the map of tokens seen so far says of the targets already walked. *)
Lemma check_names_spec ts seen :
  check_names ts seen = None →
  NoDup (envToken ∘ Name <$> ts) ∧
  Forall (λ t, Name t ≠ "" ∧ String.length (Name t) ≤ 64 ∧ seen !! envToken (Name t) = None) ts.
Proof.
  revert seen. induction ts as [|t ts IH]; intros seen H; [by split; constructor|].
  cbn [check_names] in H. unfold validateTargetName in H.
  case_bool_decide as Hn; [done|].
  destruct (Nat.ltb_spec 64 (String.length (Name t))); [done|].
  destruct (seen !! envToken (Name t)) eqn:Hs; [by case_bool_decide|].
  apply IH in H as [Hnd Hall]. rewrite list.Forall_forall in Hall. split.
  - rewrite fmap_cons. apply list.NoDup_cons. split; [|done].
    intros (t' & Ht & Hin)%list_elem_of_fmap. destruct (Hall _ Hin) as (_ & _ & Hnone).
    cbn in Ht. rewrite <- Ht in Hnone. by rewrite lookup_insert_eq in Hnone.
  - constructor; [done|]. apply list.Forall_forall. intros t' Hin.
    destruct (Hall _ Hin) as (? & ? & Hnone). split_and!; [done..|].
    by apply lookup_insert_None in Hnone as [? _].
Qed.

Lemma first_err_None {A} (f : A → goerr) l : first_err f l = None ↔ Forall (λ x, f x = None) l.
Proof.
  unfold first_err. induction l as [|x l IH]; [by split; [constructor|]|].
  cbn [omap list_omap]. rewrite list.Forall_cons. destruct (f x); cbn; [naive_solver|].
  rewrite <- IH. naive_solver.
Qed.

Lemma NoDup_fmap_compose {A B C} (f : A → B) (g : B → C) l : NoDup (g ∘ f <$> l) → NoDup (f <$> l).
Proof. rewrite list_fmap_compose. apply NoDup_fmap_1. Qed.

(** A target set [ValidateTargets] accepts is not empty, its names are pairwise
    distinct (what the pipeline's and the ledger's per-target maps rely on) and so
    are the environment tokens their secrets are injected under, every name fits the
    ledger's VARCHAR(64) column, every codec parses, and every s3 target that did not
    opt out of it has TLS and encryption at rest. *)
Theorem validated_targets_are_distinct c :
  ValidateTargets c = None →
  Targets c ≠ [] ∧ NoDup (Name <$> Targets c) ∧ NoDup (envToken ∘ Name <$> Targets c) ∧
  Forall (λ t, 1 ≤ String.length (Name t) ≤ 64 ∧ (∃ k, ParseCodec (Compression t) = inl k) ∧
               (Type_ t = "s3" → Insecure t = false → UseSSL t = true ∧ SSE t = true)) (Targets c).
Proof.
  unfold ValidateTargets, CheckTargetCollisions. intros H.
  destruct (Targets c) as [|t ts] eqn:Ht; [done|].
  destruct (check_names (t :: ts) ∅) eqn:Hc; [done|].
  apply check_names_spec in Hc as [Hnd Hnames]. apply first_err_None in H.
  split_and!; [done|by eapply NoDup_fmap_compose|done|].
  rewrite list.Forall_forall in Hnames, H |- *. intros x Hx.
  destruct (Hnames x Hx) as (Hne & Hlen & _). specialize (H x Hx).
  unfold ValidateTargetFields, targetFactories in H. split_and!; [destruct (Name x); [done|cbn; lia]|done| |].
  - repeat case_match; simplify_eq; eauto.
  - intros Hty Hins. rewrite Hty in H.
    rewrite (bool_decide_eq_false_2 ("s3" = "filesystem")), (bool_decide_eq_true_2 ("s3" = "s3")) in H by done.
    unfold validateS3Target in H. rewrite Hins in H. cbn [negb andb] in H.
    destruct (UseSSL x), (SSE x); [done|..]; exfalso; cbn [negb andb orb] in H;
      repeat (case_match; try done).
Qed.

Lemma validated_targets_are_distinct_witness :
  NoDup (Name <$> Targets sampleConfig) ∧ envToken "s3-eu" = "S3_EU".
Proof.
  assert (ValidateTargets sampleConfig = None) as Hv by (vm_compute; reflexivity).
  split; [exact (proj1 (proj2 (validated_targets_are_distinct sampleConfig Hv)))|vm_compute; reflexivity].
Defined.

(** Two spellings of one token are refused, in either order. *)
Example colliding_tokens_refused :
  let c ts := MkC "" (MkDB "" 0 "" "" "" "") (MkDB "" 0 "" "" "" "") ts 0 0 0 0 0 0 0 0 0 0 0 0 "" in
  CheckTargetCollisions (c [sampleTarget "s3-eu"; sampleTarget "s3_eu"])
    = Some (Msg "targets collide on env-var namespace") ∧
  CheckTargetCollisions (c [sampleTarget "s3_eu"; sampleTarget "S3 EU"])
    = Some (Msg "targets collide on env-var namespace") ∧
  CheckTargetCollisions (c [sampleTarget "nas"; sampleTarget "nas"]) = Some (Msg "duplicate target name").
Proof. vm_compute. done. Qed.

(** *** The source of a read *)

(** [t] is the first element of [l] that satisfies [p]. *)
Definition first_such {A} (p : A → Prop) (l : list A) (t : A) : Prop :=
  ∃ i, l !! i = Some t ∧ p t ∧ ∀ j t', j < i → l !! j = Some t' → ¬ p t'.

Lemma find_first {A} (p : A → bool) l t : List.find p l = Some t ↔ first_such p l t.
Proof.
  unfold first_such. induction l as [|x l IH]; [split; [done|intros (i & H & _); by rewrite lookup_nil in H]|].
  cbn [List.find]. destruct (p x) eqn:Hp.
  - split; [intros [= ->]; exists 0; split_and!; [done|by rewrite Hp|lia]|].
    intros (i & Hi & Hpt & Hmin). destruct i; [done|]. exfalso.
    apply (Hmin 0 x); [lia|done|by rewrite Hp].
  - rewrite IH. split.
    + intros (i & ? & ? & Hmin). exists (S i). split_and!; [done..|].
      intros [|j] t' Hj Ht'; [injection Ht' as <-; rewrite Hp; intros []|]. eapply (Hmin j); [lia|done].
    + intros (i & Hi & Hpt & Hmin). destruct i as [|i]; [injection Hi as ->; by rewrite Hp in Hpt|].
      exists i. split_and!; [done..|]. intros j t' Hj Ht'. apply (Hmin (S j) t'); [lia|done].
Qed.

Lemma first_such_iff {A} (p q : A → Prop) l t : (∀ x, p x ↔ q x) → first_such p l t ↔ first_such q l t.
Proof. intros H. unfold first_such. by setoid_rewrite H. Qed.

(** With no name given, the first target that is not write-once; with a name, the
    target of that name, write-once or not. *)
Lemma SelectReadTarget_spec targets from t :
  SelectReadTarget targets from = inl t ↔
  if bool_decide (from = "") then first_such (λ t, Worm t = false) targets t
  else first_such (λ t, Name t = from) targets t.
Proof.
  unfold SelectReadTarget. destruct (decide (from = "")) as [->|Hf].
  - rewrite bool_decide_eq_false_2 by (intros H; by apply H). rewrite bool_decide_eq_true_2 by done.
    rewrite (first_such_iff _ (λ x, negb (Worm x))) by (intros x; by destruct (Worm x)).
    rewrite <- find_first. destruct (List.find _ _); naive_solver.
  - rewrite bool_decide_eq_true_2 by done. rewrite bool_decide_eq_false_2 by done.
    rewrite (first_such_iff _ (λ x, bool_decide (Name x = from))) by (intros x; by rewrite bool_decide_spec).
    rewrite <- find_first. destruct (List.find _ _); naive_solver.
Qed.
End Config.
