(* ===== verification/Repos.v ===== *)
(** * The ledger repository: bounded, honest reads

    The adapter between the domain and Postgres: the generated queries
    ([src/internal/adapter/outbound/db/queries/ledger.sql.go]), the methods of
    [LedgerRepo] ([ledger.go]) and the helpers of [db.go]. Ledger.v says what
    each statement answers on the tables; this file is the Go around it: the
    context every read runs on, the arguments' widths, the scan loops, what a
    failure becomes, and the conversions of NULLs and names.

    The server is a parameter: its answer to a statement is the rows the
    driver delivers one by one, each scanned or failing to scan, and the error
    the iteration ends with. A context is the time its deadline fires, in
    nanoseconds. *)

From S2P Require Import Prelude GoRuntime Ports Keyset Ledger Config.
From Stdlib Require Import ZArith Lia.
From stdpp Require Import base gmap sets strings list numbers.

Module Repos.
Import Ports Ledger.

(** ** Contexts *)

Abbreviation deadline := (option Z).

Definition WithTimeout (now : Z) (parent : deadline) (d : Z) : deadline :=
  Some (match parent with Some p => Z.min p (now + d) | None => now + d end)%Z.

Definition defaultDBReadTimeout : Z := 30 * 1000000000.

Definition boundRead (now : Z) (ctx : deadline) (timeout : Z) : deadline :=
  WithTimeout now ctx (if (timeout <=? 0)%Z then defaultDBReadTimeout else timeout).

(** The budget of a repository whose [readTimeout] is [t]. *)
Definition budget (t : Z) : Z := if (t <=? 0)%Z then defaultDBReadTimeout else t.

(** ** The driver and the generated scan loops *)

Record rows (R : Type) := MkRows { q_err : goerr; q_next : list (R + err); q_end : goerr }.
Arguments MkRows {R}.
Arguments q_err {R}.
Arguments q_next {R}.
Arguments q_end {R}.

(** [for rows.Next()]: scan a row, append it; the first row that does not scan
    ends the loop. *)
Fixpoint scan_rows {R} (items : list R) (next : list (R + err)) : list R + err :=
  match next with
  | [] => inl items
  | inr e :: _ => inr e
  | inl r :: next => scan_rows (items ++ [r]) next
  end.

(** A [:many] query: the query's own error, a row's, the iteration's. *)
Definition many {R} (q : rows R) : res (list R) :=
  match q_err q with
  | Some e => Er e
  | None =>
      match scan_rows [] (q_next q) with
      | inr e => Er e
      | inl items => match q_end q with Some e => Er e | None => Ok items end
      end
  end.

(** A [:one] query: [QueryRow(...).Scan(...)]. *)
Definition one {R} (q : R + err) : res R := match q with inl r => Ok r | inr e => Er e end.

(** [fmt.Errorf("m: %w", err)] around a failure, [f] of a result. *)
Definition wrapping {A B} (m : string) (r : res A) (f : A → B) : res B :=
  match r with Ok a => Ok (f a) | Er e => Er (Wrap m [e]) end.

(** ** Values at the boundary *)

(** [pgtype.Timestamptz]; a zero [time.Time] is [None] in the ledger's records. *)
Record Timestamptz := MkTz { Time : Z; Valid : bool }.

Definition nullTime (t : Timestamptz) : option Z := if Valid t then Some (Time t) else None.

Definition timestamptzOrNull (t : option Z) : Timestamptz :=
  match t with None => MkTz 0 false | Some x => MkTz x true end.

Definition sliceToSet (xs : list string) : gset string := foldl (λ set x, {[ x ]} ∪ set) ∅ xs.

Record statusRow := MkStatusRow { sr_Target : string; sr_State : string; sr_Bytes : Z }.

Record RecordBackupParams := MkParams {
  p_ExternalID : string; p_Statuses : list statusRow; p_Size : Z; p_CreatedBy : option N;
  p_SourceCreatedDate : Timestamptz; p_SizeVerified : bool;
}.

Record StoredObjectsPageRow := MkObjRow {
  or_ExternalID : string; or_Size : Z; or_CreatedBy : option N; or_SourceCreatedDate : Timestamptz;
}.

(** ** The statements *)

(** What the server answers to each statement run on a context. *)
Record server := MkServer {
  sv_listStoredTargets : deadline → string → rows string;
  sv_storedCountByTarget : deadline → list string → rows (string * Z);
  sv_storedObjectsPage : deadline → string → string → Z → rows StoredObjectsPageRow;
  sv_storedExternalIDsPage : deadline → string → string → Z → rows string;
  sv_targetGapsPage : deadline → list string → string → Z → Z → rows (string * list string);
  sv_coverageGaps : deadline → list string → Z → Z + err;
  sv_lastVerifiedAge : deadline → list string → (Z * Z) + err;
  sv_probe : deadline → (bool * bool) + err;
  sv_recordBackup : deadline → RecordBackupParams → db → res db;
}.

(** ** [Queries]

    The generated methods, one per statement. *)

Section queries.
Context (sv : server) (c : deadline).

Definition Queries_ListStoredTargets (ext : string) : res (list string) := many (sv_listStoredTargets sv c ext).
Definition Queries_StoredCountByTarget (targets : list string) : res (list (string * Z)) :=
  many (sv_storedCountByTarget sv c targets).
Definition Queries_StoredObjectsPage (target after : string) (pageLimit : Z) : res (list StoredObjectsPageRow) :=
  many (sv_storedObjectsPage sv c target after pageLimit).
Definition Queries_StoredExternalIDsPage (target after : string) (pageLimit : Z) : res (list string) :=
  many (sv_storedExternalIDsPage sv c target after pageLimit).
Definition Queries_TargetGapsPage (targets : list string) (after : string) (targetCount pageLimit : Z)
    : res (list (string * list string)) :=
  many (sv_targetGapsPage sv c targets after targetCount pageLimit).
Definition Queries_CoverageGaps (targets : list string) (targetCount : Z) : res Z :=
  one (sv_coverageGaps sv c targets targetCount).
Definition Queries_LastVerifiedAge (targets : list string) : res (Z * Z) := one (sv_lastVerifiedAge sv c targets).
Definition Queries_Probe : res (bool * bool) := one (sv_probe sv c).
Definition Queries_RecordBackup (p : RecordBackupParams) (d : db) : res db := sv_recordBackup sv c p d.
End queries.

(** ** [LedgerRepo]

    Each method of a repository over the server [sv] with the read timeout
    [rt], called at [now] with the context [ctx]: the contexts its statements
    ran on, and what it returns. *)

Section repo.
Context (sv : server) (rt : Z) (now : Z) (ctx : deadline).

Definition call (A : Type) : Type := list deadline * res A.

(** [ctx, cancel := boundRead(ctx, r.readTimeout)] around one statement. *)
Definition bounded {A} (stmt : deadline → res A) : call A :=
  let c := boundRead now ctx rt in ([c], stmt c).

Definition StoredTargets (id : string) : call (gset string) :=
  bounded (λ c, wrapping "list stored targets" (Queries_ListStoredTargets sv c id) sliceToSet).

Definition StoredCountByTarget (targets : list string) : call (gmap string Z) :=
  let counts := foldl (λ m t, <[t := 0%Z]> m) ∅ targets in
  bounded (λ c, wrapping "stored count by target" (Queries_StoredCountByTarget sv c targets)
    (foldl (λ m row, <[row.1 := row.2]> m) counts)).

Definition object_of (row : StoredObjectsPageRow) : ObjectMeta :=
  MkMeta (or_ExternalID row) (or_Size row) false (or_CreatedBy row) (nullTime (or_SourceCreatedDate row)).

Definition StoredObjectsPage (target after : string) (limit : nat) : call (list ObjectMeta) :=
  bounded (λ c, wrapping "stored objects page"
    (Queries_StoredObjectsPage sv c target after (Config.wrap32 (Z.of_nat limit))) (fmap object_of)).

(** On the caller's own context: the audit sweeps bound it. *)
Definition StoredExternalIDsPage (target after : string) (limit : nat) : call (list string) :=
  ([ctx], wrapping "stored external ids page"
    (Queries_StoredExternalIDsPage sv ctx target after (Config.wrap32 (Z.of_nat limit))) id).

Definition targetGapsPage (targets : list string) (after : string) (limit : nat) : call (list targetGap) :=
  bounded (λ c, wrapping "target gaps page"
    (Queries_TargetGapsPage sv c targets after (Config.wrap32 (Z.of_nat (length targets)))
      (Config.wrap32 (Z.of_nat limit)))
    (fmap (λ row, MkGap row.1 (sliceToSet row.2)))).

Definition CoverageGaps (targets : list string) : call Z :=
  match targets with
  | [] => ([], Ok 0%Z)
  | _ => bounded (λ c, wrapping "coverage gaps"
           (Queries_CoverageGaps sv c targets (Config.wrap32 (Z.of_nat (length targets)))) id)
  end.

Definition LastVerifiedAge (targets : list string) : call (Z * Z * bool) :=
  match targets with
  | [] => ([], Ok (0, 0, false)%Z)
  | _ => bounded (λ c, wrapping "last verified age" (Queries_LastVerifiedAge sv c targets)
           (λ row, (row.2, row.1, (row.1 <? Z.of_nat (length targets))%Z)))
  end.

Definition Probe : call unit :=
  bounded (λ c, wrapping "ledger probe (schema/migrate?)" (Queries_Probe sv c) (λ _, ())).

(** The statuses travel as one JSON array; the write runs on the caller's
    already bounded context. *)
Definition params_of (obj : ObjectMeta) (sts : list TargetStatus) : RecordBackupParams :=
  MkParams (m_ExternalID obj) ((λ s, MkStatusRow (Target s) (State s) (StoredBytes s)) <$> sts)
    (m_Size obj) (m_CreatedBy obj) (timestamptzOrNull (m_SourceCreatedDate obj)) (m_SizeVerified obj).

Definition RecordBackup (obj : ObjectMeta) (sts : list TargetStatus) (d : db) : call db :=
  ([ctx], wrapping "record backup" (Queries_RecordBackup sv ctx (params_of obj sts) d) id).
End repo.

(** ** The statements on the tables *)

Definition sql_listStoredTargets (d : db) (ext : string) : list string :=
  omap (λ '(i, t, r),
    if bool_decide (i = ext) && bool_decide (s_state r = StateStored) then Some t else None) (status_rows d).

(** [GROUP BY target]: a target without stored rows has no row. *)
Definition sql_storedCountByTarget (d : db) (targets : list string) : list (string * Z) :=
  omap (λ t, match stored_ids d t with [] => None | ids => Some (t, Z.of_nat (length ids)) end)
    (remove_dups targets).

Definition sql_storedObjectsPage (d : db) (target after : string) (limit : Z) : list StoredObjectsPageRow :=
  (λ m, MkObjRow (m_ExternalID m) (m_Size m) (m_CreatedBy m) (timestamptzOrNull (m_SourceCreatedDate m))) <$>
    Ledger.StoredObjectsPage d target after (Z.to_nat limit).

Definition sql_targetGapsPage (d : db) (targets : list string) (after : string) (count limit : Z)
    : list (string * list string) :=
  take (Z.to_nat limit) (List.filter (λ row, str_ltb after row.1)
    (omap (λ id, if (Z.of_nat (length (held d targets id)) <? count)%Z then Some (id, held d targets id) else None)
       (sort_ids (map_to_list (objects d)).*1))).

Definition sql_coverageGaps (d : db) (targets : list string) (count : Z) : Z :=
  Z.of_nat (size (objects d)) -
  Z.of_nat (length (List.filter (λ id, (count <=? Z.of_nat (length (held d targets id)))%Z)
    (remove_dups (omap (λ '(i, t, r),
       if bool_decide (s_state r = StateStored) && bool_decide (t ∈ targets) then Some i else None)
       (status_rows d))))).

(** (never_verified, stalest_age_sec). *)
Definition sql_lastVerifiedAge (now : Z) (d : db) (targets : list string) : Z * Z :=
  let mvs := last_verified d <$> targets in
  let ages := omap (λ mv, v ← mv; Some (now - v)%Z) mvs in
  (Z.of_nat (length (List.filter (λ mv, bool_decide (mv = None)) mvs)),
   match ages with [] => 0%Z | a :: l => foldr Z.max a l end).

(** [jsonb_to_recordset] reads the array back, column by column. *)
Definition sql_recordBackup (now : Z) (p : RecordBackupParams) (d : db) : res db :=
  Ledger.RecordBackup now
    (MkMeta (p_ExternalID p) (p_Size p) (p_SizeVerified p) (p_CreatedBy p) (nullTime (p_SourceCreatedDate p)))
    ((λ r, MkStatus (sr_Target r) (sr_State r) (sr_Bytes r)) <$> p_Statuses p) d.

(** An iteration that ran to its end without an error, over these rows. *)
Definition clean {R} (q : rows R) (items : list R) : Prop :=
  q_err q = None ∧ q_next q = inl <$> items ∧ q_end q = None.

(** What the repository relies on of the server holding the tables [d]: an
    answer that arrives without an error is the statement's (rows the
    statement does not order come in any order); it may fail at any point. *)
Record speaks_for (sqlnow : Z) (d : db) (sv : server) : Prop := MkSpeaks {
  sp_list c ext l : clean (sv_listStoredTargets sv c ext) l → l ≡ₚ sql_listStoredTargets d ext;
  sp_count c ts l : clean (sv_storedCountByTarget sv c ts) l → l ≡ₚ sql_storedCountByTarget d ts;
  sp_objects c t a k l : (0 ≤ k)%Z → clean (sv_storedObjectsPage sv c t a k) l → l = sql_storedObjectsPage d t a k;
  sp_ids c t a k l : (0 ≤ k)%Z → clean (sv_storedExternalIDsPage sv c t a k) l →
    l = Ledger.StoredExternalIDsPage d t a (Z.to_nat k);
  sp_gaps c ts a n k l : (0 ≤ k)%Z → clean (sv_targetGapsPage sv c ts a n k) l →
    Forall2 (λ r r', r.1 = r'.1 ∧ r.2 ≡ₚ r'.2) l (sql_targetGapsPage d ts a n k);
  sp_coverage c ts n v : sv_coverageGaps sv c ts n = inl v → v = sql_coverageGaps d ts n;
  sp_age c ts v : sv_lastVerifiedAge sv c ts = inl v → v = sql_lastVerifiedAge sqlnow d ts;
  sp_record c p d' : sv_recordBackup sv c p d = Ok d' → sql_recordBackup sqlnow p d = Ok d';
}.

(** ** The scan loops lose nothing *)

Lemma scan_rows_spec {R} (next : list (R + err)) items l :
  scan_rows items next = inl l → ∃ m, next = inl <$> m ∧ l = items ++ m.
Proof.
  revert items. induction next as [|[r|e] next IH]; intros items; simpl; [|intros H|done].
  - intros [= <-]. exists []. by rewrite app_nil_r.
  - apply IH in H as (m & -> & ->). exists (r :: m). by rewrite <- app_assoc.
Qed.

Lemma many_clean {R} (q : rows R) l : many q = Ok l → clean q l.
Proof.
  unfold many, clean. destruct (q_err q); [done|].
  destruct (scan_rows [] (q_next q)) eqn:Hs; [|done]. destruct (q_end q); [done|]. intros [= <-].
  by apply scan_rows_spec in Hs as (m & Hn & ->).
Qed.

(** The result is [v], or the driver's error under this label: a failed read
    is never taken for an answer. *)
Definition exact {A} (m : string) (c : call A) (v : A) : Prop :=
  c.2 = Ok v ∨ ∃ e, c.2 = Er (Wrap m [e]).

Lemma wrapping_exact {A B} m (r : res A) (f : A → B) v ds :
  (∀ a, r = Ok a → f a = v) → exact m (ds, wrapping m r f) v.
Proof. intros H. unfold exact, wrapping. simpl. destruct r as [a|e]; [left; by rewrite (H a)|by right; eexists]. Qed.

(** ** The conversions *)

Lemma elem_of_sliceToSet x l : x ∈ sliceToSet l ↔ x ∈ l.
Proof.
  unfold sliceToSet. assert (∀ s : gset string, x ∈ foldl (λ set y, {[ y ]} ∪ set) s l ↔ x ∈ s ∨ x ∈ l) as ->.
  { induction l as [|y l IH]; intros s; simpl; [set_solver|]. rewrite IH. set_solver. }
  set_solver.
Qed.

Lemma sliceToSet_perm l l' : l ≡ₚ l' → sliceToSet l = sliceToSet l'.
Proof. intros Hp. apply set_eq. intros x. by rewrite !elem_of_sliceToSet, Hp. Qed.

Lemma sliceToSet_list_to_set l : sliceToSet l = list_to_set l.
Proof. apply set_eq. intros x. by rewrite elem_of_sliceToSet, elem_of_list_to_set. Qed.

Lemma nullTime_roundtrip t : nullTime (timestamptzOrNull t) = t.
Proof. by destruct t. Qed.

Lemma params_roundtrip now obj sts d : sql_recordBackup now (params_of obj sts) d = Ledger.RecordBackup now obj sts d.
Proof.
  unfold sql_recordBackup, params_of. simpl. rewrite nullTime_roundtrip. destruct obj. f_equal.
  rewrite <- list_fmap_compose. etrans; [|apply list_fmap_id]. apply list_fmap_ext. by intros ? [] ?.
Qed.

Lemma wrap32_small z : (0 ≤ z < 2 ^ 31)%Z → Config.wrap32 z = z.
Proof. intros ?. unfold Config.wrap32. rewrite Z.mod_small; lia. Qed.

(** ** The counts are filled in *)

Lemma foldl_insert_rows (l : list (string * Z)) (m : gmap string Z) k : NoDup l.*1 →
  foldl (λ m row, <[row.1 := row.2]> m) m l !! k =
    match (list_to_map l : gmap string Z) !! k with Some v => Some v | None => m !! k end.
Proof.
  revert m. induction l as [|[t v] l IH]; intros m Hn; cbn [foldl list_to_map foldr]; [by rewrite lookup_empty|].
  apply list.NoDup_cons in Hn as [Ht Hn]. rewrite IH by done. simpl. destruct (decide (t = k)) as [->|Hne].
  - rewrite not_elem_of_list_to_map_1 by done. by rewrite !lookup_insert_eq.
  - by rewrite !lookup_insert_ne.
Qed.

Lemma foldl_zeros ts k (m : gmap string Z) :
  foldl (λ m t, <[t := 0%Z]> m) m ts !! k = if decide (k ∈ ts) then Some 0%Z else m !! k.
Proof.
  revert m. induction ts as [|t ts IH]; intros m; cbn [foldl].
  { rewrite decide_False; [done|]. apply not_elem_of_nil. }
  rewrite IH. destruct (decide (k ∈ ts)) as [Hin|Hout].
  { rewrite decide_True; [done|by right]. }
  destruct (decide (t = k)) as [->|Hne].
  - rewrite lookup_insert_eq, decide_True; [done|by left].
  - rewrite lookup_insert_ne, decide_False; [done| |done]. rewrite elem_of_cons. by intros [?|?].
Qed.

Lemma count_rows_keys d ts : NoDup (sql_storedCountByTarget d ts).*1.
Proof.
  unfold sql_storedCountByTarget. pose proof (NoDup_remove_dups ts) as Hn. revert Hn.
  induction (remove_dups ts) as [|t l IH]; intros Hn; simpl; [by apply list.NoDup_nil|].
  apply list.NoDup_cons in Hn as [Ht Hn]. destruct (stored_ids d t); [by apply IH|].
  simpl. apply list.NoDup_cons. split; [|by apply IH]. intros Hin. apply Ht.
  apply list_elem_of_fmap in Hin as ([t' n] & -> & Hin).
  apply list_elem_of_omap in Hin as (u & Hu & Hm). by destruct (stored_ids d u); simplify_eq.
Qed.

Lemma count_rows_lookup d ts k :
  (list_to_map (sql_storedCountByTarget d ts) : gmap string Z) !! k =
    if decide (k ∈ ts ∧ stored_ids d k ≠ []) then Some (Z.of_nat (length (stored_ids d k))) else None.
Proof.
  case_decide as Hd.
  - destruct Hd as [Hin Hne]. apply elem_of_list_to_map_1; [apply count_rows_keys|].
    apply list_elem_of_omap. exists k. split; [by apply elem_of_remove_dups|]. by destruct (stored_ids d k).
  - apply not_elem_of_list_to_map_1. intros Hin. apply Hd.
    apply list_elem_of_fmap in Hin as ([t n] & -> & Hin).
    apply list_elem_of_omap in Hin as (u & Hu & Hm). rewrite elem_of_remove_dups in Hu.
    destruct (stored_ids d u) eqn:Hs; simplify_eq/=. split; [done|]. by rewrite Hs.
Qed.

Lemma counts_lookup (f : string → Z) ts k :
  (list_to_map ((λ t, (t, f t)) <$> ts) : gmap string Z) !! k = if decide (k ∈ ts) then Some (f k) else None.
Proof.
  induction ts as [|t ts IH]; cbn [fmap list_fmap list_to_map foldr].
  { rewrite decide_False; [done|]. apply not_elem_of_nil. }
  cbn [fst snd]. destruct (decide (t = k)) as [->|Hne].
  - rewrite lookup_insert_eq, decide_True; [done|by left].
  - rewrite lookup_insert_ne, IH by done. apply decide_ext. rewrite elem_of_cons. naive_solver.
Qed.

(** Zeros first, then the rows that exist: every target asked for has its count. *)
Lemma filled_counts d ts l : l ≡ₚ sql_storedCountByTarget d ts →
  foldl (λ m row, <[row.1 := row.2]> m) (foldl (λ m t, <[t := 0%Z]> m) ∅ ts) l = Ledger.StoredCountByTarget d ts.
Proof.
  intros Hp. assert (Hn : NoDup l.*1) by (rewrite Hp; apply count_rows_keys).
  apply map_eq. intros k. rewrite foldl_insert_rows by done.
  rewrite (list_to_map_proper l (sql_storedCountByTarget d ts)) by done.
  unfold Ledger.StoredCountByTarget. rewrite counts_lookup, count_rows_lookup, foldl_zeros, lookup_empty.
  repeat case_decide; try done; try tauto.
  destruct (stored_ids d k) eqn:Hs; [done|]. exfalso. rename select (¬ _) into Hx. apply Hx. by split.
Qed.

(** ** The work-list and the backstop *)

Lemma filter_fmap_comm {A B} (f : B → bool) (g : A → B) l :
  List.filter f (g <$> l) = g <$> List.filter (λ x, f (g x)) l.
Proof. induction l as [|x l IH]; csimpl; [done|]. rewrite IH. by destruct (f (g x)). Qed.

Definition to_gap (row : string * list string) : targetGap := MkGap row.1 (sliceToSet row.2).

Lemma to_gap_perm l l' : Forall2 (λ r r', r.1 = r'.1 ∧ r.2 ≡ₚ r'.2) l l' → to_gap <$> l = to_gap <$> l'.
Proof.
  induction 1 as [|[i h] [i' h'] l l' [Hi Hh] _ IH]; csimpl; [done|]. simpl in Hi, Hh. rewrite IH, Hi. unfold to_gap. simpl.
  by rewrite (sliceToSet_perm h h').
Qed.

Lemma gaps_page d ts after k :
  to_gap <$> sql_targetGapsPage d ts after (Z.of_nat (length ts)) (Z.of_nat k) = Ledger.targetGapsPage d ts after k.
Proof.
  unfold sql_targetGapsPage, Ledger.targetGapsPage. rewrite Nat2Z.id, fmap_take. f_equal.
  rewrite <- filter_fmap_comm with (f := λ g, str_ltb after (externalID g)). f_equal.
  unfold gap_rows. induction (sort_ids _) as [|id ids IH]; [done|]. cbn [omap list_omap].
  destruct (Z.ltb_spec (Z.of_nat (length (held d ts id))) (Z.of_nat (length ts))) as [Hlt|Hge].
  - rewrite bool_decide_eq_true_2 by lia. rewrite <- sliceToSet_list_to_set, fmap_cons. f_equal. exact IH.
  - rewrite bool_decide_eq_false_2 by lia. done.
Qed.

Lemma coverage_count d ts : ts ≠ [] → sql_coverageGaps d ts (Z.of_nat (length ts)) = Ledger.CoverageGaps d ts.
Proof.
  intros Hne. unfold sql_coverageGaps, Ledger.CoverageGaps, fully. destruct ts as [|t ts]; [done|].
  do 3 f_equal. apply List.filter_ext. intros id.
  destruct (Z.leb_spec (Z.of_nat (length (t :: ts))) (Z.of_nat (length (held d (t :: ts) id)))).
  - rewrite bool_decide_eq_true_2; [done|lia].
  - rewrite bool_decide_eq_false_2; [done|lia].
Qed.

(** ** The bounds *)

(** The context's deadline comes within the budget, and not after the parent's. *)
Definition within (now t : Z) (parent c : deadline) : Prop :=
  ∃ x, c = Some x ∧ (x ≤ now + t)%Z ∧ ∀ y, parent = Some y → (x ≤ y)%Z.

Lemma WithTimeout_within now parent t : within now t parent (WithTimeout now parent t).
Proof. unfold within, WithTimeout. destruct parent; eexists; (split; [done|]); split; [lia|naive_solver lia|lia|done]. Qed.

Lemma bounded_within {A} rt now ctx (stmt : deadline → res A) :
  Forall (within now (budget rt) ctx) (bounded rt now ctx stmt).1.
Proof. repeat constructor. apply WithTimeout_within. Qed.

(** [auditProbeTimeout] and [storedPageBounded] (audit.go), which bound the one
    read that does not bound itself. *)
Definition auditProbeTimeout : Z := 30 * 1000000000.

Definition storedPageBounded (sv : server) (now : Z) (ctx : deadline) (target after : string) (limit : nat)
    : call (list string) :=
  StoredExternalIDsPage sv (WithTimeout now ctx auditProbeTimeout) target after limit.

(** [NewPool]'s settings: the connections it may open and the server's
    [statement_timeout] in milliseconds; [None] leaves the default. *)
Definition NewPool (maxConns statementTimeout : Z) : option Z * option Z :=
  (if (0 <? maxConns)%Z then Some maxConns else None,
   if (0 <? statementTimeout)%Z then Some (Z.quot statementTimeout 1000000) else None).

(** ** The theorems *)

Section honest.
Context (sqlnow : Z) (d : db) (sv : server) (Hsv : speaks_for sqlnow d sv) (rt now : Z) (ctx : deadline).

Lemma StoredTargets_exact ext :
  exact "list stored targets" (StoredTargets sv rt now ctx ext) (Ledger.StoredTargets d ext).
Proof.
  apply wrapping_exact. intros l Hl%many_clean%(sp_list _ _ _ Hsv).
  by rewrite (sliceToSet_perm _ _ Hl), sliceToSet_list_to_set.
Qed.

Lemma StoredCountByTarget_exact ts :
  exact "stored count by target" (StoredCountByTarget sv rt now ctx ts) (Ledger.StoredCountByTarget d ts).
Proof. apply wrapping_exact. intros l Hl%many_clean%(sp_count _ _ _ Hsv). by apply filled_counts. Qed.

Lemma StoredObjectsPage_exact target after k : (Z.of_nat k < 2 ^ 31)%Z →
  exact "stored objects page" (StoredObjectsPage sv rt now ctx target after k)
    (Ledger.StoredObjectsPage d target after k).
Proof.
  intros Hk. apply wrapping_exact. rewrite wrap32_small by lia.
  intros l Hl%many_clean%(sp_objects _ _ _ Hsv); [|lia]. subst l.
  unfold sql_storedObjectsPage, Ledger.StoredObjectsPage.
  rewrite Nat2Z.id, <- list_fmap_compose. etrans; [|apply list_fmap_id].
  apply list_fmap_ext. intros i x Hx%list_elem_of_lookup_2%elem_of_take.
  destruct Hx as (j & Hx%list_elem_of_lookup_2 & _). apply list_elem_of_omap in Hx as (y & _ & Hy).
  destruct (objects d !! y); simplify_eq/=. unfold object_of. simpl. by rewrite nullTime_roundtrip.
Qed.

Lemma storedPageBounded_exact target after k : (Z.of_nat k < 2 ^ 31)%Z →
  exact "stored external ids page" (storedPageBounded sv now ctx target after k)
    (Ledger.StoredExternalIDsPage d target after k).
Proof.
  intros Hk. apply wrapping_exact. rewrite wrap32_small by lia.
  intros l Hl%many_clean%(sp_ids _ _ _ Hsv); [|lia]. subst l. by rewrite Nat2Z.id.
Qed.

Lemma targetGapsPage_exact ts after k : (Z.of_nat (length ts) < 2 ^ 31)%Z → (Z.of_nat k < 2 ^ 31)%Z →
  exact "target gaps page" (targetGapsPage sv rt now ctx ts after k) (Ledger.targetGapsPage d ts after k).
Proof.
  intros Ht Hk. apply wrapping_exact. rewrite !wrap32_small by lia.
  intros l Hl%many_clean%(sp_gaps _ _ _ Hsv); [|lia].
  rewrite <- gaps_page. by apply to_gap_perm.
Qed.

Lemma CoverageGaps_exact ts : (Z.of_nat (length ts) < 2 ^ 31)%Z →
  exact "coverage gaps" (CoverageGaps sv rt now ctx ts) (Ledger.CoverageGaps d ts).
Proof.
  intros Ht. destruct ts as [|t ts]; [by left|]. apply wrapping_exact. rewrite wrap32_small by lia.
  rewrite <- coverage_count by done. intros v. unfold Queries_CoverageGaps, Queries_LastVerifiedAge, one. destruct (sv_coverageGaps _ _ _ _) eqn:Hv; [|done].
  intros [= <-]. by apply (sp_coverage _ _ _ Hsv) in Hv.
Qed.

Lemma LastVerifiedAge_exact ts :
  exact "last verified age" (LastVerifiedAge sv rt now ctx ts) (Ledger.LastVerifiedAge sqlnow d ts).
Proof.
  destruct ts as [|t ts]; [by left|]. apply wrapping_exact.
  intros v. unfold Queries_CoverageGaps, Queries_LastVerifiedAge, one. destruct (sv_lastVerifiedAge _ _ _) as [[nv age]|] eqn:Hv; [|done].
  intros [= <-]. apply (sp_age _ _ _ Hsv) in Hv. by injection Hv as -> ->.
Qed.

Lemma within_mono t t' c : (t ≤ t')%Z → within now t ctx c → within now t' ctx c.
Proof. intros Hle (x & Hc & Hx & Hp). exists x. split; [done|]. split; [lia|done]. Qed.

Lemma bounded_max {A} (stmt : deadline → res A) :
  Forall (within now (Z.max (budget rt) auditProbeTimeout) ctx) (bounded rt now ctx stmt).1.
Proof. eapply Forall_impl; [|apply bounded_within]. intros c. apply within_mono. lia. Qed.

End honest.

(** A server that answers everything, and one whose rows break off. *)
Definition full {R} (l : list R) : rows R := MkRows None (inl <$> l) None.
Definition cut {R} (l : list R) : rows R := MkRows None (inl <$> take 1 l) (Some (Sent ErrUnexpectedEOF)).
Definition exact_server (sqlnow : Z) (d : db) : server :=
  MkServer (λ _ ext, full (sql_listStoredTargets d ext)) (λ _ ts, full (sql_storedCountByTarget d ts))
    (λ _ t a k, full (sql_storedObjectsPage d t a k))
    (λ _ t a k, full (Ledger.StoredExternalIDsPage d t a (Z.to_nat k)))
    (λ _ ts a n k, full (sql_targetGapsPage d ts a n k)) (λ _ ts n, inl (sql_coverageGaps d ts n))
    (λ _ ts, inl (sql_lastVerifiedAge sqlnow d ts)) (λ _, inl (true, true)) (λ _ p x, sql_recordBackup sqlnow p x).
Definition broken_server (sqlnow : Z) (d : db) : server :=
  MkServer (λ _ ext, cut (sql_listStoredTargets d ext)) (λ _ ts, cut (sql_storedCountByTarget d ts))
    (λ _ t a k, cut (sql_storedObjectsPage d t a k)) (λ _ t a k, cut [t])
    (λ _ ts a n k, cut (sql_targetGapsPage d ts a n k)) (λ _ ts n, inr (Sent Canceled))
    (λ _ ts, inr (Sent Canceled)) (λ _, inr (Sent Canceled)) (λ _ p x, Er (Sent Canceled)).

Lemma clean_inj {R} (l l' : list R) : clean (full l) l' → l' = l.
Proof.
  intros (_ & Heq & _). simpl in Heq. symmetry in Heq. revert Heq. by apply list_fmap_eq_inj; intros ?? [= ->].
Qed.

Lemma exact_server_speaks sqlnow d : speaks_for sqlnow d (exact_server sqlnow d).
Proof.
  split; simpl; intros; simplify_eq; try done;
    match goal with H : clean _ _ |- _ => apply clean_inj in H as -> end; try done.
Qed.

Lemma broken_server_speaks sqlnow d : speaks_for sqlnow d (broken_server sqlnow d).
Proof. split; simpl; unfold clean; simpl; naive_solver. Qed.


(** A record that is reported written is the ledger's record of exactly these
    statuses: the JSON array and the nullable date lose nothing. *)
Lemma RecordBackup_writes sqlnow d sv ctx obj sts d' : speaks_for sqlnow d sv →
  (RecordBackup sv ctx obj sts d).2 = Ok d' → Ledger.RecordBackup sqlnow obj sts d = Ok d'.
Proof.
  intros Hsv. unfold RecordBackup, Queries_RecordBackup, wrapping. simpl.
  destruct (sv_recordBackup _ _ _ _) eqn:Hr; [|done]. intros [= <-].
  rewrite <- params_roundtrip. by apply (sp_record _ _ _ Hsv) in Hr.
Qed.

(** A pool and a repository given the same timeout agree: a statement the
    server still runs has not been abandoned by the client, which waits at
    least as long as the server's own limit. *)
Lemma client_outlasts_server t ms now maxConns : (0 < t)%Z → (NewPool maxConns t).2 = Some ms →
  ∃ x, boundRead now None t = Some x ∧ (now + ms * 1000000 ≤ x)%Z.
Proof.
  intros Ht. unfold NewPool. simpl. rewrite (proj2 (Z.ltb_lt 0 t)) by done. intros [= <-].
  unfold boundRead, WithTimeout. rewrite (proj2 (Z.leb_gt t 0)) by done. eexists. split; [done|].
  pose proof (Z.mul_quot_le t 1000000). lia.
Qed.

End Repos.
