(* ===== verification/Grants.v ===== *)
(** * The startup probes and the role's grants

    The two tables of the Alkemio database belong to the server: their columns
    may be renamed and the service's role may be granted less than it needs.
    [OutboxRepo.Probe] and [CheckWriteGrant]
    ([src/internal/adapter/outbound/db/outbox.go]), [FileRepo.Probe] and
    [ProbeCurrentVersion] ([files.go]) are to find that out at startup. Here a
    statement is the columns it reads and those it assigns, a role's access to
    a table the columns it may read and write, which exist; Postgres rejects a
    statement that reads or assigns another. *)

From S2P Require Import Prelude GoRuntime.
From Stdlib Require Import ZArith Lia.
From stdpp Require Import base gmap sets strings list numbers.

Module Grants.

Record access := MkAccess { selectable : gset string; updatable : gset string }.

Record statement := MkStmt { reads : gset string; assigns : gset string }.

Definition permitted (a : access) (st : statement) : bool :=
  bool_decide (reads st ⊆ selectable a) && bool_decide (assigns st ⊆ updatable a).

(** The statement's error: the server's rejection, or whatever else [fault] goes
    wrong with a statement that is permitted ([ErrNoRows] of an empty table, a
    lost connection). *)
Definition execute (a : access) (st : statement) (fault : goerr) : goerr :=
  if permitted a st then fault else Some (Msg "permission denied or undefined column").

(** ** The statements *)

Definition claim_stmt : statement :=
  MkStmt {[ "id"; "status"; "visibleAt"; "priority"; "createdDate"; "fileId"; "externalID"; "size"; "createdBy" ]}
    {[ "status"; "claimedAt" ]}.
Definition markDone_stmt : statement := MkStmt {[ "id"; "status" ]} {[ "status" ]}.
Definition release_stmt : statement := MkStmt {[ "id"; "status" ]} {[ "status"; "claimedAt"; "visibleAt" ]}.
Definition skip_stmt : statement := MkStmt {[ "id"; "status" ]} {[ "status"; "claimedAt" ]}.
Definition defer_stmt : statement :=
  MkStmt {[ "id"; "status" ]} {[ "status"; "claimedAt"; "attempts"; "visibleAt" ]}.
Definition fail_stmt : statement :=
  MkStmt {[ "id"; "status"; "attempts" ]} {[ "attempts"; "status"; "lastError"; "claimedAt"; "visibleAt" ]}.
Definition reap_stmt : statement :=
  MkStmt {[ "deliveries"; "lastError"; "status"; "claimedAt" ]} {[ "deliveries"; "status"; "lastError"; "claimedAt" ]}.
Definition backlog_stmt : statement := MkStmt {[ "createdDate"; "status"; "visibleAt"; "attempts" ]} ∅.

Definition outbox_statements : list statement :=
  [claim_stmt; markDone_stmt; release_stmt; skip_stmt; defer_stmt; fail_stmt; reap_stmt; backlog_stmt].

Definition filesPage_stmt : statement :=
  MkStmt {[ "id"; "externalID"; "createdBy"; "createdDate"; "size"; "temporaryLocation" ]} ∅.
Definition fileByID_stmt : statement := MkStmt {[ "id"; "externalID"; "updatedDate" ]} ∅.

(** ** The probes *)

Definition outbox_probe_stmt : statement :=
  MkStmt {[ "id"; "fileId"; "externalID"; "priority"; "status"; "attempts"; "deliveries"; "lastError";
            "createdBy"; "createdDate"; "size"; "claimedAt"; "visibleAt" ]} ∅.

(** [OutboxRepo.Probe]: an empty table is a success. *)
Definition Probe (a : access) (fault : goerr) : goerr :=
  match execute a outbox_probe_stmt fault with
  | Some e => if Is e ErrNoRows then None else Some (Wrap "outbox probe (scoped role / schema drift?)" [e])
  | None => None
  end.

(** [UPDATE file_backup_outbox SET status = status WHERE false]. *)
Definition CheckWriteGrant (a : access) (fault : goerr) : goerr :=
  match execute a (MkStmt {[ "status" ]} {[ "status" ]}) fault with
  | Some e => Some (Wrap "outbox write-grant check (scoped role lacks UPDATE?)" [e])
  | None => None
  end.

(** [FileRepo.probeColumns] and its two callers. *)
Definition probeColumns (a : access) (q : statement) (msg : string) (fault : goerr) : goerr :=
  match execute a q fault with Some e => Some (Wrap msg [e]) | None => None end.

Definition FileProbe (a : access) (fault : goerr) : goerr :=
  probeColumns a (MkStmt {[ "id"; "externalID"; "createdBy"; "createdDate"; "size"; "temporaryLocation" ]} ∅)
    "file table not readable (scoped role SELECT grant / schema drift on file?)" fault.

Definition ProbeCurrentVersion (a : access) (fault : goerr) : goerr :=
  probeColumns a (MkStmt {[ "id"; "externalID"; "updatedDate" ]} ∅)
    "file table not readable for restore-current (scoped role SELECT grant on updatedDate / schema drift?)" fault.

(** ** What a nil probe says *)

Lemma execute_None a st fault : execute a st fault = None → permitted a st = true.
Proof. unfold execute. by destruct (permitted a st). Qed.

Lemma permitted_spec a st : permitted a st = true ↔ reads st ⊆ selectable a ∧ assigns st ⊆ updatable a.
Proof. unfold permitted. by rewrite andb_true_iff, !bool_decide_eq_true. Qed.

Lemma permitted_weaken a st st' : permitted a st = true → reads st' ⊆ reads st → assigns st' ⊆ updatable a →
  permitted a st' = true.
Proof. rewrite !permitted_spec. intros [Hr _] ??. split; [by etrans|done]. Qed.

Lemma Probe_permitted a fault : Probe a fault = None → permitted a outbox_probe_stmt = true.
Proof.
  unfold Probe, execute. destruct (permitted a outbox_probe_stmt); [done|]. done.
Qed.

Lemma CheckWriteGrant_status a fault : CheckWriteGrant a fault = None → "status" ∈ updatable a.
Proof.
  unfold CheckWriteGrant. destruct (execute _ _ _) eqn:He; [done|]. intros _.
  apply execute_None, permitted_spec in He as [_ H]. set_solver.
Qed.

(** UPDATE granted on the table: on every column the probe names, or on none. *)
Definition table_level (a : access) : Prop :=
  updatable a = ∅ ∨ reads outbox_probe_stmt ⊆ updatable a.

Definition stmt_covered (st : statement) : bool :=
  bool_decide (reads st ⊆ reads outbox_probe_stmt) && bool_decide (assigns st ⊆ reads outbox_probe_stmt).

(** Every column of every statement is one the probe selects. *)
Lemma statements_covered : forallb stmt_covered outbox_statements = true.
Proof. by vm_compute. Qed.

(** The two startup checks of the outbox cover every statement the worker runs:
    when both pass, and UPDATE is granted per table, none of them is rejected
    for a column or a grant, whether or not the table has rows. *)
Theorem startup_checks_cover_statements a f f' st : table_level a →
  Probe a f = None → CheckWriteGrant a f' = None → In st outbox_statements → permitted a st = true.
Proof.
  intros Ht Hp%Probe_permitted Hw%CheckWriteGrant_status Hin.
  pose proof statements_covered as Hc. rewrite forallb_forall in Hc. specialize (Hc st Hin).
  unfold stmt_covered in Hc. apply andb_true_iff in Hc as [Hr%bool_decide_eq_true Ha%bool_decide_eq_true].
  destruct Ht as [Ht|Ht]; [rewrite Ht in Hw; set_solver|].
  apply (permitted_weaken a outbox_probe_stmt); [done|done|by etrans].
Qed.

Definition ex_grant : access :=
  MkAccess (reads outbox_probe_stmt) (reads outbox_probe_stmt).

Lemma startup_checks_cover_statements_witness :
  Probe ex_grant (Some (Sent ErrNoRows)) = None ∧ CheckWriteGrant ex_grant None = None ∧
  permitted ex_grant fail_stmt = true.
Proof.
  split; [by vm_compute|]. split; [by vm_compute|].
  apply (startup_checks_cover_statements ex_grant (Some (Sent ErrNoRows)) None); [by right|by vm_compute|by vm_compute|].
  simpl. tauto.
Defined.

(** The file table's probes cover the one statement each is for, and the
    backfill's does not ask for the column only [restore current] reads. *)
Lemma file_probes_cover a f :
  (FileProbe a f = None → permitted a filesPage_stmt = true) ∧
  (ProbeCurrentVersion a f = None → permitted a fileByID_stmt = true).
Proof.
  unfold FileProbe, ProbeCurrentVersion, probeColumns.
  split; destruct (execute _ _ _) eqn:He; try done; intros _; by apply execute_None in He.
Qed.

(** The write check assigns one column: a role granted UPDATE on [status]
    alone passes both checks, and every claim is then rejected. *)
Lemma write_grant_checks_one_column :
  let a := MkAccess (reads outbox_probe_stmt) {[ "status" ]} in
  Probe a None = None ∧ CheckWriteGrant a None = None ∧ permitted a claim_stmt = false.
Proof. by vm_compute. Qed.

End Grants.
