(* ===== verification/Env.v ===== *)
(** * The environment overlay, loading and sink construction

    [src/internal/config/config.go]: [setStr], [setParsed] and the overlays built
    from them ([applyEnv], [applyDBEnv], [seedTargetsFromEnv], [applyTargetEnv]),
    [Load], and [BuildSink] with its two factories.

    The process environment is a map from names to values. Reading a file and
    decoding YAML are code outside the repository: [Load] takes them as
    functions. [errors.Join] of an overlay collects one error per malformed
    variable, so a configuration with any is refused. *)

From S2P Require Import Prelude GoText GoRuntime Circuit Fanout Sweep Config FsSink S3Sink.
From Stdlib Require Import ZArith Lia.
From Stdlib Require Import Strings.Ascii Strings.String.
From stdpp Require Import base gmap strings list numbers.

Module Env.
Import GoText Config.

Abbreviation env := (gmap string string).

(** ** The setters *)

Definition envPrefix : string := "FBS_".

Definition setStr (e : env) (dst key : string) : string := default dst (e !! key).

Definition setParsed {T} (e : env) (dst : T) (key kind : string) (parse : string → option T) : T * goerr :=
  match e !! key with
  | Some v =>
      match parse v with
      | None => (dst, Some (Msg (key +:+ ": invalid " +:+ kind)))
      | Some n => (n, None)
      end
  | None => (dst, None)
  end.

Definition setInt (e : env) (dst : Z) (key : string) : Z * goerr := setParsed e dst key "integer" Atoi.
Definition setBool (e : env) (dst : bool) (key : string) : bool * goerr := setParsed e dst key "bool" ParseBool.

(** ** The overlays *)

Definition applyDBEnv (e : env) (d : DBConfig) (p : string) : DBConfig * goerr :=
  let port := setInt e (Port d) (p +:+ "PORT") in
  (MkDB (setStr e (Host d) (p +:+ "HOST")) port.1 (setStr e (User d) (p +:+ "USER"))
        (setStr e (Password d) (p +:+ "PASSWORD")) (setStr e (DBName d) (p +:+ "DBNAME"))
        (setStr e (SSLMode d) (p +:+ "SSLMODE")), port.2).

Definition targetPrefix (t : Target) : string := envPrefix +:+ "TARGET_" +:+ envToken (Name t) +:+ "_".

(** The body of [applyTargetEnv]'s loop: one target, and the errors of its four
    flags. *)
Definition overlayTarget (e : env) (t : Target) : Target * list goerr :=
  let p := targetPrefix t in
  let useSSL := setBool e (UseSSL t) (p +:+ "USESSL") in
  let sse := setBool e (SSE t) (p +:+ "SSE") in
  let insecure := setBool e (Insecure t) (p +:+ "INSECURE") in
  let worm := setBool e (Worm t) (p +:+ "WORM") in
  (MkT (Name t) (setStr e (Type_ t) (p +:+ "TYPE")) (setStr e (Endpoint t) (p +:+ "ENDPOINT"))
     (setStr e (Region t) (p +:+ "REGION")) (setStr e (Bucket t) (p +:+ "BUCKET"))
     (setStr e (Prefix t) (p +:+ "PREFIX")) (setStr e (Path t) (p +:+ "PATH"))
     (setStr e (Compression t) (p +:+ "COMPRESSION")) (setStr e (AccessKey t) (p +:+ "ACCESSKEY"))
     (setStr e (SecretKey t) (p +:+ "SECRETKEY")) (setStr e (AuditAccessKey t) (p +:+ "AUDITACCESSKEY"))
     (setStr e (AuditSecretKey t) (p +:+ "AUDITSECRETKEY")) useSSL.1 sse.1 insecure.1 worm.1,
   [useSSL.2; sse.2; insecure.2; worm.2]).

Definition applyTargetEnv (e : env) (ts : list Target) : list Target * goerr :=
  (fst ∘ overlayTarget e <$> ts, errors_Join (mjoin (snd ∘ overlayTarget e <$> ts))).

(** [base]: the targets of the file by token; the last of a token stands. *)
Definition baseTargets (ts : list Target) : gmap string Target :=
  foldl (λ m t, <[envToken (Name t) := t]> m) ∅ ts.

Definition freshTarget (name : string) : Target :=
  MkT name "" "" "" "" "" "" "" "" "" "" "" false false false false.

Fixpoint seed (base : gmap string Target) (seen : gset string) (names : list string) : list Target :=
  match names with
  | [] => []
  | n :: names =>
      let name := TrimSpace n in
      if bool_decide (name = "") || bool_decide (name ∈ seen) then seed base seen names
      else default (freshTarget name) (base !! envToken name) :: seed base ({[name]} ∪ seen) names
  end.

Definition seedTargetsFromEnv (e : env) (ts : list Target) : list Target :=
  let raw := default "" (e !! (envPrefix +:+ "TARGETS")) in
  if bool_decide (TrimSpace raw = "") then ts
  else seed (baseTargets ts) ∅ (Split "," raw).

Definition applyEnv (e : env) (c : Config) : Config * goerr :=
  let int get key := setInt e (get c) (envPrefix +:+ key) in
  let concurrency := int Concurrency "CONCURRENCY" in
  let metricsPort := int MetricsPort "METRICSPORT" in
  let perObject := int PerObjectTimeoutSec "PEROBJECTTIMEOUTSEC" in
  let staleTTL := int StaleTTLSec "STALETTLSEC" in
  let pollEvery := int PollEverySec "POLLEVERYSEC" in
  let maxAttempts := int MaxAttempts "MAXATTEMPTS" in
  let maxDeliveries := int MaxDeliveries "MAXDELIVERIES" in
  let manifestEvery := int ManifestEverySec "MANIFESTEVERYSEC" in
  let threshold := int CircuitThreshold "CIRCUITTHRESHOLD" in
  let cooldown := int CircuitCooldownSec "CIRCUITCOOLDOWNSEC" in
  let stall := int FanoutStallSec "FANOUTSTALLSEC" in
  let dbTimeout := int DBTimeoutSec "DBTIMEOUTSEC" in
  let alkemio := applyDBEnv e (AlkemioDB c) (envPrefix +:+ "ALKEMIODB_") in
  let ledger := applyDBEnv e (LedgerDB c) (envPrefix +:+ "LEDGERDB_") in
  let targets := applyTargetEnv e (seedTargetsFromEnv e (Targets c)) in
  (MkC (setStr e (FileServiceBase c) (envPrefix +:+ "FILESERVICEBASE")) alkemio.1 ledger.1 targets.1
     concurrency.1 metricsPort.1 perObject.1 staleTTL.1 pollEvery.1 maxAttempts.1 maxDeliveries.1
     manifestEvery.1 threshold.1 cooldown.1 stall.1 dbTimeout.1
     (setStr e (ScratchDir c) (envPrefix +:+ "SCRATCHDIR")),
   errors_Join [concurrency.2; metricsPort.2; perObject.2; staleTTL.2; pollEvery.2; maxAttempts.2;
     maxDeliveries.2; manifestEvery.2; threshold.2; cooldown.2; stall.2; dbTimeout.2;
     alkemio.2; ledger.2; targets.2]).

(** ** Load *)

Definition zeroDB : DBConfig := MkDB "" 0 "" "" "" "".
Definition zeroConfig : Config := MkC "" zeroDB zeroDB [] 0 0 0 0 0 0 0 0 0 0 0 0 "".

Section load.
Context (ReadFile : string → string + err) (Unmarshal : string → Config + err).

(** The configuration the file gives, the zero one without a file. *)
Definition fileConfig (path : string) : Config + err :=
  if bool_decide (path = "") then inl zeroConfig
  else match ReadFile path with
       | inl b => match Unmarshal b with inl c => inl c | inr x => inr (Wrap "parse config" [x]) end
       | inr x => if Is x ErrNotExist then inl zeroConfig else inr (Wrap "read config" [x])
       end.

Definition Load (e : env) (path : string) : Config + err :=
  match fileConfig path with
  | inr x => inr x
  | inl c =>
      match applyEnv e c with
      | (_, Some x) => inr (Wrap "env config" [x])
      | (c, None) => inl (applyDefaults c)
      end
  end.
End load.

(** ** Sinks *)

(** The sinks a target can be built into. *)
Inductive sink {client : Type} := Filesystem (name root : string) | S3 (s : S3Sink.Sink client).
Arguments sink : clear implicits.

Section build.
Context {client : Type} (minio_New : string → bool → string → string → string → client + err).

Definition buildFilesystemSink (t : Target) : sink client + err := inl (Filesystem (Name t) (Path t)).

Definition buildS3Sink (t : Target) : sink client + err :=
  match S3Sink.New minio_New
          (S3Sink.MkConfig (Name t) (Endpoint t) (Region t) (Bucket t) (Prefix t) (AccessKey t) (SecretKey t)
             (AuditAccessKey t) (AuditSecretKey t) (UseSSL t) (SSE t)) with
  | inl s => inl (S3 s)
  | inr x => inr x
  end.

Definition BuildSink (t : Target) : sink client + err :=
  if bool_decide (Type_ t = "filesystem") then buildFilesystemSink t
  else if bool_decide (Type_ t = "s3") then buildS3Sink t
  else inr (Msg "unknown type").
End build.

(** ** Malformed values *)

(** [key] is set to text [parse] does not accept. *)
Definition malformed {T} (parse : string → option T) (e : env) (key : string) : bool :=
  match e !! key with Some v => bool_decide (parse v = None) | None => false end.

(** What a variable makes of the value the file gave. *)
Definition from_env {T} (parse : string → option T) (e : env) (key : string) (old : T) : T :=
  match e !! key with Some v => default old (parse v) | None => old end.

Lemma setParsed_value {T} e (dst : T) key kind parse : (setParsed e dst key kind parse).1 = from_env parse e key dst.
Proof. unfold setParsed, from_env. destruct (e !! key) as [v|]; [|done]. by destruct (parse v). Qed.

Lemma setParsed_error {T} `{EqDecision T} e (dst : T) key kind parse :
  (setParsed e dst key kind parse).2 = None ↔ malformed parse e key = false.
Proof.
  unfold setParsed, malformed. destruct (e !! key) as [v|]; [|done].
  case_bool_decide as H; destruct (parse v); by split.
Qed.

(** The integer knobs: the variable, the field and its default. *)
Definition int_knobs : list (string * (Config → Z) * Z) :=
  [("FBS_CONCURRENCY", Concurrency, 8); ("FBS_METRICSPORT", MetricsPort, 4004);
   ("FBS_PEROBJECTTIMEOUTSEC", PerObjectTimeoutSec, 1800); ("FBS_STALETTLSEC", StaleTTLSec, 3600);
   ("FBS_POLLEVERYSEC", PollEverySec, 10); ("FBS_MAXATTEMPTS", MaxAttempts, 10);
   ("FBS_MAXDELIVERIES", MaxDeliveries, 50); ("FBS_MANIFESTEVERYSEC", ManifestEverySec, 86400);
   ("FBS_CIRCUITTHRESHOLD", CircuitThreshold, 5); ("FBS_CIRCUITCOOLDOWNSEC", CircuitCooldownSec, 60);
   ("FBS_FANOUTSTALLSEC", FanoutStallSec, 60); ("FBS_DBTIMEOUTSEC", DBTimeoutSec, 30)]%Z.

Definition int_keys : list string := (fst ∘ fst <$> int_knobs) ++ ["FBS_ALKEMIODB_PORT"; "FBS_LEDGERDB_PORT"].

Definition flags : list string := ["USESSL"; "SSE"; "INSECURE"; "WORM"].

Definition flag_keys (ts : list Target) : list string := t ← ts; String.append (targetPrefix t) <$> flags.

(** Some variable the overlay parses is malformed. *)
Definition refused (e : env) (ts : list Target) : Prop :=
  Exists (λ k, malformed Atoi e k = true) int_keys ∨ Exists (λ k, malformed ParseBool e k = true) (flag_keys ts).
#[export] Instance refused_dec e ts : Decision (refused e ts).
Proof. unfold refused. apply _. Defined.

Lemma not_Exists_true {A} (f : A → bool) l : ¬ Exists (λ x, f x = true) l ↔ Forall (λ x, f x = false) l.
Proof.
  rewrite <- Forall_Exists_neg. split; intros H; (eapply list.Forall_impl; [exact H|]); intros x; cbn; by destruct (f x).
Qed.

Lemma overlay_errors e t :
  Forall (λ x, x = None) (overlayTarget e t).2 ↔ Forall (λ k, malformed ParseBool e k = false) (String.append (targetPrefix t) <$> flags).
Proof.
  unfold overlayTarget, flags, setBool. cbn [snd fmap list_fmap].
  rewrite !list.Forall_cons, !setParsed_error. rewrite !list.Forall_nil. done.
Qed.

Lemma applyTargetEnv_error e ts :
  (applyTargetEnv e ts).2 = None ↔ Forall (λ k, malformed ParseBool e k = false) (flag_keys ts).
Proof.
  unfold applyTargetEnv, flag_keys. cbn [snd]. rewrite errors_Join_None.
  induction ts as [|t ts IH]; [done|]. rewrite bind_cons, fmap_cons. cbn [mjoin list_join].
  rewrite !Forall_app. cbn [compose]. by rewrite overlay_errors, IH.
Qed.

(** The overlay fails exactly when some variable is malformed. *)
Lemma applyEnv_error e c :
  (applyEnv e c).2 = None ↔ ¬ refused e (seedTargetsFromEnv e (Targets c)).
Proof.
  unfold refused, applyEnv. cbn [snd]. rewrite errors_Join_None.
  unfold applyDBEnv, setInt. cbn [snd]. rewrite !list.Forall_cons, !setParsed_error, applyTargetEnv_error.
  rewrite <- not_Exists_true.
  assert (∀ P Q : Prop, ¬ (P ∨ Q) ↔ ¬ P ∧ ¬ Q) as -> by tauto.
  rewrite (not_Exists_true (malformed Atoi e)). unfold int_keys. cbn [fmap list_fmap int_knobs app compose fst].
  rewrite !list.Forall_cons, !list.Forall_nil. cbn [envPrefix String.append]. tauto.
Qed.

Lemma applyEnv_knobs e c : Forall (λ '(key, get, _), get (applyEnv e c).1 = from_env Atoi e key (get c)) int_knobs.
Proof. repeat constructor; apply setParsed_value. Qed.

Lemma applyDefaults_knobs c : Forall (λ '(_, get, d), get (applyDefaults c) = orDefault (get c) d) int_knobs.
Proof. repeat constructor. Qed.

Definition sampleEnv : env :=
  <["FBS_CONCURRENCY" := "16"]> (<["FBS_TARGETS" := "nas, OFFSITE,nas"]> (<["FBS_TARGET_NAS_PATH" := "/backup"]>
    (<["FBS_TARGET_OFFSITE_WORM" := "true"]> ∅))).

(** ** The target list *)

(** The names a list in FBS_TARGETS stands for: trimmed, blanks and repetitions
    dropped, in order. *)
Fixpoint listed (seen : gset string) (names : list string) : list string :=
  match names with
  | [] => []
  | n :: names =>
      let name := TrimSpace n in
      if bool_decide (name = "") || bool_decide (name ∈ seen) then listed seen names
      else name :: listed ({[name]} ∪ seen) names
  end.

Lemma baseTargets_token ts k t : baseTargets ts !! k = Some t → envToken (Name t) = k ∧ t ∈ ts.
Proof.
  unfold baseTargets. induction ts as [|x ts IH] using rev_ind; [done|]. rewrite foldl_app. cbn [foldl].
  rewrite elem_of_app, list_elem_of_singleton, lookup_insert_Some. naive_solver.
Qed.

Lemma seed_spec ts seen names :
  envToken ∘ Name <$> seed (baseTargets ts) seen names = envToken <$> listed seen names ∧
  Forall (λ t, t ∈ ts ∨ t = freshTarget (Name t)) (seed (baseTargets ts) seen names).
Proof.
  revert seen. induction names as [|n names IH]; intros seen; [done|]. cbn [seed listed].
  destruct (_ || _); [apply IH|]. rewrite !fmap_cons, list.Forall_cons.
  destruct (IH ({[TrimSpace n]} ∪ seen)) as [-> HF].
  destruct (baseTargets ts !! _) as [t|] eqn:Ht; [|by auto].
  apply baseTargets_token in Ht as [Htok Hin]. split; [|by auto]. by apply (f_equal (.:: _)).
Qed.

Lemma overlay_Name e t : Name (overlayTarget e t).1 = Name t.
Proof. done. Qed.
(** When FBS_TARGETS names targets, it is authoritative: the loaded targets are,
    in the order of the list, one per distinct name, with the tokens of those names,
    and each is a target of the file (referred to by any spelling of its token) or a
    new one that only the environment fills; without FBS_TARGETS the file's targets
    stand. *)
Theorem target_list_follows_environment ReadFile Unmarshal e path c0 c :
  fileConfig ReadFile Unmarshal path = inl c0 → Load ReadFile Unmarshal e path = inl c →
  ∃ base, Targets c = fst ∘ overlayTarget e <$> base ∧
    if bool_decide (TrimSpace (default "" (e !! "FBS_TARGETS")) = "") then base = Targets c0
    else envToken ∘ Name <$> Targets c = envToken <$> listed ∅ (Split "," (default "" (e !! "FBS_TARGETS"))) ∧
         Forall (λ t, t ∈ Targets c0 ∨ t = freshTarget (Name t)) base.
Proof.
  intros Hf Hl. unfold Load in Hl. rewrite Hf in Hl.
  destruct (applyEnv e c0) as [c' [x|]] eqn:He; [done|]. injection Hl as <-.
  assert (c' = (applyEnv e c0).1) as -> by (by rewrite He).
  exists (seedTargetsFromEnv e (Targets c0)). split; [done|].
  unfold seedTargetsFromEnv. change (envPrefix +:+ "TARGETS") with "FBS_TARGETS".
  case_bool_decide as Hr; [done|].
  destruct (seed_spec (Targets c0) ∅ (Split "," (default "" (e !! "FBS_TARGETS")))) as [Ht HF].
  split; [|done]. rewrite <- Ht. cbn [Targets applyDefaults applyEnv fst].
  unfold applyTargetEnv, seedTargetsFromEnv. cbn [fst]. change (envPrefix +:+ "TARGETS") with "FBS_TARGETS".
  rewrite bool_decide_eq_false_2 by done. by rewrite <- list_fmap_compose.
Qed.

Lemma target_list_follows_environment_witness :
  ∃ c, Load (λ _, inr (Sent ErrNotExist)) (λ _, inl zeroConfig) sampleEnv "/etc/fbs.yaml" = inl c ∧
    envToken ∘ Name <$> Targets c = ["NAS"; "OFFSITE"].
Proof.
  eexists. split; [vm_compute; reflexivity|].
  destruct (target_list_follows_environment (λ _, inr (Sent ErrNotExist)) (λ _, inl zeroConfig) sampleEnv
              "/etc/fbs.yaml" zeroConfig _ eq_refl eq_refl) as (base & _ & H).
  vm_compute in H. destruct H as [H _]. exact H.
Defined.

(** ** One variable, one target *)

Definition fields : list string :=
  ["TYPE"; "ENDPOINT"; "REGION"; "BUCKET"; "PREFIX"; "PATH"; "COMPRESSION"; "ACCESSKEY"; "SECRETKEY";
   "AUDITACCESSKEY"; "AUDITSECRETKEY"] ++ flags.

(** The overlay of a target reads its own variables only. *)
Lemma overlay_local e e' t :
  (∀ f, f ∈ fields → e !! (targetPrefix t +:+ f) = e' !! (targetPrefix t +:+ f)) →
  overlayTarget e t = overlayTarget e' t.
Proof.
  intros H. unfold overlayTarget, setStr, setBool, setParsed.
  rewrite !H by (unfold fields, flags; set_solver). done.
Qed.

Lemma fields_solid : Forall (λ f, all_chars (isnt "_") f = true) fields.
Proof. by repeat constructor. Qed.
Definition own_keys (t : Target) : list string := String.append (targetPrefix t) <$> fields.

Lemma overlay_other e k v t : k ∉ own_keys t → overlayTarget (<[k := v]> e) t = overlayTarget e t.
Proof.
  intros Hk. apply overlay_local. intros f Hf. apply lookup_insert_ne. intros ->. apply Hk.
  by apply list_elem_of_fmap_2.
Qed.

(** A variable belongs to one token. *)
Lemma own_keys_token k t t' : k ∈ own_keys t → k ∈ own_keys t' → envToken (Name t) = envToken (Name t').
Proof.
  intros (f & -> & Hf)%list_elem_of_fmap (f' & H & Hf')%list_elem_of_fmap. revert H.
  pose proof fields_solid as Hs. rewrite list.Forall_forall in Hs.
  unfold targetPrefix. rewrite !append_assoc. intros H.
  do 2 apply append_inj_r in H. by apply last_sep_inj in H; [|apply Hs..].
Qed.

Lemma own_keys_prefix k t : k ∈ own_keys t → ∃ s, strip "FBS_TARGET_" k = Some s.
Proof.
  intros (f & -> & _)%list_elem_of_fmap. unfold targetPrefix. rewrite !append_assoc.
  change (envPrefix +:+ "TARGET_" +:+ envToken (Name t) +:+ "_" +:+ f) with ("FBS_TARGET_" +:+ (envToken (Name t) +:+ "_" +:+ f)).
  eexists. apply strip_app.
Qed.

(** Everything of a configuration but its targets. *)
Definition without_targets (c : Config) : Config :=
  MkC (FileServiceBase c) (AlkemioDB c) (LedgerDB c) [] (Concurrency c) (MetricsPort c) (PerObjectTimeoutSec c)
    (StaleTTLSec c) (PollEverySec c) (MaxAttempts c) (MaxDeliveries c) (ManifestEverySec c) (CircuitThreshold c)
    (CircuitCooldownSec c) (FanoutStallSec c) (DBTimeoutSec c) (ScratchDir c).

Lemma target_key_spares_the_rest e k v c s :
  strip "FBS_TARGET_" k = Some s → without_targets (applyEnv (<[k := v]> e) c).1 = without_targets (applyEnv e c).1.
Proof.
  intros Hk. assert (∀ key, strip "FBS_TARGET_" key = None → <[k := v]> e !! key = e !! key) as H.
  { intros key Hkey. apply lookup_insert_ne. intros ->. congruence. }
  unfold applyEnv, without_targets, applyDBEnv, setStr, setInt, setParsed, envPrefix. cbn [fst String.append].
  cbn -[strip]. rewrite !H by reflexivity. done.
Qed.
#[local] Arguments overlayTarget : simpl never.

(** Secrets cannot leak between targets: in a target set without a token
    collision, setting or changing one variable (other than the list itself) changes
    at most one target, and if it changes one, nothing else of the configuration. *)
Theorem one_variable_one_target e k v c i :
  k ≠ "FBS_TARGETS" →
  CheckTargetCollisions (applyEnv e c).1 = None →
  Targets (applyEnv e c).1 !! i ≠ Targets (applyEnv (<[k := v]> e) c).1 !! i →
  (∀ j, j ≠ i → Targets (applyEnv e c).1 !! j = Targets (applyEnv (<[k := v]> e) c).1 !! j) ∧
  without_targets (applyEnv e c).1 = without_targets (applyEnv (<[k := v]> e) c).1.
Proof.
  intros Hk Hc. assert (∀ e, Targets (applyEnv e c).1 = fst ∘ overlayTarget e <$> seedTargetsFromEnv e (Targets c)) as HT by done.
  unfold CheckTargetCollisions in Hc. rewrite !HT in *.
  assert (seedTargetsFromEnv (<[k := v]> e) (Targets c) = seedTargetsFromEnv e (Targets c)) as ->.
  { unfold seedTargetsFromEnv. by rewrite lookup_insert_ne. }
  remember (seedTargetsFromEnv e (Targets c)) as ts eqn:Hts. clear HT Hts.
  assert (NoDup (envToken ∘ Name <$> ts)) as Hnd.
  { destruct (_ <$> ts) as [|x l] eqn:E in Hc; [done|]. rewrite <- E in Hc.
    apply check_names_spec in Hc as [Hnd _]. by rewrite <- list_fmap_compose in Hnd. }
  rewrite !list_lookup_fmap. destruct (ts !! i) as [t|] eqn:Hi; [|done]. intros Hd.
  destruct (decide (k ∈ own_keys t)) as [Hin|Hout]; [|exfalso; apply Hd; cbn; by rewrite overlay_other].
  split.
  - intros j Hj. rewrite !list_lookup_fmap. destruct (ts !! j) as [t'|] eqn:Htj; [|done].
    cbn. destruct (decide (k ∈ own_keys t')) as [Hin'|Hout']; [|by rewrite overlay_other].
    exfalso. apply Hj. eapply NoDup_lookup; [exact Hnd|rewrite list_lookup_fmap, Htj; done|].
    rewrite list_lookup_fmap, Hi. cbn. f_equal. by eapply own_keys_token.
  - destruct (own_keys_prefix k t Hin) as [s Hs]. symmetry. by eapply target_key_spares_the_rest.
Qed.

Lemma one_variable_one_target_witness :
  Targets (applyEnv sampleEnv zeroConfig).1 !! 0 =
  Targets (applyEnv (<["FBS_TARGET_OFFSITE_SECRETKEY" := "s"]> sampleEnv) zeroConfig).1 !! 0.
Proof.
  refine (proj1 (one_variable_one_target sampleEnv "FBS_TARGET_OFFSITE_SECRETKEY" "s" zeroConfig 1 _ _ _) 0 _);
    vm_compute; done.
Defined.

(** ** Sinks of accepted targets *)

(** A target whose fields are accepted builds into the sink of its type, of its own
    name; an s3 sink can check immutability exactly when the audit credential is set. *)
Lemma accepted_target_builds {client} (minio_New : string → bool → string → string → string → client + err) t :
  ValidateTargetFields t = None →
  match BuildSink minio_New t with
  | inl (Filesystem n root) => Type_ t = "filesystem" ∧ n = Name t ∧ root = Path t ∧ root ≠ ""
  | inl (S3 s) => Type_ t = "s3" ∧ S3Sink.name s = Name t ∧ S3Sink.bucket s = Bucket t ∧
      (S3Sink.ImmutabilityReadable s = true ↔ AuditAccessKey t ≠ "") ∧
      (Insecure t = false → S3Sink.sse s = true)
  | inr _ => Type_ t = "s3" ∧ ∃ access secret x, minio_New (Endpoint t) (UseSSL t) (Region t) access secret = inr x
  end.
Proof.
  intros Hv. unfold ValidateTargetFields, targetFactories in Hv. unfold BuildSink.
  case_bool_decide as Hf.
  { unfold validateFilesystemTarget in Hv. case_bool_decide; [done|]. by split_and!. }
  case_bool_decide as Hs; [|done]. destruct (validateS3Target t) eqn:H3; [done|]. clear Hv.
  unfold buildS3Sink, S3Sink.New, S3Sink.newMinioClient, S3Sink.ImmutabilityReadable.
  cbn [S3Sink.c_Endpoint S3Sink.c_UseSSL S3Sink.c_Region S3Sink.c_AccessKey S3Sink.c_SecretKey S3Sink.c_AuditAccessKey
    S3Sink.c_AuditSecretKey S3Sink.c_Name S3Sink.c_Bucket S3Sink.c_Prefix S3Sink.c_SSE].
  unfold validateS3Target in H3.
  destruct (minio_New _ _ _ (AccessKey t) _) as [cl|x] eqn:E1; [|by eauto].
  assert (Insecure t = false → SSE t = true) as Hsse.
  { intros Hi. rewrite Hi in H3. repeat (case_match; try done). by destruct (UseSSL t), (SSE t). }
  assert (AuditAccessKey t = "" ↔ AuditSecretKey t = "") as Hpair.
  { repeat (case_match; try done). by repeat case_bool_decide; cbn in *. }
  destruct (decide (AuditAccessKey t = "")) as [Ha|Ha].
  - rewrite (bool_decide_eq_false_2 (_ ≠ "")) by (intros ?; done). cbn. by split_and!.
  - rewrite !bool_decide_eq_true_2 by (try done; by rewrite <- Hpair). cbn [andb].
    destruct (minio_New _ _ _ (AuditAccessKey t) _) as [a|x] eqn:E2; [|by eauto].
    cbn. by split_and!.
Qed.
End Env.
