(* ===== verification/Dsn.v ===== *)
(** * Connection strings

    [DBConfig.DSN] of [src/internal/config/config.go] and what it uses of
    [net/url] and [net]: [Userinfo.String], [Values.Encode], [JoinHostPort] and
    [URL.String]. Against it, a reader of such a URL by the generic syntax of
    RFC 3986: fragment, scheme, authority, userinfo, host and port, path and
    query. The round trip says that no user name, password, database name or mode,
    whatever its bytes, can change what another part is read as. *)

From S2P Require Import Prelude GoText GoRuntime Config.
From Stdlib Require Import ZArith Lia.
From Stdlib Require Import Strings.Ascii Strings.String.
From stdpp Require Import base strings list numbers.

Module Dsn.
Import GoText Config.

(** ** Rendering *)

Definition JoinHostPort (host port : string) : string :=
  if all_chars (isnt ":") host then host +:+ ":" +:+ port else "[" +:+ host +:+ "]:" +:+ port.

(** [Userinfo.String]; the password is [None] for [url.User]. *)
Definition Userinfo_String (user : string) (password : option string) : string :=
  if bool_decide (user ≠ "") || bool_decide (default "" password ≠ "") then
    escape encodeUserPassword user +:+
    match password with Some p => ":" +:+ escape encodeUserPassword p | None => "" end
  else "".

(** [URL.String] of a URL with a scheme, user information and a path that starts
    with a slash. *)
Definition URL_String (scheme userinfo host path rawQuery : string) : string :=
  scheme +:+ ":" +:+ "//" +:+ userinfo +:+ "@" +:+ escape encodeHost host +:+ escape encodePath path +:+
  (if bool_decide (rawQuery ≠ "") then "?" +:+ rawQuery else "").

(** [url.Values] with one key. *)
Definition Values_Encode (k v : string) : string :=
  escape encodeQueryComponent k +:+ "=" +:+ escape encodeQueryComponent v.

Definition DSN (d : DBConfig) : string :=
  URL_String "postgres"
    (Userinfo_String (User d) (if bool_decide (Password d ≠ "") then Some (Password d) else None))
    (JoinHostPort (Host d) (Itoa (Port d))) ("/" +:+ DBName d) (Values_Encode "sslmode" (SSLMode d)).

(** ** Reading *)

Definition read_userinfo (s : string) : option (string * string) :=
  match Cut ":" s with
  | Some (u, p) => u ← unescape encodeUserPassword u; p ← unescape encodeUserPassword p; Some (u, p)
  | None => u ← unescape encodeUserPassword s; Some (u, "")
  end.

Definition read_hostport (s : string) : option (string * Z) :=
  hp ← match strip "[" s with
       | Some s => '(h, r) ← Cut "]" s; p ← strip ":" r; Some (h, p)
       | None => Cut ":" s
       end;
  p ← Atoi hp.2; Some (hp.1, p).

Definition read_query (s : string) : option string :=
  match Split "&" s with
  | [kv] => v ← strip "sslmode=" kv; unescape encodeQueryComponent v
  | _ => None
  end.

Definition read_DSN (s : string) : option DBConfig :=
  if all_chars (isnt "#") s then
    r ← strip "postgres://" s;
    '(authority, r) ← Cut "/" r;
    '(path, q) ← Cut "?" r;
    '(ui, hp) ← Cut "@" authority;
    u ← read_userinfo ui;
    h ← read_hostport hp;
    db ← unescape encodePath path;
    mode ← read_query q;
    Some (MkDB h.1 h.2 u.1 u.2 db mode)
  else None.

(** ** Round trip *)

(** The characters of a host name or an address. *)
Definition host_char (c : ascii) : bool := is_alnum c || one_of "-._~:" c.

(** [escape] never leaves a character that delimits the part it is used in. *)
Lemma escape_avoids m (cs : string) s :
  (∀ c, all_chars (λ x, negb (one_of cs x)) (escape_char m c) = true) →
  all_chars (λ x, negb (one_of cs x)) (escape m s) = true.
Proof. apply escape_all_chars. Qed.

Lemma avoid_isnt cs c s : one_of cs c = true → all_chars (λ x, negb (one_of cs x)) s = true → all_chars (isnt c) s = true.
Proof.
  intros Hc. apply all_chars_impl. intros x Hx. apply isnt_true. intros ->. by rewrite Hc in Hx.
Qed.

Lemma escape_user s : all_chars (λ x, negb (one_of "@/?:#" x)) (escape encodeUserPassword s) = true.
Proof. apply escape_avoids. intros c. by destruct c as [[] [] [] [] [] [] [] []]. Qed.

Lemma escape_path s : all_chars (λ x, negb (one_of "?#" x)) (escape encodePath s) = true.
Proof. apply escape_avoids. intros c. by destruct c as [[] [] [] [] [] [] [] []]. Qed.

Lemma escape_query s : all_chars (λ x, negb (one_of "&#" x)) (escape encodeQueryComponent s) = true.
Proof. apply escape_avoids. intros c. by destruct c as [[] [] [] [] [] [] [] []]. Qed.

Lemma escape_host s : all_chars (λ c, host_char c || one_of "[]" c) s = true → escape encodeHost s = s.
Proof.
  induction s as [|c s IH]; [done|]. cbn [escape all_chars]. intros [Hc Hs]%andb_true_iff. rewrite IH by done.
  assert (escape_char encodeHost c = String c "") as ->; [|done].
  revert Hc. clear. by destruct c as [[] [] [] [] [] [] [] []].
Qed.
Lemma read_userinfo_written u p :
  u ≠ "" → read_userinfo (Userinfo_String u (if bool_decide (p ≠ "") then Some p else None)) = Some (u, p).
Proof.
  intros Hu. unfold Userinfo_String, read_userinfo. rewrite (bool_decide_eq_true_2 (u ≠ "")) by done. cbn [orb].
  assert (all_chars (isnt ":") (escape encodeUserPassword u) = true) as Hc
    by (eapply avoid_isnt; [|apply escape_user]; done).
  case_bool_decide as Hp.
  - change (":" +:+ ?x) with (String ":" x). rewrite Cut_app, !unescape_escape by done. done.
  - rewrite append_nil_r, Cut_none, unescape_escape by done. by subst.
Qed.

Lemma userinfo_avoids u p :
  all_chars (λ x, negb (one_of "@/?#" x)) (Userinfo_String u (if bool_decide (p ≠ "") then Some p else None)) = true.
Proof.
  assert (∀ s, all_chars (λ x, negb (one_of "@/?#" x)) (escape encodeUserPassword s) = true) as He.
  { intros s. eapply all_chars_impl; [|apply escape_user]. intros c. by destruct c as [[] [] [] [] [] [] [] []]. }
  unfold Userinfo_String. destruct (_ || _); [|done]. rewrite all_chars_app, He. case_bool_decide; [|done]. exact (He p).
Qed.

Lemma is_digit_host c : is_digit c = true → host_char c = true.
Proof. by destruct c as [[] [] [] [] [] [] [] []]. Qed.

Lemma JoinHostPort_chars h port :
  all_chars host_char h = true → (0 ≤ port)%Z →
  all_chars (λ c, host_char c || one_of "[]" c) (JoinHostPort h (Itoa port)) = true.
Proof.
  intros Hh Hp. assert (all_chars host_char (Itoa port) = true) as Hd
    by (eapply all_chars_impl; [apply is_digit_host|by apply Itoa_digits]).
  assert (∀ s, all_chars host_char s = true → all_chars (λ c, host_char c || one_of "[]" c) s = true) as Hw
    by (intros s; apply all_chars_impl; intros c ->; done).
  unfold JoinHostPort. case_match; rewrite !all_chars_app, (Hw h), (Hw (Itoa port)) by done; done.
Qed.

Lemma host_isnt c s : host_char c = false → all_chars host_char s = true → all_chars (isnt c) s = true.
Proof. intros Hc. apply all_chars_impl. intros x Hx. apply isnt_true. congruence. Qed.

Lemma strip_bracket s : all_chars (isnt "[") s = true → strip "[" s = None.
Proof. destruct s as [|c s]; [done|]. cbn. intros [H%isnt_true _]%andb_true_iff. by rewrite bool_decide_eq_false_2. Qed.

Lemma read_hostport_written h port :
  all_chars host_char h = true → (0 ≤ port ≤ 65535)%Z →
  read_hostport (JoinHostPort h (Itoa port)) = Some (h, port).
Proof.
  intros Hh Hp. unfold read_hostport, JoinHostPort.
  assert (Atoi (Itoa port) = Some port) as Ha by (apply Atoi_Itoa; unfold min_int64, max_int64; lia).
  assert (all_chars host_char (Itoa port) = true) as Hd
    by (eapply all_chars_impl; [apply is_digit_host|apply Itoa_digits; lia]).
  destruct (all_chars (isnt ":") h) eqn:Hc.
  - rewrite strip_bracket by (by rewrite !all_chars_app, (host_isnt "[" h), (host_isnt "[" (Itoa port)) by done).
    change (":" +:+ ?x) with (String ":" x). rewrite Cut_app by done.
    cbn [mbind option_bind fst snd]. by rewrite Ha.
  - rewrite strip_app.
    change ("]:" +:+ ?x) with (String "]" (":" +:+ x)). rewrite Cut_app by (by apply host_isnt).
    cbn [mbind option_bind]. rewrite strip_app.
    cbn [mbind option_bind fst snd]. by rewrite Ha.
Qed.

Lemma read_query_written mode : read_query (Values_Encode "sslmode" mode) = Some mode.
Proof.
  unfold read_query, Values_Encode. rewrite Split_none.
  2: { rewrite !all_chars_app, (avoid_isnt "&#" "&" (escape _ mode)) by (first [done|apply escape_query]). done. }
  change (escape encodeQueryComponent "sslmode" +:+ "=" +:+ ?x) with ("sslmode=" +:+ x).
  rewrite strip_app. by apply unescape_escape.
Qed.

(** A fragment cannot begin anywhere in the string. *)
Lemma DSN_no_fragment d : all_chars host_char (Host d) = true → (0 ≤ Port d)%Z → all_chars (isnt "#") (DSN d) = true.
Proof.
  intros Hh Hp. unfold DSN, URL_String. rewrite escape_host by (by apply JoinHostPort_chars).
  rewrite !all_chars_app. rewrite (avoid_isnt "@/?#" "#" (Userinfo_String _ _)) by (first [done|apply userinfo_avoids]).
  rewrite (avoid_isnt "?#" "#" (escape encodePath _)) by (first [done|apply escape_path]).
  assert (all_chars (isnt "#") (JoinHostPort (Host d) (Itoa (Port d))) = true) as ->.
  { eapply all_chars_impl; [|by apply JoinHostPort_chars]. intros c. by destruct c as [[] [] [] [] [] [] [] []]. }
  case_bool_decide; [|done]. unfold Values_Encode.
  rewrite !all_chars_app, (avoid_isnt "&#" "#" (escape _ (SSLMode d))) by (first [done|apply escape_query]). done.
Qed.
Definition userinfo (d : DBConfig) : string :=
  Userinfo_String (User d) (if bool_decide (Password d ≠ "") then Some (Password d) else None).
Definition hostport (d : DBConfig) : string := JoinHostPort (Host d) (Itoa (Port d)).

(** The string by its delimiters. *)
Lemma DSN_shape d : all_chars host_char (Host d) = true → (0 ≤ Port d)%Z →
  DSN d = "postgres://" +:+ ((userinfo d +:+ String "@" (hostport d)) +:+
    String "/" (escape encodePath (DBName d) +:+ String "?" (Values_Encode "sslmode" (SSLMode d)))).
Proof.
  intros Hh Hp. unfold DSN, URL_String. rewrite escape_host by (by apply JoinHostPort_chars).
  rewrite (bool_decide_eq_true_2 (Values_Encode _ _ ≠ "")) by done.
  fold (userinfo d) (hostport d). by rewrite append_assoc.
Qed.

(** C28: the connection string says exactly what the configuration says: read back by
    the syntax of URLs it gives every part of an accepted database configuration
    whose host is a name or an address, so no byte of a user name, password, database
    name or mode can be read as part of another (a mode in a password cannot turn TLS
    off). *)
Theorem DSN_roundtrip d :
  DBValidate d = None → all_chars host_char (Host d) = true → read_DSN (DSN d) = Some d.
Proof.
  intros Hv Hh. unfold DBValidate in Hv.
  case_bool_decide as Hn; [done|]. case_bool_decide as Hu; [done|]. case_bool_decide; [done|].
  destruct (_ || _) eqn:Hport; [done|]. to_prop.
  unfold read_DSN. rewrite DSN_no_fragment by (done || lia). rewrite DSN_shape by (done || lia).
  remember (userinfo d) as ui eqn:Hui. remember (hostport d) as hp eqn:Hhp.
  assert (all_chars (λ x, negb (one_of "@/?#" x)) ui = true) as Hua by (subst; apply userinfo_avoids).
  assert (all_chars (isnt "/") hp = true) as Hps.
  { subst. eapply all_chars_impl; [|apply JoinHostPort_chars; [done|lia]].
    intros c. by destruct c as [[] [] [] [] [] [] [] []]. }
  rewrite strip_app. cbn [mbind option_bind].
  rewrite Cut_app by (rewrite all_chars_app, (avoid_isnt "@/?#" "/" ui) by done; exact Hps).
  cbn [mbind option_bind]. rewrite (Cut_app "?") by (eapply avoid_isnt; [|apply escape_path]; done).
  cbn [mbind option_bind]. rewrite (Cut_app "@") by (by apply (avoid_isnt "@/?#")).
  cbn [mbind option_bind]. subst ui hp. unfold userinfo, hostport.
  rewrite read_userinfo_written, read_hostport_written by (done || lia).
  cbn [mbind option_bind]. rewrite unescape_escape, read_query_written by done. by destruct d.
Qed.

Lemma DSN_roundtrip_witness :
  let d := MkDB "::1" 5432 "fbs" "p@ss/w?rd#1&sslmode=disable" "file backup" "require" in
  DSN d = "postgres://fbs:p%40ss%2Fw%3Frd%231&sslmode=disable@[::1]:5432/file%20backup?sslmode=require" ∧
  read_DSN (DSN d) = Some d.
Proof.
  split; [vm_compute; reflexivity|]. apply DSN_roundtrip; vm_compute; reflexivity.
Defined.
End Dsn.
