(* ===== verification/Harness.v ===== *)
(** * The integration harness

    [src/internal/testsupport/pg/pg.go]: the throwaway Postgres of the integration
    tests, with the two databases and the server's own tables. Starting the container
    and talking to it are calls of testcontainers and pgx, given by their answers; the
    programs are in the monad of Trace.v, so what is left running and what is closed
    can be read off the trace.

    The tables it creates are checked against the columns Grants.v lists for every
    statement and probe, and its connection strings against those the service derives
    from the configuration it renders. *)

From S2P Require Import Prelude GoText GoRuntime Trace Config Dsn Grants.
From Stdlib Require Import ZArith Lia.
From Stdlib Require Import Strings.Ascii Strings.String.
From stdpp Require Import base gmap sets strings list numbers.

Module Harness.
Import Grants.
Import Trace.

Record Harness := MkHarness {
  Host : string; Port : Z; User : string; Password : string;
  AlkemioDB : string; LedgerDB : string;
  container : bool;             (* [h.container != nil] *)
}.

Inductive thing := Container | Conn (dsn : string).

#[global] Instance thing_eq_dec : EqDecision thing.
Proof. solve_decision. Defined.

Inductive hact := RunContainer | Terminate | Connect (dsn : string) | Close (dsn : string) | Exec_ (dsn sql : string).

Definition owns (a : hact) : ownership thing :=
  match a with
  | RunContainer => Gains Container
  | Terminate => Loses Container
  | Connect d => Gains (Conn d)
  | Close d => Loses (Conn d)
  | Exec_ _ _ => Neutral
  end.

Abbreviation M := (Trace.M hact).

(** ** The tables *)

Record column := MkCol { c_name : string; c_type : string; c_required : bool }.

Definition outbox_table : list column :=
  [MkCol "id" "BIGSERIAL" true; MkCol "fileId" "UUID" true; MkCol "externalID" "VARCHAR(128)" true; MkCol "priority" "INT" true;
   MkCol "status" "VARCHAR(20)" true; MkCol "attempts" "INT" false; MkCol "deliveries" "INT" false; MkCol "lastError" "TEXT" false;
   MkCol "createdBy" "UUID" false; MkCol "createdDate" "TIMESTAMPTZ" false; MkCol "size" "BIGINT" false;
   MkCol "claimedAt" "TIMESTAMPTZ" false; MkCol "visibleAt" "TIMESTAMPTZ" false].

Definition file_table : list column :=
  [MkCol "id" "UUID" true; MkCol "externalID" "VARCHAR(128)" false; MkCol "createdBy" "UUID" false;
   MkCol "createdDate" "TIMESTAMPTZ" false; MkCol "updatedDate" "TIMESTAMPTZ" false; MkCol "size" "BIGINT" false;
   MkCol "temporaryLocation" "BOOLEAN" false].

(** The statements of [provision] after the ledger database. *)
Definition ddl : list (string * list column) := [("file_backup_outbox", outbox_table); ("file", file_table)].

Definition createTable (t : string * list column) : string := "CREATE TABLE " +:+ t.1.

(** ** The harness *)

(** [fmt.Sprintf] of a libpq URL. *)
Definition dsn (h : Harness) (db : string) : string :=
  "postgres://" +:+ User h +:+ ":" +:+ Password h +:+ "@" +:+ Host h +:+ ":" +:+ GoText.Itoa (Port h) +:+ "/" +:+ db +:+ "?sslmode=disable".

Definition AlkemioDSN (h : Harness) : string := dsn h (AlkemioDB h).
Definition LedgerDSN (h : Harness) : string := dsn h (LedgerDB h).

Section harness.
Context (postgres_Run : goerr) (c_Host : string + err) (c_MappedPort : Z + err)
        (pgx_Connect : string → goerr) (exec : string → goerr).

Definition connect (d : string) : M unit := _ ← check (pgx_Connect d); tell (Connect d).

Definition exec_on (d sql : string) : M unit := _ ← tell (Exec_ d sql); check (exec sql).

Fixpoint execs (d : string) (label : string) (stmts : list string) : M unit :=
  match stmts with
  | [] => mret ()
  | q :: stmts => _ ← tell (Exec_ d q); _ ← check (wrap label (exec q)); execs d label stmts
  end.

Definition provision (h : Harness) : M unit :=
  let d := AlkemioDSN h in
  _ ← (_ ← check (wrap "connect alkemio" (pgx_Connect d)); tell (Connect d));
  defer_ (Close d) (
    _ ← tell (Exec_ d ("CREATE DATABASE " +:+ LedgerDB h));
    _ ← check (wrap "create ledger db" (exec ("CREATE DATABASE " +:+ LedgerDB h)));
    execs d "provision foreign table" (createTable <$> ddl)).

(** [Start]: the answers of the container come before there is a harness to clean up. *)
Definition Start : M Harness :=
  _ ← check (wrap "start postgres container" postgres_Run);
  _ ← tell RunContainer;
  host ← lift c_Host;
  port ← lift c_MappedPort;
  let h := MkHarness host port "test" "test" "alkemio" "filebackup" true in
  match provision h with
  | (tr, inl _) => (tr, inl h)
  | (tr, inr e) => (tr ++ [Terminate], inr e)
  end.

(** [Exec] and [ScalarRow]: a connection of their own, closed before they return. *)
Definition Exec (h : Harness) (db sql : string) : M unit :=
  _ ← connect (dsn h db); defer_ (Close (dsn h db)) (exec_on (dsn h db) sql).

Definition ScalarRow {A} (h : Harness) (db sql : string) (scan : A + err) : M A :=
  _ ← connect (dsn h db); defer_ (Close (dsn h db)) (_ ← tell (Exec_ (dsn h db) sql); lift scan).

Definition Cleanup (h : Harness) : M unit := if container h then tell Terminate else mret ().

(** ** What is left behind *)

Lemma connect_adds d : adds owns (Conn d) (connect d).
Proof. unfold connect. apply adds_bind; [apply keeps_check|intros _; by apply adds_acquire]. Qed.

Lemma execs_keeps d label l : keeps owns (execs d label l).
Proof.
  induction l as [|q l IH]; [apply keeps_ret|]. cbn [execs]. apply keeps_bind; [by apply keeps_note|intros _].
  apply keeps_bind; [apply keeps_check|intros _; exact IH].
Qed.

Lemma execs_ok d label l u : (execs d label l).2 = inl u → Forall (λ q, exec q = None) l.
Proof.
  induction l as [|q l IH]; [constructor|]. cbn [execs]. unfold mbind, M_bind. cbn [tell fst snd].
  destruct (exec q) eqn:E; cbn [wrap check throw fst snd]; [done|]. intros Hu. constructor; [done|by apply IH].
Qed.

Lemma provision_ok h u : (provision h).2 = inl u → Forall (λ t, exec (createTable t) = None) ddl.
Proof.
  unfold provision, mbind, M_bind. cbn [fst snd]. destruct (pgx_Connect _); cbn [wrap check throw tell mret M_ret fst snd]; [done|].
  unfold defer_. cbn [fst snd]. destruct (exec ("CREATE DATABASE " +:+ _)); cbn [wrap check throw tell mret M_ret fst snd]; [done|].
  intros Hu%execs_ok. by apply Forall_fmap in Hu.
Qed.

Lemma provision_keeps h : keeps owns (provision h).
Proof.
  unfold provision. cbv zeta. eapply bracket; [reflexivity| |intros _].
  - apply adds_bind; [apply keeps_check|intros _; by apply adds_acquire].
  - apply keeps_bind; [by apply keeps_note|intros _]. apply keeps_bind; [apply keeps_check|intros _; apply execs_keeps].
Qed.

(** Every connection is closed again, in [Exec] and [ScalarRow] as in [provision]. *)
Lemma calls_close h db sql : keeps owns (Exec h db sql) ∧ ∀ A (scan : A + err), keeps owns (ScalarRow h db sql scan).
Proof.
  split; [|intros A scan].
  - eapply bracket; [reflexivity|apply connect_adds|intros _]. unfold exec_on. apply keeps_bind; [by apply keeps_note|intros _; apply keeps_check].
  - eapply bracket; [reflexivity|apply connect_adds|intros _]. apply keeps_bind; [by apply keeps_note|intros _; apply keeps_lift].
Qed.

(** What [Start] leaves running: the container with the harness it returns, which
    [Cleanup] terminates; nothing when provisioning failed; and, when the container
    was up but did not say its host or its port, the container, with no harness to
    clean it up through. *)
Theorem Start_leaves_behind :
  match Start.2 with
  | inl h => Trace.holding owns Start.1 [] = Some [Container] ∧ Trace.holding owns (Start.1 ++ (Cleanup h).1) [] = Some [] ∧
             exec (createTable ("file_backup_outbox", outbox_table)) = None ∧ exec (createTable ("file", file_table)) = None
  | inr _ =>
      Trace.holding owns Start.1 [] =
      Some (if bool_decide (postgres_Run = None) && match c_Host, c_MappedPort with inl _, inl _ => false | _, _ => true end
            then [Container] else [])
  end.
Proof.
  unfold Start, mbind, M_bind, lift. destruct postgres_Run; [done|]. cbn [check wrap mret M_ret fst snd tell app].
  destruct c_Host as [host|]; [|done]. cbn [fst snd app]. destruct c_MappedPort as [port|]; [|done]. cbn [fst snd app].
  set (h := MkHarness host port "test" "test" "alkemio" "filebackup" true).
  pose proof (provision_keeps h) as Hk. destruct (provision h) as [tr [u|e]] eqn:Hp; cbn [fst snd].
  - specialize (Hk [Container]). cbn [fst] in Hk. change (Trace.holding owns (RunContainer :: tr) []) with (Trace.holding owns tr [Container]).
    split; [exact Hk|]. split; [cbn [app]; change (Trace.holding owns (tr ++ [Terminate]) [Container] = Some []); by rewrite holding_app, Hk|].
    pose proof (provision_ok h u) as Ht. rewrite Hp in Ht. specialize (Ht eq_refl). unfold ddl in Ht.
    rewrite !list.Forall_cons in Ht. tauto.
  - specialize (Hk [Container]). cbn [fst] in Hk. rewrite bool_decide_eq_true_2 by done. cbn [andb].
    change (Trace.holding owns (tr ++ [Terminate]) [Container] = Some []). by rewrite holding_app, Hk.
Qed.
End harness.

(** ** The tables fit the statements *)

Definition columns (t : list column) : gset string := list_to_set (c_name <$> t).

(** The owner of a table may read and write every column. *)
Definition owner (t : list column) : access := MkAccess (columns t) (columns t).

(** The provisioned tables are what the service's SQL expects: on them both startup
    checks of the outbox and both probes of the file table pass, every statement of the
    worker is permitted, and the outbox has no column the probe does not ask for. *)
Theorem provisioned_tables_fit :
  Grants.Probe (owner outbox_table) None = None ∧ Grants.CheckWriteGrant (owner outbox_table) None = None ∧
  forallb (permitted (owner outbox_table)) outbox_statements = true ∧ columns outbox_table = reads outbox_probe_stmt ∧
  Grants.FileProbe (owner file_table) None = None ∧ Grants.ProbeCurrentVersion (owner file_table) None = None ∧
  forallb (permitted (owner file_table)) [filesPage_stmt; fileByID_stmt] = true.
Proof. split_and!; vm_compute; reflexivity. Qed.

(** ** The configuration it renders *)

Definition nl : string := GoText.bytes_of [10%N].

Definition writeDB (h : Harness) (name db : string) : string :=
  name +:+ ":" +:+ nl +:+ "  host: " +:+ Host h +:+ nl +:+ "  port: " +:+ GoText.Itoa (Port h) +:+ nl +:+ "  user: " +:+ User h +:+ nl +:+
  "  password: " +:+ Password h +:+ nl +:+ "  dbName: " +:+ db +:+ nl +:+ "  sslMode: disable" +:+ nl.

Definition writeTarget (t : string * string) : string :=
  "  - name: " +:+ t.1 +:+ nl +:+ "    type: filesystem" +:+ nl +:+ "    path: " +:+ t.2 +:+ nl.

(** [ConfigYAML]; the targets in the order the map is ranged over. *)
Definition ConfigYAML (h : Harness) (fileServiceBase : string) (targets : list (string * string)) : string :=
  "fileServiceBase: " +:+ fileServiceBase +:+ nl +:+ writeDB h "alkemioDB" (AlkemioDB h) +:+ writeDB h "ledgerDB" (LedgerDB h) +:+
  "targets:" +:+ nl +:+ GoText.join "" (writeTarget <$> targets).

(** The database section the service decodes from it. *)
Definition dbConfig (h : Harness) (db : string) : Config.DBConfig :=
  Config.MkDB (Host h) (Port h) (User h) (Password h) db "disable".

Lemma escape_id m s : GoText.all_chars (λ c, negb (GoText.shouldEscape c m)) s = true → GoText.escape m s = s.
Proof.
  induction s as [|c s IH]; [done|]. cbn [GoText.escape GoText.all_chars]. intros [Hc Hs]%andb_true_iff. rewrite IH by done.
  unfold GoText.escape_char. apply negb_true_iff in Hc. by rewrite Hc.
Qed.

(** The service connects to the databases the harness made: from the sections it is
    given, the configuration derives the very connection strings of the harness. *)
Theorem harness_dsn_agrees h : User h = "test" → Password h = "test" → (0 ≤ Port h)%Z →
  GoText.all_chars (λ c, GoText.is_alnum c || GoText.one_of ".-" c) (Host h) = true →
  AlkemioDB h = "alkemio" → LedgerDB h = "filebackup" →
  Dsn.DSN (dbConfig h (AlkemioDB h)) = AlkemioDSN h ∧ Dsn.DSN (dbConfig h (LedgerDB h)) = LedgerDSN h.
Proof.
  intros Hu Hpw Hp Hh Ha Hl.
  assert (GoText.all_chars (GoText.isnt ":") (Host h) = true) as Hc.
  { eapply GoText.all_chars_impl; [|exact Hh]. intros c Hc. apply GoText.isnt_true. intros ->. done. }
  assert (GoText.escape GoText.encodeHost (Host h +:+ ":" +:+ GoText.Itoa (Port h)) = Host h +:+ ":" +:+ GoText.Itoa (Port h)) as He.
  { apply escape_id. rewrite !GoText.all_chars_app. rewrite !andb_true_iff. split_and!; [|done|].
    - eapply GoText.all_chars_impl; [|exact Hh]. intros c. destruct c as [[] [] [] [] [] [] [] []]; vm_compute; congruence.
    - eapply GoText.all_chars_impl; [|by apply GoText.Itoa_digits].
      intros c. destruct c as [[] [] [] [] [] [] [] []]; vm_compute; congruence. }
  unfold AlkemioDSN, LedgerDSN, dsn, Dsn.DSN, dbConfig, Dsn.URL_String, Dsn.JoinHostPort. cbn [Config.User Config.Password Config.Host Config.Port Config.DBName Config.SSLMode].
  rewrite Hc, He, Hu, Hpw, Ha, Hl. split; cbn; by rewrite !GoText.append_assoc.
Qed.
End Harness.
