(* ===== verification/Corpus.v ===== *)
(** * The file table: the backfill's corpus and the current version of a file

    [src/internal/adapter/outbound/db/files.go] ([filesPage], [EachFile],
    [FileByID]) and the guard of [restore current]
    ([resolveCurrentHash], [src/cmd/file-backup-service/main.go]).

    The table is the server's: a row's columns may be NULL. A uuid is an [N]
    and a time a [Z] of nanoseconds counted from Go's zero time, the value
    [nullTime] gives a NULL. *)

From S2P Require Import Prelude GoRuntime Ports Circuit Keyset Ledger Stream Fanout Pipeline Files Restore Sweep Config.
From Stdlib Require Import ZArith Lia.
From stdpp Require Import base gmap strings list sorting numbers.

Module Corpus.
Import Ports.

Record file_row := MkFile {
  f_externalID : option string; f_createdBy : option N; f_createdDate : option Z; f_size : option Z;
  f_temporaryLocation : option bool; f_updatedDate : option Z;
}.

Abbreviation table := (gmap N file_row).

(** [WHERE "temporaryLocation" IS NOT TRUE AND "externalID" IS NOT NULL AND
    "externalID" <> '']. *)
Definition selected (r : file_row) : bool :=
  bool_decide (f_temporaryLocation r ≠ Some true) &&
  match f_externalID r with Some x => bool_decide (x ≠ "") | None => false end.

(** The scanned row: [COALESCE(size,0)], and a date that stays absent when NULL. *)
Definition scan (id : N) (r : file_row) : BackupItem :=
  MkItem id (default "" (f_externalID r)) (default 0%Z (f_size r)) (f_createdBy r) (f_createdDate r).

(** The whole answer of the query without its keyset: [ORDER BY id]. *)
Definition corpus (t : table) : list BackupItem :=
  omap (λ id, r ← t !! id; if selected r then Some (scan id r) else None) (merge_sort N.le (map_to_list t).*1).

Definition filesPage (t : table) (after : N) (limit : nat) : list BackupItem :=
  Keyset.table_page FileID (corpus t) after limit.

(** [EachFile]: [answer k] is the database at the [k]-th page, so that rows may
    come and go during the pass. *)
Definition EachFile {S} (fuel : nat) (answer : nat → N → nat → Keyset.res (list BackupItem))
    (fn : S → BackupItem → S * goerr) (s : S) : option (S * goerr) :=
  Keyset.KeysetLoop FileID answer Keyset.KeysetPageSize fuel 0%N fn s.

(** [nullTime] and [Time.IsZero]. *)
Definition nullTime (t : option Z) : Z := default 0%Z t.
Definition IsZero (t : Z) : bool := (t =? 0)%Z.

(** The answer of [QueryRow(...).Scan]: no row, a failed read, or the two columns. *)
Definition FileByID (read : (option string * option Z) + err) : (string * Z * bool) * goerr :=
  match read with
  | inr serr =>
      if Is serr ErrNoRows then ((""%string, 0%Z, false), None)
      else ((""%string, 0%Z, false), Some (Wrap "file by id" [serr]))
  | inl (ext, vt) =>
      match ext with
      | Some x => if bool_decide (x = "") then ((""%string, 0%Z, false), None) else ((x, nullTime vt, true), None)
      | None => ((""%string, 0%Z, false), None)
      end
  end.

(** What the database answers for one id. *)
Definition read_row (t : table) (id : N) : (option string * option Z) + err :=
  match t !! id with
  | Some r => inl (f_externalID r, f_updatedDate r)
  | None => inr (Sent ErrNoRows)
  end.

(** [resolveCurrentHash]: the config check, the pool, the column probe, the read
    and the guard on the version time. *)
Definition resolveCurrentHash (cfg : Config.Config) (openPool probe : goerr)
    (read : (option string * option Z) + err) (at_ : Z) : string + err :=
  match Config.DBValidate (Config.AlkemioDB cfg) with
  | Some e => inr (Wrap "invalid config" [e])
  | None =>
      match openPool with
      | Some e => inr (Wrap "alkemio pool" [e])
      | None =>
          match probe with
          | Some e => inr e
          | None =>
              match FileByID read with
              | (_, Some e) => inr (Wrap "resolve file" [e])
              | ((hash, versionTime, found), None) =>
                  if negb found then inr (Msg "file has no current content hash in the live file table")
                  else if IsZero versionTime then inr (Msg "file has a NULL updatedDate")
                  else if (at_ <? versionTime)%Z then inr (Msg "file was modified after --at")
                  else inl hash
              end
          end
      end
  end.

(** ** The corpus *)

Lemma ids_ascending (t : table) : ascending (merge_sort N.le (map_to_list t).*1).
Proof.
  set (l := merge_sort N.le (map_to_list t).*1).
  assert (StronglySorted N.le l) as Hs by apply (StronglySorted_merge_sort N.le).
  assert (NoDup l) as Hnd.
  { unfold l. rewrite merge_sort_Permutation. apply NoDup_fst_map_to_list. }
  unfold ascending. clearbody l. induction Hs as [|x l _ IH Hx]; [constructor|].
  apply list.NoDup_cons in Hnd as [Hni Hnd]. constructor; [by apply IH|].
  rewrite list.Forall_forall in Hx |- *. intros y Hy. apply N.ltb_lt.
  specialize (Hx y Hy). assert (x ≠ y) by (by intros ->). lia.
Qed.

(** A filtering map that keeps each key keeps an ascending order. *)
Lemma omap_keyed_ascending {T} (f : N → option T) (key : T → N) l :
  (∀ k x, f k = Some x → key x = k) → ascending l → Keyset.keyed_ascending key (omap f l).
Proof.
  intros Hk. induction l as [|k l IH]; intros Ha; [constructor|].
  apply ascending_cons in Ha as [Ha Hall]. cbn [omap list_omap].
  destruct (f k) as [x|] eqn:Ef; [|by apply IH].
  apply Keyset.keyed_ascending_cons. split; [by apply IH|].
  apply list.Forall_forall. intros y (k' & Hin & Hy)%list_elem_of_omap.
  rewrite (Hk _ _ Ef), (Hk _ _ Hy). rewrite list.Forall_forall in Hall. by apply Hall.
Qed.

Lemma corpus_ascending t : Keyset.keyed_ascending FileID (corpus t).
Proof.
  apply omap_keyed_ascending; [|apply ids_ascending]. intros id x Hx.
  destruct (t !! id) as [r|]; cbn in Hx; [|done]. destruct (selected r); by simplify_eq.
Qed.

(** The corpus is the backfillable rows, and nothing else. *)
Lemma elem_of_corpus t e :
  e ∈ corpus t ↔ ∃ r, t !! FileID e = Some r ∧ selected r = true ∧ e = scan (FileID e) r.
Proof.
  unfold corpus. rewrite list_elem_of_omap. split.
  - intros (id & _ & He). destruct (t !! id) as [r|] eqn:Er; cbn in He; [|done].
    destruct (selected r) eqn:Es; [|done]. injection He as <-. cbn. eauto.
  - intros (r & Hr & Hs & He). exists (FileID e). split; [|by rewrite Hr; cbn; rewrite Hs, <- He].
    rewrite merge_sort_Permutation, list_elem_of_fmap. exists (FileID e, r).
    split; [done|]. by apply elem_of_map_to_list.
Qed.

(** Every row's id is above the nil uuid the sweep starts from. *)
Definition no_nil (t : table) : Prop := t !! 0%N = None.

Lemma corpus_above t : no_nil t → Keyset.above FileID (corpus t) 0%N = corpus t.
Proof.
  intros Hn. apply Keyset.above_all. apply list.Forall_forall. intros e (r & Hr & _)%elem_of_corpus.
  apply N.ltb_lt. destruct (FileID e) eqn:Ee; [|lia]. by rewrite Hn in Hr.
Qed.

Lemma EachFile_enumerates {S} fuel t (fn : S → BackupItem → S * goerr) s :
  no_nil t → length (corpus t) < fuel →
  EachFile fuel (λ _ a n, Keyset.Ok (filesPage t a n)) fn s = Some (Keyset.for_each fn s (corpus t)).
Proof.
  intros Hn Hf. unfold EachFile, Keyset.KeysetLoop.
  rewrite (Keyset.loop_spec FileID _ Keyset.KeysetPageSize (corpus t));
    [|done|apply corpus_ascending|apply Keyset.KeysetPageSize_pos|unfold Keyset.sweeping; simpl; lia|].
  - unfold Keyset.remaining. cbn. by rewrite corpus_above.
  - unfold Keyset.remaining. cbn. by rewrite corpus_above.
Qed.

(** ** Properties *)

(** C24: a backfill covers the corpus. Over a table that does not change, the
    enumeration terminates and yields exactly the rows that are not temporary and
    have a content hash, each once and in id order, NULL columns or not; and when the
    pass over them returns nil with no failure and no cancellation counted, each of
    those rows was backed up, was deferred to a target that is down, or is gone at
    the source. *)
Theorem backfill_covers_corpus fuel t rate env result ctx completed st :
  no_nil t → length (corpus t) < fuel → Sweep.sound env →
  completed ≡ₚ Sweep.dispatched rate env (corpus t) None →
  Sweep.Backfill rate env (corpus t) None result ctx completed = (st, None) →
  EachFile fuel (λ _ a n, Keyset.Ok (filesPage t a n)) (λ acc e, (acc ++ [e], None)) [] = Some (corpus t, None) ∧
  (Sweep.bf_Failed st = 0%Z → Sweep.bf_Cancelled st = 0%Z →
   ∀ id r, t !! id = Some r → f_temporaryLocation r ≠ Some true → default ""%string (f_externalID r) ≠ ""%string →
     (∃ d, result (scan id r) = Returns (true, d, None)) ∨
     (∃ d, result (scan id r) = Returns (d, true, None)) ∨
     (∃ a b y, result (scan id r) = Returns (a, b, Some y) ∧ Is y ErrSourceGone = true)).
Proof.
  intros Hn Hf Hs Hp HB. split.
  - rewrite EachFile_enumerates by done. pose proof (Keyset.for_each_map (λ e : BackupItem, e) (corpus t) []) as Hm.
    rewrite list_fmap_id in Hm. by rewrite Hm.
  - intros Hfail Hcan id r Hr Htmp Hext.
    destruct (Sweep.backfill_accounts_for_every_object rate env (corpus t) None result ctx completed st None Hs Hp HB) as (_ & _ & Hok).
    destruct (Hok eq_refl) as (_ & _ & Hall). apply (Hall Hfail Hcan). apply elem_of_corpus.
    exists r. cbn. split_and!; [done| |done]. unfold selected. apply andb_true_intro.
    split; [by apply bool_decide_eq_true_2|]. destruct (f_externalID r); [by apply bool_decide_eq_true_2|done].
Qed.

(** Three rows: a stored file with a NULL size, a temporary one and one without a
    content hash yet. *)
Definition ex_table : table :=
  list_to_map [(7%N, MkFile (Some "aa") None (Some 5%Z) None None (Some 9%Z));
               (3%N, MkFile (Some "bb") None None (Some 2%Z) (Some true) (Some 4%Z));
               (5%N, MkFile None None None None (Some false) None)].

Lemma backfill_covers_corpus_witness :
  EachFile 2 (λ _ a n, Keyset.Ok (filesPage ex_table a n)) (λ acc e, (acc ++ [e], None)) [] =
    Some ([MkItem 7 "aa" 0 None (Some 5%Z)], None).
Proof.
  assert (corpus ex_table = [MkItem 7 "aa" 0 None (Some 5%Z)]) as Hc by (vm_compute; reflexivity).
  rewrite <- Hc.
  refine (proj1 (backfill_covers_corpus 2 ex_table 0 Sweep.ex_live (λ _, Returns (true, false, None)) (λ _, None)
    (corpus ex_table) (Sweep.MkBF 1 0 0 0 0) _ _ _ _ _)).
  - vm_compute. reflexivity.
  - rewrite Hc. cbn. lia.
  - intros j. by intros [=].
  - rewrite Hc. vm_compute. reflexivity.
  - rewrite Hc. vm_compute. reflexivity.
Defined.

(** *** The version in effect *)

(** A file's history, oldest first: each update's time and the hash it left. *)
Definition in_effect (history : list (Z * string)) (at_ : Z) : option string :=
  snd <$> list.last (List.filter (λ v, (v.1 <=? at_)%Z) history).

(** The row shows the last update of the history; an edit that leaves the hash
    alone is an update too. *)
Definition shows (r : file_row) (history : list (Z * string)) : Prop :=
  ∃ older t x, history = older ++ [(t, x)] ∧ f_externalID r = Some x ∧ f_updatedDate r = Some t.

Lemma in_effect_last older t x at_ : (t ≤ at_)%Z → in_effect (older ++ [(t, x)]) at_ = Some x.
Proof.
  intros Hle. unfold in_effect. rewrite List.filter_app. cbn [List.filter fst].
  rewrite (proj2 (Z.leb_le t at_)) by done. by rewrite last_snoc.
Qed.

(** [restore current] never restores a wrong version. The hash it resolves for
    a time is the one the file had at that time, under any history the row may be the
    last state of, even one in which a hash recurs; with no row, no hash, a NULL
    update time, or an update after that time, it refuses. *)
Theorem resolveCurrentHash_in_effect cfg pool probe t id at_ :
  (∀ h, resolveCurrentHash cfg pool probe (read_row t id) at_ = inl h →
    ∃ r u, t !! id = Some r ∧ f_externalID r = Some h ∧ h ≠ ""%string ∧ f_updatedDate r = Some u ∧ (u ≤ at_)%Z ∧
      ∀ history, shows r history → in_effect history at_ = Some h) ∧
  (∀ r history, t !! id = Some r → shows r history →
    (∃ t0 x, list.last history = Some (t0, x) ∧ (at_ < t0)%Z) →
    ∃ e, resolveCurrentHash cfg pool probe (read_row t id) at_ = inr e).
Proof.
  split.
  - intros h Hr. unfold resolveCurrentHash, read_row in Hr.
    destruct (Config.DBValidate _); [done|]. destruct pool; [done|]. destruct probe; [done|].
    destruct (t !! id) as [r|]; cbn in Hr; [|done].
    destruct (f_externalID r) as [x|] eqn:Ex; [|done]. case_bool_decide as Hx; cbn in Hr; [done|].
    unfold nullTime, IsZero in Hr. destruct (f_updatedDate r) as [u|] eqn:Eu; cbn in Hr; [|done].
    destruct (Z.eqb_spec u 0); [done|]. destruct (Z.ltb_spec at_ u); [done|]. injection Hr as ->.
    exists r, u. split_and!; [done|done|done|done|done|]. intros history (older & t0 & x & -> & Hx' & Ht').
    simplify_eq. by apply in_effect_last.
  - intros r history Hr (older & t0 & x & -> & Hx & Ht) (t1 & y & Hl & Hlt).
    rewrite last_snoc in Hl. simplify_eq. unfold resolveCurrentHash, read_row. rewrite Hr.
    destruct (Config.DBValidate _); [by eexists|]. destruct pool; [by eexists|]. destruct probe; [by eexists|].
    cbn. rewrite Hx, Ht. case_bool_decide; cbn; [by eexists|].
    destruct (IsZero t1); [by eexists|]. rewrite (proj2 (Z.ltb_lt at_ t1)) by done. by eexists.
Qed.
Definition ex_cfg : Config.Config := Config.applyDefaults Config.sampleConfig.

Lemma resolveCurrentHash_in_effect_witness :
  resolveCurrentHash ex_cfg None None (read_row ex_table 7) 10 = inl "aa" ∧
  in_effect [(2, "aa"); (5, "bb"); (9, "aa")]%Z 10 = Some "aa" ∧
  ∃ e, resolveCurrentHash ex_cfg None None (read_row ex_table 7) 6 = inr e.
Proof.
  assert (resolveCurrentHash ex_cfg None None (read_row ex_table 7) 10 = inl "aa") as Hr by (vm_compute; reflexivity).
  assert (ex_table !! 7%N = Some (MkFile (Some "aa") None (Some 5%Z) None None (Some 9%Z))) as Ht by (vm_compute; reflexivity).
  assert (shows (MkFile (Some "aa") None (Some 5%Z) None None (Some 9%Z)) [(2, "aa"); (5, "bb"); (9, "aa")]%Z) as Hsh.
  { by exists [(2, "aa"); (5, "bb")]%Z, 9%Z, "aa". }
  split; [exact Hr|]. split.
  - destruct (proj1 (resolveCurrentHash_in_effect ex_cfg None None ex_table 7 10) "aa" Hr) as (r & u & Hr' & _ & _ & _ & _ & Hall).
    rewrite Ht in Hr'. injection Hr' as <-. by apply Hall.
  - apply (proj2 (resolveCurrentHash_in_effect ex_cfg None None ex_table 7 6) _ _ Ht Hsh).
    exists 9%Z, "aa". split; [reflexivity|lia].
Defined.
End Corpus.
