(* ===== verification/Service.v ===== *)
(** * The process: ticks, samplers, health, startup and exit codes

    [src/internal/domain/tick.go] ([TickLoop]), [sampler.go] (the RPO and coverage
    gauges), [src/internal/adapter/inbound/http/health.go] (readiness), and the
    policies of [src/cmd/file-backup-service/main.go]: [run] with its exit codes,
    the verdict of each command, the startup gate and the choice of a read source.

    A command's error is what [run] maps to an exit code, so a theorem about an
    exit code of 0 is a theorem about the command's whole outcome. *)

From S2P Require Import Prelude GoRuntime Ports Circuit Keyset Ledger Outbox Stream Fanout Pipeline Verdict PresenceAudit Files Restore Sweep Reconcile Config.
From Stdlib Require Import ZArith Lia.
From Stdlib Require Import Strings.Ascii Strings.String.
From stdpp Require Import base gmap strings list numbers.

Module Service.

(** ** Ticks *)

Inductive cause := CErr (e : err) | CPanic (r : string).

Section ticks.
Context {S : Type} (onError : option (cause → S → S)).

(** One pass: [fn] leaves a state and returns or panics; [ctx] is the parent's
    error when the result is looked at. *)
Definition runOneTick (fn : S → S * attempt goerr) (ctx : ctxState) (s : S) : S :=
  let '(s, r) := fn s in
  match r, onError with
  | Panics x, Some h => h (CPanic x) s
  | Returns (Some e), Some h => if bool_decide (ctx = None) then h (CErr e) s else s
  | _, _ => s
  end.

(** The passes [k], [k+1], ... and the arms their selects take; with no arm left
    the loop is still waiting. *)
Fixpoint ticks (fn : nat → S → S * attempt goerr) (ctx : nat → ctxState) (k : nat) (arms : list select_arm) (s : S) : S :=
  let s := runOneTick (fn k) (ctx k) s in
  match arms with
  | ArmResult :: arms => ticks fn ctx (Datatypes.S k) arms s
  | _ => s
  end.

(** [time.NewTicker] panics unless the interval is positive. *)
Definition TickLoop (interval : Z) (fn : nat → S → S * attempt goerr) (ctx : nat → ctxState)
    (arms : list select_arm) (s : S) : attempt S :=
  if (interval <=? 0)%Z then Panics "non-positive interval for NewTicker" else Returns (ticks fn ctx 0 arms s).
End ticks.

(** ** The samplers *)

Record gauges := MkGauges {
  g_pending : Z; g_oldestAge : Z; g_lastSuccessAge : Z; g_neverVerified : Z; g_circuitOpen : Z;
  g_underReplicated : Z; g_sampleErrors : Z;
}.

Definition SetCircuitOpen n g := MkGauges (g_pending g) (g_oldestAge g) (g_lastSuccessAge g) (g_neverVerified g) n (g_underReplicated g) (g_sampleErrors g).
Definition SetBacklog p a g := MkGauges p a (g_lastSuccessAge g) (g_neverVerified g) (g_circuitOpen g) (g_underReplicated g) (g_sampleErrors g).
Definition SetNeverVerified n g := MkGauges (g_pending g) (g_oldestAge g) (g_lastSuccessAge g) n (g_circuitOpen g) (g_underReplicated g) (g_sampleErrors g).
Definition SetLastSuccessAge a g := MkGauges (g_pending g) (g_oldestAge g) a (g_neverVerified g) (g_circuitOpen g) (g_underReplicated g) (g_sampleErrors g).
Definition SetUnderReplicated n g := MkGauges (g_pending g) (g_oldestAge g) (g_lastSuccessAge g) (g_neverVerified g) (g_circuitOpen g) n (g_sampleErrors g).
Definition SampleError g := MkGauges (g_pending g) (g_oldestAge g) (g_lastSuccessAge g) (g_neverVerified g) (g_circuitOpen g) (g_underReplicated g) (g_sampleErrors g + 1)%Z.

Definition circuitOpen (cb : option Circuit.CircuitBreaker) : Z :=
  match cb with None => 0 | Some cb => Z.of_nat (Circuit.OpenCount cb) end.

(** [SampleRPO]: [backlog] and [verified] are what the two reads do. *)
Definition SampleRPO (cb : option Circuit.CircuitBreaker) (backlog : attempt (Z * Z + err))
    (verified : attempt (Z * Z * bool + err)) (g : gauges) : gauges * attempt goerr :=
  let g := SetCircuitOpen (circuitOpen cb) g in
  match backlog with
  | Panics x => (g, Panics x)
  | Returns b =>
      let '(g, errs) := match b with
                        | inl (pending, ageSec) => (SetBacklog pending ageSec g, [])
                        | inr e => (g, [Some e])
                        end in
      match verified with
      | Panics x => (g, Panics x)
      | Returns (inl (ageSec, never, ok)) =>
          let g := SetNeverVerified never g in
          (if ok : bool then SetLastSuccessAge ageSec g else g, Returns (errors_Join errs))
      | Returns (inr e) => (g, Returns (errors_Join (errs ++ [Some e])))
      end
  end.

Definition SampleCoverage (gaps : attempt (Z + err)) (g : gauges) : gauges * attempt goerr :=
  match gaps with
  | Panics x => (g, Panics x)
  | Returns (inr e) => (g, Returns (Some e))
  | Returns (inl n) => (SetUnderReplicated n g, Returns None)
  end.

(** ** Readiness *)

Definition probeDetail (p : option (attempt goerr)) : attempt string :=
  match p with
  | None => Returns "not configured"
  | Some (Panics x) => Panics x
  | Some (Returns (Some _)) => Returns "unusable"
  | Some (Returns None) => Returns "ok"
  end.

(** [ServeHTTP]: the status code, the status and the details. A goroutine that
    panics leaves its slot empty. *)
Definition ServeHTTP (order : list nat) (outbox ledger : option (attempt goerr)) : Z * string * list (string * string) :=
  let checks := [("outbox", outbox); ("ledger", ledger)] in
  let detail i := probeDetail (mjoin (snd <$> checks !! i)) in
  let errs := RunParallelIdx order (length checks) (λ i, "probe " +:+ default "" (fst <$> checks !! i))
                (λ i, match detail i with Returns _ => Returns None | Panics x => Panics x end) in
  let details := imap (λ i c, (c.1, match mjoin (errs !! i) with
                                    | Some _ => "unusable"
                                    | None => match detail i with Returns d => d | Panics _ => "" end
                                    end)) checks in
  if forallb (λ d, bool_decide (d.2 = "ok")) details then (200%Z, "healthy", details)
  else (503%Z, "unhealthy", details).

(** ** The startup gate *)

(** A check: its name, what its body does, and whether it beat the deadline. *)
Record startCheck := MkCheck { c_name : string; c_fn : attempt goerr; c_arm : select_arm }.

Definition run_check (ctx : ctxState) (c : startCheck) : goerr :=
  RunAbandonable (c_arm c)
    (match c_fn c with
     | Returns (Some e) => Returns (Some (Wrap (c_name c) [e]))
     | Returns None => Returns None
     | Panics x => Panics x
     end)
    (Some (Wrap (c_name c +:+ ": startup deadline exceeded") (option_list (ctxErr ctx))))
    (λ x, Some (PanicErr (c_name c) x)).

Definition runChecks (order : list nat) (ctx : ctxState) (checks : list startCheck) : list goerr :=
  RunParallel order checks c_name (λ c, Returns (run_check ctx c)).

Definition preflightTargets (order : list nat) (ctx : ctxState) (targets : list startCheck) : goerr :=
  let errs := runChecks order ctx targets in
  let usable := length (List.filter (λ e, bool_decide (e = None)) errs) in
  if usable =? 0 then Some (Wrap "no target is usable at startup" (option_list (errors_Join errs))) else None.

Definition startupGate (order1 order2 : list nat) (ctx : ctxState) (required targets : list startCheck) : goerr :=
  match errors_Join (runChecks order1 ctx required) with
  | Some e => Some e
  | None => preflightTargets order2 ctx targets
  end.

(** ** Verdicts and exit codes *)

Definition onShutdownOK (e : goerr) : goerr := if errors_Is e Canceled then None else e.

Definition restoreAllVerdict (st : Sweep.RestoreAllStats) (rerr : goerr) : goerr :=
  if (0 <? Sweep.ra_Failed st)%Z then Some (Msg "restore all left object(s) unrestored")
  else if bool_decide (rerr = None) && (Sweep.ra_Restored st + Sweep.ra_Skipped st + Sweep.ra_Cancelled st =? 0)%Z
  then Some (Msg "restore all: the ledger records 0 objects stored on target")
  else onShutdownOK rerr.

Definition backfillVerdict (st : Sweep.BackfillStats) (sweepErr : goerr) : goerr :=
  if (0 <? Sweep.bf_Failed st)%Z then Some (Msg "backfill left object(s) not fully backed up") else sweepErr.

Definition reconcileVerdict (st : Reconcile.ReconcileStats) (sweepErr : goerr) : goerr :=
  if (0 <? Reconcile.rc_Failed st)%Z || (0 <? Reconcile.rc_Skipped st)%Z
  then Some (Msg "reconcile could not fully protect object(s)") else sweepErr.

(** [drillReport]: the pass value it writes to the gauges, if any, and the error. *)
Definition drillReport (outcome : Sweep.DrillOutcome) (derr : goerr) : option bool * goerr :=
  match derr with
  | Some e => (None, Some e)
  | None =>
      let pass := Sweep.Pass outcome in
      (Some pass,
       if (Sweep.Checked outcome =? 0)%Z then Some (Msg "restore drill sampled 0 objects")
       else if negb pass then Some (Msg "restore drill FAILED") else None)
  end.

(** The end of [runAudit]: every direction's failure, and the context's. *)
Definition auditVerdict (audit immutability : list Verdict.TargetVerdict) (inventory : option (list Verdict.TargetVerdict))
    (ctx : ctxState) : goerr :=
  errors_Join ([Verdict.FailErr audit; Verdict.FailErr immutability] ++
               option_list (Verdict.FailErr <$> inventory) ++ [ctxErr ctx]).

Inductive command := serve | migrate | restore | verify | reconcile | audit | backfill | drill.

Definition command_of (s : string) : option command :=
  if bool_decide (s = "serve") then Some serve
  else if bool_decide (s = "migrate") then Some migrate
  else if bool_decide (s = "restore") then Some restore
  else if bool_decide (s = "verify") then Some verify
  else if bool_decide (s = "reconcile") then Some reconcile
  else if bool_decide (s = "audit") then Some audit
  else if bool_decide (s = "backfill") then Some backfill
  else if bool_decide (s = "drill") then Some drill else None.

(** [run]: [exec] is the error a command returns. *)
Definition run (argv : list string) (exec : command → list string → goerr) : Z :=
  match argv with
  | _ :: c :: args =>
      match command_of c with
      | None => 2
      | Some c =>
          let e := match c with
                   | serve | reconcile | backfill => onShutdownOK (exec c args)
                   | _ => exec c args
                   end in
          match e with Some _ => 1 | None => 0 end
      end
  | _ => 2
  end.

(** [runRestore]: which restore a word selects. *)
Inductive restore_verb := RestoreAllVerb | RestoreCurrentVerb | RestoreObjectVerb.

Definition runRestore (args : list string) : restore_verb * list string + err :=
  match args with
  | [] => inl (RestoreObjectVerb, args)
  | a :: rest =>
      if bool_decide (a = "all") then inl (RestoreAllVerb, rest)
      else if bool_decide (a = "current") then inl (RestoreCurrentVerb, rest)
      else if bool_decide (a = "object") then inl (RestoreObjectVerb, rest)
      else match a with
           | String c _ => if bool_decide (c ≠ "-"%char) then inr (Msg "unknown restore subcommand")
                           else inl (RestoreObjectVerb, args)
           | EmptyString => inl (RestoreObjectVerb, args)
           end
  end.

(** ** The read source *)

(** [buildReadSource]: the sink, its name, and whether it is wrapped as a
    write-only WORM source. [BuildSink] is the type's constructor. *)
Definition buildReadSource {K} (BuildSink : Config.Target → K + err) (cfg : Config.Config) (from : string)
    : K * string * bool + err :=
  match Config.CheckTargetCollisions cfg with
  | Some e => inr (Wrap "invalid config" [e])
  | None =>
      match Config.SelectReadTarget (Config.Targets cfg) from with
      | inr e => inr e
      | inl ct =>
          match Config.ValidateTargetFields ct with
          | Some e => inr (Wrap "invalid config" [e])
          | None =>
              match BuildSink ct with
              | inr e => inr e
              | inl sink => inl (sink, Config.Name ct, Config.Worm ct && bool_decide (Config.AuditAccessKey ct = ""))
              end
          end
      end
  end.

(** ** Lemmas *)

Section tick_lemmas.
Context {S : Type} (h : cause → S → S) (fn : nat → S → S * attempt goerr) (ctx : nat → ctxState).

(** How many passes a loop makes. *)
Fixpoint passes (arms : list select_arm) : nat :=
  match arms with ArmResult :: arms => Datatypes.S (passes arms) | _ => 1 end.

Lemma passes_pos arms : 1 ≤ passes arms.
Proof. destruct arms as [|[] arms]; cbn; lia. Qed.

(** The loop is the fold of its passes, in order. *)
Lemma ticks_foldl k arms s :
  ticks (Some h) fn ctx k arms s = foldl (λ s i, runOneTick (Some h) (fn i) (ctx i) s) s (seq k (passes arms)).
Proof.
  revert k s. induction arms as [|[] arms IH]; intros k s; cbn [ticks passes seq foldl]; [done|apply IH|done].
Qed.
End tick_lemmas.

(** A pass that could not refresh a gauge. *)
Definition failed_pass (backlog : attempt (Z * Z + err)) (verified : attempt (Z * Z * bool + err)) : bool :=
  match backlog, verified with Returns (inl _), Returns (inl _) => false | _, _ => true end.

Lemma tick_SampleRPO cb backlog verified g :
  let g' := runOneTick (Some (λ _, SampleError)) (SampleRPO cb backlog verified) None g in
  g_circuitOpen g' = circuitOpen cb ∧
  g_sampleErrors g' = (g_sampleErrors g + if failed_pass backlog verified then 1 else 0)%Z ∧
  (∀ p a, backlog = Returns (inl (p, a)) → g_pending g' = p ∧ g_oldestAge g' = a) ∧
  (∀ b a n ok, backlog = Returns b → verified = Returns (inl (a, n, ok)) →
     g_neverVerified g' = n ∧ (ok = true → g_lastSuccessAge g' = a)).
Proof.
  cbv zeta. unfold runOneTick, SampleRPO.
  destruct backlog as [[[p a]|e]|x]; destruct verified as [[[[v n] ok]|e']|x']; cbn;
    try destruct ok; cbn; (split_and!; [done|lia| |]); intros; by simplify_eq/=.
Qed.

(** ** Properties *)

(** A frozen gauge is itself a signal. However many passes the RPO loop makes,
    and whatever its reads do (answer, fail or panic), it runs at least once, it
    survives every pass, the error counter rises by exactly one for each pass that
    could not refresh its gauges, and after the last pass every gauge whose read
    answered shows that answer. *)
Theorem failed_samples_are_counted interval cb backlog verified arms g :
  (0 < interval)%Z →
  let n := passes arms in
  ∃ g', TickLoop (Some (λ _, SampleError)) interval (λ k, SampleRPO (cb k) (backlog k) (verified k)) (λ _, None) arms g
          = Returns g' ∧
    1 ≤ n ∧
    g_sampleErrors g' = (g_sampleErrors g + Sweep.countZ (λ k, failed_pass (backlog k) (verified k)) (seq 0 n))%Z ∧
    g_circuitOpen g' = circuitOpen (cb (n - 1)) ∧
    (∀ p a, backlog (n - 1) = Returns (inl (p, a)) → g_pending g' = p ∧ g_oldestAge g' = a) ∧
    (∀ b a m ok, backlog (n - 1) = Returns b → verified (n - 1) = Returns (inl (a, m, ok)) →
       g_neverVerified g' = m ∧ (ok = true → g_lastSuccessAge g' = a)).
Proof.
  intros Hi n. unfold TickLoop. rewrite (proj2 (Z.leb_gt _ _)) by lia. rewrite ticks_foldl. fold n.
  eexists. split; [done|]. pose proof (passes_pos arms) as Hn. fold n in Hn. split; [done|].
  set (step := λ s i, runOneTick _ _ _ s). split.
  - generalize (seq 0 n) as l. intros l. revert g. induction l as [|k l IH]; intros g; cbn [foldl].
    { unfold Sweep.countZ. cbn. lia. }
    rewrite IH, Sweep.countZ_cons. unfold step.
    destruct (tick_SampleRPO (cb k) (backlog k) (verified k) g) as (_ & -> & _). lia.
  - clearbody n. destruct n as [|m]; [lia|]. rewrite seq_S, foldl_snoc. cbn [plus].
    replace (Datatypes.S m - 1) with m by lia. set (g0 := foldl step g (seq 0 m)). unfold step.
    destruct (tick_SampleRPO (cb m) (backlog m) (verified m) g0) as (H1 & _ & H3 & H4).
    by split_and!.
Qed.

(** The second pass cannot read the outbox; the first and the third refresh. *)
Lemma failed_samples_are_counted_witness :
  ∃ g', TickLoop (Some (λ _, SampleError)) 15 (λ k, SampleRPO None
          (if k =? 1 then Panics "driver" else Returns (inl (Z.of_nat k, 3%Z))) (Returns (inl (9%Z, 0%Z, true)))) (λ _, None)
          [ArmResult; ArmResult; ArmDone] (MkGauges 0 0 0 0 0 0 0) = Returns g' ∧
    g_sampleErrors g' = 1%Z ∧ g_pending g' = 2%Z.
Proof.
  destruct (failed_samples_are_counted 15 (λ _, None)
    (λ k, if k =? 1 then Panics "driver" else Returns (inl (Z.of_nat k, 3%Z))) (λ _, Returns (inl (9%Z, 0%Z, true)))
    [ArmResult; ArmResult; ArmDone] (MkGauges 0 0 0 0 0 0 0)) as (g' & Hg & _ & Herr & _ & Hp & _); [lia|].
  exists g'. split; [exact Hg|]. split; [exact Herr|]. exact (proj1 (Hp _ _ eq_refl)).
Defined.

(** Readiness is exact. Under every interleaving of the two probes, /health
    answers 200 when both dependencies are configured and their probes returned
    nil, and 503 otherwise: a missing, failing or panicking one is never healthy. *)
Theorem health_is_exact order outbox ledger :
  schedule 2 order →
  let code := (ServeHTTP order outbox ledger).1.1 in
  (code = 200%Z ↔ outbox = Some (Returns None) ∧ ledger = Some (Returns None)) ∧ (code = 200%Z ∨ code = 503%Z).
Proof.
  intros Hs. cbv zeta. unfold ServeHTTP, RunParallelIdx.
  rewrite RunParallel_map by (by rewrite length_seq). cbn [seq fmap list_fmap length imap lookup list_lookup].
  unfold guarded. cbn.
  destruct outbox as [[[e|]|x]|]; destruct ledger as [[[e'|]|x']|]; cbn; split; auto; naive_solver.
Qed.

Lemma health_is_exact_witness :
  (ServeHTTP [1; 0] (Some (Returns None)) (Some (Panics "driver"))).1.1 ≠ 200%Z ∧
  (ServeHTTP [1; 0] (Some (Returns None)) (Some (Returns None))).1.1 = 200%Z.
Proof.
  assert (schedule 2 [1; 0]) as Hs by apply perm_swap. split.
  - intros H. apply (proj1 (health_is_exact [1; 0] (Some (Returns None)) (Some (Panics "driver")) Hs)) in H as [_ H]. discriminate.
  - by apply (proj1 (health_is_exact [1; 0] (Some (Returns None)) (Some (Returns None)) Hs)).
Defined.

(** *** Startup *)

Definition check_ok (c : startCheck) : Prop := c_arm c = ArmResult ∧ c_fn c = Returns None.

Lemma run_check_ok ctx c : run_check ctx c = None ↔ check_ok c.
Proof.
  unfold run_check, check_ok, RunAbandonable. destruct (c_arm c), (c_fn c) as [[e|]|x]; cbn; naive_solver.
Qed.

Lemma runChecks_map order ctx cs : schedule (length cs) order → runChecks order ctx cs = run_check ctx <$> cs.
Proof. intros Hs. unfold runChecks. by rewrite RunParallel_map. Qed.

(** One bad target does not stop the worker, and a bad dependency does. Under
    every interleaving, the startup gate opens exactly when each required check
    returned nil before the deadline and at least one target's preflight did; a
    check that hangs past the deadline or panics counts as failed and nothing more. *)
Theorem startup_gate_exact order1 order2 ctx required targets :
  schedule (length required) order1 → schedule (length targets) order2 →
  startupGate order1 order2 ctx required targets = None ↔
  Forall check_ok required ∧ Exists check_ok targets.
Proof.
  intros H1 H2. unfold startupGate, preflightTargets. rewrite !runChecks_map by done.
  assert (errors_Join (run_check ctx <$> required) = None ↔ Forall check_ok required) as Hreq.
  { rewrite errors_Join_None, Forall_fmap. apply Forall_proper; [|done]. intros c. cbn. apply run_check_ok. }
  assert (length (List.filter (λ e, bool_decide (e = None)) (run_check ctx <$> targets)) ≠ 0 ↔ Exists check_ok targets) as Hus.
  { clear. induction targets as [|c l IH]; [split; [done|intros He; inversion He]|].
    rewrite fmap_cons. cbn [List.filter]. rewrite Exists_cons, <- (run_check_ok ctx).
    case_bool_decide as Hc; cbn [length]; [split; [by left|lia]|]. rewrite IH. naive_solver. }
  destruct (errors_Join _) as [e|] eqn:Ej.
  { split; [done|]. intros [Hf _]. by apply Hreq in Hf. }
  rewrite <- Hreq, <- Hus.
  destruct (Nat.eqb_spec (length (List.filter (λ e, bool_decide (e = None)) (run_check ctx <$> targets))) 0); naive_solver.
Qed.

(** A hung target and a usable one: the worker starts. *)
Lemma startup_gate_exact_witness :
  startupGate [0] [1; 0] (Some CtxDeadline) [MkCheck "ledger" (Returns None) ArmResult]
    [MkCheck "nas" (Returns None) ArmDone; MkCheck "s3" (Returns None) ArmResult] = None.
Proof.
  apply startup_gate_exact.
  - apply (schedule_seq 1).
  - apply perm_swap.
  - split; [by repeat constructor|]. right. left. by split.
Defined.

(** *** Exit codes *)

Lemma run_zero c args exec name cmd : command_of name = Some cmd →
  run (c :: name :: args) exec = 0%Z ↔
  exec cmd args = None ∨ (errors_Is (exec cmd args) Canceled = true ∧ cmd ∈ [serve; reconcile; backfill]).
Proof.
  intros Hc. unfold run. rewrite Hc. unfold onShutdownOK.
  destruct cmd; destruct (exec _ args) as [e|]; cbn; try (destruct (Is e Canceled) eqn:E); cbn;
    (split; [intros ?; simplify_eq/=|intros [?|[? Hin]]; try done]);
    try (by left); try (right; split; [done|set_solver]);
    repeat (apply elem_of_cons in Hin as [Hin|Hin]; [done|]); by apply not_elem_of_nil in Hin.
Qed.

(** An audit that exits 0 has no failed direction and was not interrupted. *)
Lemma audit_exit_zero found imm inv ctx name args exec :
  exec audit args = auditVerdict found imm inv ctx → run (name :: "audit" :: args) exec = 0%Z →
  Verdict.FailErr found = None ∧ Verdict.FailErr imm = None ∧ (∀ r, inv = Some r → Verdict.FailErr r = None) ∧ ctx = None.
Proof.
  intros Hexec Hrun. apply (run_zero name args exec "audit" audit eq_refl) in Hrun as [Hnil|[_ Hin]].
  2:{ repeat (apply elem_of_cons in Hin as [Hin|Hin]; [done|]). by apply not_elem_of_nil in Hin. }
  rewrite Hexec in Hnil. unfold auditVerdict in Hnil. rewrite errors_Join_None, !list.Forall_app, !list.Forall_cons in Hnil.
  destruct Hnil as ((Ha & Hi & _) & Hv & Hc & _). split_and!; [done|done| |by destruct ctx].
  intros r ->. cbn in Hv. by rewrite list.Forall_singleton in Hv.
Qed.

(** An audit that exits 0 has seen every object. When `audit` (a full sweep)
    exits 0, the run was not interrupted and, on each target that is not a declared
    write-only copy, every object the ledger records stored there was probed and
    found: no loss, no unreadable or panicking probe, no wedged target and no
    interruption is among the exits of 0. *)
Theorem audit_exit_zero_means_present order targets env imm inv ctx name args exec
    i t d probe pages porder after ctxs final fuel sample :
  schedule (length targets) order → targets !! i = Some t →
  Verdict.targetUnverifiableExempt t = Returns false →
  (ctx = None → Verdict.pe_parent (env i) = None ∧ (∀ k, after k = None) ∧ (∀ k, ctxs k = None)) →
  (∀ k page, porder k page ≡ₚ seq 0 (length page)) →
  (sample ≤ 0)%Z → (∀ k a n, pages k a n = Keyset.Ok (Ledger.StoredExternalIDsPage d (Verdict.safeSinkName t) a n)) →
  2 * length (Ledger.stored_ids d (Verdict.safeSinkName t)) + 4 < fuel →
  Returns <$> Audit.auditTarget (Verdict.safeSinkName t) false probe pages porder after ctxs final fuel sample ""
    = Some (Verdict.pe_probe (env i)) →
  exec audit args = auditVerdict (Verdict.probeTargets order targets env) imm inv ctx →
  run (name :: "audit" :: args) exec = 0%Z →
  ctx = None ∧ ∀ id, id ≠ "" → Ledger.is_stored d id (Verdict.safeSinkName t) = true →
    Audit.present (probe id) = true ∧ Audit.er_err (probe id) = None.
Proof.
  intros Hs Ht Hex Hctx Hord Hsam Hpages Hfuel Hprobe Hexec Hrun.
  destruct (audit_exit_zero _ _ _ _ _ _ _ Hexec Hrun) as (Haudit & _ & _ & ->). split; [done|].
  destruct (Hctx eq_refl) as (Hpar & Hafter & Hctxs).
  rewrite (Audit.full_audit_tally _ _ _ _ _ _ _ _ d) in Hprobe by (done || by left).
  cbn [fmap option_fmap option_map] in Hprobe. injection Hprobe as Hpe.
  apply Verdict.FailErr_nil in Haudit. rewrite list.Forall_forall in Haudit.
  pose proof (Verdict.probeTargets_lookup order targets env i t Hs Ht) as Hv.
  specialize (Haudit _ (list_elem_of_lookup_2 _ _ _ Hv)).
  destruct (Verdict.pass_cases order targets env i t _ Hs Ht Hv Haudit) as [(_ & pv & Hpv & _ & Hst)|(_ & [?|?])];
    [|done|congruence].
  rewrite <- Hpe in Hpv. injection Hpv as <-.
  intros id Hid Hstored. assert (probe id ∈ probe <$> List.filter (λ id, str_ltb "" id) (Ledger.stored_ids d (Verdict.safeSinkName t))) as Hin.
  { apply list_elem_of_fmap_2, list_elem_of_In, List.filter_In. split; [|by apply Keyset.str_ltb_empty].
    by apply list_elem_of_In, Ledger.elem_of_stored_ids. }
  refine (proj1 (Audit.tally_verified (Verdict.safeSinkName t) _) _ _ Hin). destruct Hst as [?|[Hno|[_ Hno]]]; [done| |congruence].
  exfalso. revert Hno. unfold Audit.tally_verdict. by repeat case_match.
Qed.

(** Two objects recorded on "t1", both there; the audit exits 0. *)
Definition ex_target : Verdict.Target := Verdict.MkTarget (Some (Verdict.MkSink "t1" None None)) false.
Definition ex_sweep : option Verdict.TargetVerdict :=
  Audit.auditTarget "t1" false (λ _, Audit.MkER true None)
    (λ _ a n, Keyset.Ok (Ledger.StoredExternalIDsPage Audit.ex_db "t1" a n)) (λ _ p, seq 0 (length p))
    (λ _, None) (λ _, None) None 20 0 "".
Definition ex_penv (_ : nat) : Verdict.probe_env :=
  Verdict.MkPE ArmResult None None (match ex_sweep with Some v => Returns v | None => Panics "" end).
Definition ex_exec (c : command) (_ : list string) : goerr :=
  match c with audit => auditVerdict (Verdict.probeTargets [0] [ex_target] ex_penv) [] None None | _ => None end.

Lemma audit_exit_zero_means_present_witness :
  run ["fbs"; "audit"] ex_exec = 0%Z ∧ Ledger.is_stored Audit.ex_db "bb" "t1" = true ∧
  @None ctx_err = None ∧ ∀ id, id ≠ "" → Ledger.is_stored Audit.ex_db id "t1" = true →
    Audit.present (Audit.MkER true None) = true ∧ Audit.er_err (Audit.MkER true None) = None.
Proof.
  assert (run ["fbs"; "audit"] ex_exec = 0%Z) as Hrun by (vm_compute; reflexivity).
  split; [exact Hrun|]. split; [vm_compute; reflexivity|].
  apply (audit_exit_zero_means_present [0] [ex_target] ex_penv [] None None "fbs" [] ex_exec 0 ex_target Audit.ex_db
    (λ _, Audit.MkER true None) (λ _ a n, Keyset.Ok (Ledger.StoredExternalIDsPage Audit.ex_db "t1" a n))
    (λ _ p, seq 0 (length p)) (λ _, None) (λ _, None) None 20 0).
  - apply (schedule_seq 1).
  - reflexivity.
  - reflexivity.
  - intros _. split_and!; reflexivity.
  - reflexivity.
  - lia.
  - reflexivity.
  - vm_compute. lia.
  - vm_compute. reflexivity.
  - reflexivity.
  - exact Hrun.
Defined.

(** A drill that exits 0 restored everything it sampled. A drill whose process
    exits 0 ran to its end, sampled at least one object, restored and verified every
    object it sampled, and it alone writes a passing gauge; an interrupted drill
    writes none and exits nonzero. *)
Theorem drill_exit_zero_means_restored env hashes final result ctx completed final_ctx out derr name args exec :
  Sweep.sound env → completed ≡ₚ Sweep.dispatched 0 env hashes final → (∀ h, ctx h ≠ None → final_ctx ≠ None) →
  Sweep.Drill env hashes final result ctx completed final_ctx = (out, derr) →
  exec drill args = (drillReport out derr).2 →
  (run (name :: "drill" :: args) exec = 0%Z ↔
     derr = None ∧ hashes ≠ [] ∧ ∀ h, h ∈ hashes → result h = Returns None) ∧
  ((drillReport out derr).1 = Some true ↔ run (name :: "drill" :: args) exec = 0%Z) ∧
  (derr ≠ None → (drillReport out derr).1 = None ∧ run (name :: "drill" :: args) exec = 1%Z).
Proof.
  intros Hs Hp Hctx Hd Hexec.
  assert (run (name :: "drill" :: args) exec = (match (drillReport out derr).2 with Some _ => 1 | None => 0 end)%Z) as ->.
  { unfold run. change (command_of "drill") with (Some drill). cbv beta iota zeta. by rewrite Hexec. }
  destruct derr as [x|]; cbn [drillReport fst snd]; [split_and!; [split; [done|by intros [? _]]|done|done]|].
  destruct (Sweep.drill_pass_exact env hashes final result ctx completed final_ctx out Hs Hp Hctx Hd) as [Hpass _].
  assert (Sweep.Checked out = 0%Z → Sweep.Pass out = false) as H0.
  { intros H0. unfold Sweep.Pass. by rewrite H0. }
  set (code := match (if (Sweep.Checked out =? 0)%Z then _ else _) with Some _ => 1%Z | None => 0%Z end).
  assert (code = 0%Z ↔ Sweep.Pass out = true) as Hcode.
  { unfold code. destruct (Z.eqb_spec (Sweep.Checked out) 0) as [E|E]; [by rewrite (H0 E)|].
    by destruct (Sweep.Pass out). }
  rewrite Hcode, Hpass. split_and!; [by split; [|intros [_ ?]]| |done].
  rewrite <- Hpass. split; [by intros [= ->]|by intros ->].
Qed.

Lemma drill_exit_zero_means_restored_witness :
  run ["fbs"; "drill"] (λ _ _, (drillReport (Sweep.MkDO 2 0 []) None).2) = 0%Z.
Proof.
  refine (proj2 (proj1 (drill_exit_zero_means_restored Sweep.ex_live ["aa"; "bb"] None (λ _, Returns None) (λ _, None)
    ["bb"; "aa"] None (Sweep.MkDO 2 0 []) None "fbs" [] (λ _ _, (drillReport (Sweep.MkDO 2 0 []) None).2) _ _ _ _ _)) _).
  - intros j. by intros [=].
  - apply perm_swap.
  - done.
  - vm_compute. reflexivity.
  - reflexivity.
  - split_and!; [done|done|]. done.
Defined.

(** A shutdown hides no failure, and is itself a success only for the passes
    that resume. A backfill, reconcile or restore-all that left an object unprotected
    exits 1 whatever interrupted it; interrupted with nothing failed it exits 0; and
    an interrupted audit exits 1 even if every verdict so far is good. *)
Theorem shutdown_hides_no_failure name args exec bst rst ast sweepErr audit_ imm inv ctx :
  exec backfill args = backfillVerdict bst sweepErr →
  exec reconcile args = reconcileVerdict rst sweepErr →
  exec restore ("all" :: args) = restoreAllVerdict ast sweepErr →
  exec audit args = auditVerdict audit_ imm inv ctx →
  errors_Is sweepErr Canceled = true →
  (run (name :: "backfill" :: args) exec = if (0 <? Sweep.bf_Failed bst)%Z then 1 else 0)%Z ∧
  (run (name :: "reconcile" :: args) exec =
     if (0 <? Reconcile.rc_Failed rst)%Z || (0 <? Reconcile.rc_Skipped rst)%Z then 1 else 0)%Z ∧
  (run (name :: "restore" :: "all" :: args) exec = if (0 <? Sweep.ra_Failed ast)%Z then 1 else 0)%Z ∧
  (ctx ≠ None → run (name :: "audit" :: args) exec = 1%Z).
Proof.
  intros Hb Hr Ha Hau Hc. destruct sweepErr as [e|]; [|done]. cbn in Hc.
  unfold run. change (command_of "backfill") with (Some backfill). change (command_of "reconcile") with (Some reconcile).
  change (command_of "restore") with (Some restore). change (command_of "audit") with (Some audit).
  cbv beta iota zeta. rewrite Hb, Hr, Ha, Hau. unfold backfillVerdict, reconcileVerdict, restoreAllVerdict, onShutdownOK.
  split_and!.
  - destruct (0 <? Sweep.bf_Failed bst)%Z; cbn; by rewrite ?Hc.
  - destruct (_ || _); cbn; by rewrite ?Hc.
  - destruct (0 <? Sweep.ra_Failed ast)%Z; cbn; by rewrite ?Hc.
  - intros Hn. destruct (auditVerdict audit_ imm inv ctx) eqn:E; [done|]. exfalso.
    unfold auditVerdict in E. rewrite errors_Join_None, !list.Forall_app, !list.Forall_cons in E.
    destruct E as (_ & _ & E & _). by destruct ctx.
Qed.

Lemma shutdown_hides_no_failure_witness :
  let exec c (_ : list string) := match c with
    | backfill => backfillVerdict (Sweep.MkBF 3 0 0 1 2) (Some (Sent Canceled))
    | reconcile => reconcileVerdict (Reconcile.MkRC 4 0 0 1) (Some (Sent Canceled))
    | restore => restoreAllVerdict (Sweep.MkRA 0 0 0 0) (Some (Sent Canceled))
    | _ => auditVerdict [] [] None (Some CtxCanceled) end in
  run ["fbs"; "backfill"] exec = 1%Z ∧ run ["fbs"; "reconcile"] exec = 0%Z ∧
  run ["fbs"; "restore"; "all"] exec = 0%Z ∧ run ["fbs"; "audit"] exec = 1%Z.
Proof.
  intros exec.
  destruct (shutdown_hides_no_failure "fbs" [] exec (Sweep.MkBF 3 0 0 1 2) (Reconcile.MkRC 4 0 0 1) (Sweep.MkRA 0 0 0 0)
    (Some (Sent Canceled)) [] [] None (Some CtxCanceled) eq_refl eq_refl eq_refl eq_refl eq_refl) as (H1 & H2 & H3 & H4).
  split; [exact H1|]. split; [exact H2|]. split; [exact H3|]. by apply H4.
Defined.

(** *** The read source *)

Lemma check_names_ext ts ts' seen :
  Config.Name <$> ts = Config.Name <$> ts' → Config.check_names ts seen = Config.check_names ts' seen.
Proof.
  revert ts' seen. induction ts as [|t ts IH]; intros [|t' ts'] seen Hn; try done.
  injection Hn as Ht Hn. cbn [Config.check_names]. unfold Config.validateTargetName. rewrite Ht.
  repeat case_match; simplify_eq; by try apply IH.
Qed.

(** The edits of a configuration that leave the source [t] and what chooses it alone. *)
Definition same_but (t a b : Config.Target) : Prop :=
  Config.Name a = Config.Name b ∧ Config.Worm a = Config.Worm b ∧ (a = b ∨ a ≠ t).

Lemma SelectReadTarget_ext ts ts' from t :
  Forall2 (same_but t) ts ts' → Config.SelectReadTarget ts from = inl t → Config.SelectReadTarget ts' from = inl t.
Proof.
  intros HF. unfold Config.SelectReadTarget.
  assert (∀ p, (∀ a b, same_but t a b → p a = p b) → List.find p ts = Some t → List.find p ts' = Some t) as Hfind.
  { intros p Hp. induction HF as [|a b ts ts' Hab HF IH]; [done|]. cbn. rewrite <- (Hp a b Hab).
    destruct (p a) eqn:E; [|done]. intros [= ->]. by destruct Hab as (_ & _ & [->|?]). }
  case_bool_decide.
  - destruct (List.find _ ts) as [x|] eqn:E; [|done]. intros [= ->]. rewrite (Hfind _); [done| |done].
    intros a b (-> & _). done.
  - destruct (List.find _ ts) as [x|] eqn:E; [|done]. intros [= ->]. rewrite (Hfind _); [done| |done].
    intros a b (_ & -> & _). done.
Qed.

(** An unrelated target cannot block a restore. Whatever is wrong with the
    fields of the other targets (anything but their names and write-once flags, which
    choose the source), a read source that builds still builds, to the same sink. *)
Theorem read_source_is_isolated {K} (BuildSink : Config.Target → K + err) cfg cfg' from t r :
  Config.SelectReadTarget (Config.Targets cfg) from = inl t →
  Forall2 (same_but t) (Config.Targets cfg) (Config.Targets cfg') →
  buildReadSource BuildSink cfg from = inl r →
  buildReadSource BuildSink cfg' from = inl r ∧ r.1.2 = Config.Name t ∧ Config.ValidateTargetFields t = None.
Proof.
  intros Hsel HF. unfold buildReadSource. rewrite (SelectReadTarget_ext _ _ _ _ HF Hsel), Hsel.
  assert (Config.CheckTargetCollisions cfg = Config.CheckTargetCollisions cfg') as <-.
  { assert (Config.Name <$> Config.Targets cfg = Config.Name <$> Config.Targets cfg') as Hn.
    { clear Hsel. induction HF as [|a b l l' [Hab _] _ IH]; [done|]. cbn. by rewrite Hab, IH. }
    unfold Config.CheckTargetCollisions. pose proof (check_names_ext _ _ ∅ Hn) as Hc.
    destruct (Config.Targets cfg), (Config.Targets cfg'); try done. }
  destruct (Config.CheckTargetCollisions cfg); [done|]. destruct (Config.ValidateTargetFields t); [done|].
  destruct (BuildSink t); [|done]. by intros [= <-].
Qed.

(** A sibling with an unknown type and codec. *)
Lemma read_source_is_isolated_witness :
  let bad := Config.MkT "nas" "tape" "" "" "" "" "" "lzma" "" "" "" "" false false false false in
  let with_targets ts := Config.MkC "" (Config.MkDB "" 0 "" "" "" "") (Config.MkDB "" 0 "" "" "" "") ts 0 0 0 0 0 0 0 0 0 0 0 0 "" in
  Config.ValidateTargets (with_targets [Config.sampleTarget "s3-eu"; bad]) ≠ None ∧
  buildReadSource (λ t, inl (Config.Path t)) (with_targets [Config.sampleTarget "s3-eu"; bad]) "s3-eu"
    = inl ("/backup", "s3-eu", false).
Proof.
  intros bad with_targets. split; [vm_compute; discriminate|].
  refine (proj1 (read_source_is_isolated (λ t, inl (Config.Path t))
    (with_targets [Config.sampleTarget "s3-eu"; Config.sampleTarget "nas"]) _ "s3-eu" (Config.sampleTarget "s3-eu") _ _ _ _)).
  - vm_compute. reflexivity.
  - constructor; [by split_and!; [| |left]|]. constructor; [|constructor]. split_and!; [done|done|right; discriminate].
  - vm_compute. reflexivity.
Defined.
End Service.
