(* ===== verification/Surface.v ===== *)
(** * The HTTP surface and the migration step

    [src/internal/adapter/inbound/http/router.go]: the three routes and what each
    answers, with the readiness handler of Service.v behind /health; and [Migrate] of
    [src/internal/adapter/outbound/db/migrate.go].

    The libraries are parameters: chi is the class [Chi], with what its
    documentation says of [Use], [Get] and the Recoverer middleware ([ChiLaws]); of
    golang-migrate, [Up] takes the database's schema forward and answers ErrNoChange
    when there is nothing to do. *)

From S2P Require Import Prelude GoRuntime Service.
From Stdlib Require Import ZArith Lia.
From stdpp Require Import base strings list numbers.

Module Surface.

(** ** Responses *)

Inductive json := LiveResponse (Status : string) | HealthResponse (Status : string) (Details : list (string * string)).
Inductive body := JSON (v : json) | Text (b : string).
Record response := MkResp { contentType : string; code : Z; r_body : body }.

Definition writeJSON (code : Z) (v : json) : response := MkResp "application/json" code (JSON v).

(** A handler, at the [k]-th request it gets. *)
Abbreviation handler := (nat → attempt response).

Definition ServeLive : handler := λ _, Returns (writeJSON 200 (LiveResponse "alive")).

(** [HealthHandler]: what the probes do at each request, and the order in which they
    finish. *)
Record HealthHandler := MkHealth {
  Outbox : option (nat → attempt goerr); Ledger : option (nat → attempt goerr); order : nat → list nat;
}.

Definition at_request {A} (k : nat) (f : option (nat → A)) : option A := (λ f, f k) <$> f.

Definition ServeHealth (h : HealthHandler) : handler := λ k,
  let '(code, status, details) := Service.ServeHTTP (order h k) (at_request k (Outbox h)) (at_request k (Ledger h)) in
  Returns (writeJSON code (HealthResponse status details)).

(** ** The router *)

Class Chi := {
  mux : Type;
  NewMux : mux;
  Use_Recoverer : mux → mux;
  Get : string → handler → mux → mux;
  serve : mux → string → string → nat → attempt response;   (* method, path *)
}.

(** What a recovered handler answers. *)
Definition recovered (a : attempt response) : response :=
  match a with Returns r => r | Panics _ => MkResp "" 500 (Text "") end.

(** A static path reaches the handler registered for it, and only by its method;
    the Recoverer, installed before the routes, answers 500 for a handler that
    panics. *)
Class ChiLaws `{Chi} := {
  recovering : mux → Prop;
  recovering_use : recovering (Use_Recoverer NewMux);
  recovering_get p h m : recovering m → recovering (Get p h m);
  serve_empty meth path k : ∃ r, serve (Use_Recoverer NewMux) meth path k = Returns r ∧ code r = 404%Z;
  serve_get p h m k : recovering m → serve (Get p h m) "GET" p k = Returns (recovered (h k));
  serve_method p h m meth k : recovering m → meth ≠ "GET" →
    ∃ r, serve (Get p h m) meth p k = Returns r ∧ code r = 405%Z;
  serve_other p h m meth path k : path ≠ p → serve (Get p h m) meth path k = serve m meth path k;
}.

Record Deps := MkDeps { Health : option HealthHandler; Metrics : option handler }.

Definition NewRouter `{Chi} (deps : Deps) : mux :=
  let r := Get "/live" ServeLive (Use_Recoverer NewMux) in
  let r := match Health deps with Some h => Get "/health" (ServeHealth h) r | None => r end in
  match Metrics deps with Some m => Get "/metrics" m r | None => r end.

Section router.
Context `{ChiLaws}.

Lemma NewRouter_other deps meth path k : path ≠ "/live" → path ≠ "/health" → path ≠ "/metrics" →
  ∃ r, serve (NewRouter deps) meth path k = Returns r ∧ code r = 404%Z.
Proof.
  intros H1 H2 H3. unfold NewRouter. destruct (Metrics deps), (Health deps); rewrite ?serve_other by done; apply serve_empty.
Qed.

Lemma NewRouter_live deps meth k : serve (NewRouter deps) meth "/live" k = serve (Get "/live" ServeLive (Use_Recoverer NewMux)) meth "/live" k.
Proof. unfold NewRouter. by destruct (Metrics deps), (Health deps); rewrite ?serve_other by done. Qed.

Lemma NewRouter_health deps meth k : serve (NewRouter deps) meth "/health" k =
  serve (match Health deps with Some h => Get "/health" (ServeHealth h) (Get "/live" ServeLive (Use_Recoverer NewMux))
         | None => Use_Recoverer NewMux end) meth "/health" k.
Proof. unfold NewRouter. by destruct (Metrics deps), (Health deps); rewrite ?serve_other by done. Qed.

(** The probes see the process and its dependencies, and nothing else. Liveness
    answers 200 whatever the databases do; readiness answers 200 exactly when both
    probes of that request returned nil, and 503 otherwise, and is absent when no
    readiness handler is configured; a path that is not one of the three is a 404;
    a metrics handler that panics is a 500. *)
Theorem surface_is_exact deps k :
  serve (NewRouter deps) "GET" "/live" k = Returns (writeJSON 200 (LiveResponse "alive")) ∧
  (∀ h, Health deps = Some h → schedule 2 (order h k) →
     ∃ r, serve (NewRouter deps) "GET" "/health" k = Returns r ∧ contentType r = "application/json" ∧
       (code r = 200%Z ∨ code r = 503%Z) ∧
       (code r = 200%Z ↔ at_request k (Outbox h) = Some (Returns None) ∧ at_request k (Ledger h) = Some (Returns None))) ∧
  (Health deps = None → ∃ r, serve (NewRouter deps) "GET" "/health" k = Returns r ∧ code r = 404%Z) ∧
  (∀ m x, Metrics deps = Some m → m k = Panics x →
     ∃ r, serve (NewRouter deps) "GET" "/metrics" k = Returns r ∧ code r = 500%Z) ∧
  (∀ meth path, path ≠ "/live" → path ≠ "/health" → path ≠ "/metrics" →
     ∃ r, serve (NewRouter deps) meth path k = Returns r ∧ code r = 404%Z).
Proof.
  assert (recovering (Get "/live" ServeLive (Use_Recoverer NewMux))) as Hrec by apply recovering_get, recovering_use.
  split_and!.
  - rewrite NewRouter_live, serve_get by apply recovering_use. done.
  - intros h Hh Hs. eexists. rewrite NewRouter_health, Hh, serve_get by done. split; [done|]. unfold ServeHealth, recovered.
    pose proof (Service.health_is_exact (order h k) (at_request k (Outbox h)) (at_request k (Ledger h)) Hs) as [Hiff Hor].
    destruct (Service.ServeHTTP _ _ _) as [[c st] ds]. cbn in *. done.
  - intros Hn. rewrite NewRouter_health, Hn. apply serve_empty.
  - intros m x Hm Hp. unfold NewRouter. rewrite Hm, serve_get.
    + eexists. split; [done|]. by rewrite Hp.
    + destruct (Health deps); [by apply recovering_get|done].
  - intros. by apply NewRouter_other.
Qed.
End router.

(** ** Migrate *)

(** What the step opens and closes. *)
Inductive handle := SqlDB | Migrator.
Inductive mact := MOpen (h : handle) | MClose (h : handle).

(** The answers of the calls that can fail. *)
Record menv := MkMenv { iofs_New : goerr; sql_Open : goerr; WithInstance : goerr; NewWithInstance : goerr }.

Section migrate.
Context {schema : Type} (Up : schema → schema * goerr).

Definition wrapped (m : string) (e : err) : goerr := Some (Wrap m [e]).

(** The opened handles in order, the schema and the returned error. *)
Definition Migrate (v : menv) (d : schema) : list mact * schema * goerr :=
  match iofs_New v with
  | Some e => ([], d, wrapped "migrate source" e)
  | None =>
      match sql_Open v with
      | Some e => ([], d, wrapped "open ledger db" e)
      | None =>
          match WithInstance v with
          | Some e => ([MOpen SqlDB; MClose SqlDB], d, wrapped "migrate driver" e)
          | None =>
              match NewWithInstance v with
              | Some e => ([MOpen SqlDB; MClose SqlDB], d, wrapped "migrate init" e)
              | None =>
                  let '(d', e) := Up d in
                  ([MOpen SqlDB; MOpen Migrator; MClose Migrator; MClose SqlDB], d',
                   match e with
                   | Some x => if Is x ErrNoChange then None else wrapped "migrate up" x
                   | None => None
                   end)
              end
          end
      end
  end.

(** [Up] ends at the newest version, and says so when it is there. *)
Definition up_to_date (d : schema) : Prop := Up d = (d, Some (Sent ErrNoChange)).

(** The migration step is idempotent and closes what it opens. Whatever fails, each
    handle it opened is closed, the last one first; a step that fails before [Up]
    leaves the schema alone; one that succeeds leaves a schema on which the step
    succeeds again and changes nothing. *)
Theorem migrate_is_idempotent v d tr d' e :
  (∀ x y, Up x = (y, None) → up_to_date y) →
  (∀ x y z, Up x = (y, Some z) → Is z ErrNoChange = true → y = x ∧ up_to_date x) →
  Migrate v d = (tr, d', e) →
  (tr = [] ∨ tr = [MOpen SqlDB; MClose SqlDB] ∨ tr = [MOpen SqlDB; MOpen Migrator; MClose Migrator; MClose SqlDB]) ∧
  (MOpen Migrator ∉ tr → d' = d ∧ e ≠ None) ∧
  (e = None → ∀ v', iofs_New v' = None → sql_Open v' = None → WithInstance v' = None → NewWithInstance v' = None →
     ∃ tr', Migrate v' d' = (tr', d', None)).
Proof.
  intros Hup Hno. unfold Migrate.
  destruct (iofs_New v); [intros [= <- <- <-]; split_and!; [by left|done|done]|].
  destruct (sql_Open v); [intros [= <- <- <-]; split_and!; [by left|done|done]|].
  destruct (WithInstance v); [intros [= <- <- <-]; split_and!; [by right; left|done|done]|].
  destruct (NewWithInstance v); [intros [= <- <- <-]; split_and!; [by right; left|done|done]|].
  destruct (Up d) as [d1 e1] eqn:Eu. intros [= <- <- <-]. split_and!; [by right; right| |].
  { intros Hni. exfalso. apply Hni. rewrite !elem_of_cons. auto. }
  intros He v' -> -> -> ->. assert (up_to_date d1) as Hd.
  { destruct e1 as [x|]; [|by eapply Hup]. destruct (Is x ErrNoChange) eqn:Ex; [|done].
    by destruct (Hno _ _ _ Eu Ex) as [-> ?]. }
  rewrite Hd. eexists. reflexivity.
Qed.
End migrate.

(** *** Instances *)

(** A router that keeps its routes in a list. *)
#[local] Instance ex_chi : Chi := {|
  mux := bool * list (string * handler);
  NewMux := (false, []);
  Use_Recoverer m := (true, m.2);
  Get p h m := (m.1, (p, h) :: m.2);
  serve m meth path k :=
    match List.find (λ r, bool_decide (r.1 = path)) m.2 with
    | None => Returns (MkResp "text/plain" 404 (Text "404 page not found"))
    | Some (_, h) =>
        if bool_decide (meth = "GET") then (if m.1 then Returns (recovered (h k)) else h k)
        else Returns (MkResp "" 405 (Text ""))
    end;
|}.

#[local] Instance ex_chi_laws : ChiLaws.
Proof.
  refine {| recovering m := m.1 = true |}; cbn.
  - done.
  - done.
  - intros. by eexists.
  - intros p h m k ->. by rewrite bool_decide_eq_true_2.
  - intros p h m meth k _ Hne. rewrite bool_decide_eq_true_2, bool_decide_eq_false_2 by done. by eexists.
  - intros p h m meth path k Hne. by rewrite bool_decide_eq_false_2.
Qed.

(** The ledger's probe fails at the second request. *)
Definition ex_health : HealthHandler :=
  MkHealth (Some (λ _, Returns None)) (Some (λ k, Returns (if k =? 1 then Some (Msg "down") else None))) (λ _, [1; 0]).

Lemma surface_is_exact_witness :
  ∃ r, serve (NewRouter (MkDeps (Some ex_health) None)) "GET" "/health" 1 = Returns r ∧ code r = 503%Z.
Proof.
  destruct (surface_is_exact (MkDeps (Some ex_health) None) 1) as (_ & Hh & _).
  destruct (Hh ex_health eq_refl (perm_swap 0 1 [])) as (r & Hr & _ & Hor & Hiff). exists r. split; [done|].
  destruct Hor as [H200|]; [|done]. apply Hiff in H200 as [_ Hl]. discriminate.
Defined.

(** Two migrations; [Up] goes to version 2. *)
Definition ex_up (v : nat) : nat * goerr := if v =? 2 then (2, Some (Sent ErrNoChange)) else (2, None).

Lemma migrate_is_idempotent_witness : ∃ tr', Migrate ex_up (MkMenv None None None None) 2 = (tr', 2, None).
Proof.
  destruct (migrate_is_idempotent ex_up (MkMenv None None None None) 0
    [MOpen SqlDB; MOpen Migrator; MClose Migrator; MClose SqlDB] 2 None) as (_ & _ & Hi).
  - intros x y. unfold ex_up. destruct (x =? 2); intros [= <-]. done.
  - intros x y z. unfold ex_up. destruct (Nat.eqb_spec x 2); intros [= <- <-]; subst; done.
  - reflexivity.
  - by apply Hi.
Defined.

End Surface.
