(* ===== verification/AuditRun.v ===== *)
(** * A whole audit

    [Audit] and [AuditInventory] of [src/internal/domain/audit.go] and
    [inventory.go] over all targets, and the end of [runAudit]: each direction
    probes every target through [probeTargets] (Verdict.v), the ledger-to-target
    direction with the sweep of PresenceAudit.v and the target-to-ledger direction
    with the merge of Inventory.v, and the process exits with the join of their
    verdicts (Service.v). *)

From S2P Require Import Prelude GoRuntime Ports Keyset Ledger Verdict PresenceAudit Inventory Files Restore Sweep Layout RestoreDrill Service.
From Stdlib Require Import ZArith Lia.
From stdpp Require Import base gmap strings list numbers.

Module AuditRun.
Import Verdict PresenceAudit.Audit Keyset.

(** What the audit of one target meets: the probe's select and contexts, the
    sink's answers, the ledger's pages, the order in which a page's probes finish,
    and the contexts read after each page, at the top of each, and by the
    classifier. *)
Record aenv := MkA {
  a_arm : select_arm; a_parent : ctxState; a_pctx : ctxState;
  a_exists : string → existsResult;
  a_pages : nat → string → nat → res (list string);
  a_order : nat → list string → list nat;
  a_after : nat → ctxState; a_ctxs : nat → ctxState; a_final : ctxState;
}.

(** [t.Sink.Name()] and [targetUnverifiableExempt] may panic. *)
Definition auditProbe (fuel : nat) (v : aenv) (sample : Z) (startAfter : string) (t : Target)
    : option (attempt TargetVerdict) :=
  match t_sink t, targetUnverifiableExempt t with
  | None, _ => Some (Panics "nil pointer dereference")
  | _, Panics x => Some (Panics x)
  | Some k, Returns exempt =>
      Returns <$> auditTarget (k_name k) exempt (a_exists v) (a_pages v) (a_order v) (a_after v) (a_ctxs v) (a_final v)
        fuel sample startAfter
  end.

Section audit.
Context (fuel : nat) (targets : list Target).

Definition auditWithStart (order : list nat) (v : nat → aenv) (sample : Z) (startAfter : string)
    : option (list TargetVerdict) :=
  probes ← mapM (λ it : nat * Target, auditProbe fuel (v it.1) sample startAfter it.2) (imap pair targets);
  Some (probeTargets order targets
          (λ i, MkPE (a_arm (v i)) (a_parent (v i)) (a_pctx (v i)) (default (Panics "") (probes !! i)))).

(** [rand] is what [rand.Read] answers. *)
Definition Audit (order : list nat) (v : nat → aenv) (rand : option Stream.Stream.bytes) (sample : Z)
    : option (list TargetVerdict) :=
  auditWithStart order v sample (sampledStart sample (RestoreDrill.randKeysetStart rand)).

(** The inventory of one target; [n_read] is [None] for a sink that cannot
    enumerate its manifest. *)
Record nenv := MkN {
  n_arm : select_arm; n_parent : ctxState; n_pctx : ctxState; n_read : option Inventory.ienv;
}.

Definition inventoryDirection (v : nenv) (t : Target) : option (attempt TargetVerdict) :=
  match n_read v, t_sink t with
  | None, _ => Some (Returns (verdict StatusNoData "target type cannot enumerate its manifest"))
  | Some _, None => Some (Panics "nil pointer dereference")
  | Some i, Some k => Returns <$> Inventory.inventoryProbe (k_name k) i
  end.

Definition AuditInventory (order : list nat) (v : nat → nenv) : option (list TargetVerdict) :=
  probes ← mapM (λ it : nat * Target, inventoryDirection (v it.1) it.2) (imap pair targets);
  Some (probeTargets order targets
          (λ i, MkPE (n_arm (v i)) (n_parent (v i)) (n_pctx (v i)) (default (Panics "") (probes !! i)))).

(** The directions of [runAudit] and its returned error. *)
Definition auditAll (order1 order2 : list nat) (va : nat → aenv) (rand : option Stream.Stream.bytes) (sample : Z)
    (immutability : list TargetVerdict) (inventory : bool) (vn : nat → nenv) (ctx : ctxState) : option goerr :=
  audit ← Audit order1 va rand sample;
  inv ← (if inventory then Some <$> AuditInventory order2 vn else Some None);
  Some (Service.auditVerdict audit immutability inv ctx).
End audit.

(** ** Lemmas *)

(** What an indexed [mapM] computed at [i]. *)
Lemma mapM_at {A B} (f : nat * A → option B) l ps i x : mapM f (imap pair l) = Some ps → l !! i = Some x →
  ∃ y, f (i, x) = Some y ∧ ps !! i = Some y.
Proof.
  intros Hm%mapM_Some Hl. assert (imap pair l !! i = Some (i, x)) as Hi by (by rewrite list_lookup_imap, Hl).
  eapply Forall2_lookup_l in Hm as (y & Hy & Hf); [|exact Hi]. by exists y.
Qed.

(** What the probe of target [i] did in each direction. *)
Lemma audit_probe fuel targets order v sample start rep i t : auditWithStart fuel targets order v sample start = Some rep →
  targets !! i = Some t →
  ∃ a env, auditProbe fuel (v i) sample start t = Some a ∧
    rep = probeTargets order targets env ∧ env i = MkPE (a_arm (v i)) (a_parent (v i)) (a_pctx (v i)) a.
Proof.
  unfold auditWithStart. destruct (mapM _ _) as [ps|] eqn:Em; [|done]. intros [= <-] Ht.
  destruct (mapM_at _ _ _ _ _ Em Ht) as (a & Ha & Hp). eexists a, _. split; [done|]. split; [done|]. cbn. by rewrite Hp.
Qed.

Lemma inventory_probe targets order v rep i t : AuditInventory targets order v = Some rep → targets !! i = Some t →
  ∃ a env, inventoryDirection (v i) t = Some a ∧
    rep = probeTargets order targets env ∧ env i = MkPE (n_arm (v i)) (n_parent (v i)) (n_pctx (v i)) a.
Proof.
  unfold AuditInventory. destruct (mapM _ _) as [ps|] eqn:Em; [|done]. intros [= <-] Ht.
  destruct (mapM_at _ _ _ _ _ Em Ht) as (a & Ha & Hp). eexists a, _. split; [done|]. split; [done|]. cbn. by rewrite Hp.
Qed.

(** A passing inventory of a target whose manifest could be read. *)
Record manifest_read (v : Inventory.ienv) (d : Ledger.db) (name : string) (lines : list Inventory.mline) : Prop := MkRead {
  mr_arm1 : Inventory.i_arm1 v = ArmResult; mr_arm2 : Inventory.i_arm2 v = ArmResult;
  mr_open1 : Inventory.i_open1 v = Returns (inl (lines, None)); mr_open2 : Inventory.i_open2 v = Returns (inl (lines, None));
  mr_ledger : Inventory.i_ledger v = Inventory.ledgerStored d name;
  mr_parses : Inventory.parses lines; mr_NoDup : NoDup (Inventory.ids_of lines);
  mr_small : (Z.of_nat (length (Inventory.ids_of lines)) ≤ Inventory.maxSortedManifestIDs)%Z;
}.

Lemma passing_inventory targets order v rep i t k n d lines :
  AuditInventory targets order v = Some rep → schedule (length targets) order → FailErr rep = None →
  targets !! i = Some t → t_sink t = Some k → targetUnverifiableExempt t = Returns false → n_parent (v i) = None →
  n_read (v i) = Some n → manifest_read n d (k_name k) lines →
  ∀ id, id ∈ Inventory.ids_of lines → Ledger.is_stored d id (k_name k) = true.
Proof.
  intros Hrep Hs Hf Ht Hk Hex Hpar Hn [H1 H2 H3 H4 H5 H6 H7 H8] id Hid.
  destruct (inventory_probe _ _ _ _ _ _ Hrep Ht) as (a & env & Ha & -> & He).
  unfold inventoryDirection in Ha. rewrite Hn, Hk in Ha.
  destruct (Inventory.inventory_exact (k_name k) n d lines H1 H2 H3 H4 H5 H6 H7 H8) as (w & Hw & Hst).
  rewrite Hw in Ha. injection Ha as <-. apply FailErr_nil in Hf. rewrite list.Forall_forall in Hf.
  pose proof (probeTargets_lookup order targets env i t Hs Ht) as Hv.
  specialize (Hf _ (list_elem_of_lookup_2 _ _ _ Hv)).
  destruct (pass_cases order targets env i t _ Hs Ht Hv Hf) as [(_ & pv & Hpv & _ & Hok)|(_ & [Hp|Hp])].
  - rewrite He in Hpv. injection Hpv as <-. rewrite Hst in Hok.
    case_bool_decide as Hdrift; [by destruct Hok as [?|[?|[? _]]]|].
    apply not_false_is_true. intros Hns. apply Hdrift, list.Exists_exists. by exists id.
  - rewrite He in Hp. done.
  - congruence.
Qed.


(** Two objects recorded on "t1", both there and both in its manifest. *)
Definition ex_target : Target := MkTarget (Some (MkSink "t1" None None)) false.
Definition ex_aenv (_ : nat) : aenv := MkA ArmResult None None (λ _, MkER true None)
  (λ _ a n, Ok (Ledger.StoredExternalIDsPage Inventory.ex_db "t1" a n)) (λ _ p, seq 0 (length p)) (λ _, None) (λ _, None) None.
Definition ex_lines : list Inventory.mline := [Inventory.MLine "aa"; Inventory.MLine "bb"].
Definition ex_nenv (_ : nat) : nenv := MkN ArmResult None None (Some (Inventory.ex_ienv ex_lines)).
Definition ex_exec (c : Service.command) (_ : list string) : goerr :=
  match c with
  | Service.audit => default (Some (Msg "")) (auditAll 20 [ex_target] [0] [0] ex_aenv None 0 [] true ex_nenv None)
  | _ => None
  end.

Lemma ex_manifest_read : manifest_read (Inventory.ex_ienv ex_lines) Inventory.ex_db "t1" ex_lines.
Proof.
  split; [done..| | |].
  - unfold Inventory.parses, ex_lines. rewrite !elem_of_cons, elem_of_nil. naive_solver.
  - simpl. repeat constructor; rewrite ?elem_of_cons, ?elem_of_nil; naive_solver.
  - unfold Inventory.maxSortedManifestIDs. simpl. lia.
Qed.


End AuditRun.
