(* ===== verification/RestoreStore.v ===== *)
(** * Restoring the whole store

    [RestoreAll] of [src/internal/domain/restore.go] put together from its parts:
    the keyset sweep of the ledger (Keyset.v), the hand-over to the workers
    (RestoreDrill.v), [restoreAllOne] with the single-object restore of Restore.v on
    a file system that keeps what it is given, and the exit code (Service.v).

    The workers share the counters, which are behind a mutex, and a directory in
    which each writes a name of its own; they are run in the order in which they
    finish. What an object's restore meets, an existing file among it, is a function
    of the directory at that time. *)

From S2P Require Import Prelude GoText GoRuntime Ports Keyset Ledger Stream Fanout Files Restore Sweep Layout RestoreDrill Service.
From Stdlib Require Import ZArith Lia.
From stdpp Require Import base gmap strings list numbers.

Module RestoreStore.
Import Stream Fanout Files Restore Keyset Sweep.

Section restore.
Context `{Decoder} (sum : bytes → string).

(** The ledger's pages, the yields, the order in which the workers finish, what each
    restore meets, and the parent context when its result is classified. *)
Record env := MkEnv {
  sv_pages : nat → string → nat → res (list string); sv_yield : nat → yenv;
  sv_order : list string → list string;
  sv_object : string → fs → renv; sv_ctx : string → ctxState;
}.

Context (v : env) (fuel : nat) (destDir : string).

Definition dest (hash : string) : string := GoText.Join [destDir; hash].

(** The counters and the directory after one worker. *)
Definition restoreAllOne (st : RestoreAllStats * fs) (hash : string) : option (RestoreAllStats * fs) :=
  let '(stats, s) := st in
  r ← restoreObjectTo sum (sv_object v hash s) fuel hash (dest hash) s;
  Some (Sweep.restoreAllOne (sv_ctx v hash) r.2 stats, default s (list.last r.1)).

Fixpoint work (st : RestoreAllStats * fs) (hashes : list string) : option (RestoreAllStats * fs) :=
  match hashes with
  | [] => Some st
  | h :: hashes => st ← restoreAllOne st h; work st hashes
  end.

(** [kfuel] bounds the sweep of the ledger, [fuel] each decode. *)
Definition RestoreAll (kfuel : nat) (s : fs) : option (RestoreAllStats * goerr * fs) :=
  r ← KeysetLoop (λ id, id) (sv_pages v) KeysetPageSize kfuel "" (RestoreDrill.handOver (sv_yield v)) (0, []);
  let '((_, handed), e) := r in
  w ← work (zeroRestore, s) (sv_order v handed);
  Some (w.1, e, w.2).

(** ** Counting *)

(** The failures and the cancellations are only ever added to. *)
Definition troubles (st : RestoreAllStats) : Z := ra_Failed st + ra_Cancelled st.

Lemma restoreAllOne_troubles ctx r st :
  (troubles st ≤ troubles (Sweep.restoreAllOne ctx r st))%Z ∧
  (troubles (Sweep.restoreAllOne ctx r st) = troubles st → ∃ skipped, r = Returns (skipped, None)).
Proof.
  unfold Sweep.restoreAllOne, troubles. destruct r as [[skipped e]|x]; [|cbn; split; [lia|intros; lia]].
  destruct (cancelledInFlight ctx e); [cbn; split; [lia|intros; lia]|].
  destruct e, skipped; cbn; (split; [lia|intros; first [lia|by eexists]]).
Qed.

Lemma work_troubles hashes st s st' s' : work (st, s) hashes = Some (st', s') → (troubles st ≤ troubles st')%Z.
Proof.
  revert st s. induction hashes as [|h hashes IH]; intros st s; cbn [work restoreAllOne]; [by intros [= <- <-]|].
  destruct (restoreObjectTo _ _ _ _ _ _) as [r|]; cbn [mbind option_bind]; [|done]. intros Hw%IH.
  etrans; [apply (restoreAllOne_troubles (sv_ctx v h) r.2 st)|exact Hw].
Qed.

(** ** The directory *)

(** What a restore meets is what the directory holds: an opened file delivers its
    contents, the temp file can be rewound, a call is abandoned only at a deadline. *)
Record faithful : Prop := MkFaithful {
  fa_reset h s : d_reset (ro_decode (sv_object v h s)) = Some None;
  fa_open h s r : ro_open (sv_object v h s) = Some r →
    ∃ cs x, r = script cs x ∧ nonempty cs ∧ contents s (dest h) = Some (concat cs);
  fa_arm h s : ro_arm (sv_object v h s) = ArmDone → ro_arm_ctx (sv_object v h s) ≠ None;
}.

(** Every temp file is new when it is created (O_EXCL), and every restore comes to an
    end, if only at its deadline. *)
Fixpoint proceeds (st : RestoreAllStats * fs) (hashes : list string) : Prop :=
  match hashes with
  | [] => True
  | h :: hashes =>
      fresh (ro_commit (sv_object v h st.2)) (dest h) st.2 ∧
      ∃ st', restoreAllOne st h = Some st' ∧ proceeds st' hashes
  end.

(** The object is at its place, verified and on disk. *)
Definition saved (s : fs) (h : string) : Prop :=
  ValidateContentHash h = None ∧
  ∃ d, contents s (dest h) = Some d ∧ sum d = h ∧ (Z.of_nat (length d) ≤ maxObjectBytes)%Z ∧ settled s (dest h).

(** The path is as it was. *)
Definition kept (s s' : fs) (p : string) : Prop := settled s p → settled s' p ∧ contents s' p = contents s p.

Lemma dest_inj h h' : ValidateContentHash h = None → ValidateContentHash h' = None → dest h = dest h' → h = h'.
Proof.
  assert (∀ x, ValidateContentHash x = None → Forall (λ c, GoText.plain c = true) [x]) as Hp.
  { intros x [Hl Hx]%ValidateContentHash_None. apply list.Forall_singleton, hex_plain; [|done].
    intros ->. cbn in Hl. lia. }
  intros Hh%Hp Hh'%Hp He. pose proof (GoText.Join_under_inj destDir [h] [h'] ltac:(done) ltac:(done) Hh Hh' He). congruence.
Qed.

Lemma one_saves (Hfa : faithful) st s h st' s' : fresh (ro_commit (sv_object v h s)) (dest h) s → settled s (dest h) →
  restoreAllOne (st, s) h = Some (st', s') → troubles st' = troubles st →
  saved s' h ∧ ∀ p, p ≠ dest h → kept s s' p.
Proof.
  intros Hf Hset. unfold restoreAllOne. destruct (restoreObjectTo _ _ _ _ _ _) as [[states a]|] eqn:Er; cbn [mbind option_bind]; [|done].
  cbn [fst snd]. intros [= <- <-] Htr. apply restoreAllOne_troubles in Htr as [skipped ->].
  destruct (restoreObjectTo_ok sum _ _ _ _ _ _ _ Hf Hset (fa_reset Hfa h s) (fa_open Hfa h s) (fa_arm Hfa h s) Er)
    as (Hv & (d & Hc & Hs & Hl & Hst) & Hw). split; [split; [done|]; by exists d|].
  intros p Hp Hsp. destruct Hw as [[_ ->]|(_ & w & Hfw & Ecw)]; [done|].
  pose proof (CommitWrite_keeps w (dest h) s p Hfw) as Hk. rewrite Ecw in Hk. by apply Hk.
Qed.

(** A pass with no failure and no cancellation saves every object it is given. *)
Lemma work_saves (Hfa : faithful) hashes : NoDup hashes → ∀ st s st' s',
  (∀ h, h ∈ hashes → settled s (dest h)) → proceeds (st, s) hashes →
  work (st, s) hashes = Some (st', s') → troubles st' = troubles st →
  (∀ h, h ∈ hashes → saved s' h) ∧ ∀ p, (∀ h, h ∈ hashes → p ≠ dest h) → kept s s' p.
Proof.
  induction 1 as [|h hashes Hni _ IH]; intros st s st' s' Hset Hfr; cbn [work].
  { intros [= <- <-] _. split; [intros h Hh; by apply not_elem_of_nil in Hh|done]. }
  destruct Hfr as (Hf0 & [st1 s1] & E1 & Hfr). rewrite E1. cbn [mbind option_bind].
  intros Hw Htr. pose proof (work_troubles _ _ _ _ _ Hw) as Hle.
  assert (troubles st ≤ troubles st1)%Z as Hle1 by (apply (work_troubles [h] st s st1 s1); cbn [work]; by rewrite E1).
  destruct (one_saves Hfa st s h st1 s1 Hf0 (Hset h ltac:(by left)) E1) as [[Hv (d & Hc & Hs & Hl & Hst)] Hk]; [lia|].
  destruct (IH st1 s1 st' s') as [Hall Hrest]; [|exact Hfr|done|lia|].
  { intros x Hx. destruct (decide (dest x = dest h)) as [->|Hne]; [done|].
    apply (Hk (dest x) Hne). apply Hset. by right. }
  assert (∀ x, x ∈ hashes → dest h ≠ dest x) as Hne.
  { intros x Hx He. destruct (Hall x Hx) as [Hvx _]. apply Hni. by rewrite (dest_inj h x Hv Hvx He). }
  split.
  - intros x [->|Hx]%elem_of_cons; [|by apply Hall]. destruct (Hrest (dest h) Hne Hst) as [Hst' Hc'].
    split; [done|]. exists d. by rewrite Hc'.
  - intros p Hp Hsp. destruct (Hk p (Hp h ltac:(by left)) Hsp) as [Hs1 Hc1].
    destruct (Hrest p (λ x Hx, Hp x ltac:(by right)) Hs1) as [Hs2 Hc2]. split; [done|congruence].
Qed.

(** *** The pass *)

Lemma work_returns hashes st : proceeds st hashes → is_Some (work st hashes).
Proof.
  revert st. induction hashes as [|h hashes IH]; intros st; cbn [work proceeds]; [by eexists|].
  intros (_ & st1 & -> & Hp). by apply IH.
Qed.

(** The ids the sweep of the ledger [d] enumerates. *)
Definition recorded (d : Ledger.db) (targetName : string) : list string := above (λ id, id) (Ledger.stored_ids d targetName) "".

Lemma elem_of_recorded d targetName id : id ≠ "" → Ledger.is_stored d id targetName = true → id ∈ recorded d targetName.
Proof.
  intros Hid Hst. apply list_elem_of_In, List.filter_In. split; [by apply list_elem_of_In, Ledger.elem_of_stored_ids|].
  by apply str_ltb_empty.
Qed.

Lemma recorded_NoDup d targetName : NoDup (recorded d targetName).
Proof. apply ascending_NoDup, Ledger.ascending_filter, Ledger.stored_ids_ascending. Qed.

(** The sweep of a ledger that does not change hands over what it records. *)
Lemma RestoreAll_steady d targetName kfuel s :
  (∀ k a n, sv_pages v k a n = Ok (Ledger.StoredExternalIDsPage d targetName a n)) →
  length (recorded d targetName) < kfuel →
  RestoreAll kfuel s =
    w ← work (zeroRestore, s) (sv_order v (dispatched 0 (sv_yield v) (recorded d targetName) None));
    Some (w.1, (enumerate (newPacer 0) (sv_yield v) 0 (recorded d targetName) None).2, w.2).
Proof.
  intros Hp Hk. unfold RestoreAll, KeysetLoop.
  rewrite (loop_spec (λ id, id) (sv_pages v) KeysetPageSize (Ledger.stored_ids d targetName));
    [|intros k a; by rewrite Hp|unfold keyed_ascending; rewrite list_fmap_id; apply Ledger.stored_ids_ascending
     |unfold KeysetPageSize; lia|unfold sweeping; simpl; lia|exact Hk].
  change (remaining _ _ _) with (recorded d targetName).
  destruct (RestoreDrill.handOver_enumerate (sv_yield v) (recorded d targetName) 0 []) as [k ->]. done.
Qed.

End restore.

(** A store with one recorded object, whose file at the destination is corrupt. *)
#[local] Existing Instance Restore.ex_decoder.

Definition ex_path : string := GoText.Join ["d"; ex_hash].
Definition ex_disk : fs := MkFs {[1%N := MkInode [Byte.x41] true]} {[ex_path := 1%N]} {[ex_path := 1%N]}.
Definition ex_open (c : option bytes) : option reader :=
  match c with
  | Some [] => Some (script [] (Sent EOF))
  | Some (b :: bs) => Some (script [b :: bs] (Sent EOF))
  | None => None
  end.
Definition ex_env : env := MkEnv
  (λ _ a n, Ok (Ledger.StoredExternalIDsPage RestoreDrill.ex_db "t1" a n)) Sweep.ex_live id
  (λ h s, MkR (ex_open (contents s (dest "d" h))) (λ _, None) None (ex_denv (Sent EOF) (λ _, None)) ArmResult None (ex_wenv None))
  (λ _, None).
Definition ex_exec (c : Service.command) (_ : list string) : goerr :=
  match c with Service.restore => Service.restoreAllVerdict (MkRA 1 0 0 0) None | _ => None end.

Lemma ex_faithful : faithful ex_env "d".
Proof.
  split; [done| |done]. intros h s r. cbn [ex_env sv_object ro_open]. unfold ex_open.
  destruct (contents s (dest "d" h)) as [[|b bs]|]; intros Hr; [injection Hr as <-..|done].
  - exists [], (Sent EOF). by split_and!; [|constructor|].
  - exists [b :: bs], (Sent EOF). split_and!; [done|by repeat constructor|]. cbn. by rewrite app_nil_r.
Qed.

Lemma ex_returns : is_Some (restoreAllOne ex_sum ex_env 20 "d" (zeroRestore, ex_disk) ex_hash).
Proof.
  assert ((if restoreAllOne ex_sum ex_env 20 "d" (zeroRestore, ex_disk) ex_hash then true else false) = true) as Hone
    by (vm_compute; reflexivity).
  revert Hone. generalize (restoreAllOne ex_sum ex_env 20 "d" (zeroRestore, ex_disk) ex_hash).
  intros [x|] Hx; [exact (ex_intro _ x eq_refl)|discriminate].
Qed.


End RestoreStore.
