(* ===== verification/Snapshot.v ===== *)
(** * Writing the snapshots

    [WriteManifests] and [writeManifest] of [src/internal/domain/manifest.go], the
    pipe they write through ([pipeThrough], [src/internal/domain/transform.go]) and
    the loop around them ([manifestLoop], [src/cmd/file-backup-service/main.go]).

    The lines of a snapshot are those of [Manifest.eachStoredObject]; how one is
    encoded in JSON is an argument. The pipe hands the sink one chunk per line and
    ends with the producer's error, or with EOF when it has none; the sink's
    [PutManifest] is a reading program under the same contract [obeys] as [Store],
    which both sinks keep. *)

From S2P Require Import Prelude GoRuntime Ports Keyset Ledger Stream Fanout Manifest Layout Metrics Service.
From Stdlib Require Import ZArith Lia.
From stdpp Require Import base gmap strings list numbers.

Import Ports.

Module Snapshot.
Import Stream Fanout Manifest.

(** [pipeThrough]: what [produce] wrote, chunk by chunk, and how it ended. *)
Definition pipeThrough (who : string) (chunks : list bytes) (end_ : attempt goerr) : reader :=
  ((λ b, RData b None) <$> chunks) ++
  match end_ with
  | Returns None => []
  | Returns (Some e) => [RSticky e]
  | Panics r => [RSticky (PanicErr who r)]
  end.

Section write.
Context (Encode : manifestLine → bytes).

(** [rc.Close()]: reads after it fail. *)
Definition errClosedPipe : err := Msg "io: read/write on closed pipe".

(** [writeManifest]: the error, and the blob the sink left. A call abandoned on the
    context may go on reading, until the reader is closed under it: [closed] is then
    what it got to read. [None]: the sweep over the ledger does not end. *)
Definition writeManifest (pages : nat → string → nat → Keyset.res (list ObjectMeta)) (fuel : nat)
    (put : sinkprog) (arm : select_arm) (ctx : ctxState) (closed : option (list bytes)) : option (goerr * option bytes) :=
  '(ls, e) ← eachStoredObject pages fuel;
  let rc := match arm, closed with
            | ArmDone, Some seen => pipeThrough "manifest encode" seen (Returns (Some errClosedPipe))
            | _, _ => pipeThrough "manifest encode" (Encode <$> ls) (Returns e)
            end in
  let out := run_sink put rc false in
  Some (callWithCtx arm ctx (match so_result out with Panics x => Panics x | Returns r => Returns (r_err r) end),
        so_blob out).

(** One target of [WriteManifests]: its name and what its [writeManifest] returned. *)
Definition WriteManifests (order : list nat) (targets : list (string * attempt goerr)) : goerr :=
  errors_Join (RunParallel order targets (λ t, "manifest to " +:+ t.1)
    (λ t, match t.2 with
          | Returns (Some e) => Returns (Some (Wrap ("manifest to " +:+ t.1) [e]))
          | x => x
          end)).

(** [manifestLoop]: a pass, and the observer of a failed one. *)
Definition manifestPass (ctx : ctxState) (written : attempt goerr) : attempt goerr :=
  match written with
  | Returns (Some e) => Returns (if bool_decide (ctx = None) then Some e else None)
  | x => x
  end.

Definition manifestLoop (every : Z) (written : nat → attempt goerr) (ctx : nat → ctxState) (arms : list select_arm)
    (m : Metrics.Metrics) : attempt Metrics.Metrics :=
  Service.TickLoop (Some (λ _, Metrics.ManifestError)) every (λ k m, (m, manifestPass (ctx k) (written k))) ctx arms m.

(** ** A snapshot is whole or absent *)

(** A sink that keeps its contract, on a pipe: on one that ends it commits all the
    chunks, on one that fails nothing. *)
Lemma obeys_pipe who p acc cs e saw :
  obeys acc p → errors_Is e EOF = false →
  (∀ b, so_blob (run_sink p (pipeThrough who cs (Returns e)) saw) = Some b → e = None ∧ b = acc ++ mjoin cs) ∧
  (∀ res, so_result (run_sink p (pipeThrough who cs (Returns e)) saw) = Returns res → r_err res = None →
     e = None ∧ so_blob (run_sink p (pipeThrough who cs (Returns e)) saw) = Some (acc ++ mjoin cs)).
Proof.
  intros Ho He. revert acc cs saw Ho. induction p as [n x blob|x|size k IH]; intros acc cs saw Ho.
  { inversion Ho; subst. cbn. split; [done|]. by intros res [= <-]. }
  { done. }
  inversion Ho as [| |? ? ? Hmore Hend]; subst.
  destruct cs as [|c cs].
  - unfold pipeThrough. cbn [fmap list_fmap app]. destruct e as [x|].
    + cbn [run_sink read]. cbn in He. cbn [errors_Is]. rewrite He, orb_false_r.
      specialize (Hmore [] (Some x) He). rewrite app_nil_r in Hmore.
      exact (IH [] (Some x) acc [] saw Hmore).
    + cbn [run_sink read]. change (errors_Is (Some (Sent EOF)) EOF) with true. rewrite orb_true_r.
      specialize (Hend [] (Some (Sent EOF)) eq_refl). rewrite app_nil_r in Hend.
      destruct (commits_ended _ _ Hend) as [H1 H2]. cbn [mjoin list_join]. rewrite app_nil_r.
      split; [intros b Hb; split; [done|by apply H1]|]. intros res Hr Hn. split; [done|]. by destruct (H2 res Hr Hn).
  - assert (pipeThrough who (c :: cs) (Returns e) = RData c None :: pipeThrough who cs (Returns e)) as -> by done.
    cbn [run_sink read]. destruct (length c <=? size); cbn [errors_Is]; rewrite orb_false_r.
    + cbn [mjoin list_join]. rewrite app_assoc. exact (IH c None (acc ++ c) cs saw (Hmore c None eq_refl)).
    + pose proof (IH (take size c) None (acc ++ take size c) (drop size c :: cs) saw (Hmore _ None eq_refl)) as Hi.
      cbn [mjoin list_join] in Hi |- *. rewrite <- app_assoc, (app_assoc (take size c)), take_drop in Hi. exact Hi.
Qed.
End write.

Definition ex_encode (l : manifestLine) : bytes := Layout.bytes_of_string (l_externalID l).
Definition ex_pages : nat → string → nat → Keyset.res (list ObjectMeta) :=
  λ _ a n, Keyset.Ok (Ledger.StoredObjectsPage ex_ledger "a" a n).

End Snapshot.
