(* ===== verification/Commands.v ===== *)
(** * The commands

    [src/cmd/file-backup-service/main.go]: what each command does between the
    command line and the sweep it runs. A command is a program that performs
    actions and ends with a value or an error ([M]); [defer_] performs its action
    when the body has ended, whatever its end, so the order of Go's deferred calls
    is the order of the trace.

    The result of every call outside this file is an argument: the file system and
    YAML decoder under [Env.Load], the pools, the listener, zap, the checks of the
    startup gate, the scratch directory and the sweeps themselves (their own models
    are Sweep.v, Service.v and ConsumerLoop.v). A command gets its flags parsed;
    CommandLine.v parses them. What a command prints is part of its trace, a cause
    that follows a text kept as the error itself; log lines are not. *)

From S2P Require Import Prelude GoText GoRuntime Ports Circuit Ledger Stream Fanout Pipeline Sweep Reconcile Config Env Dsn Corpus Service Trace.
From Stdlib Require Import ZArith Lia.
From Stdlib Require Import Strings.Ascii Strings.String.
From stdpp Require Import base gmap strings list numbers.

Module Commands.
Import Stream Config Trace Sweep(second, NormalizePerObjectTimeout).

(** ** Actions *)

(** What a command acquires and releases. *)
Inductive resource := Pool (label : string) | HTTP | Loops | Scratch | Signals | Logger | Deadline.

#[global] Instance resource_eq_dec : EqDecision resource.
Proof. solve_decision. Defined.

(** The work a command was started for. *)
Inductive work :=
  | Consume (concurrency : Z) (perObject : Z)
  | BackfillAll (rate concurrency perObject : Z)
  | ReconcileAll (rate concurrency perObject : Z)
  | AuditTargets (sample : Z) (inventory : bool)
  | DrillFrom (source dir : string) (sample concurrency perObject : Z)
  | RestoreEvery (source to : string) (concurrency perObject : Z)
  | RestoreOne (hash to : string) (bound : Z)
  | VerifyOne (hash : string) (bound : Z)
  | MigrateLedger (dsn : string).

Inductive act :=
  | Acquire (r : resource)
  | Release (r : resource)
  | OpenPool (label dsn : string) (size timeout : Z)
  | Gate (required : list string)
  | Probe (what : string)
  | ExportDrill (file : string) (pass : bool)
  | Print (text : string) (cause : goerr)
  | Stderr (text : string) (cause : goerr)
  | Work (w : work).

(** ** Programs *)

Abbreviation M := (Trace.M act).

Definition print (text : string) : M unit := tell (Print text None).

(** ** Small pieces *)

Definition resolveConcurrency (flag configured : Z) : Z := if (flag <=? 0)%Z then configured else flag.

(** The timeout [boundedRestoreCtx] gives its context. *)
Definition boundedRestoreCtx (cfg : Config) : Z := NormalizePerObjectTimeout (PerObjectTimeout cfg).

(** [sourceOp]'s [op] gets the sink, perhaps wrapped as a write-only source. *)
Definition hint : string := "reading WORM/write-only target failed".

Definition annotate (e : err) : err := Wrap hint [e].

(** [wormErrReader.Read] on what the wrapped reader does next. *)
Definition wormErrRead (k : nat) (r : reader) : reader * attempt (bytes * goerr) :=
  match read k r with
  | (r', Returns (bs, Some e)) => (r', Returns (bs, Some (if Is e EOF then e else annotate e)))
  | x => x
  end.

(** [wormReadSource.Fetch]: an eager failure annotated, a body wrapped. *)
Definition wormFetch {B} (wrapBody : B → B) (r : B + err) : B + err :=
  match r with inr e => inr (annotate e) | inl b => inl (wrapBody b) end.

(** The script of a wrapped body. *)
Definition wormErrReader (r : reader) : reader :=
  (λ ev, match ev with
         | RData bs (Some e) => RData bs (Some (if Is e EOF then e else annotate e))
         | RSticky e => RSticky (if Is e EOF then e else annotate e)
         | ev => ev
         end) <$> r.
(** ** The commands *)

Section commands.
Context {client : Type} (minio_New : string → bool → string → string → string → client + err).
Context (load : string → Config + err)                       (* config.Load *)
        (NewPool : string → Z → Z → goerr)                   (* db.NewPool: dsn, size, statement timeout *)
        (zap_NewProduction : goerr) (net_Listen : Z → goerr)
        (ctx : ctxState) (order1 order2 : list nat)          (* the startup checks' schedules *)
        (checkOf : string → attempt goerr * select_arm)      (* what a startup check does *)
        (probeLedger : goerr) (ProbeWritable MkdirTemp : string → goerr)
        (Migrate : string → goerr).

Abbreviation sink := (Env.sink client).

(** [domain.Target]. *)
Record target := MkTgt { tg_sink : sink; tg_codec : Fanout.Codec; tg_worm : bool }.

Definition sinkName (s : sink) : string :=
  match s with Env.Filesystem n _ => n | Env.S3 s => S3Sink.S3Sink.name s end.

Fixpoint buildTargets (cfgs : list Target) : list target + err :=
  match cfgs with
  | [] => inl []
  | t :: cfgs =>
      match Env.BuildSink minio_New t with
      | inr e => inr e
      | inl s =>
          match ParseCodec (Compression t) with
          | inr e => inr (Wrap "target" [e])
          | inl k =>
              match buildTargets cfgs with
              | inr e => inr e
              | inl ts => inl (MkTgt s k (Worm t) :: ts)
              end
          end
      end
  end.

Definition validateAndBuildTargets (cfg : Config) : list target + err :=
  match ValidateTargets cfg with
  | Some e => inr (Wrap "invalid config" [e])
  | None => buildTargets (Targets cfg)
  end.

(** [signalContext] with its [defer stop()], and [newLogger] with its
    [defer syncLog()]. *)
Definition signalContext {A} (body : M A) : M A :=
  _ ← tell (Acquire Signals); defer_ (Release Signals) body.

Definition newLogger : M unit :=
  _ ← check (wrap "init logger" zap_NewProduction); tell (Acquire Logger).

Definition syncLog : act := Release Logger.

(** [openPool]. *)
Definition openPool (dsn : string) (size timeout : Z) (label : string) : M unit :=
  _ ← check (wrap (label +:+ " pool") (NewPool dsn size timeout));
  _ ← tell (OpenPool label dsn size timeout);
  tell (Acquire (Pool label)).

Definition closePool (label : string) : act := Release (Pool label).

(** [startupGate] on checks by name. *)
Definition mkCheck (name : string) : Service.startCheck :=
  let '(fn, arm) := checkOf name in Service.MkCheck name fn arm.

Definition startupGate (required : list string) (targets : list target) : M unit :=
  _ ← tell (Gate required);
  check (Service.startupGate order1 order2 ctx (mkCheck <$> required)
           (mkCheck ∘ (λ t, "target " +:+ sinkName (tg_sink t)) <$> targets)).

Definition startupChecks (targets : list target) : M unit :=
  startupGate ["file-service unreachable"; "outbox not accessible (scoped role / schema?)";
               "outbox not writable"; "ledger not accessible (schema / migrate?)"] targets.

Definition startHTTP (port : Z) : M unit :=
  _ ← check (wrap "http listen" (net_Listen port)); tell (Acquire HTTP).

Definition shutdown : act := Release HTTP.

(** [serveCtx]; [runConsumer] is what the consumer returns. *)
Definition serveCtx (runConsumer : goerr) (cfgPath : string) : M unit :=
  cfg ← lift (wrapS "load config" (load cfgPath));
  _ ← check (wrap "invalid config" (Validate cfg));
  _ ← newLogger;
  defer_ syncLog (
    _ ← openPool (Dsn.DSN (AlkemioDB cfg)) (PoolSize cfg 8) (DBTimeout cfg) "alkemio";
    defer_ (closePool "alkemio") (
      _ ← openPool (Dsn.DSN (LedgerDB cfg)) (PoolSize cfg 4) (DBTimeout cfg) "ledger";
      defer_ (closePool "ledger") (
        targets ← lift (buildTargets (Targets cfg));
        _ ← startHTTP (MetricsPort cfg);
        defer_ shutdown (
          _ ← startupChecks targets;
          _ ← tell (Acquire Loops);
          defer_ (Release Loops) (
            _ ← tell (Work (Consume (Concurrency cfg) (PerObjectTimeout cfg)));
            check runConsumer))))).

Definition serve (runConsumer : goerr) (cfgPath : string) : M unit := signalContext (serveCtx runConsumer cfgPath).

Definition runMigrate (cfgPath : string) : M unit :=
  cfg ← lift (wrapS "load config" (load cfgPath));
  _ ← check (wrap "invalid config" (DBValidate (LedgerDB cfg)));
  _ ← tell (Work (MigrateLedger (Dsn.DSN (LedgerDB cfg))));
  _ ← check (Migrate (Dsn.DSN (LedgerDB cfg)));
  print "ledger migrations applied".

(** [ledgerJob]: on success the caller owns the pool. *)
Definition ledgerJob (cfgPath : string) : M Config :=
  cfg ← lift (wrapS "load config" (load cfgPath));
  _ ← check (wrap "invalid config" (ValidateDRLimits cfg));
  _ ← openPool (Dsn.DSN (LedgerDB cfg)) (PoolSize cfg 4) (DBTimeout cfg) "ledger";
  _ ← tell (Probe "ledger");
  match probeLedger with
  | Some e => _ ← tell (closePool "ledger"); throw (Wrap "ledger not accessible (schema / migrate?)" [e])
  | None => mret cfg
  end.

Definition buildReadSource (cfg : Config) (from : string) : M (sink * string * bool) :=
  lift (Service.buildReadSource (Env.BuildSink minio_New) cfg from).

(** [sourceOp] of [restore object] and [verify]. *)
Definition sourceOp (cfgPath hash from : string) (op : sink * string * bool → Z → M unit) : M unit :=
  if bool_decide (hash = "") || bool_decide (from = "") then throw (Msg "requires --hash and --from")
  else
    cfg ← lift (wrapS "load config" (load cfgPath));
    src ← buildReadSource cfg from;
    signalContext (
      _ ← tell (Acquire Deadline);
      defer_ (Release Deadline) (op src (boundedRestoreCtx cfg))).

Definition runRestoreObject (RestoreObject : sink * string * bool → string → string → goerr)
    (cfgPath hash from to : string) : M unit :=
  sourceOp cfgPath hash from (λ src bound,
    _ ← tell (Work (RestoreOne hash to bound));
    _ ← check (RestoreObject src hash to);
    print ("restored " +:+ hash +:+ " -> " +:+ to +:+ "/" +:+ hash)).

Definition runVerify (VerifyObject : sink * string * bool → string → goerr) (cfgPath hash from : string) : M unit :=
  sourceOp cfgPath hash from (λ src bound,
    _ ← tell (Work (VerifyOne hash bound)); _ ← check (VerifyObject src hash); print ("verified " +:+ hash)).

(** [printTargetStoredSizes]; [counts] is what the ledger answers for the names. *)
Definition stored_line (source : string) (counts : gmap string Z) (n : string) : act :=
  Print ("target " +:+ n +:+ ": " +:+ GoText.Itoa (default 0%Z (counts !! n)) +:+ " objects stored" +:+
         (if bool_decide (n = source) then "  <- restore source" else "")) None.

Definition printTargetStoredSizes (counts : list string → gmap string Z + err) (targets : list Target) (source : string) : M unit :=
  let names := Name <$> targets in
  match counts names with
  | inr e => tell (Stderr "warning: could not read per-target stored counts:" (Some e))
  | inl counts => tells (stored_line source counts <$> names)
  end.

(** A counter of a printed summary. *)
Definition counter (name : string) (z : Z) : string := " " +:+ name +:+ "=" +:+ GoText.Itoa z.

Definition runRestoreAll (counts : list string → gmap string Z + err)
    (RestoreAll : sink * string * bool → Sweep.RestoreAllStats * goerr)
    (cfgPath from to : string) (concurrency : Z) : M unit :=
  signalContext (
    cfg ← ledgerJob cfgPath;
    defer_ (closePool "ledger") (
      src ← buildReadSource cfg from;
      _ ← printTargetStoredSizes counts (Targets cfg) src.1.2;
      _ ← tell (Work (RestoreEvery src.1.2 to (resolveConcurrency concurrency (Concurrency cfg)) (PerObjectTimeout cfg)));
      let '(st, rerr) := RestoreAll src in
      _ ← print ("restore all (" +:+ src.1.2 +:+ " -> " +:+ to +:+ "):" +:+ counter "restored" (Sweep.ra_Restored st) +:+
                 counter "skipped" (Sweep.ra_Skipped st) +:+ counter "failed" (Sweep.ra_Failed st) +:+
                 counter "cancelled" (Sweep.ra_Cancelled st));
      check (Service.restoreAllVerdict st rerr))).

(** [resolveCurrentHash] with the pool it opens and closes. *)
Definition resolveCurrentHash (cfg : Config) (probe : goerr) (row : (option string * option Z) + err) (at_ : Z) : M string :=
  let opened := NewPool (Dsn.DSN (AlkemioDB cfg)) (PoolSize cfg 1) (DBTimeout cfg) in
  let r := Corpus.resolveCurrentHash cfg opened probe row at_ in
  match DBValidate (AlkemioDB cfg) with
  | Some _ => lift r
  | None => _ ← openPool (Dsn.DSN (AlkemioDB cfg)) (PoolSize cfg 1) (DBTimeout cfg) "alkemio";
            defer_ (closePool "alkemio") (lift r)
  end.

(** [runRestoreCurrent]: [fid] and [at_] are what [uuid.Parse] and [time.Parse]
    give for the flags, [shown] the time as it is printed. *)
Definition runRestoreCurrent (RestoreObject : sink * string * bool → string → string → goerr)
    (probe : goerr) (row : string → (option string * option Z) + err) (shown : Z → string)
    (cfgPath fileID at_flag hashOverride from to : string) (fid : string + err) (at_ : Z + err) : M unit :=
  if bool_decide (fileID = "") || bool_decide (at_flag = "") then throw (Msg "restore current requires --file-id and --at")
  else
    fid ← lift (wrapS "invalid --file-id" fid);
    at_ ← lift (wrapS "invalid --at" at_);
    cfg ← lift (wrapS "load config" (load cfgPath));
    src ← buildReadSource cfg from;
    signalContext (
      hash ← (if bool_decide (hashOverride = "") then resolveCurrentHash cfg probe (row fid) at_ else mret hashOverride);
      _ ← tell (Acquire Deadline);
      defer_ (Release Deadline) (
        _ ← tell (Work (RestoreOne hash to (boundedRestoreCtx cfg)));
        _ ← check (RestoreObject src hash to);
        print (if bool_decide (hashOverride ≠ "")
               then "restored operator-supplied hash " +:+ hash +:+ " for file " +:+ fid +:+ " from " +:+ src.1.2 +:+ " -> " +:+ to +:+ "/" +:+ hash
                    +:+ " (version provenance is the operator's PITR recovery, not verified here)"
               else "restored current version of " +:+ fid +:+ " (verified in effect at " +:+ shown at_ +:+ ") from " +:+ src.1.2
                    +:+ " -> " +:+ to +:+ "/" +:+ hash))).

Definition preflightScratch (dir : string) : M unit :=
  _ ← tell (Probe "scratch"); check (wrap "scratchDir not writable" (ProbeWritable dir)).

Definition runReconcile (Reconcile : list target → Reconcile.ReconcileStats * goerr) (cfgPath : string) (rate : Z) : M unit :=
  signalContext (
    cfg ← ledgerJob cfgPath;
    defer_ (closePool "ledger") (
      targets ← lift (validateAndBuildTargets cfg);
      _ ← newLogger;
      defer_ syncLog (
        _ ← preflightScratch (ScratchDir cfg);
        _ ← startupGate [] targets;
        _ ← tell (Work (ReconcileAll rate (Concurrency cfg) (PerObjectTimeout cfg)));
        let '(st, e) := Reconcile targets in
        _ ← print ("reconcile:" +:+ counter "repaired" (Reconcile.rc_Repaired st) +:+ counter "skipped" (Reconcile.rc_Skipped st) +:+
                   counter "failed" (Reconcile.rc_Failed st) +:+ counter "cancelled" (Reconcile.rc_Cancelled st));
        check (Service.reconcileVerdict st e)))).

Definition runBackfill (Backfill : list target → Sweep.BackfillStats * goerr) (cfgPath : string) (rate : Z) : M unit :=
  cfg ← lift (wrapS "load config" (load cfgPath));
  _ ← check (wrap "invalid config" (Validate cfg));
  signalContext (
    _ ← openPool (Dsn.DSN (AlkemioDB cfg)) (PoolSize cfg 4) (DBTimeout cfg) "alkemio";
    defer_ (closePool "alkemio") (
      _ ← openPool (Dsn.DSN (LedgerDB cfg)) (PoolSize cfg 4) (DBTimeout cfg) "ledger";
      defer_ (closePool "ledger") (
        targets ← lift (buildTargets (Targets cfg));
        _ ← newLogger;
        defer_ syncLog (
          _ ← startupGate ["file-service unreachable"; "ledger not accessible (schema / migrate?)"; "file corpus not readable"] targets;
          _ ← tell (Work (BackfillAll rate (Concurrency cfg) (PerObjectTimeout cfg)));
          let '(st, e) := Backfill targets in
          _ ← print ("backfill:" +:+ counter "backed" (Sweep.bf_Backed st) +:+ counter "skipped" (Sweep.bf_Skipped st) +:+
                     counter "deferred" (Sweep.bf_Deferred st) +:+ counter "failed" (Sweep.bf_Failed st) +:+
                     counter "cancelled" (Sweep.bf_Cancelled st));
          check (Service.backfillVerdict st e))))).

(** [printAudit]'s lines; its [FailErr] is in [Service.auditVerdict]. *)
Definition printAudit (label : string) (rep : list Verdict.Verdict.TargetVerdict) : M unit :=
  tells ((λ v, Print (label +:+ " " +:+ Verdict.Verdict.v_Target v +:+ ": " +:+
                      Verdict.Verdict.status_string (Verdict.Verdict.v_Status v) +:+ " — " +:+ Verdict.Verdict.v_Detail v) None) <$> rep).

Definition runAudit (Audit : list target → list Verdict.Verdict.TargetVerdict * list Verdict.Verdict.TargetVerdict * list Verdict.Verdict.TargetVerdict)
    (cfgPath : string) (sample : Z) (inventory : bool) : M unit :=
  signalContext (
    cfg ← ledgerJob cfgPath;
    defer_ (closePool "ledger") (
      targets ← lift (validateAndBuildTargets cfg);
      _ ← tell (Work (AuditTargets sample inventory));
      let '(audit, immutability, inv) := Audit targets in
      _ ← printAudit "audit" audit;
      _ ← printAudit "immutability" immutability;
      _ ← (if inventory then printAudit "inventory" inv else mret ());
      check (Service.auditVerdict audit immutability (if inventory then Some inv else None) ctx))).

Definition runDrill (Drill : sink * string * bool → Sweep.DrillOutcome * goerr)
    (cfgPath from to metricsFile : string) (sample concurrency : Z) : M unit :=
  signalContext (
    cfg ← ledgerJob cfgPath;
    defer_ (closePool "ledger") (
      src ← buildReadSource cfg from;
      _ ← newLogger;
      defer_ syncLog (
        let base := if bool_decide (to = "") then ScratchDir cfg else to in
        _ ← preflightScratch base;
        _ ← check (wrap "create drill scratch dir" (MkdirTemp base));
        _ ← tell (Acquire Scratch);
        defer_ (Release Scratch) (
          _ ← tell (Work (DrillFrom src.1.2 base sample (resolveConcurrency concurrency (Concurrency cfg)) (PerObjectTimeout cfg)));
          let '(outcome, derr) := Drill src in
          _ ← tells ((λ f, Print ("drill FAIL " +:+ f.1 +:+ ":") (Some f.2)) <$> Sweep.do_Failures outcome);
          _ ← print ("drill " +:+ src.1.2 +:+ ":" +:+ counter "checked" (Sweep.Checked outcome) +:+
                     counter "passed" (Sweep.do_Passed outcome) +:+ counter "failed" (Sweep.do_Failed outcome));
          let '(gauge, e) := Service.drillReport outcome derr in
          _ ← match gauge with Some pass => tell (ExportDrill metricsFile pass) | None => mret () end;
          check e)))).

(** Every invocation, with what its sweep does. *)
Inductive invocation :=
  | IServe (runConsumer : goerr) (cfgPath : string)
  | IMigrate (cfgPath : string)
  | IRestoreObject (op : sink * string * bool → string → string → goerr) (cfgPath hash from to : string)
  | IRestoreAll (counts : list string → gmap string Z + err) (op : sink * string * bool → Sweep.RestoreAllStats * goerr)
      (cfgPath from to : string) (concurrency : Z)
  | IRestoreCurrent (op : sink * string * bool → string → string → goerr) (probe : goerr)
      (row : string → (option string * option Z) + err) (shown : Z → string) (cfgPath fileID at_flag hashOverride from to : string)
      (fid : string + err) (at_ : Z + err)
  | IVerify (op : sink * string * bool → string → goerr) (cfgPath hash from : string)
  | IReconcile (op : list target → Reconcile.ReconcileStats * goerr) (cfgPath : string) (rate : Z)
  | IBackfill (op : list target → Sweep.BackfillStats * goerr) (cfgPath : string) (rate : Z)
  | IAudit (op : list target → list Verdict.Verdict.TargetVerdict * list Verdict.Verdict.TargetVerdict * list Verdict.Verdict.TargetVerdict)
      (cfgPath : string) (sample : Z) (inventory : bool)
  | IDrill (op : sink * string * bool → Sweep.DrillOutcome * goerr) (cfgPath from to metricsFile : string) (sample concurrency : Z).

Definition perform (i : invocation) : M unit :=
  match i with
  | IServe r p => serve r p
  | IMigrate p => runMigrate p
  | IRestoreObject op p h f t => runRestoreObject op p h f t
  | IRestoreAll n op p f t c => runRestoreAll n op p f t c
  | IRestoreCurrent op pr row sh p fid a ho f t fid' a' => runRestoreCurrent op pr row sh p fid a ho f t fid' a'
  | IVerify op p h f => runVerify op p h f
  | IReconcile op p r => runReconcile op p r
  | IBackfill op p r => runBackfill op p r
  | IAudit op p s inv => runAudit op p s inv
  | IDrill op p f t m s c => runDrill op p f t m s c
  end.
End commands.

(** ** Resources *)

Definition owns (a : act) : ownership resource :=
  match a with Acquire r => Gains r | Release r => Loses r | _ => Neutral end.

Abbreviation holding := (Trace.holding owns).
Abbreviation keeps := (Trace.keeps owns).
Abbreviation adds := (Trace.adds owns).

#[export] Hint Extern 1 (Trace.keeps _ (print _)) => apply keeps_note; reflexivity : fbs.

Lemma openPool_adds NewPool dsn size timeout label : adds (Pool label) (openPool NewPool dsn size timeout label).
Proof. unfold openPool. apply adds_bind; [auto with fbs|]. intros _. apply adds_bind; [auto with fbs|done]. Qed.

Lemma startHTTP_adds net_Listen port : adds HTTP (startHTTP net_Listen port).
Proof. unfold startHTTP. apply adds_bind; [auto with fbs|done]. Qed.

Lemma newLogger_adds z : adds Logger (newLogger z).
Proof. unfold newLogger. apply adds_bind; [auto with fbs|done]. Qed.

Lemma ledgerJob_adds load NewPool probe path : adds (Pool "ledger") (ledgerJob load NewPool probe path).
Proof.
  unfold ledgerJob. apply adds_bind; [auto with fbs|]. intros cfg. apply adds_bind; [auto with fbs|]. intros _ st.
  rewrite bind_trace, openPool_adds. unfold openPool, mbind, M_bind.
  destruct (NewPool _ _ _); cbn; [done|]. by destruct probe.
Qed.

(** One step through a command. *)
Ltac keep :=
  first
    [ eapply bracket;
        [reflexivity
        |first [apply ledgerJob_adds | apply openPool_adds | apply startHTTP_adds | apply newLogger_adds | apply adds_acquire; reflexivity]
        |intros ?]
    | solve [auto with fbs nocore]
    | apply keeps_bind; [|intros ?]
    | case_match ].

Section resources.
Context {client : Type} (minio_New : string → bool → string → string → string → client + err).
Context (load : string → Config + err) (NewPool : string → Z → Z → goerr) (zap_NewProduction : goerr) (net_Listen : Z → goerr)
        (ctx : ctxState) (order1 order2 : list nat) (checkOf : string → attempt goerr * select_arm)
        (probeLedger : goerr) (ProbeWritable MkdirTemp : string → goerr) (Migrate : string → goerr).

Abbreviation perform_ := (perform minio_New load NewPool zap_NewProduction net_Listen ctx order1 order2 checkOf probeLedger ProbeWritable MkdirTemp Migrate).

(** Whatever the environment answers, every command releases what it acquired, in
    the reverse order, before it returns: each pool is closed, the HTTP server shut
    down, the background loops awaited before the pools they use close, and the
    drill's scratch directory removed. *)
Theorem commands_release_everything i : holding (perform_ i).1 [] = Some [].
Proof.
  cut (keeps (perform_ i)); [intros Hk; apply Hk|].
  destruct i; cbn [perform];
    unfold serve, serveCtx, runMigrate, runRestoreObject, runRestoreAll, runRestoreCurrent, runVerify, runReconcile, runBackfill,
      runAudit, runDrill, sourceOp, startupChecks, startupGate, preflightScratch, resolveCurrentHash, buildReadSource, signalContext,
      printTargetStoredSizes, printAudit;
    repeat keep.
Qed.
End resources.
(** ** Bounds *)

(** A timeout is positive and fits a Duration; a pool is not empty; a sweep has a
    worker. *)
Definition duration_ok (d : Z) : Prop := (0 < d ≤ max_int64)%Z.

Definition bounded (a : act) : Prop :=
  match a with
  | OpenPool _ _ size timeout => (0 < size < 2 ^ 31)%Z ∧ duration_ok timeout
  | Work (Consume c p) | Work (BackfillAll _ c p) | Work (ReconcileAll _ c p) => (0 < c ≤ 1024)%Z ∧ duration_ok p
  | Work (RestoreEvery _ _ c p) | Work (DrillFrom _ _ _ c p) => (0 < c)%Z ∧ duration_ok p
  | Work (RestoreOne _ _ b) | Work (VerifyOne _ b) => duration_ok b
  | _ => True
  end.

Lemma secondsToDuration_range sec f : (0 ≤ f ≤ max_int64)%Z →
  (0 ≤ secondsToDuration sec f ≤ max_int64)%Z ∧ (0 < f → 0 < secondsToDuration sec f)%Z.
Proof.
  intros Hf. unfold secondsToDuration, seconds. change (Z.quot max_int64 second) with 9223372036%Z.
  destruct (Z.leb_spec sec 0); cbn [orb]; [lia|]. destruct (Z.ltb_spec 9223372036 sec); [lia|].
  rewrite wrap64_small; unfold min_int64, max_int64, second in *; lia.
Qed.

Lemma DBTimeout_ok cfg : duration_ok (DBTimeout cfg).
Proof.
  destruct (secondsToDuration_range (DBTimeoutSec cfg) (defaultDBTimeoutSec * second)) as [? Hp]; [vm_compute; split; discriminate|].
  unfold duration_ok, DBTimeout. split; [|lia]. apply Hp. by vm_compute.
Qed.

Lemma boundedRestoreCtx_ok cfg : duration_ok (boundedRestoreCtx cfg).
Proof.
  unfold boundedRestoreCtx, NormalizePerObjectTimeout, PerObjectTimeout.
  destruct (secondsToDuration_range (PerObjectTimeoutSec cfg) 0) as [? _]; [by vm_compute|].
  destruct (Z.leb_spec (secondsToDuration (PerObjectTimeoutSec cfg) 0) 0); [by vm_compute|unfold duration_ok; lia].
Qed.

Lemma PoolSize_ok cfg h : (0 ≤ h ≤ 8)%Z → (0 < PoolSize cfg h < 2 ^ 31)%Z.
Proof.
  intros Hh. unfold PoolSize. assert (1 ≤ Z.min (Z.max (Concurrency cfg) 1) 1024 ≤ 1024)%Z as Hc by lia.
  rewrite wrap64_small by (unfold min_int64, max_int64; lia). unfold wrap32. rewrite Z.mod_small; lia.
Qed.

Lemma openPool_ok NewPool dsn cfg h label : (0 ≤ h ≤ 8)%Z →
  acts_ok bounded (openPool NewPool dsn (PoolSize cfg h) (DBTimeout cfg) label).
Proof.
  intros Hh. unfold openPool. apply acts_bind; [apply acts_check|]. intros _ _.
  apply acts_bind; [|intros _ _; by apply acts_tell]. apply acts_tell. split; [by apply PoolSize_ok|apply DBTimeout_ok].
Qed.

(** What the accepted limits give the sweeps. *)
Lemma limits_bound c0 : validateLimits (applyDefaults c0) = None →
  (0 < Concurrency (applyDefaults c0) ≤ 1024)%Z ∧ duration_ok (PerObjectTimeout (applyDefaults c0)).
Proof.
  intros Hv. pose proof (applyDefaults_pos c0) as Hp. rewrite !list.Forall_cons in Hp.
  destruct Hp as (Hc & _ & Ht & _). pose proof (validateLimits_ok _ Ht Hv) as L.
  pose proof (durations_exact c0 L) as HD. unfold durations in HD. rewrite !list.Forall_cons in HD.
  destruct HD as [(_ & ? & Hm) _]. split; [destruct L; lia|]. split; [done|]. cbn in Hm.
  etrans; [exact Hm|]. by vm_compute.
Qed.

Lemma Validate_limits c : Validate c = None → validateLimits c = None.
Proof. unfold Validate. by repeat (case_match; try done). Qed.

Lemma ValidateDRLimits_limits c : ValidateDRLimits c = None → validateLimits c = None.
Proof. unfold ValidateDRLimits. by case_match. Qed.

Lemma Load_defaults RF UM e path c : Env.Load RF UM e path = inl c → ∃ c0, c = applyDefaults c0.
Proof. unfold Env.Load. repeat (case_match; try done). intros [= <-]. eauto. Qed.
Lemma resolveConcurrency_pos flag c0 : (0 < resolveConcurrency flag (Concurrency (applyDefaults c0)))%Z.
Proof.
  unfold resolveConcurrency. destruct (Z.leb_spec flag 0); [|done].
  pose proof (applyDefaults_pos c0) as Hp. by inversion Hp.
Qed.

Section bounds.
Context {client : Type} (minio_New : string → bool → string → string → string → client + err).
Context (ReadFile : string → string + err) (Unmarshal : string → Config + err) (e : Env.env).
Context (NewPool : string → Z → Z → goerr) (zap_NewProduction : goerr) (net_Listen : Z → goerr)
        (ctx : ctxState) (order1 order2 : list nat) (checkOf : string → attempt goerr * select_arm)
        (probeLedger : goerr) (ProbeWritable MkdirTemp : string → goerr) (Migrate : string → goerr).

Abbreviation load := (Env.Load ReadFile Unmarshal e).
Abbreviation perform_ := (perform minio_New load NewPool zap_NewProduction net_Listen ctx order1 order2 checkOf probeLedger ProbeWritable MkdirTemp Migrate).

Lemma gate_ok required targets :
  acts_ok bounded (startupGate (client := client) ctx order1 order2 checkOf required targets).
Proof. unfold startupGate. apply acts_bind; [by apply acts_tell|intros _ _; apply acts_check]. Qed.

Lemma scratch_ok dir : acts_ok bounded (preflightScratch ProbeWritable dir).
Proof. unfold preflightScratch. apply acts_bind; [by apply acts_tell|intros _ _; apply acts_check]. Qed.

Lemma ledgerJob_ok path : acts_ok bounded (ledgerJob load NewPool probeLedger path).
Proof.
  unfold ledgerJob. apply acts_bind; [apply acts_none|]. intros cfg _. apply acts_bind; [apply acts_check|]. intros _ _.
  apply acts_bind; [apply openPool_ok; lia|]. intros _ _. apply acts_bind; [by apply acts_tell|]. intros _ _.
  destruct probeLedger; [|constructor]. by repeat constructor.
Qed.

Lemma ledgerJob_cfg path cfg : (ledgerJob load NewPool probeLedger path).2 = inl cfg →
  ∃ c0, cfg = applyDefaults c0 ∧ validateLimits cfg = None.
Proof.
  unfold ledgerJob, openPool, mbind, M_bind, lift. cbn.
  destruct (load path) as [c|] eqn:Hl; [|done]. cbn. destruct (ValidateDRLimits c) eqn:Hd; cbn; [done|].
  destruct (NewPool _ _ _); cbn; [done|]. destruct probeLedger; cbn; [done|]. intros [= <-].
  destruct (Load_defaults _ _ _ _ _ Hl) as [c0 ->]. exists c0. split; [done|by apply ValidateDRLimits_limits].
Qed.

(** One step through a command, keeping what its checks established. *)
Ltac bound :=
  first
    [ apply acts_none | apply acts_throw | apply acts_ret | apply acts_check | apply gate_ok | apply scratch_ok | apply ledgerJob_ok
    | apply openPool_ok; lia
    | apply acts_defer; [exact I|]
    | apply acts_tell; exact I
    | apply acts_tells; intros ?; exact I
    | apply acts_bind; [|intros ? ?]
    | progress (case_match; try (constructor; fail)) ].

Lemma loaded_cfg path cfg u : (lift (act := act) (wrapS "load config" (load path))).2 = inl cfg →
  (check (act := act) (wrap "invalid config" (Validate cfg))).2 = inl u → ∃ c0, cfg = applyDefaults c0 ∧ validateLimits cfg = None.
Proof.
  intros Hl%wrapS_inl Hv%check_inl%wrap_None. destruct (Load_defaults _ _ _ _ _ Hl) as [c0 ->].
  exists c0. split; [done|by apply Validate_limits].
Qed.

(** The limits of the configuration a command runs with. *)
Lemma checked_bounds cfg : (∃ c0, cfg = applyDefaults c0 ∧ validateLimits cfg = None) →
  (0 < Concurrency cfg ≤ 1024)%Z ∧ duration_ok (PerObjectTimeout cfg) ∧
  ∀ flag, (0 < resolveConcurrency flag (Concurrency cfg))%Z.
Proof.
  intros (c0 & -> & Hv). destruct (limits_bound c0 Hv). split; [done|]. split; [done|]. intros flag. apply resolveConcurrency_pos.
Qed.

Ltac limits :=
  lazymatch goal with
  | H : (ledgerJob _ _ _ _).2 = inl _ |- _ => destruct (checked_bounds _ (ledgerJob_cfg _ _ H)) as (? & ? & ?)
  | H : (lift _).2 = inl ?c, H' : (check (wrap _ (Validate ?c))).2 = inl _ |- _ =>
      destruct (checked_bounds _ (loaded_cfg _ _ _ H H')) as (? & ? & ?)
  end; auto.

(** Whatever the file and the environment say, including on the recovery paths
    that skip the limit checks, every pool a command opens has a positive size below
    2^31 and a positive statement timeout, every single-object operation has a positive
    deadline, and every sweep has a worker (at most 1024 for the ones a command line
    flag does not size) and a positive per-object deadline. *)
Theorem every_operation_is_bounded i : Forall bounded (perform_ i).1.
Proof.
  change (acts_ok bounded (perform_ i)).
  destruct i; cbn [perform];
    unfold serve, serveCtx, runMigrate, runRestoreObject, runRestoreAll, runRestoreCurrent, runVerify, runReconcile, runBackfill,
      runAudit, runDrill, sourceOp, startupChecks, startHTTP, newLogger, resolveCurrentHash, buildReadSource, signalContext,
      printTargetStoredSizes, printAudit, print;
    repeat bound;
    apply acts_tell; cbn [bounded]; try apply boundedRestoreCtx_ok;
    limits.
Qed.
End bounds.
(** ** Serving *)

Section serve.
Context {client : Type} (minio_New : string → bool → string → string → string → client + err).
Context (load : string → Config + err) (NewPool : string → Z → Z → goerr) (zap_NewProduction : goerr) (net_Listen : Z → goerr)
        (ctx : ctxState) (order1 order2 : list nat) (checkOf : string → attempt goerr * select_arm).

Abbreviation serveCtx_ := (serveCtx minio_New load NewPool zap_NewProduction net_Listen ctx order1 order2 checkOf).

Definition required : list string :=
  ["file-service unreachable"; "outbox not accessible (scoped role / schema?)"; "outbox not writable";
   "ledger not accessible (schema / migrate?)"].

(** Everything the worker needs before it may claim a row. *)
Definition ready (path : string) (cfg : Config) (ts : list (target (client := client))) : Prop :=
  load path = inl cfg ∧ Validate cfg = None ∧ zap_NewProduction = None ∧
  NewPool (Dsn.DSN (AlkemioDB cfg)) (PoolSize cfg 8) (DBTimeout cfg) = None ∧
  NewPool (Dsn.DSN (LedgerDB cfg)) (PoolSize cfg 4) (DBTimeout cfg) = None ∧
  buildTargets minio_New (Targets cfg) = inl ts ∧ net_Listen (MetricsPort cfg) = None ∧
  Service.startupGate order1 order2 ctx (mkCheck checkOf <$> required)
    (mkCheck checkOf ∘ (λ t, "target " +:+ sinkName (tg_sink t)) <$> ts) = None.

(** The trace of a worker that served. *)
Definition served (cfg : Config) : list act :=
  [Acquire Logger;
   OpenPool "alkemio" (Dsn.DSN (AlkemioDB cfg)) (PoolSize cfg 8) (DBTimeout cfg); Acquire (Pool "alkemio");
   OpenPool "ledger" (Dsn.DSN (LedgerDB cfg)) (PoolSize cfg 4) (DBTimeout cfg); Acquire (Pool "ledger");
   Acquire HTTP; Gate required; Acquire Loops; Work (Consume (Concurrency cfg) (PerObjectTimeout cfg));
   Release Loops; shutdown; closePool "ledger"; closePool "alkemio"; syncLog].

Definition idle (acts : list act) : bool := forallb (λ a, match a with Work _ => false | _ => true end) acts.

Ltac stepM := cbn [fst snd wrap wrapS check throw tell mret M_ret defer_ app].

(** C36: the worker starts claiming rows exactly when it is ready: configuration loaded
    and valid, both databases reachable, every sink built, the HTTP surface bound and
    the startup gate passed. It then serves and releases in the stated order and
    returns what the consumer returned; otherwise it does no work and reports an
    error. *)
Theorem serve_works_exactly_when_ready r path :
  (∀ cfg ts, ready path cfg ts →
     serveCtx_ r path = (served cfg, match r with None => inl () | Some e => inr e end)) ∧
  ((¬ ∃ cfg ts, ready path cfg ts) → idle (serveCtx_ r path).1 = true ∧ ∃ e, (serveCtx_ r path).2 = inr e).
Proof.
  unfold serveCtx, newLogger, openPool, startHTTP, startupChecks, startupGate, lift. fold required. split.
  - intros cfg ts (Hl & Hv & Hn & Ha & Hd & Hb & Hp & Hg). unfold mbind, M_bind.
    rewrite Hl. stepM. rewrite Hv, Hn. stepM. rewrite Ha. stepM. rewrite Hd. stepM. rewrite Hb. stepM. rewrite Hp. stepM.
    rewrite Hg. stepM. by destruct r.
  - intros Hno. unfold mbind, M_bind.
    destruct (load path) as [cfg|] eqn:Hl; stepM; [|by eauto].
    destruct (Validate cfg) eqn:Hv; stepM; [by eauto|]. destruct zap_NewProduction eqn:Hn; stepM; [by eauto|].
    destruct (NewPool (Dsn.DSN (AlkemioDB cfg)) _ _) eqn:Ha; stepM; [by eauto|].
    destruct (NewPool (Dsn.DSN (LedgerDB cfg)) _ _) eqn:Hd; stepM; [by eauto|].
    destruct (buildTargets minio_New (Targets cfg)) as [ts|] eqn:Hb; stepM; [|by eauto].
    destruct (net_Listen (MetricsPort cfg)) eqn:Hp; stepM; [by eauto|]. fold required.
    destruct (Service.startupGate _ _ _ _ _) eqn:Hg; stepM; [by eauto|].
    exfalso. apply Hno. exists cfg, ts. unfold ready. rewrite Hn. auto 10.
Qed.
End serve.
End Commands.
