(* ===== verification/CommandLine.v ===== *)
(** * The command line

    [src/cmd/file-backup-service/main.go] from [os.Args] to the exit code: [main] and
    [run], the flag set of every command, [configFlag], the verbs of [restore], and
    the commands of Commands.v they start. [request] is what a command line asks
    for; [read] finds it, [run] performs it.

    Outside the model are arguments: what Commands.v leaves open, the operations a
    command ends in ([ops]) and [uuid.Parse], a package of its own. *)

From S2P Require Import Prelude GoText GoRuntime Ports Circuit Ledger Stream Fanout Pipeline Sweep Reconcile Config Env Dsn Corpus Service Trace Commands.
From S2P Require Import Flags GoTime.
From Stdlib Require Import ZArith Lia.
From Stdlib Require Import Strings.Ascii Strings.String.
From stdpp Require Import base gmap strings list numbers.

Module CommandLine.
Import Flags Trace Commands.

(** ** Flag sets *)

Definition registerConfigFlag (fs : FlagSet) : FlagSet := <["config" := VString "config.yaml"]> fs.

(** What [serve] and [migrate] register. *)
Definition configFlags : FlagSet := registerConfigFlag ∅.

Definition sourceOpFlags (register : FlagSet → FlagSet) : FlagSet :=
  register (<["from" := VString ""]> (<["hash" := VString ""]> (registerConfigFlag ∅))).

Definition restoreObjectFlags : FlagSet := sourceOpFlags (λ fs, <["to" := VString "/storage"]> fs).
Definition verifyFlags : FlagSet := sourceOpFlags id.

Definition restoreAllFlags : FlagSet :=
  <["concurrency" := VInt 0]> (<["to" := VString "/storage"]> (<["from" := VString ""]> (registerConfigFlag ∅))).

Definition restoreCurrentFlags : FlagSet :=
  <["to" := VString "/storage"]> (<["from" := VString ""]> (<["hash" := VString ""]> (<["at" := VString ""]>
    (<["file-id" := VString ""]> (registerConfigFlag ∅))))).

(** [reconcile] and [backfill]. *)
Definition rateFlags : FlagSet := <["rate" := VInt 0]> (registerConfigFlag ∅).

Definition auditFlags : FlagSet := <["inventory" := VBool false]> (<["sample" := VInt 0]> (registerConfigFlag ∅)).

Definition drillFlags (e : Env.env) : FlagSet :=
  <["metrics-file" := VString (default "" (e !! "FBS_DRILL_METRICS_FILE"))]> (<["to" := VString ""]>
    (<["concurrency" := VInt 0]> (<["sample" := VInt 20]> (<["from" := VString ""]> (registerConfigFlag ∅))))).

(** ** Requests *)

Inductive request :=
  | RServe (cfgPath : string)
  | RMigrate (cfgPath : string)
  | RRestoreObject (cfgPath hash from to : string)
  | RRestoreAll (cfgPath from to : string) (concurrency : Z)
  | RRestoreCurrent (cfgPath fileID at_ hash from to : string)
  | RVerify (cfgPath hash from : string)
  | RReconcile (cfgPath : string) (rate : Z)
  | RBackfill (cfgPath : string) (rate : Z)
  | RAudit (cfgPath : string) (sample : Z) (inventory : bool)
  | RDrill (cfgPath from to metricsFile : string) (sample concurrency : Z).

(** The forms of a command line: the word of [run] and the verb of [restore]. *)
Inductive form := FServe | FMigrate | FObject | FAll | FCurrent | FVerify | FReconcile | FBackfill | FAudit | FDrill.

Definition flagsOf (e : Env.env) (f : form) : FlagSet :=
  match f with
  | FServe | FMigrate => configFlags
  | FObject => restoreObjectFlags
  | FAll => restoreAllFlags
  | FCurrent => restoreCurrentFlags
  | FVerify => verifyFlags
  | FReconcile | FBackfill => rateFlags
  | FAudit => auditFlags
  | FDrill => drillFlags e
  end.

(** The values a command reads from its flag set. *)
Definition requestOf (f : form) (fs : FlagSet) : request :=
  let cfg := GetString fs "config" in
  match f with
  | FServe => RServe cfg
  | FMigrate => RMigrate cfg
  | FObject => RRestoreObject cfg (GetString fs "hash") (GetString fs "from") (GetString fs "to")
  | FAll => RRestoreAll cfg (GetString fs "from") (GetString fs "to") (GetInt fs "concurrency")
  | FCurrent => RRestoreCurrent cfg (GetString fs "file-id") (GetString fs "at") (GetString fs "hash") (GetString fs "from") (GetString fs "to")
  | FVerify => RVerify cfg (GetString fs "hash") (GetString fs "from")
  | FReconcile => RReconcile cfg (GetInt fs "rate")
  | FBackfill => RBackfill cfg (GetInt fs "rate")
  | FAudit => RAudit cfg (GetInt fs "sample") (GetBool fs "inventory")
  | FDrill => RDrill cfg (GetString fs "from") (GetString fs "to") (GetString fs "metrics-file") (GetInt fs "sample") (GetInt fs "concurrency")
  end.

(** What a command line comes to. *)
Inductive reading :=
  | Do (r : request)
  | Quit (code : Z)       (* the flag package exits *)
  | Fail_ (e : err)       (* the command returns an error before it parses *)
  | Usage.                (* no command, or an unknown one *)

Definition parseFlags (e : Env.env) (f : form) (args : list string) : reading :=
  match Parse (flagsOf e f) args with
  | Parsed fs _ => Do (requestOf f fs)
  | Exits code => Quit code
  end.

(** The dispatch of [run], and of [runRestore]. *)
Definition dispatch (c : Service.command) (args : list string) : form * list string + err :=
  match c with
  | Service.serve => inl (FServe, args)
  | Service.migrate => inl (FMigrate, args)
  | Service.restore =>
      match Service.runRestore args with
      | inl (Service.RestoreAllVerb, args) => inl (FAll, args)
      | inl (Service.RestoreCurrentVerb, args) => inl (FCurrent, args)
      | inl (Service.RestoreObjectVerb, args) => inl (FObject, args)
      | inr e => inr e
      end
  | Service.verify => inl (FVerify, args)
  | Service.reconcile => inl (FReconcile, args)
  | Service.audit => inl (FAudit, args)
  | Service.backfill => inl (FBackfill, args)
  | Service.drill => inl (FDrill, args)
  end.

Definition read (e : Env.env) (argv : list string) : reading :=
  match argv with
  | _ :: c :: args =>
      match Service.command_of c with
      | None => Usage
      | Some c => match dispatch c args with inl (f, args) => parseFlags e f args | inr x => Fail_ x end
      end
  | _ => Usage
  end.

(** ** Writing a request *)

Definition formOf (r : request) : form :=
  match r with
  | RServe _ => FServe | RMigrate _ => FMigrate | RRestoreObject _ _ _ _ => FObject | RRestoreAll _ _ _ _ => FAll
  | RRestoreCurrent _ _ _ _ _ _ => FCurrent | RVerify _ _ _ => FVerify | RReconcile _ _ => FReconcile
  | RBackfill _ _ => FBackfill | RAudit _ _ _ => FAudit | RDrill _ _ _ _ _ _ => FDrill
  end.

(** Every option of a request, with its value. *)
Definition optionsOf (r : request) : list (string * value) :=
  match r with
  | RServe p | RMigrate p => [("config", VString p)]
  | RRestoreObject p h f t => [("config", VString p); ("hash", VString h); ("from", VString f); ("to", VString t)]
  | RRestoreAll p f t c => [("config", VString p); ("from", VString f); ("to", VString t); ("concurrency", VInt c)]
  | RRestoreCurrent p id a h f t =>
      [("config", VString p); ("file-id", VString id); ("at", VString a); ("hash", VString h); ("from", VString f); ("to", VString t)]
  | RVerify p h f => [("config", VString p); ("hash", VString h); ("from", VString f)]
  | RReconcile p r | RBackfill p r => [("config", VString p); ("rate", VInt r)]
  | RAudit p s i => [("config", VString p); ("sample", VInt s); ("inventory", VBool i)]
  | RDrill p f t m s c =>
      [("config", VString p); ("from", VString f); ("to", VString t); ("metrics-file", VString m); ("sample", VInt s); ("concurrency", VInt c)]
  end.

(** The words before the options; [restore] alone, before an option, is [restore
    object]. *)
Definition wordsOf (f : form) (opts : list (style * string * value)) : list (list string) :=
  match f with
  | FServe => [["serve"]] | FMigrate => [["migrate"]]
  | FObject => ["restore"; "object"] :: match opts with [] => [] | _ => [["restore"]] end
  | FAll => [["restore"; "all"]] | FCurrent => [["restore"; "current"]]
  | FVerify => [["verify"]] | FReconcile => [["reconcile"]] | FBackfill => [["backfill"]] | FAudit => [["audit"]] | FDrill => [["drill"]]
  end.

Definition named (o : style * string * value) : string * value := (o.1.2, o.2).

(** The options written are the request's; those left out have their default. *)
Definition writes (e : Env.env) (r : request) (opts : list (style * string * value)) : Prop :=
  Forall (λ o, named o ∈ optionsOf r) opts ∧
  Forall (λ '(n, v), (n, v) ∈ named <$> opts ∨ flagsOf e (formOf r) !! n = Some v) (optionsOf r).

(** What may follow the options: nothing, or a word or [--] and anything. *)
Definition trails (l : list string) : Prop :=
  match l with [] => True | w :: _ => word w ∨ w = "--" end.

Lemma optionsOf_NoDup r : NoDup (optionsOf r).*1.
Proof. destruct r; cbn; rewrite !list.NoDup_cons, ?elem_of_cons, ?elem_of_nil; repeat split; try constructor; intros H; repeat destruct H as [H|H]; done. Qed.

Lemma optionsOf_functional r n v w : (n, v) ∈ optionsOf r → (n, w) ∈ optionsOf r → v = w.
Proof.
  intros Hv Hw. pose proof (optionsOf_NoDup r) as Hn. revert Hv Hw Hn. generalize (optionsOf r). intros l.
  induction l as [|[n' x] l IH]; intros Hv Hw Hn; [by apply elem_of_nil in Hv|]. cbn in Hn. apply list.NoDup_cons in Hn as [Hn' Hn].
  assert (∀ y, (n', y) ∉ l) as Hx by (intros y Hy; apply Hn'; apply list_elem_of_fmap; by exists (n', y)).
  apply elem_of_cons in Hv as [Hv|Hv]; apply elem_of_cons in Hw as [Hw|Hw]; simplify_eq; try done.
  - by destruct (Hx w). - by destruct (Hx v). - by apply IH.
Qed.

Lemma assign_lookup opts fs n v : (∀ w, (n, w) ∈ named <$> opts → w = v) → ((n, v) ∈ named <$> opts ∨ fs !! n = Some v) →
  assign opts fs !! n = Some v.
Proof.
  revert fs. induction opts as [|[[st n'] w] opts IH]; intros fs Hf Hin; [by destruct Hin as [Hin%elem_of_nil|]|].
  unfold assign. cbn [foldl]. apply IH; [intros x Hx; apply Hf; cbn; by apply elem_of_cons; right|].
  cbn [fmap list_fmap] in Hin. destruct (decide (n' = n)) as [->|Hne].
  - right. rewrite lookup_insert_eq. f_equal. apply Hf. cbn. apply elem_of_cons. by left.
  - destruct Hin as [Hin|Hin]; [|right; by rewrite lookup_insert_ne]. left. apply elem_of_cons in Hin as [Hin|Hin]; [|done].
    unfold named in Hin. cbn in Hin. congruence.
Qed.

(** A request's options are options of its flag set. *)
Lemma optionsOf_options e r n v st : (n, v) ∈ optionsOf r → fits v → option_of (flagsOf e (formOf r)) (st, n, v).
Proof.
  intros Hin Hf. unfold option_of. cut (flag_name n ∧ ∃ old, flagsOf e (formOf r) !! n = Some old ∧ kind_eq old v = true); [tauto|].
  clear Hf. destruct r; cbn [optionsOf] in Hin;
    repeat (apply elem_of_cons in Hin as [Hin|Hin]; [injection Hin as -> ->; split; [done|eexists; split; [vm_compute; reflexivity|done]]|]);
    by apply elem_of_nil in Hin.
Qed.

(** A flag set that holds a request's options reads as the request. *)
Lemma requestOf_lookup r fs : Forall (λ '(n, v), fs !! n = Some v) (optionsOf r) → requestOf (formOf r) fs = r.
Proof.
  destruct r; cbn [optionsOf formOf]; rewrite !list.Forall_cons; intros H; unfold requestOf, GetString, GetInt, GetBool;
    repeat match goal with H : _ ∧ _ |- _ => destruct H | H : fs !! _ = _ |- _ => rewrite H; clear H end; done.
Qed.

Lemma render_head o opts : ∃ s l, render (o :: opts) = String "-" s :: l.
Proof. destruct o as [[[[] []] n] v]; unfold render, render_option; cbn; try destruct (IsBoolFlag v); cbn; eauto. Qed.

Lemma Parse_trails fs l : trails l → ∃ rest, Parse fs l = Parsed fs rest.
Proof.
  destruct l as [|w l]; [by exists []|]. intros [Hw | ->]; [exists (w :: l); by apply Parse_word|exists l].
  apply Parse_exact. constructor.
Qed.

(** ** Suffixes *)

Lemma Exists_drop {A} (P : A → Prop) k l : Exists P (drop k l) → Exists P l.
Proof. intros Hx. rewrite <- (take_drop k l). apply Exists_app. by right. Qed.

Lemma parseOne_suffix fs args fs' args' : parseOne fs args = Seen fs' args' → ∃ k, args' = drop k args.
Proof.
  destruct args as [|s args]; [done|]. cbn [parseOne]. destruct (terminator s); [done|]. destruct (dashes s) as [arg|]; [|done].
  unfold parse_name. destruct (bad_name arg); [done|]. destruct (split_value arg) as [name o]. destruct (fs !! name); [|by case_match].
  destruct o; [intros (? & _ & _ & ->)%set_flag_Seen; by exists 1|].
  case_match; [intros (? & _ & _ & ->)%set_flag_Seen; by exists 1|].
  destruct args; [done|]. intros (? & _ & _ & ->)%set_flag_Seen. by exists 2.
Qed.

Lemma dispatch_suffix c args f args' : dispatch c args = inl (f, args') → ∃ k, args' = drop k args.
Proof.
  destruct c; cbn [dispatch]; try (intros [= _ <-]; by exists 0). unfold Service.runRestore.
  destruct args as [|a rest]; [intros [= _ <-]; by exists 0|].
  repeat case_bool_decide; try (intros [= _ <-]; by exists 1); destruct a; try case_bool_decide;
    try done; intros [= _ <-]; by exists 0.
Qed.

(** ** Actions of a program *)

Lemma in_openPool a NewPool dsn size timeout label : a ∈ (openPool NewPool dsn size timeout label).1 → ∀ w, a ≠ Work w.
Proof.
  intros Ha w ->. unfold openPool in Ha. apply in_bind in Ha as [Ha|(? & _ & Ha)]; [by apply in_check in Ha|].
  apply in_bind in Ha as [Ha|(? & _ & Ha)]; by apply in_tell in Ha.
Qed.

(** What [resolveCurrentHash] returns is what the guard returned, and it does no work. *)
Lemma resolveCurrentHash_returns NewPool cfg probe row at_ h :
  (resolveCurrentHash NewPool cfg probe row at_).2 = inl h →
  ∃ opened, Corpus.resolveCurrentHash cfg opened probe row at_ = inl h.
Proof.
  unfold resolveCurrentHash. destruct (Config.DBValidate _); [cbn; eauto|]. unfold openPool, mbind, M_bind.
  destruct (NewPool _ _ _) eqn:Hn; cbn; [done|]. eauto.
Qed.

Lemma resolveCurrentHash_no_work NewPool cfg probe row at_ w : Work w ∉ (resolveCurrentHash NewPool cfg probe row at_).1.
Proof.
  unfold resolveCurrentHash. destruct (Config.DBValidate _); [apply in_lift|]. intros Ha.
  apply in_bind in Ha as [Ha|(? & _ & Ha)]; [by eapply in_openPool in Ha|].
  apply in_defer in Ha as [Ha|Ha]; [by apply in_lift in Ha|done].
Qed.

(** ** The process *)

(** The wrapped commands: a cancelled drain is a clean end. *)
Definition drains (argv : list string) : bool :=
  match argv with
  | _ :: c :: _ => match Service.command_of c with Some (Service.serve | Service.reconcile | Service.backfill) => true | _ => false end
  | _ => false
  end.

Definition usage : act :=
  Stderr "usage: file-backup-service <serve|migrate|restore|verify|reconcile|audit|backfill|drill> [flags]" None.

(** What [run] does with the error a command returned. *)
Definition finish (argv : list string) (m : M unit) : list act * Z :=
  let err := match m.2 with inl _ => None | inr e => Some e end in
  match (if drains argv then Service.onShutdownOK err else err) with
  | Some e => (m.1 ++ [Stderr "error:" (Some e)], 1%Z)
  | None => (m.1, 0%Z)
  end.

Lemma in_finish a argv m : a ∈ (finish argv m).1 → a ∈ m.1 ∨ ∃ x, a = Stderr "error:" x.
Proof.
  unfold finish. destruct (if drains argv then _ else _); cbn [fst]; [|by left].
  rewrite elem_of_app, list_elem_of_singleton. intros [?| ->]; eauto.
Qed.

Section process.
Context {client : Type} (minio_New : string → bool → string → string → string → client + err).
Context (load : string → Config.Config + err) (NewPool : string → Z → Z → goerr) (zap_NewProduction : goerr) (net_Listen : Z → goerr)
        (ctx : ctxState) (order1 order2 : list nat) (checkOf : string → attempt goerr * select_arm)
        (probeLedger : goerr) (ProbeWritable MkdirTemp : string → goerr) (Migrate : string → goerr).
Context (uuid_Parse : string → string + err) (e : Env.env).

Abbreviation source := (Env.sink client * string * bool)%type.
Abbreviation verdicts := (list Verdict.Verdict.TargetVerdict).

(** The operations the commands end in. *)
Record ops := MkOps {
  op_consume : goerr;
  op_RestoreObject : source → string → string → goerr;
  op_VerifyObject : source → string → goerr;
  op_counts : list string → gmap string Z + err;
  op_RestoreAll : source → Sweep.RestoreAllStats * goerr;
  op_probeFile : goerr;
  op_row : string → (option string * option Z) + err;
  op_shown : Z → string;
  op_Reconcile : Z → list (target (client := client)) → Reconcile.ReconcileStats * goerr;
  op_Backfill : Z → list (target (client := client)) → Sweep.BackfillStats * goerr;
  op_Audit : Z → list (target (client := client)) → verdicts * verdicts * verdicts;
  op_Drill : Z → source → Sweep.DrillOutcome * goerr;
}.

(** [time.Parse(time.RFC3339, at)]. *)
Definition time_Parse (at_ : string) : Z + err :=
  match GoTime.Parse at_ with Some t => inl t | None => inr (Msg "parsing time") end.

Definition invocationOf (o : ops) (r : request) : invocation (client := client) :=
  match r with
  | RServe p => IServe (op_consume o) p
  | RMigrate p => IMigrate p
  | RRestoreObject p h f t => IRestoreObject (op_RestoreObject o) p h f t
  | RRestoreAll p f t c => IRestoreAll (op_counts o) (op_RestoreAll o) p f t c
  | RRestoreCurrent p id a h f t =>
      IRestoreCurrent (op_RestoreObject o) (op_probeFile o) (op_row o) (op_shown o) p id a h f t (uuid_Parse id) (time_Parse a)
  | RVerify p h f => IVerify (op_VerifyObject o) p h f
  | RReconcile p r => IReconcile (op_Reconcile o r) p r
  | RBackfill p r => IBackfill (op_Backfill o r) p r
  | RAudit p s i => IAudit (op_Audit o s) p s i
  | RDrill p f t m s c => IDrill (op_Drill o s) p f t m s c
  end.

Definition perform_ (i : invocation) : M unit :=
  perform minio_New load NewPool zap_NewProduction net_Listen ctx order1 order2 checkOf probeLedger ProbeWritable MkdirTemp Migrate i.

(** [run]: the actions and the exit code; [main] exits with it. *)
Definition run (o : ops) (argv : list string) : list act * Z :=
  match read e argv with
  | Do r => finish argv (perform_ (invocationOf o r))
  | Quit code => ([], code)
  | Fail_ x => finish argv (throw x)
  | Usage => ([usage], 2%Z)
  end.

(** The exit code is the one [Service.run] gives the command's error. *)
Lemma run_code o argv r : read e argv = Do r →
  (run o argv).2 = Service.run argv (λ _ _, match (perform_ (invocationOf o r)).2 with inl _ => None | inr x => Some x end).
Proof.
  intros Hr. unfold run. rewrite Hr. unfold finish, drains, read in *.
  destruct argv as [|p [|c args]]; [done..|]. cbn [Service.run]. destruct (Service.command_of c) as [c'|]; [|done].
  destruct (perform_ _).2, c'; try done; unfold Service.onShutdownOK; by destruct (errors_Is _ _).
Qed.

Lemma finish_holding argv m : holding m.1 [] = Some [] → holding (finish argv m).1 [] = Some [].
Proof. intros Hm. unfold finish. destruct (if drains argv then _ else _); cbn [fst]; [|done]. by rewrite holding_app, Hm. Qed.


(** ** Accepted command lines *)

(** A command line the grammar derives, and what it asks for. *)
Definition accepts (argv : list string) (r : request) : Prop :=
  ∃ prog c cmd args f args' fs rest,
    argv = prog :: c :: args ∧ Service.command_of c = Some cmd ∧ dispatch cmd args = inl (f, args') ∧
    flags (flagsOf e f) args' fs rest ∧ r = requestOf f fs.

Lemma read_accepts argv r : read e argv = Do r ↔ accepts argv r.
Proof.
  split.
  - destruct argv as [|p [|c args]]; [done..|]. cbn [read]. destruct (Service.command_of c) as [cmd|] eqn:Hc; [|done].
    destruct (dispatch cmd args) as [[f args']|] eqn:Hd; [|done]. unfold parseFlags.
    destruct (Parse _ _) as [fs rest|] eqn:Hp; [|done]. intros [= <-]. apply Parse_exact in Hp.
    exists p, c, cmd, args, f, args', fs, rest. done.
  - intros (p & c & cmd & args & f & args' & fs & rest & -> & Hc & Hd & Hf & ->). cbn [read]. rewrite Hc, Hd.
    unfold parseFlags. apply Parse_exact in Hf. by rewrite Hf.
Qed.

(** An argument that asks for help. *)
Definition asks_help (a : string) : Prop := ∃ arg, dashes a = Some arg ∧ (split_value arg).1 ∈ ["help"; "h"].

Lemma Exits_code fs args code : Parse fs args = Exits code → code = 2%Z ∨ (code = 0%Z ∧ Exists asks_help args).
Proof.
  remember (length args) as n eqn:Hn. revert fs args Hn. induction n as [n IH] using lt_wf_ind. intros fs args ->.
  rewrite Parse_step. destruct (parseOne fs args) as [fs1 args1|r|x] eqn:E; [|done|].
  - intros Hp. pose proof (parseOne_shorter _ _ _ _ E) as Hs. destruct (IH _ Hs fs1 args1 eq_refl Hp) as [?|[? Hx]]; [by left|right].
    split; [done|]. destruct (parseOne_suffix _ _ _ _ E) as [k ->]. by apply Exists_drop in Hx.
  - intros [= <-]. destruct x as [|m]; [right|by left]. split; [done|]. destruct args as [|s args]; [done|]. cbn [parseOne] in E.
    destruct (terminator s); [done|]. destruct (dashes s) as [arg|] eqn:Hd; [|done]. left. exists arg. split; [done|].
    unfold parse_name, set_flag in E. destruct (bad_name arg); [done|]. destruct (split_value arg) as [name o]. cbn [fst].
    destruct (fs !! name); [by repeat case_match|]. do 2 case_bool_decide; subst; try done; set_solver.
Qed.

(** C26: every request can be written as a command line and is read back from it:
    its options in any order, with one dash or two, each value joined with an equals
    sign or in the next argument, an option left out where it has its default. What
    follows the first word after the options is not looked at, flags included. *)
Theorem command_line_roundtrip r prog words opts trail :
  Forall fits (optionsOf r).*2 → writes e r opts → words ∈ wordsOf (formOf r) opts → trails trail →
  read e (prog :: words ++ render opts ++ trail) = Do r.
Proof.
  intros Hfit [Hopts Hall] Hw Ht.
  assert (parseFlags e (formOf r) (render opts ++ trail) = Do r) as Hp.
  { unfold parseFlags. rewrite Parse_rendered.
    - destruct (Parse_trails (assign opts (flagsOf e (formOf r))) trail Ht) as [rest ->]. f_equal. apply requestOf_lookup.
      apply list.Forall_forall. intros [n v] Hin. apply assign_lookup.
      + intros w Hw'. apply list_elem_of_fmap in Hw' as (o & Ho & Hin'). rewrite list.Forall_forall in Hopts.
        specialize (Hopts o Hin'). rewrite <- Ho in Hopts. by eapply optionsOf_functional.
      + rewrite list.Forall_forall in Hall. by apply (Hall (n, v)).
    - eapply list.Forall_impl; [exact Hopts|]. intros [[st n] v] Hin. apply optionsOf_options; [done|].
      rewrite list.Forall_forall in Hfit. apply Hfit. apply list_elem_of_fmap. by exists (n, v). }
  destruct r; try (cbn in Hw; apply list_elem_of_singleton in Hw; subst words; exact Hp).
  destruct opts as [|o opts]; cbn [formOf wordsOf] in Hw; [apply list_elem_of_singleton in Hw; subst words; exact Hp|].
  apply elem_of_cons in Hw as [->|Hw]; [exact Hp|]. apply list_elem_of_singleton in Hw as ->.
  destruct (render_head o opts) as (s & l & Hs). rewrite Hs in Hp |- *. exact Hp.
Qed.

(** Only a command line of the grammar starts a command, and it starts the one
    it names with the values it gives. Any other writes at most to standard error,
    touches nothing, and exits with 2, with 1 for an unknown verb of [restore], or
    with 0 where an argument asks for help. *)
Theorem only_accepted_lines_act o argv :
  (∀ r, accepts argv r → run o argv = finish argv (perform_ (invocationOf o r))) ∧
  ((¬ ∃ r, accepts argv r) →
    Forall (λ a, match a with Stderr _ _ => True | _ => False end) (run o argv).1 ∧
    ((run o argv).2 = 2%Z ∨ (run o argv).2 = 1%Z ∨ ((run o argv).2 = 0%Z ∧ Exists asks_help argv))).
Proof.
  split.
  - intros r Hr%read_accepts. unfold run. by rewrite Hr.
  - intros Hno. unfold run. destruct (read e argv) as [r|code|x|] eqn:Hr.
    + destruct Hno. exists r. by apply read_accepts.
    + split; [constructor|]. destruct argv as [|p [|c args]]; [done..|]. cbn [read] in Hr.
      destruct (Service.command_of c) as [cmd|]; [|done]. destruct (dispatch cmd args) as [[f args']|] eqn:Hd; [|done].
      unfold parseFlags in Hr. destruct (Parse _ _) eqn:Hp; [done|]. injection Hr as ->.
      destruct (Exits_code _ _ _ Hp) as [->|[-> Hx]]; [by left|]. right; right. split; [done|].
      do 2 right. destruct (dispatch_suffix _ _ _ _ Hd) as [k ->]. by apply Exists_drop in Hx.
    + destruct argv as [|p [|c args]]; [done..|]. cbn [read] in Hr. unfold finish, drains.
      destruct (Service.command_of c) as [cmd|] eqn:Hc; [|done]. destruct cmd; cbn [dispatch] in Hr; unfold parseFlags in Hr;
        try (by case_match). cbn [throw fst snd app]. split; [by repeat constructor|auto].
    + split; [by repeat constructor|by left].
Qed.

(** What [restore current] restores, and what it knew of it. *)
Lemma runRestoreCurrent_work op probe row shown p id a ho f to fid at_ w :
  Work w ∈ (runRestoreCurrent minio_New load NewPool op probe row shown p id a ho f to fid at_).1 →
  ∃ fid' at' cfg h b, fid = inl fid' ∧ at_ = inl at' ∧ load p = inl cfg ∧ w = RestoreOne h to b ∧
    ((ho ≠ "" ∧ h = ho) ∨ (ho = "" ∧ (resolveCurrentHash NewPool cfg probe (row fid') at').2 = inl h)).
Proof.
  unfold runRestoreCurrent. destruct (_ || _); [by intros Ha%elem_of_nil|]. intros Ha.
  apply in_bind in Ha as [Ha|(fid' & Hf & Ha)]; [by apply in_lift in Ha|]. apply wrapS_inl in Hf.
  apply in_bind in Ha as [Ha|(at' & Ht & Ha)]; [by apply in_lift in Ha|]. apply wrapS_inl in Ht.
  apply in_bind in Ha as [Ha|(cfg & Hl & Ha)]; [by apply in_lift in Ha|]. apply wrapS_inl in Hl.
  apply in_bind in Ha as [Ha|(src & _ & Ha)]; [by apply in_lift in Ha|].
  apply in_bind in Ha as [Ha|(_ & _ & Ha)]; [by apply in_tell in Ha|]. apply in_defer in Ha as [Ha|Ha]; [|done].
  apply in_bind in Ha as [Ha|(h & Hh & Ha)].
  { case_bool_decide; [by apply resolveCurrentHash_no_work in Ha|by apply elem_of_nil in Ha]. }
  exists fid', at', cfg, h. apply in_bind in Ha as [Ha|(_ & _ & Ha)]; [by apply in_tell in Ha|].
  apply in_defer in Ha as [Ha|Ha]; [|done]. apply in_bind in Ha as [Ha|(_ & _ & Ha)].
  - apply in_tell in Ha as [= ->]. eexists. split_and!; [done..|]. case_bool_decide; [by right|left]. by injection Hh as <-.
  - apply in_bind in Ha as [Ha|(_ & _ & Ha)]; [by apply in_check in Ha|by apply in_tell in Ha].
Qed.

(** C27: [restore current] restores only the version of the file that was in effect at
    the instant its [--at] argument names. For any table of files and any history its
    row is the last state of, the object it asks the target for is the one the history
    has at that instant, though the argument may be in any zone; with [--hash] it is
    the given hash, to the directory given. *)
Theorem restore_current_is_in_effect o argv p id a ho f to tbl key w :
  read e argv = Do (RRestoreCurrent p id a ho f to) → (∀ fid, op_row o fid = Corpus.read_row tbl (key fid)) →
  Work w ∈ (run o argv).1 →
  ∃ h b, w = RestoreOne h to b ∧
    (ho ≠ "" → h = ho) ∧
    (ho = "" → ∃ fid at_ row, uuid_Parse id = inl fid ∧ GoTime.Parse a = Some at_ ∧ tbl !! key fid = Some row ∧
       Corpus.f_externalID row = Some h ∧ ∀ history, Corpus.shows row history → Corpus.in_effect history at_ = Some h).
Proof.
  intros Hr Hrow Ha. unfold run in Ha. rewrite Hr in Ha. apply in_finish in Ha as [Ha|(? & ?)]; [|done].
  apply runRestoreCurrent_work in Ha as (fid & at_ & cfg & h & b & Hf & Ht & _ & -> & Hh).
  exists h, b. split; [done|]. destruct Hh as [[Hne ->]|[-> Hh]]; [done|]. split; [done|]. intros _.
  apply resolveCurrentHash_returns in Hh as [opened Hh]. rewrite Hrow in Hh.
  destruct (Corpus.resolveCurrentHash_in_effect cfg opened (op_probeFile o) tbl (key fid) at_) as [Hin _].
  destruct (Hin h Hh) as (row & u & Hl & Hx & _ & _ & _ & Hall). unfold time_Parse in Ht.
  destruct (GoTime.Parse a) as [t|] eqn:Hp; [|done]. injection Ht as ->. eauto 10.
Qed.
End process.

Section limits.
Context {client : Type} (minio_New : string → bool → string → string → string → client + err).
Context (ReadFile : string → string + err) (Unmarshal : string → Config.Config + err) (e : Env.env).
Context (NewPool : string → Z → Z → goerr) (zap_NewProduction : goerr) (net_Listen : Z → goerr)
        (ctx : ctxState) (order1 order2 : list nat) (checkOf : string → attempt goerr * select_arm)
        (probeLedger : goerr) (ProbeWritable MkdirTemp : string → goerr) (Migrate : string → goerr) (uuid_Parse : string → string + err).

(** C38: whatever the arguments, the configuration file and the environment say,
    including on the recovery paths that skip the limit checks, every pool the process
    opens has a positive size below 2^31 and a positive statement timeout, every
    single-object operation has a positive deadline, and every sweep has a worker (at
    most 1024 for the ones a flag does not size) and a positive per-object deadline. *)
Theorem process_is_bounded o argv :
  Forall bounded (run minio_New (Env.Load ReadFile Unmarshal e) NewPool zap_NewProduction net_Listen ctx order1 order2 checkOf
                    probeLedger ProbeWritable MkdirTemp Migrate uuid_Parse e o argv).1.
Proof.
  apply list.Forall_forall. intros a Ha. unfold run in Ha. destruct (read e argv) as [r|code|x|].
  - apply in_finish in Ha as [Ha|[? ->]]; [|exact I]. pose proof (every_operation_is_bounded minio_New ReadFile Unmarshal e NewPool
      zap_NewProduction net_Listen ctx order1 order2 checkOf probeLedger ProbeWritable MkdirTemp Migrate (invocationOf uuid_Parse o r)) as Hb.
    rewrite list.Forall_forall in Hb. by apply Hb.
  - by apply elem_of_nil in Ha.
  - apply in_finish in Ha as [Ha|[? ->]]; [by apply elem_of_nil in Ha|exact I].
  - apply list_elem_of_singleton in Ha as ->. exact I.
Qed.
End limits.

(** ** Examples *)

Definition short : style := MkStyle false false.
Definition long : style := MkStyle true true.

Lemma command_line_roundtrip_witness :
  read ∅ ["fbs"; "audit"; "-sample"; "5"; "--inventory=true"; "stray"; "--sample"; "9"] = Do (RAudit "config.yaml" 5 true) ∧
  read ∅ ["fbs"; "restore"; "-hash"; "-x"; "--from=a"] = Do (RRestoreObject "config.yaml" "-x" "a" "/storage").
Proof.
  split.
  - apply (command_line_roundtrip ∅ (RAudit "config.yaml" 5 true) "fbs" ["audit"]
      [(short, "sample", VInt 5); (long, "inventory", VBool true)] ["stray"; "--sample"; "9"]).
    + repeat constructor; done.
    + split; [apply list.Forall_forall; intros o Ho; cbn in Ho|];
        [repeat (apply elem_of_cons in Ho as [->|Ho]; [set_solver|]); by apply elem_of_nil in Ho|].
      repeat constructor; vm_compute; set_solver.
    + set_solver.
    + by left.
  - apply (command_line_roundtrip ∅ (RRestoreObject "config.yaml" "-x" "a" "/storage") "fbs" ["restore"]
      [(short, "hash", VString "-x"); (long, "from", VString "a")] []).
    + repeat constructor; done.
    + split; [apply list.Forall_forall; intros o Ho; cbn in Ho|];
        [repeat (apply elem_of_cons in Ho as [->|Ho]; [set_solver|]); by apply elem_of_nil in Ho|].
      repeat constructor; vm_compute; set_solver.
    + set_solver.
    + exact I.
Defined.

(** The defaults the documentation gives. *)
Example documented_defaults :
  read ∅ ["fbs"; "drill"] = Do (RDrill "config.yaml" "" "" "" 20 0) ∧
  read {["FBS_DRILL_METRICS_FILE" := "m.prom"]} ["fbs"; "drill"; "--sample=0"] = Do (RDrill "config.yaml" "" "" "m.prom" 0 0) ∧
  read ∅ ["fbs"; "restore"; "all"; "--from"; "a"] = Do (RRestoreAll "config.yaml" "a" "/storage" 0) ∧
  read ∅ ["fbs"; "restore"; "version"; "--at"; "y"] = Fail_ (Msg "unknown restore subcommand") ∧
  read ∅ ["fbs"; "serve"; "--cfg"; "x"] = Quit 2 ∧ read ∅ ["fbs"; "serve"; "-h"] = Quit 0 ∧ read ∅ ["fbs"] = Usage.
Proof. vm_compute. auto 10. Qed.

(** A stray word drops every flag after it: this restores to the default directory
    from the default source. *)
Example flags_after_a_word :
  read ∅ ["fbs"; "restore"; "all"; "now"; "--from"; "offsite"; "--to"; "/mnt"] = Do (RRestoreAll "config.yaml" "" "/storage" 0).
Proof. vm_compute. reflexivity. Qed.

Definition ex_ops : ops (client := unit) :=
  MkOps None (λ _ _ _, None) (λ _ _, None) (λ _, inl ∅) (λ _, (Sweep.zeroRestore, None)) None
    (λ _, Corpus.read_row Corpus.ex_table 7) (λ _, "") (λ _ _, (Reconcile.zeroReconcile, None)) (λ _ _, (Sweep.zeroBackfill, None))
    (λ _ _, ([], [], [])) (λ _ _, (Sweep.zeroDrill, None)).

Definition ex_run (argv : list string) : list act * Z :=
  run (λ _ _ _ _ _, inl ()) (λ _, inl Corpus.ex_cfg) (λ _ _ _, None) None (λ _, None) None [] [] (λ _, (Returns None, ArmResult))
    None (λ _, None) (λ _, None) (λ _, None) inl ∅ ex_ops argv.

Definition ex_current : list string := ["fbs"; "restore"; "current"; "--file-id"; "u"; "--at=0001-01-01T01:00:00+00:59"].

Example ex_current_runs : Work (RestoreOne "aa" "/storage" 1800000000000) ∈ (ex_run ex_current).1 ∧ (ex_run ex_current).2 = 0%Z.
Proof. vm_compute. split; [do 5 right; left|reflexivity]. Qed.

Lemma restore_current_is_in_effect_witness :
  ∃ row, Corpus.ex_table !! 7%N = Some row ∧ ∀ history, Corpus.shows row history → Corpus.in_effect history 60000000000 = Some "aa".
Proof.
  destruct (restore_current_is_in_effect (λ _ _ _ _ _, inl ()) (λ _, inl Corpus.ex_cfg) (λ _ _ _, None) None (λ _, None) None [] []
    (λ _, (Returns None, ArmResult)) None (λ _, None) (λ _, None) (λ _, None) inl ∅ ex_ops ex_current
    "config.yaml" "u" "0001-01-01T01:00:00+00:59" "" "" "/storage" Corpus.ex_table (λ _, 7%N) (RestoreOne "aa" "/storage" 1800000000000))
    as (h & b & Hw & _ & Hin).
  - vm_compute. reflexivity.
  - reflexivity.
  - apply ex_current_runs.
  - injection Hw as <- _. destruct (Hin eq_refl) as (fid & at_ & row & Hf & Ht & Hl & _ & Hall). exists row. split; [exact Hl|].
    vm_compute in Ht. injection Ht as <-. exact Hall.
Defined.
End CommandLine.
