(* ===== verification/Lease.v ===== *)
(** * Contexts and the claim's lease

    The consumer's settings and deadlines: [Deps], [New], [opCtx] and the intervals of
    [poll] and [reap] ([src/internal/adapter/inbound/consumer/consumer.go]),
    [DetachedBookkeepingCtx] ([src/internal/domain/backup.go]), and the contexts of Go
    they are made of. A time is a [Z] of nanoseconds.

    A claim is a lease: the reaper takes a row back once it has been in progress
    longer than [StaleTTL]. The theorem compares that with the time a worker that obeys
    its deadlines can hold the row. *)

From S2P Require Import Prelude GoRuntime Ports Outbox Circuit Fanout Sweep Config.
From Stdlib Require Import ZArith Lia.
From stdpp Require Import base gmap strings list numbers.

Module Lease.
Import Sweep(second).
#[local] Open Scope Z_scope.

(** ** Contexts *)

(** A context by its deadline and the time it is cancelled, if ever. *)
Record context := MkContext { deadline : option Z; cancelledAt : option Z }.

Definition WithTimeout (now d : Z) (c : context) : context :=
  MkContext (Some (match deadline c with Some x => Z.min x (now + d) | None => now + d end)) (cancelledAt c).

Definition WithoutCancel (c : context) : context := MkContext None None.

Definition DetachedBookkeepingCtx (now : Z) (c : context) : context :=
  WithTimeout now Config.BookkeepingTimeout (WithoutCancel c).

(** A call made at [t] under [c] that heeds its deadline is over at [t']. *)
Definition over_by (c : context) (t t' : Z) : Prop := t ≤ t' ∧ ∀ x, deadline c = Some x → t' ≤ Z.max t x.

(** ** The consumer *)

Inductive logger := ZapNop | ZapProduction.

Record Deps := MkDeps {
  Concurrency : Z; PollEvery : Z; StaleTTL : Z; PerObjectTimeout : Z; DBTimeout : Z;
  Logger : option logger;
}.

(** [New]: only the logger has a default. *)
Definition New (d : Deps) : Deps :=
  MkDeps (Concurrency d) (PollEvery d) (StaleTTL d) (PerObjectTimeout d) (DBTimeout d)
    (match Logger d with None => Some ZapNop | l => l end).

(** The consumer [serveCtx] makes. *)
Definition serveDeps (cfg : Config.Config) : Deps :=
  New (MkDeps (Config.Concurrency cfg) (Config.PollEvery cfg) (Config.StaleTTL cfg) (Config.PerObjectTimeout cfg)
         (Config.DBTimeout cfg) (Some ZapProduction)).

Definition opCtx (d : Deps) (now : Z) (c : context) : context :=
  if 0 <? DBTimeout d then WithTimeout now (DBTimeout d) c else c.

Definition pollInterval (d : Deps) : Z := if PollEvery d <=? 0 then second else PollEvery d.
Definition reapInterval (d : Deps) : Z := Z.max (Z.quot (StaleTTL d) 4) (60 * second).

(** [backoff] at [now]: a second, or less when the context ends first. *)
Definition backoff (now : Z) (c : context) : Z :=
  let t := now + second in
  let t := match deadline c with Some x => Z.min t (Z.max now x) | None => t end in
  match cancelledAt c with Some x => Z.min t (Z.max now x) | None => t end.

(** ** One object *)

(** When the claim was sent, took effect and was answered, when the stores were over,
    the ledger record and the outbox write. *)
Record timeline := MkTL { t_sent : Z; t_claimed : Z; t_replied : Z; t_stored : Z; t_recorded : Z; t_settled : Z }.

(** [claimStep], [process], [BackupOne] and [settle] with every call heeding the
    context it is given. *)
Definition obeys (d : Deps) (ctx : context) (l : timeline) : Prop :=
  t_sent l ≤ t_claimed l ≤ t_replied l ∧
  over_by (opCtx d (t_sent l) ctx) (t_sent l) (t_replied l) ∧
  over_by (WithTimeout (t_replied l) (PerObjectTimeout d) ctx) (t_replied l) (t_stored l) ∧
  over_by (DetachedBookkeepingCtx (t_stored l) ctx) (t_stored l) (t_recorded l) ∧
  over_by (DetachedBookkeepingCtx (t_recorded l) ctx) (t_recorded l) (t_settled l).

(** How long after the answer the row may still be in progress. *)
Lemma settling_time d ctx l : 0 ≤ PerObjectTimeout d → obeys d ctx l →
  t_settled l ≤ t_replied l + PerObjectTimeout d + 2 * Config.BookkeepingTimeout.
Proof.
  intros Hp (_ & _ & [_ H2] & [_ H3] & [_ H4]). specialize (H2 _ eq_refl). specialize (H3 _ eq_refl). specialize (H4 _ eq_refl).
  cbn in *. destruct (deadline ctx); unfold Config.BookkeepingTimeout, second in *; lia.
Qed.

Lemma claim_bounded d ctx l : 0 < DBTimeout d → obeys d ctx l → t_replied l ≤ t_sent l + DBTimeout d.
Proof.
  intros Hd ((H0 & H1) & [_ H] & _). unfold opCtx in H. rewrite (proj2 (Z.ltb_lt _ _)) in H by done.
  specialize (H _ eq_refl). cbn in H. destruct (deadline ctx); lia.
Qed.

(** The settings of an accepted configuration. *)
Lemma accepted_deps c : let cfg := Config.applyDefaults c in
  Config.validateLimits cfg = None → let d := serveDeps cfg in
  0 < PerObjectTimeout d ∧ PerObjectTimeout d + 2 * Config.BookkeepingTimeout + second ≤ StaleTTL d ∧
  Config.BookkeepingTimeout ≤ DBTimeout d ∧ 0 < PollEvery d ∧ 0 < Concurrency d ≤ 1024.
Proof.
  intros cfg Hv d. subst d. pose proof (Config.applyDefaults_pos c) as Hp. fold cfg in Hp. rewrite !list.Forall_cons in Hp.
  destruct Hp as (Hconc & _ & Hpot & _). pose proof (Config.validateLimits_ok _ Hpot Hv) as L.
  pose proof (Config.durations_exact c L) as HD. fold cfg in HD. unfold Config.durations in HD.
  rewrite !list.Forall_cons in HD. cbn [fst snd] in HD. cbn [serveDeps New PerObjectTimeout StaleTTL DBTimeout PollEvery Concurrency].
  destruct HD as ([-> _] & [-> _] & [-> [? _]] & _ & _ & _ & [-> _] & _). destruct L. unfold Config.BookkeepingTimeout, second in *. lia.
Qed.

(** C16: under an accepted configuration the reaper never takes a row from a worker
    that is still on it. Whenever the claim was answered within a second of taking
    effect, and every call heeds the context the code gives it, no sweep before the
    row is settled touches it, however long the object took and whether or not the
    service was being shut down. *)
Theorem live_claim_is_not_reaped c ctx l maxDeliveries now t id r :
  Config.validateLimits (Config.applyDefaults c) = None →
  let d := serveDeps (Config.applyDefaults c) in
  obeys d ctx l → t_replied l - t_claimed l ≤ second → now ≤ t_settled l →
  t !! id = Some r → Outbox.r_claimedAt r = Some (t_claimed l) →
  (Outbox.ReapStale maxDeliveries now (StaleTTL d) t).1 !! id = Some r.
Proof.
  intros Hv d Ho Hprompt Hnow Hr Hc. destruct (accepted_deps c Hv) as (Hp & Hs & _). fold d in Hp, Hs.
  clearbody d. pose proof (settling_time d ctx l ltac:(lia) Ho) as Ht. unfold Outbox.ReapStale. cbn [fst]. rewrite lookup_fmap, Hr. cbn.
  unfold Outbox.reap_row, Outbox.stale. rewrite Hc, (proj2 (Z.ltb_ge _ _)) by lia. by rewrite andb_false_r.
Qed.

(** ** A claim answered late *)

(** The configuration with the least [staleTTLSec] the check accepts for the default
    per-object timeout. *)
Definition tight : Config.Config :=
  let c := Config.sampleConfig in
  Config.MkC (Config.FileServiceBase c) (Config.AlkemioDB c) (Config.LedgerDB c) (Config.Targets c) 8 0 1800 1831 0 0 0 0 0 0 0 0 "".

(** The claim takes effect at once and is answered 25 seconds later; the object then
    takes all the time it has. *)
Definition late : timeline :=
  MkTL 0 0 (25 * second) (1825 * second) (1840 * second) (1855 * second).

Definition live : context := MkContext None None.

(** The lease does not count the claim's own answer, which [opCtx] bounds only by the
    database timeout: a row whose claim was answered late can be taken back while its
    worker, within every deadline, is still settling it. *)
Theorem late_claim_is_reaped :
  Config.validateLimits (Config.applyDefaults tight) = None ∧ obeys (serveDeps (Config.applyDefaults tight)) live late ∧
  let row := Outbox.claimed_row 0 (Outbox.ex_row Outbox.pending None None) in
  let now := 1841 * second in
  now < t_settled late ∧
  Outbox.r_status <$> (Outbox.ReapStale 5 now (StaleTTL (serveDeps (Config.applyDefaults tight))) {[1 := row]}).1 !! 1 = Some Outbox.pending.
Proof.
  split; [vm_compute; reflexivity|]. split; [|split; vm_compute; reflexivity].
  unfold obeys, over_by. split_and!; try (vm_compute; congruence); intros x Hx; vm_compute in Hx; injection Hx as <-; vm_compute; congruence.
Qed.

Lemma live_claim_is_not_reaped_witness :
  (Outbox.ReapStale 5 (1830 * second) (1831 * second) {[1 := Outbox.claimed_row 0 (Outbox.ex_row Outbox.pending None None)]}).1 !! 1
  = Some (Outbox.claimed_row 0 (Outbox.ex_row Outbox.pending None None)).
Proof.
  apply (live_claim_is_not_reaped tight live (MkTL 0 0 second (1801 * second) (1816 * second) (1831 * second)) 5 (1830 * second)).
  - vm_compute. reflexivity.
  - unfold obeys, over_by. split_and!; try (vm_compute; congruence); intros x Hx; vm_compute in Hx; injection Hx as <-; vm_compute; congruence.
  - vm_compute. congruence.
  - vm_compute. congruence.
  - vm_compute. reflexivity.
  - vm_compute. reflexivity.
Defined.
End Lease.
