(* ===== verification/Wiring.v ===== *)
(** * From the configuration to the pipeline

    [isolatedPipeline] of [src/cmd/file-backup-service/main.go], with [NewPipeline]
    and [WithIsolation] of [src/internal/domain/backup.go]: the pipeline a command
    runs, built from the targets [Commands.buildTargets] made of the configuration;
    and [wormErrReader], the reader around a write-only source.

    The theorem about records joins three components: what the configuration
    accepts, what the pipeline assembles, and what the ledger's schema requires. *)

From S2P Require Import Prelude GoText GoRuntime Ports Circuit Keyset Ledger Stream Fanout Pipeline Config S3Sink Env Commands.
From Stdlib Require Import ZArith Lia.
From Stdlib Require Import Strings.Ascii Strings.String.
From stdpp Require Import base gmap strings list numbers.

Import Ports.

Module Wiring.
Import Stream Commands.

Section wiring.
Context {client : Type} (minio_New : string → bool → string → string → string → client + err).
Context (store : Env.sink client → string → Fanout.sinkprog).  (* what each sink's Store does *)

Definition domainTarget (t : target (client := client)) : Fanout.Target :=
  Fanout.MkTarget (sinkName (tg_sink t)) (tg_codec t) (store (tg_sink t)).

(** The pipeline and its breaker. *)
Definition isolatedPipeline (cfg : Config.Config) (ts : list (target (client := client)))
    : Pipeline.Pipeline * Circuit.CircuitBreaker :=
  (Pipeline.MkPipeline (domainTarget <$> ts) (Config.FanoutStall cfg), Config.NewCircuitBreaker cfg).

Lemma BuildSink_name t s : Env.BuildSink minio_New t = inl s → sinkName s = Config.Name t.
Proof.
  unfold Env.BuildSink, Env.buildFilesystemSink, Env.buildS3Sink, S3Sink.New, S3Sink.newMinioClient.
  repeat (case_match; try done); intros; simplify_eq/=; done.
Qed.

Lemma buildTargets_names cfgs ts : buildTargets minio_New cfgs = inl ts → sinkName ∘ tg_sink <$> ts = Config.Name <$> cfgs.
Proof.
  revert ts. induction cfgs as [|t cfgs IH]; intros ts; cbn [buildTargets]; [by intros [= <-]|].
  destruct (Env.BuildSink minio_New t) as [s|] eqn:Hs; [|done]. destruct (Config.ParseCodec _); [|done].
  destruct (buildTargets minio_New cfgs) as [ts'|]; [|done]. intros [= <-].
  rewrite !fmap_cons, (IH ts' eq_refl). cbn. by rewrite (BuildSink_name _ _ Hs).
Qed.
End wiring.

(** The names of an accepted target set. *)
Lemma accepted_names cfg : Config.ValidateTargets cfg = None →
  NoDup (Config.Name <$> Config.Targets cfg) ∧
  Forall (λ n, String.length n ≤ 64) (Config.Name <$> Config.Targets cfg).
Proof.
  unfold Config.ValidateTargets, Config.CheckTargetCollisions. intros Hv.
  destruct (Config.Targets cfg) as [|t ts]; [done|]. destruct (Config.check_names _ _) eqn:Hc; [done|].
  apply Config.check_names_spec in Hc as [Hnd HF]. split; [by eapply Config.NoDup_fmap_compose|].
  apply Forall_fmap. eapply list.Forall_impl; [exact HF|]. by intros x (_ & ? & _).
Qed.

Section records.
Context `{Fanout.Zstd} {client : Type} (minio_New : string → bool → string → string → string → client + err).
Context (store : Env.sink client → string → Fanout.sinkprog).

(** C25: the pipeline of an accepted configuration only makes records the schema
    accepts: its target names are distinct, and every record it assembles for an
    object it did not refuse fits the widths, the state check and the key of the
    ledger's tables, so it is written and the tables stay well-formed; no object can
    be retried to the dead letters because of a constraint. *)
Theorem records_fit_the_schema cfg ts e v st (s s' : Pipeline.pstate (L := Ledger.db)) pending skipped cb results aborted
    sts hf al ms now verified d :
  validateAndBuildTargets minio_New cfg = inl ts →
  let p := (isolatedPipeline store cfg ts).1 in
  Pipeline.precheck p e = None →
  Pipeline.pendingTargets v st (Pipeline.Targets p) s = (pending, skipped, s') →
  Pipeline.classifyFanout cb pending results aborted = Some (sts, hf, al, ms) →
  Ledger.wf d →
  NoDup (Fanout.t_name <$> Pipeline.Targets p) ∧
  ∃ d', Ledger.RecordBackup now (Pipeline.mk_meta e verified) sts d = Keyset.Ok d' ∧ Ledger.wf d'.
Proof.
  intros Hb p Hpre Hpend Hcl Hwf. unfold validateAndBuildTargets in Hb.
  destruct (Config.ValidateTargets cfg) eqn:Hv; [done|]. apply accepted_names in Hv as [Hnd Hlen].
  assert (Fanout.t_name <$> Pipeline.Targets p = Config.Name <$> Config.Targets cfg) as Hnames.
  { rewrite <- (buildTargets_names minio_New _ _ Hb). unfold p, isolatedPipeline. cbn. by rewrite <- list_fmap_compose. }
  rewrite <- Hnames in Hnd, Hlen. split; [done|].
  apply Pipeline.pendingTargets_spec in Hpend as (_ & Hsub & _).
  apply Pipeline.classifyFanout_shape in Hcl as [Hsts Hstate].
  assert (Target <$> sts `sublist_of` Fanout.t_name <$> Pipeline.Targets p) as Hall
    by (etrans; [exact Hsts|by apply fmap_sublist]).
  assert (Ledger.well_typed (Pipeline.mk_meta e verified) sts = true) as Hw.
  { apply Ledger.well_typed_intro; [|by eapply sublist_NoDup|by eapply sublist_Forall|done].
    unfold Pipeline.precheck in Hpre. destruct (ValidateContentHash (ExternalID e)) eqn:Hh; [done|].
    apply ValidateContentHash_None in Hh as [Hh _]. cbn. rewrite Hh. lia. }
  eexists. assert (Ledger.RecordBackup now (Pipeline.mk_meta e verified) sts d = Keyset.Ok _) as Hr
    by (unfold Ledger.RecordBackup; rewrite Hw; reflexivity).
  split; [exact Hr|by eapply Ledger.RecordBackup_wf].
Qed.
End records.
Definition ex_store (_ : Env.sink unit) (_ : string) : Fanout.sinkprog := Fanout.copy_sink 9 4 [].
Definition ex_minio (_ : string) (_ : bool) (_ _ _ : string) : unit + err := inl ().
Definition ex_targets : list (target (client := unit)) :=
  [MkTgt (Env.Filesystem "s3-eu" "/backup") Fanout.CodecZstd false; MkTgt (Env.Filesystem "nas" "/backup") Fanout.CodecZstd false].
Definition ex_results : list Fanout.targetResult := [Fanout.MkRes 5 None true; Fanout.MkRes 0 (Some (Msg "down")) false].

#[local] Existing Instance Pipeline.ex_zstd.

Lemma records_fit_the_schema_witness :
  ∃ d', Ledger.RecordBackup 9 (Pipeline.mk_meta Pipeline.ex_item 5)
          [MkStatus "s3-eu" StateStored 5; MkStatus "nas" StateFailed 0] Ledger.empty_db = Keyset.Ok d' ∧ Ledger.wf d'.
Proof.
  refine (proj2 (records_fit_the_schema ex_minio ex_store Config.sampleConfig ex_targets Pipeline.ex_item
    (Pipeline.ex_env Pipeline.ex_src false) ∅ (Pipeline.MkP Ledger.empty_db None []) (Pipeline.MkP Ledger.empty_db None [])
    (domainTarget ex_store <$> ex_targets) false None ex_results false
    [MkStatus "s3-eu" StateStored 5; MkStatus "nas" StateFailed 0] true false _ 9 5 Ledger.empty_db _ _ _ _ _)).
  - vm_compute. reflexivity.
  - vm_compute. reflexivity.
  - reflexivity.
  - reflexivity.
  - apply Ledger.empty_db_wf.
Defined.

(** ** The write-only source *)

(** Wrapping the reader is wrapping each of its reads: the bytes and the end of the
    stream pass through, and an error keeps what it is. *)
Lemma wormErrReader_read k r :
  read k (wormErrReader r) = (let '(r', x) := wormErrRead k r in (wormErrReader r', x)).
Proof.
  unfold wormErrReader, wormErrRead. destruct r as [|[bs e|x|e] r]; cbn [fmap list_fmap read]; [done| |done..].
  destruct e as [e|]; cbn [read]; by destruct (length bs <=? k).
Qed.

Lemma wormErrReader_content r : content (wormErrReader r) = content r.
Proof.
  induction r as [|[bs e|x|e] r IH]; cbn in *; [done|destruct e; cbn; by rewrite <- IH|done..].
Qed.

Lemma annotate_Is e s : Is (annotate e) s = Is e s.
Proof. apply Is_Wrap1. Qed.
End Wiring.
