(* ===== verification/Assembly.v ===== *)
(** * What [serve] and [backfill] are assembled from

    The constructors of the parts and the way [serveCtx] and [runBackfill]
    ([src/cmd/file-backup-service/main.go]) connect them: [TargetNames]
    ([src/internal/domain/backup.go]), [NewSampler] ([sampler.go]),
    [NewImmutabilitySampler] ([immutability.go]), [NewBackfiller] ([backfill.go]),
    [consumer.New] (Lease.v), the pipeline (Wiring.v), and [NewPool]
    ([src/internal/adapter/outbound/db/db.go]) over pgxpool's two calls, which are
    arguments. *)

From S2P Require Import Prelude GoText GoRuntime Ports Circuit Keyset Ledger Stream Fanout Pipeline Sweep Config S3Sink Env Dsn Trace Commands.
From S2P Require Import Lease Wiring Service Surface Metrics.
From Stdlib Require Import ZArith Lia.
From Stdlib Require Import Strings.Ascii Strings.String.
From stdpp Require Import base gmap strings list numbers.

Module Assembly.
Import Trace Commands Wiring Sweep(second, NormalizePerObjectTimeout).

(** ** Pools *)

(** What [NewPool] sets of a pgxpool configuration; [conn] is the rest of it. *)
Record poolConfig {conn : Type} := MkPoolConfig { MaxConns : Z; RuntimeParams : gmap string string; ConnConfig : conn }.
Arguments poolConfig : clear implicits.

Section pools.
Context {conn pool : Type} (ParseConfig : string → poolConfig conn + err) (NewWithConfig : poolConfig conn → pool + err).

Definition configurePool (maxConns statementTimeout : Z) (cfg : poolConfig conn) : poolConfig conn :=
  MkPoolConfig _ (if (0 <? maxConns)%Z then maxConns else MaxConns cfg)
    (if (0 <? statementTimeout)%Z
     then <["statement_timeout" := GoText.Itoa (Z.quot statementTimeout 1000000)]> (RuntimeParams cfg) else RuntimeParams cfg)
    (ConnConfig cfg).

Definition NewPool (dsn : string) (maxConns statementTimeout : Z) : pool + err :=
  match ParseConfig dsn with
  | inr e => inr (Wrap "parse dsn" [e])
  | inl cfg => wrapS "pgxpool open" (NewWithConfig (configurePool maxConns statementTimeout cfg))
  end.

(** Under accepted limits a pool is asked for exactly [concurrency + headroom]
    connections and the server told to end a statement after exactly [dbTimeoutSec];
    whatever else the connection string set is kept. *)
Theorem pool_settings_exact c h dsn parsed : let cfg := Config.applyDefaults c in
  Config.validateLimits cfg = None → (0 ≤ h < 2 ^ 30)%Z → ParseConfig dsn = inl parsed →
  NewPool dsn (Config.PoolSize cfg h) (Config.DBTimeout cfg) =
  wrapS "pgxpool open" (NewWithConfig
    (MkPoolConfig _ (Config.Concurrency cfg + h)
       (<["statement_timeout" := GoText.Itoa (Config.DBTimeoutSec cfg * 1000)]> (RuntimeParams parsed)) (ConnConfig parsed))).
Proof.
  intros cfg Hv Hh Hp. unfold NewPool. rewrite Hp. destruct (Config.validated_limits_are_safe c h Hv Hh) as (HD & _ & _ & _ & _ & _ & Hs & Hpos).
  fold cfg in HD, Hs, Hpos. unfold configurePool. rewrite Hs in Hpos |- *. rewrite (proj2 (Z.ltb_lt 0 _)) by lia.
  unfold Config.durations in HD. rewrite !list.Forall_cons in HD. cbn [fst snd] in HD. destruct HD as (_ & _ & _ & _ & _ & _ & [Hd [Hd' _]] & _).
  rewrite (proj2 (Z.ltb_lt 0 _)) by done. do 4 f_equal. rewrite Hd. unfold second.
  replace (Config.DBTimeoutSec cfg * 1000000000)%Z with (Config.DBTimeoutSec cfg * 1000 * 1000000)%Z by lia.
  by rewrite Z.quot_mul.
Qed.
End pools.

(** ** Parts *)

Section parts.
Context {client : Type} (minio_New : string → bool → string → string → string → client + err).
Context (store : Env.sink client → string → Fanout.sinkprog).

Abbreviation target := (target (client := client)).

Definition TargetNames (ts : list target) : list string := sinkName ∘ tg_sink <$> ts.

Record Sampler := MkSampler { s_targets : list string; s_circuit : option Circuit.CircuitBreaker }.
Definition NewSampler (ts : list target) (cb : option Circuit.CircuitBreaker) : Sampler := MkSampler (TargetNames ts) cb.

Record ImmutabilitySampler := MkImm { is_targets : list target }.
Definition NewImmutabilitySampler (ts : list target) : ImmutabilitySampler := MkImm ts.

Record Backfiller := MkBackfiller { b_pipeline : Pipeline.Pipeline; b_perObject : Z; b_concurrency : Z }.
Definition NewBackfiller (p : Pipeline.Pipeline) (perObjectTimeout concurrency : Z) : Backfiller :=
  MkBackfiller p (NormalizePerObjectTimeout perObjectTimeout) concurrency.

(** What [serveCtx] runs once it is ready. *)
Record served := MkServed {
  v_pipeline : Pipeline.Pipeline; v_consumer : Lease.Deps; v_sampler : Sampler; v_immutability : ImmutabilitySampler;
}.

Definition serveParts (cfg : Config.Config) (ts : list target) : served :=
  let '(p, breaker) := isolatedPipeline store cfg ts in
  MkServed p (Lease.serveDeps cfg) (NewSampler ts (Some breaker)) (NewImmutabilitySampler ts).

(** What [runBackfill] runs. *)
Definition backfillParts (cfg : Config.Config) (ts : list target) : Backfiller :=
  NewBackfiller (isolatedPipeline store cfg ts).1 (Config.PerObjectTimeout cfg) (Config.Concurrency cfg).

(** The parts of a worker agree with one another and with the configuration: the
    coverage gauges ask about exactly the targets the pipeline writes to, which are
    the configured ones in their order and without repetition; the targets-down gauge
    reads a breaker that starts closed and trips before an object can be
    dead-lettered; and a backfill runs the same pipeline with the same bounds. *)
Theorem parts_agree c ts : let cfg := Config.applyDefaults c in
  Config.validateLimits cfg = None → Config.ValidateTargets cfg = None → buildTargets minio_New (Config.Targets cfg) = inl ts →
  let v := serveParts cfg ts in
  s_targets (v_sampler v) = Fanout.t_name <$> Pipeline.Targets (v_pipeline v) ∧
  s_targets (v_sampler v) = Config.Name <$> Config.Targets cfg ∧ NoDup (s_targets (v_sampler v)) ∧
  TargetNames (is_targets (v_immutability v)) = s_targets (v_sampler v) ∧
  (∃ cb, s_circuit (v_sampler v) = Some cb ∧ Circuit.wf cb ∧ (Circuit.threshold cb < Config.MaxAttempts cfg)%Z) ∧
  b_pipeline (backfillParts cfg ts) = v_pipeline v ∧
  b_perObject (backfillParts cfg ts) = Lease.PerObjectTimeout (v_consumer v) ∧
  b_concurrency (backfillParts cfg ts) = Lease.Concurrency (v_consumer v).
Proof.
  intros cfg Hv Ht Hb v. destruct (Config.validated_limits_are_safe c 0 Hv ltac:(lia)) as (HD & Hwf & Hthr & _). fold cfg in HD, Hwf, Hthr.
  pose proof (buildTargets_names minio_New _ _ Hb) as Hn. destruct (accepted_names _ Ht) as [Hnd _].
  subst v. unfold serveParts, isolatedPipeline. cbn. unfold TargetNames. split_and!; try done.
  - rewrite <- list_fmap_compose. done.
  - by rewrite Hn.
  - eexists. split; [done|]. split; [exact Hwf|apply Hthr].
  - unfold NormalizePerObjectTimeout. unfold Config.durations in HD. rewrite !list.Forall_cons in HD. cbn [fst snd] in HD.
    destruct HD as ((_ & Hp & _) & _). by rewrite (proj2 (Z.leb_gt _ _)).
Qed.
End parts.

(** ** The HTTP surface *)

Section http.
Context `{Surface.ChiLaws} (HandlerFor : Metrics.Metrics → attempt Surface.response).

(** [Metrics.Handler] over the state of the metrics at each request; what promhttp
    makes of a registry is an argument. *)
Definition Handler (mx : nat → Metrics.Metrics) : Surface.handler := λ k, HandlerFor (mx k).

(** The [httpapi.Deps] of [serveCtx]. *)
Definition httpDeps (outbox ledger : nat → attempt goerr) (order : nat → list nat) (mx : nat → Metrics.Metrics) : Surface.Deps :=
  Surface.MkDeps (Some (Surface.MkHealth (Some outbox) (Some ledger) order)) (Some (Handler mx)).

(** A scrape of the worker gets the metrics as they are at that request, on the path
    the alerts scrape; liveness answers beside it whatever the exposition does. *)
Theorem scrape_is_current outbox ledger order mx k :
  Surface.serve (Surface.NewRouter (httpDeps outbox ledger order mx)) "GET" "/metrics" k = Returns (Surface.recovered (HandlerFor (mx k))) ∧
  Surface.serve (Surface.NewRouter (httpDeps outbox ledger order mx)) "GET" "/live" k =
    Returns (Surface.writeJSON 200 (Surface.LiveResponse "alive")).
Proof.
  split.
  - unfold Surface.NewRouter, httpDeps. cbn [Surface.Health Surface.Metrics]. rewrite Surface.serve_get; [done|].
    apply Surface.recovering_get, Surface.recovering_get, Surface.recovering_use.
  - apply Surface.surface_is_exact.
Qed.
End http.
End Assembly.
